(* ===== verification/_CoqProject ===== *)
-Q . S2P
Prelude.v
Count.v
Status.v
Cq.v
Executor.v
Buf.v
BytesBuf.v
Refs.v
Utf8.v
Metadata.v
Task.v
Call.v
CallSpec.v
ClientCall.v
ServerCall.v
Frame.v
ClientSpec.v
Client.v
Address.v
Server.v
ServerSpec.v
EndToEnd.v
Memory.v
Security.v
ServerBuild.v
Support.v
Env.v
Channel.v
Lifetime.v
Tags.v
Layout.v
Bindings.v
MetaMem.v
Deadline.v
Health.v
Wire.v
SliceMem.v
HealthProto.v
HealthRpc.v
ProtoUtil.v
Process.v
Interop.v
BenchUtil.v
Benchmark.v
Text.v
HealthDescriptor.v
Xtask.v
Build.v
Names.v
Codegen.v
ProstCodegen.v
Generated.v
HealthGenerated.v
