(* ===== verification/Prelude.v ===== *)
(** * grpc-rs: a verification library

    grpc-rs is a gRPC library for Rust over the C core.  This library models its Rust
    code as Rocq definitions and proves what makes it correct.  Paths below are those of
    the repository (under src/); functions keep their names.

    ** The program

    A program creates an _environment_ (src/env.rs): a number of threads, each polling one
    _completion queue_ (src/cq.rs) of the core.  The library hands _batches_ of operations
    to the core with a boxed _tag_ (src/task/); when the core completes one, the poll
    thread of the queue gets the tag back and resolves the _future_ that shares a lock
    with it, or polls a spawned future (src/task/executor.rs), or dispatches a request.
    On top are _calls_ with their sinks and streams (src/call/mod.rs), the client side of a
    call (src/call/client.rs, src/client.rs) on a _channel_ (src/channel.rs), and the server
    side (src/call/server.rs) under a _server_ (src/server.rs) that keeps request slots in
    the core.  Messages are slices and buffers of the core (src/buf.rs, src/codec.rs),
    headers are metadata (src/metadata.rs), failures are errors and statuses
    (src/error.rs, src/call/mod.rs).  Connections are secured by credentials
    (src/security, src/auth_context.rs).  Beside the library are a health service
    (health/src) with its generated protocol code, two generators of client and server code
    (compiler/src), helpers for test protocols (proto/src), programs that use the library
    from both sides (interop/src, benchmark/src), the script that builds the core
    (grpc-sys/build.rs) and the maintenance tasks (xtask/src).

    ** The files

    - Prelude: results, polls, panics as the type [outcome], the state monad [M] with its
      notation, partial and total correctness of methods ([hoare], [preserves], [wp]),
      machine integers, bytes, tactics, transition systems.
    - Count: how often a token occurs, what the objects of a heap hold, with the tactics
      that balance the two; the basis of Lifetime, Tags and MetaMem.
    - Status: status codes, [RpcStatus], write flags, the [Error] type (src/error.rs and
      the data part of src/call/mod.rs).
    - Cq: [CompletionQueueHandle] with [add_ref], [unref] and [shutdown] as
      compare-and-swap loops of any number of threads, the contract [Spec] they refine,
      and [WorkQueue] (src/cq.rs).
    - Executor: [SpawnTask] and its wakes and polls, step by step (src/task/executor.rs).
    - Buf: slices, byte buffers, the message reader, the codecs (src/buf.rs, src/codec.rs);
      the core's slice functions are the class [SliceCore] with the laws [SliceCoreLaws],
      and [list_core] is an instance.  BytesBuf: the reader as a [bytes::Buf], the class
      [BytesBuf] with the laws [BytesBufLaws].
    - Refs: who keeps the memory of slices, buffers and readers: reference counts,
      destructors and ownership (src/buf.rs); the counting functions of the core are the
      class [CountingCore] with the laws [CountingCoreLaws], and [counting_core] is an
      instance.
    - Utf8: the part of UTF-8 the library relies on.
    - Metadata: the builder, the array and its iterator (src/metadata.rs with the array
      functions of grpc-sys/grpc_wrap.cc).
    - Task: notify handles, futures, promises, batch contexts (src/task/mod.rs,
      src/task/promise.rs, [BatchContext] of src/call/mod.rs), and the [World] the call
      layer runs in.
    - Call: [Call], [ShareCall], [StreamingBase], [SinkBase] (src/call/mod.rs), the
      invariants of streams and sinks and the abstract sink they refine; CallSpec: their
      properties.
    - ClientCall, ClientSpec, Client: src/call/client.rs, the calls of src/channel.rs it
      uses, src/client.rs.
    - ServerCall, Server, ServerSpec: src/call/server.rs, the services and requests of
      src/server.rs, src/task/callback.rs and the tags of src/task/mod.rs.
    - Frame: which methods of the call layer leave which parts of the world alone.
    - EndToEnd: both sides of a call composed.  The batches one side hands to the core are
      what the other side is delivered ([transported], [carried]); a codec is a
      [Marshaller] with [MarshallerLaws], and both sinks are instances of [GuardedSink].
    - Memory: a heap with vectors and C strings that remembers what freed blocks held;
      Security: src/security/credentials.rs on it.
    - Address: [join_host_port] with the address literals of the standard library.
    - ServerBuild: binders, [ServerBuilder], [ServerCore] and [Server] of src/server.rs,
      and the life of a built server as a step relation.
    - Support: modules [Log] (src/log_util.rs), [Quota] (src/quota.rs), [Auth]
      (src/auth_context.rs).
    - Env: src/env.rs.  Channel: the rest of src/channel.rs.
    - Lifetime: the counts of the [Arc]s that environment, poll threads, channels and calls
      share, and what ends when one reaches zero (src/env.rs, src/cq.rs, src/channel.rs).
    - Tags: boxed tags, native contexts, calls and spawned tasks on a heap, from starting an
      operation to its event (src/task, src/call, src/server.rs, src/env.rs).
    - Layout: sizes, alignments and offsets of C types, loads and stores in an object.
      Bindings: the types, constants and wrapper functions of grpc-sys/bindings, and the
      definitions of grpc-sys/grpc_wrap.cc they stand for.
    - MetaMem: metadata arrays with their slices, messages and batch contexts on a heap
      (src/metadata.rs, src/call, grpc-sys/grpc_wrap.cc).  The sizes of arrays are computed
      at the width of [size_t], with the size of an entry from Layout and Bindings.
    - Deadline: deadlines and the other facts the core keeps of a request
      (src/call/server.rs, grpc-sys/src/grpc_wrap.rs).
    - Health: health/src/service.rs.
    - Wire: the protobuf wire format, and the runtime library of the generated messages as
      the class [ProtobufRuntime] with the laws [RuntimeLaws]; [list_runtime] is an instance.
      SliceMem: slices as the bytes of the native struct, on Layout and Bindings.
      HealthProto: the messages of health/src/proto/protobuf/health.rs.  HealthRpc: the
      client and service of health_grpc.rs on the call layer, with the check handler of
      health/src/service.rs.  HealthDescriptor: the description embedded in health.rs.
    - ProtoUtil: proto/src/util.rs and the accessors of proto/src/lib.rs.
    - Process: two programs at the ends of a call as machines, their steps and all their
      interleavings.  It stands for the transport and translates no code; a server that
      sleeps does so for longer than the deadline of the call, and a status that is not OK
      may overtake messages not yet read.  Interop: interop/src on it.  BenchUtil: benchmark/src/util.rs and the
      loads of benchmark/src/client.rs, with the numbers [f64] as the class [Float64];
      Benchmark: the services, executors and workers of benchmark/src.
    - Text: what the tools use of [str].  Xtask: xtask/src/main.rs.  Build:
      grpc-sys/build.rs.
    - Names, Codegen: compiler/src/util.rs, compiler/src/codegen.rs; ProstCodegen:
      compiler/src/prost_codegen.rs; Generated: a reader of the text that the generators
      write, which runs its lines on the registry of Server; HealthGenerated: the
      generators run on the health protocol.

    ** How state and concurrency are modelled

    Code that is one atomic access after another ([Cq], [Executor], the casts of [Health])
    is a program counter per thread and a step relation; the theorems hold in every
    reachable state, so for every interleaving and every spurious failure of a weak
    compare-and-swap.  Atomics are sequentially consistent.  Programs over a whole call
    ([Interop], [Benchmark]) are two machines and the messages between them, one operation
    of a stream or sink at a time; [always] says that all their runs end within a bound.

    The call layer takes locks, so there a method is a function in the monad [M] over a
    [World]: the heap of notify handles (a future and its promise share an address), the
    tags the core holds, the queue, and what the core was asked and has completed.  Before
    each place where a lock is taken or the queue is borrowed, [interfere] plays the next
    entry of the schedule of the world: any finite list of completions and shutdowns by
    other threads.  Theorems quantify over the schedule.  A predicate no event can falsify
    is an instance of [Stable].  What the library needs of the core is the law [CallCore]:
    a batch that repeats no operation of its call that may run once, and none still
    running, is accepted.

    Mutated objects are passed and returned.  A panic is [Panicked] with its message, so a
    theorem that a method returns [Done] also says that it does not panic.  Integers are
    [Z] with their width written out where they can overflow; lengths of objects in
    memory are [nat].  The functions of the core, of the protobuf and prost crates, the
    allocator, the clock and the order of a hash map are parameters with named hypotheses;
    each group of laws has an instance.  The reference count of a native server and the
    blocks of the heap are explicit, since when they end is what is to be shown.

    ** What the theorems show

    - Queues: the native queue is shut down once, after the last reference and only when
      asked, and no borrow succeeds later; the loops refine their contract, terminate when
      run alone and do not overflow; the work queue is a stack of its thread.
    - Executor: no interleaving of wakes and polls reaches a panic or polls a future twice
      at once; while the queue is open, a task that was woken is polled again in every run
      in which whoever is to poll it moves again and again; a completed task stays completed.
    - Messages: reading returns the bytes of the message once and in order whatever the
      slices are; serializers write the encoding; metadata accepts exactly the valid keys
      and values, and iteration, lookup and clone agree; memory of slices is released once,
      with the size it was allocated with, and never used after, whatever the order of the
      operations of a program; the reader keeps the contract of [bytes::Buf] on messages
      without empty slices; what a slice
      does with the bytes of the native struct is what is said of slices.
    - Memory given to the core: under any program and any order of events, as long as the
      core accepts what is started and the sizes of metadata arrays fit [size_t], tags,
      contexts, calls, tasks, metadata and messages are used while they are there, freed
      once as what they are, and nothing is left at the end; the core has exactly the boxed
      tags.
    - Bindings: parts of shared objects are aligned, within the object and independent; the
      declared functions and contexts of the wrapper are the defined ones; the codes and
      keys that the library writes down are the declared ones.
    - Calls: a sink used as asked hands the accepted messages to the core once and in
      order, and holds one back as its buffer strategy says; a stream returns what was
      delivered once and in order, and when it fails at most one message that was read is
      not returned; a status sent arrives with code, message and details;
      batches start before the native shutdown or fail.
    - Client: the results of unary calls, response streams in order and what ends them,
      sinks that refuse messages after the end of the call.
    - Server: the number of request slots is kept; checkers run in order; unknown methods
      are answered; unary responses are one batch; [build] succeeds exactly when it should and
      releases credentials once; the native server is destroyed once, when nothing refers to
      it any more, after its shutdown was asked for, and after that shutdown ended unless
      the program dropped the server during a shutdown of its own; the
      address of a listener denotes its host.
    - Both sides: messages sent by a client or server sink are decoded by the other side
      in order and once, under every interleaving; a unary call returns what the service
      function answers, and the server answers unless its queue is shut down; statuses with
      details arrive as they were sent.
    - Credentials: the builders free each string once and leave no byte of a private key
      in freed memory, for keys as the code expects them.
    - Deadlines: the deadline of a duration is the current time plus the duration.
    - Environment: the poll loop serves the completions in order with all work they
      cause, picks are balanced, dropping shuts every queue down; native channels and queues
      end once, in order, and never while a value refers to them; a queue that the program
      shuts down itself refuses the calls that follow.
    - Channel: options do not disturb each other and arrive exactly in the arguments of
      the core, with the types it documents; waiting for the connection ends as the core
      reports.
    - Health: no status update is lost to a subscriber under any interleaving, and the
      service reports the last status set; its messages survive the wire with unknown
      fields, reading them means what the fields mean and always ends; a check over a call,
      from the generated client to the generated service and back, reports that status.
    - Names and generated code: snake case is stable and loses nothing; every method is
      defined, offered and registered once with its path and kind; both generators write the
      same constants, registrations and client calls; the text of a generated service, read
      and run, registers each method at its path with its kind and handler; for the health
      protocol both generators produce exactly the code in the repository.
    - Programs: every interoperability test passes in every interleaving of client and
      server; histograms count their values; a benchmark worker answers each request of its
      driver once and in order, and the ping-pong executor makes its rounds.
    - Tools: the build depends on nothing but the variables it reads, and finds the
      libraries of the cache; filtered texts keep exactly the other lines.

    Theorems beside the numbered ones show where the code does not do what it means to:
    a sink that panics when its strategy is switched, a close that drops a message, calls
    of the core that a shutdown can overtake, an empty slice that stalls a reader, a race
    of health updates, durations that wrap, keys left in freed memory,
    tags freed with a wrong layout when the core refuses a batch, metadata arrays whose size
    overflows, a server destroyed during a shutdown nobody waited for, an embedded
    description that cannot be parsed and the fix that broke it, processor times that run
    back, variables of the build that are not watched, and others; each says so in its
    comment.

    ** Fuel

    Recursion that is not structural takes fuel.  [poll_msgs] and [response_loop] recurse
    at most once, so 2 is enough ([poll_msgs_spec], [response_loop_spec]); [consume] needs
    more than the slices left and [read_to_end] more than slices and bytes together (shown
    with their properties); the words of a name are at most its characters
    ([words_of_spec]); the poll loop returns for all fuel above a bound that exists when
    the work items keep a potential ([poll_queue_serves]).  Reading a health message takes
    as much fuel as there are bytes, since each field takes at least one
    ([health_merge_total]); the loop of [consume] in Refs as much as there are slices left;
    [always] bounds the steps of two programs: 32 for an interoperability test, which are
    explored, and a number given by the rounds for the benchmarks, which is proved.

    ** What is not modelled

    The core itself and the declarations of its functions in the bindings, which have no
    counterpart in the repository to compare with; the
    messages generated at build time, the derives of the prost messages, the reflection
    accessors of the health messages; the examples and the tests; the mains of the interop
    and benchmark programs (arguments, logging, connecting), and timers and threads of the
    benchmarks.  The protoc process, temporary files and prost-build are parameters of
    [compile_protos], and so are cmake, the compiler and the files of the build script; the
    plugin library that runs the protobuf generator is not described.  The
    descriptors of the generators are records of the fields used.  The standard library is
    written out as far as the code depends on it: C strings and vectors, address literals,
    UTF-8, durations, text.  Weak memory: the relaxed
    accesses of the health service and the executor are taken as sequentially consistent.
    Memory safety of the unsafe blocks is stated for credentials, slices, buffers, readers,
    metadata, messages, contexts, tags, calls and tasks, each group on a heap of its own, and
    elsewhere not beyond the order of calls of the core. *)

From stdpp Require Export base tactics numbers list option gmap strings relations.
From Stdlib Require Export Strings.Byte.

Declare Scope rust_scope.
Delimit Scope rust_scope with rust.

(** ** Results, polls and panics *)

(** [std::result::Result], with the error first as in a sum. *)
Inductive Result (E T : Type) : Type :=
| Ok (t : T)
| Err (e : E).
Arguments Ok {E T} t.
Arguments Err {E T} e.

(** [std::task::Poll]. *)
Inductive Poll (T : Type) : Type :=
| Ready (t : T)
| Pending.
Arguments Ready {T} t.
Arguments Pending {T}.

(** A computation that may panic ([assert!], [unwrap], [panic!], an out of
    range index, an arithmetic overflow in a checked build). *)
Inductive outcome (A : Type) : Type :=
| Done (a : A)
| Panicked (msg : string).
Arguments Done {A} a.
Arguments Panicked {A} msg.

(** State passing over a store [S], with panics. *)
Definition M (S A : Type) : Type := S -> outcome (A * S).

Definition ret {S A : Type} (a : A) : M S A := fun s => Done (a, s).

Definition bind {S A B : Type} (c : M S A) (k : A -> M S B) : M S B := fun s =>
  match c s with
  | Done (a, s') => k a s'
  | Panicked m => Panicked m
  end.

Definition panic {S A : Type} (m : string) : M S A := fun _ => Panicked m.

Definition gets {S A : Type} (f : S -> A) : M S A := fun s => Done (f s, s).

Definition modify {S : Type} (f : S -> S) : M S unit := fun s => Done (tt, f s).

Definition obind {A B : Type} (c : outcome A) (k : A -> outcome B) : outcome B :=
  match c with
  | Done a => k a
  | Panicked m => Panicked m
  end.

Notation "'let*' p ':=' c 'in' k" := (bind c (fun p => k))
  (at level 10, p as pattern, c at level 100, k at level 200) : rust_scope.
Notation "'do*' c 'in' k" := (bind c (fun _ => k))
  (at level 10, c at level 100, k at level 200) : rust_scope.
Notation "'let+' p ':=' c 'in' k" := (obind c (fun p => k))
  (at level 10, p as pattern, c at level 100, k at level 200) : rust_scope.

(** [assert!(b)]. *)
Definition rassert {S : Type} (b : bool) (m : string) : M S unit :=
  if b then ret tt else panic m.

(** [Option::unwrap]. *)
Definition unwrap {S A : Type} (o : option A) (m : string) : M S A :=
  match o with
  | Some a => ret a
  | None => panic m
  end.

(** ** Machine integers *)

Definition U32 : Z := 2 ^ 32.
Definition U64 : Z := 2 ^ 64.
Definition I32_MAX : Z := 2 ^ 31 - 1.
Definition I32_MIN : Z := - 2 ^ 31.
Definition ISIZE_MAX : Z := 2 ^ 63 - 1.
Definition ISIZE_MIN : Z := - 2 ^ 63.

(** [x as iN]: two's complement truncation to [w] bits. *)
Definition wrap_signed (w : Z) (x : Z) : Z := (x + 2 ^ (w - 1)) `mod` 2 ^ w - 2 ^ (w - 1).

(** Unsigned arithmetic of a build with ([true]) or without overflow checks. *)
Definition checked_u (checks : bool) (modulus x : Z) : outcome Z :=
  if checks
  then if bool_decide (0 <= x < modulus)%Z then Done x
       else Panicked "attempt to compute with overflow"
  else Done (x `mod` modulus)%Z.

(** ** Bytes *)

#[export] Instance byte_eq_dec : EqDecision byte := Byte.byte_eq_dec.

#[export] Program Instance byte_countable : Countable byte :=
  {| encode b := encode (Byte.to_N b);
     decode p := n ← decode p; Byte.of_N n |}.
Next Obligation. intros b. cbn. rewrite decode_encode. apply Byte.of_to_N. Qed.

(** [str::as_bytes]. *)
Definition as_bytes (s : string) : list byte := String.list_byte_of_string s.

(** ** Tactics *)

(** Splits the first [match] or [if] found in the goal or a hypothesis. *)
Ltac split_match :=
  match goal with
  | |- context [match ?x with _ => _ end] => destruct x eqn:?
  | H : context [match ?x with _ => _ end] |- _ => destruct x eqn:?
  end.

(** Runs a monadic program symbolically: unfolds the combinators. *)
Ltac run_unfold :=
  unfold bind, ret, panic, gets, modify, rassert, unwrap, obind in *; cbn in *.

Create HintDb rust.
Create Rewrite HintDb rust_rw.

(** ** Monad laws used by the proofs *)

Section monad_laws.
Context {S : Type}.

Lemma bind_ret_l {A B} (a : A) (k : A -> M S B) s : bind (ret a) k s = k a s.
Proof. done. Qed.

Lemma bind_assoc {A B C} (c : M S A) (f : A -> M S B) (g : B -> M S C) s :
  bind (bind c f) g s = bind c (fun a => bind (f a) g) s.
Proof. unfold bind. by destruct (c s) as [[a s']|m]. Qed.

Lemma bind_Done {A B} (c : M S A) (k : A -> M S B) s b s' :
  bind c k s = Done (b, s') <-> exists a s1, c s = Done (a, s1) /\ k a s1 = Done (b, s').
Proof.
  unfold bind. split.
  - destruct (c s) as [[a s1]|m]; [eauto | done].
  - intros (a & s1 & -> & Hk). done.
Qed.

Lemma bind_Panicked {A B} (c : M S A) (k : A -> M S B) s m :
  bind c k s = Panicked m <->
  c s = Panicked m \/ exists a s1, c s = Done (a, s1) /\ k a s1 = Panicked m.
Proof.
  unfold bind. split.
  - destruct (c s) as [[a s1]|m']; intros H; [right; eauto | left; by simplify_eq].
  - intros [H | (a & s1 & H & Hk)]; rewrite H; done.
Qed.

(** What holds of a computed result holds of the result. *)
Lemma Done_elim {A} (c : outcome A) a (P : A -> Prop) :
  c = Done a -> match c with Done x => P x | Panicked _ => False end -> P a.
Proof. by intros ->. Qed.
End monad_laws.

(** ** A program logic for the monad

    [hoare P c Q]: run from a state where [P] holds, [c] panics or returns a value and a
    state for which [Q] holds. *)

Definition hoare {S A : Type} (P : S -> Prop) (c : M S A) (Q : A -> S -> Prop) : Prop :=
  forall s a s', P s -> c s = Done (a, s') -> Q a s'.

(** [c] never makes [P] false. *)
Definition preserves {S A : Type} (P : S -> Prop) (c : M S A) : Prop := hoare P c (fun _ => P).

Section hoare_rules.
Context {S : Type}.
Implicit Types P : S -> Prop.

Lemma hoare_bind {A B} P (c : M S A) (k : A -> M S B) Q R :
  hoare P c Q -> (forall a, hoare (Q a) (k a) R) -> hoare P (bind c k) R.
Proof.
  intros Hc Hk s b s' HP (a & s1 & E1 & E2)%bind_Done. eapply Hk; [|exact E2]. by eapply Hc.
Qed.

Lemma hoare_ret {A} P (a : A) (Q : A -> S -> Prop) : (forall s, P s -> Q a s) -> hoare P (ret a) Q.
Proof. intros H s a' s' HP [= <- <-]. auto. Qed.

Lemma hoare_weaken {A} P P' (c : M S A) (Q Q' : A -> S -> Prop) :
  hoare P' c Q' -> (forall s, P s -> P' s) -> (forall a s, Q' a s -> Q a s) -> hoare P c Q.
Proof. intros H H1 H2 s a s' HP E. eauto. Qed.

Lemma preserves_bind {A B} P (c : M S A) (k : A -> M S B) :
  preserves P c -> (forall a, preserves P (k a)) -> preserves P (bind c k).
Proof. apply hoare_bind. Qed.

Lemma preserves_ret {A} P (a : A) : preserves P (ret a).
Proof. by apply hoare_ret. Qed.

Lemma preserves_gets {A} P (f : S -> A) : preserves P (gets f).
Proof. by intros s a s' HP [= <- <-]. Qed.

Lemma preserves_panic {A} P m : preserves P (panic m : M S A).
Proof. by intros s a s' HP ?. Qed.

Lemma preserves_unwrap {A} P (o : option A) m : preserves P (unwrap o m).
Proof. destruct o; [apply preserves_ret | apply preserves_panic]. Qed.

Lemma preserves_rassert P b m : preserves P (rassert b m).
Proof. destruct b; [apply preserves_ret | apply preserves_panic]. Qed.
End hoare_rules.

(** [wp c Q s]: run from [s], [c] returns without a panic, with a value and a state for
    which [Q] holds. *)
Definition wp {S A : Type} (c : M S A) (Q : A -> S -> Prop) (s : S) : Prop :=
  match c s with Done (a, s') => Q a s' | Panicked _ => False end.

Section wp_rules.
Context {S : Type}.

Lemma wp_ret {A} (a : A) Q (s : S) : Q a s -> wp (ret a) Q s.
Proof. done. Qed.

Lemma wp_gets {A} (f : S -> A) Q s : Q (f s) s -> wp (gets f) Q s.
Proof. done. Qed.

Lemma wp_modify (f : S -> S) Q s : Q tt (f s) -> wp (modify f) Q s.
Proof. done. Qed.

Lemma wp_bind {A B} (c : M S A) (k : A -> M S B) Q s :
  wp c (fun a => wp (k a) Q) s -> wp (bind c k) Q s.
Proof. unfold wp, bind. by destruct (c s) as [[a s']|]. Qed.

Lemma wp_mono {A} (c : M S A) (P Q : A -> S -> Prop) s :
  wp c P s -> (forall a s', P a s' -> Q a s') -> wp c Q s.
Proof. unfold wp. destruct (c s) as [[a s']|]; auto. Qed.

Lemma wp_Done {A} (c : M S A) Q s : wp c Q s <-> exists a s', c s = Done (a, s') /\ Q a s'.
Proof.
  unfold wp. split.
  - destruct (c s) as [[a s']|]; [eauto|done].
  - by intros (a & s' & -> & ?).
Qed.
End wp_rules.

(** Runs the first step of a method, with what is known of it. *)
Tactic Notation "wp_step" uconstr(H) := apply wp_bind; eapply wp_mono; [eapply H|cbv beta].

Create HintDb frame.
#[export] Hint Resolve preserves_ret preserves_gets preserves_panic preserves_unwrap
  preserves_rassert : frame.

(** Proves that a method preserves a predicate from what is known of its calls. *)
Ltac preserve :=
  repeat first
    [ solve [eauto 4 with frame]
    | apply preserves_bind; [|intros ?]
    | match goal with |- context [match ?x with _ => _ end] => destruct x end ].

(** ** Lists *)

Section lists.
Context {A : Type}.

(** Updating one cell of a list moves a weighted sum by the difference. *)
Lemma sum_list_with_insert (f : A -> nat) (l : list A) i x y :
  l !! i = Some x ->
  sum_list_with f (<[i:=y]> l) + f x = sum_list_with f l + f y.
Proof.
  revert i. induction l as [|a l IH]; intros [|i] Hi; simpl in *; simplify_eq; [lia|].
  specialize (IH _ Hi). lia.
Qed.

Lemma sum_list_with_zero (f : A -> nat) (l : list A) :
  Forall (fun a => f a = 0) l -> sum_list_with f l = 0.
Proof. induction 1; simpl; lia. Qed.

Lemma sum_list_with_lookup_le (f : A -> nat) (l : list A) i x :
  l !! i = Some x -> f x <= sum_list_with f l.
Proof.
  revert i. induction l as [|a l IH]; intros [|i] Hi; simpl in *; simplify_eq; [lia|].
  specialize (IH _ Hi). lia.
Qed.
End lists.

(** ** Transition systems *)

Section transition_systems.
Context {St : Type} (step : relation St) (init : St -> Prop).

(** States reachable from an initial state. *)
Definition reachable (s : St) : Prop := exists s0, init s0 /\ rtc step s0 s.

(** An inductive invariant holds in every reachable state. *)
Lemma reachable_inv (I : St -> Prop) :
  (forall s, init s -> I s) ->
  (forall s s', I s -> step s s' -> I s') ->
  forall s, reachable s -> I s.
Proof.
  intros Hinit Hstep s (s0 & H0 & Hrtc). apply Hinit in H0.
  induction Hrtc; eauto.
Qed.

Lemma reachable_init s : init s -> reachable s.
Proof. intros H. exists s. split; [done | constructor]. Qed.

Lemma reachable_step s s' : reachable s -> step s s' -> reachable s'.
Proof. intros (s0 & H0 & Hr) Hs. exists s0. split; [done | by eapply rtc_r]. Qed.
End transition_systems.

#[export] Hint Resolve reachable_init reachable_step : rust.
