(* ===== verification/Count.v ===== *)
(** The bookkeeping of references in Lifetime, Tags and MetaMem: how often a token occurs in a
    list, what the objects of a map hold, and how much of a token a map counts. *)

From S2P Require Import Prelude.

Definition count {A} `{EqDecision A} (x : A) (l : list A) : nat := length (filter (eq x) l).
Arguments count : simpl never.

Section counting.
Context {A : Type} `{EqDecision A}.
Implicit Types (x y : A) (l : list A).

#[export] Instance count_proper x : Proper ((≡ₚ) ==> eq) (count x).
Proof. intros l l' H. unfold count. by rewrite H. Qed.

Lemma count_cons x y l : count x (y :: l) = (if decide (x = y) then 1 else 0) + count x l.
Proof. unfold count. rewrite filter_cons. by case_decide. Qed.

Lemma count_nil x : count x [] = 0.
Proof. done. Qed.

Lemma count_app x l l' : count x (l ++ l') = count x l + count x l'.
Proof. unfold count. by rewrite filter_app, length_app. Qed.

Lemma count_elem x l : x ∈ l <-> 0 < count x l.
Proof.
  induction l as [|y l IH]; [split; [by intros ?%not_elem_of_nil|intros H; inv H]|].
  rewrite elem_of_cons, count_cons, IH. case_decide; intuition (done || lia).
Qed.

Lemma count_replicate x y n : count x (replicate n y) = if decide (x = y) then n else 0.
Proof. induction n as [|n IH]; cbn [replicate]; [by case_decide|]. rewrite count_cons, IH. by case_decide. Qed.

Lemma count_zero x l : count x l = 0 <-> x ∉ l.
Proof. rewrite count_elem. lia. Qed.
End counting.

(** ** Objects in maps *)

(** An address that is not in use. *)
Definition alloc {A} (m : gmap nat A) : nat := fresh (dom m).

(** All that the objects of a map refer to. *)
Definition owns {A T} (f : nat -> A -> list T) (m : gmap nat A) : list T :=
  map_to_list m ≫= fun p => f p.1 p.2.

(** What a map counts for an address. *)
Definition measure {A} (f : A -> nat) (m : gmap nat A) (i : nat) : nat := default 0 (f <$> m !! i).

Definition one {A} (_ : A) : nat := 1.

Section counting_owned.
Context {A T : Type} `{EqDecision T} (f : nat -> A -> list T).
Implicit Types (m : gmap nat A) (t : T).

Lemma owns_delete m i x : m !! i = Some x -> owns f m ≡ₚ f i x ++ owns f (delete i m).
Proof. intros Hi. unfold owns. by rewrite <-(map_to_list_delete m i x Hi). Qed.

Lemma owns_insert m i x : m !! i = None -> owns f (<[i:=x]> m) ≡ₚ f i x ++ owns f m.
Proof. intros Hi. unfold owns. by rewrite map_to_list_insert. Qed.

Lemma count_owns_delete m i t :
  count t (owns f (delete i m)) + count t (from_option (f i) [] (m !! i)) = count t (owns f m).
Proof.
  destruct (m !! i) as [x|] eqn:Hi; cbn.
  - rewrite (owns_delete m i x Hi), count_app. lia.
  - rewrite delete_id by done. rewrite count_nil. lia.
Qed.

Lemma count_owns_insert m i y t :
  count t (owns f (<[i:=y]> m)) + count t (from_option (f i) [] (m !! i)) = count t (owns f m) + count t (f i y).
Proof.
  pose proof (count_owns_delete m i t). rewrite <-insert_delete_eq, owns_insert, count_app by apply lookup_delete_eq. lia.
Qed.

Lemma count_owns_lookup m i x t : m !! i = Some x -> count t (f i x) <= count t (owns f m).
Proof. intros Hi. rewrite (owns_delete m i x Hi), count_app. lia. Qed.

(** Which tokens a map can hold. *)
Lemma elem_of_owns m t : t ∈ owns f m <-> exists i x, m !! i = Some x /\ t ∈ f i x.
Proof.
  unfold owns. rewrite list_elem_of_bind. split.
  - intros ([i x] & Ht & Hx). exists i, x. by rewrite <-elem_of_map_to_list.
  - intros (i & x & Hx & Ht). exists (i, x). by rewrite elem_of_map_to_list.
Qed.
End counting_owned.

Section measures.
Context {A : Type}.
Implicit Types (m : gmap nat A).

Lemma measure_insert (g : A -> nat) m i x j :
  measure g (<[i:=x]> m) j = if decide (i = j) then g x else measure g m j.
Proof. unfold measure. case_decide; subst; by rewrite ?lookup_insert_eq, ?lookup_insert_ne. Qed.

Lemma measure_delete (g : A -> nat) m i j :
  measure g (delete i m) j = if decide (i = j) then 0 else measure g m j.
Proof. unfold measure. case_decide; subst; by rewrite ?lookup_delete_eq, ?lookup_delete_ne. Qed.

Lemma measure_pos (g : A -> nat) m i : 0 < measure g m i -> exists x, m !! i = Some x /\ measure g m i = g x.
Proof. unfold measure. destruct (m !! i) as [x|]; cbn; [by exists x|lia]. Qed.

Lemma measure_lookup (g : A -> nat) m i x : m !! i = Some x -> measure g m i = g x.
Proof. unfold measure. by intros ->. Qed.

Lemma measure_None (g : A -> nat) m i : m !! i = None -> measure g m i = 0.
Proof. unfold measure. by intros ->. Qed.

(** Nothing is there when nothing is counted. *)
Lemma nothing_held (g : A -> nat) m :
  (forall i x, m !! i = Some x -> 0 < g x) -> (forall i, measure g m i = 0) -> m = ∅.
Proof.
  intros Hpos Hz. apply map_eq. intros i. rewrite lookup_empty. destruct (m !! i) as [x|] eqn:Hi; [|done].
  specialize (Hz i). rewrite (measure_lookup _ _ _ _ Hi) in Hz. apply Hpos in Hi. lia.
Qed.

Lemma alloc_fresh m : m !! alloc m = None.
Proof. apply not_elem_of_dom, is_fresh. Qed.
End measures.

(** ** Tactics *)

Ltac count_norm := repeat rewrite ?count_app, ?count_cons, ?fmap_nil, ?count_nil in *.

(** What a changed map holds of [t], by what the map held. *)
Ltac count_owned t :=
  repeat match goal with
  | |- context [count t (owns ?f (<[?i:=?y]> ?m))] =>
      pose proof (count_owns_insert f m i y t); generalize dependent (count t (owns f (<[i:=y]> m))); intros
  | |- context [count t (owns ?f (delete ?i ?m))] =>
      pose proof (count_owns_delete f m i t); generalize dependent (count t (owns f (delete i m))); intros
  end.

Ltac measure_norm := repeat first [rewrite measure_insert in * | rewrite measure_delete in *].

Ltac known_lookups :=
  repeat match goal with
  | H : ?m !! ?i = Some _, G : context [from_option _ _ (?m !! ?i)] |- _ => rewrite H in G; cbn [from_option] in G
  | H : ?m !! ?i = None, G : context [from_option _ _ (?m !! ?i)] |- _ => rewrite H in G; cbn [from_option] in G
  end.

Ltac decide_equalities :=
  repeat match goal with
  | |- context [decide (?x = ?y)] => destruct (decide (x = y)); simplify_eq
  | H : context [decide (?x = ?y)] |- _ => destruct (decide (x = y)); simplify_eq
  end.

Ltac known_measures :=
  repeat match goal with
  | H : ?m !! ?i = None |- context [measure ?g ?m ?i] => rewrite (measure_None g m i H) in *
  | H : ?m !! ?i = None, G : context [measure ?g ?m ?i] |- _ => rewrite (measure_None g m i H) in *
  | H : ?m !! ?i = Some ?x |- context [measure ?g ?m ?i] => rewrite (measure_lookup g m i x H) in *
  | H : ?m !! ?i = Some ?x, G : context [measure ?g ?m ?i] |- _ => rewrite (measure_lookup g m i x H) in *
  end.
