(* ===== verification/Status.v ===== *)
(** Status codes, RPC statuses, write and call flags, and the error type of the
    library: src/src/call/mod.rs (the data part), src/src/error.rs and the flag
    helpers of src/src/call/client.rs.  A Rust [String] is a [string] (its UTF-8
    bytes), a [Vec<u8>] a [list byte], an [i32] or a [u32] a [Z]. *)

From stdpp Require Import pretty.
From S2P Require Import Prelude.

Local Open Scope string_scope.

(** ** RpcStatusCode *)

Record RpcStatusCode := mkRpcStatusCode { code_value : Z }.

#[export] Instance RpcStatusCode_eq_dec : EqDecision RpcStatusCode.
Proof. solve_decision. Defined.

Definition RpcStatusCode_from_i32 (code : Z) : RpcStatusCode := mkRpcStatusCode code.

Definition RpcStatusCode_into_i32 (code : RpcStatusCode) : Z := code_value code.

(** The table the macro [status_codes!] is invoked with: number and constant. *)
Definition status_codes : list (Z * string) :=
  [(0, "OK"); (1, "CANCELLED"); (2, "UNKNOWN"); (3, "INVALID_ARGUMENT");
   (4, "DEADLINE_EXCEEDED"); (5, "NOT_FOUND"); (6, "ALREADY_EXISTS");
   (7, "PERMISSION_DENIED"); (8, "RESOURCE_EXHAUSTED"); (9, "FAILED_PRECONDITION");
   (10, "ABORTED"); (11, "OUT_OF_RANGE"); (12, "UNIMPLEMENTED"); (13, "INTERNAL");
   (14, "UNAVAILABLE"); (15, "DATA_LOSS"); (16, "UNAUTHENTICATED");
   (-1, "DO_NOT_USE")]%Z.

(** The [match] of the generated [Debug] implementation: the first arm whose
    number equals the code. *)
Fixpoint code_name (table : list (Z * string)) (code : RpcStatusCode) : string :=
  match table with
  | [] => "INVALID_STATUS_CODE"
  | (num, konst) :: table' =>
      if bool_decide (code = mkRpcStatusCode num) then konst else code_name table' code
  end.

Definition RpcStatusCode_debug (self : RpcStatusCode) : string :=
  pretty (code_value self) +:+ "-" +:+ code_name status_codes self.

Definition CODE_OK : RpcStatusCode := mkRpcStatusCode 0.
Definition CODE_NOT_FOUND : RpcStatusCode := mkRpcStatusCode 5.
Definition CODE_UNIMPLEMENTED : RpcStatusCode := mkRpcStatusCode 12.
Definition CODE_INTERNAL : RpcStatusCode := mkRpcStatusCode 13.

(** ** MethodType *)

Inductive MethodType := Unary | ClientStreaming | ServerStreaming | Duplex.

#[export] Instance MethodType_eq_dec : EqDecision MethodType.
Proof. solve_decision. Defined.

(** ** RpcStatus *)

Record RpcStatus := mkRpcStatus {
  status_code : RpcStatusCode;
  status_message : string;
  status_details : list byte;
}.

Definition RpcStatus_with_details (code : RpcStatusCode) (message : string)
    (details : list byte) : RpcStatus :=
  {| status_code := code; status_message := message; status_details := details |}.

Definition RpcStatus_with_message (code : RpcStatusCode) (message : string) : RpcStatus :=
  RpcStatus_with_details code message [].

Definition RpcStatus_new (code : RpcStatusCode) : RpcStatus :=
  RpcStatus_with_message code "".

Definition RpcStatus_ok : RpcStatus := RpcStatus_new CODE_OK.

#[export] Instance RpcStatus_eq_dec : EqDecision RpcStatus.
Proof. solve_decision. Defined.

(** ** Errors *)

(** [grpc_call_error] of the generated bindings. *)
Inductive grpc_call_error :=
| GRPC_CALL_OK | GRPC_CALL_ERROR | GRPC_CALL_ERROR_NOT_ON_SERVER
| GRPC_CALL_ERROR_NOT_ON_CLIENT | GRPC_CALL_ERROR_ALREADY_ACCEPTED
| GRPC_CALL_ERROR_ALREADY_INVOKED | GRPC_CALL_ERROR_NOT_INVOKED
| GRPC_CALL_ERROR_ALREADY_FINISHED | GRPC_CALL_ERROR_TOO_MANY_OPERATIONS
| GRPC_CALL_ERROR_INVALID_FLAGS | GRPC_CALL_ERROR_INVALID_METADATA
| GRPC_CALL_ERROR_INVALID_MESSAGE | GRPC_CALL_ERROR_NOT_SERVER_COMPLETION_QUEUE
| GRPC_CALL_ERROR_BATCH_TOO_BIG | GRPC_CALL_ERROR_PAYLOAD_TYPE_MISMATCH
| GRPC_CALL_ERROR_COMPLETION_QUEUE_SHUTDOWN.

#[export] Instance grpc_call_error_eq_dec : EqDecision grpc_call_error.
Proof. solve_decision. Defined.

(** The boxed codec error is kept as its message. *)
Inductive Error :=
| Codec (e : string)
| CallFailure (e : grpc_call_error)
| RpcFailure (s : RpcStatus)
| RpcFinished (s : option RpcStatus)
| RemoteStopped
| ShutdownFailed
| BindFail (host : string) (port : Z)
| QueueShutdown
| GoogleAuthenticationFailed
| InvalidMetadata (msg : string).

#[export] Instance Error_eq_dec : EqDecision Error.
Proof. solve_decision. Defined.

(** [Display for Error]; [debug] is the derived [Debug] text of an error. *)
Definition Error_fmt (debug : Error -> string) (self : Error) : string :=
  match self with
  | RpcFailure s =>
      if bool_decide (status_message s = "")
      then "RpcFailure: " +:+ RpcStatusCode_debug (status_code s)
      else "RpcFailure: " +:+ RpcStatusCode_debug (status_code s) +:+ " " +:+ status_message s
  | other_error => debug other_error
  end.

(** [error::Error::source]: only a codec error has one. *)
Definition Error_source (self : Error) : option string :=
  match self with
  | Codec e => Some e
  | _ => None
  end.

(** ** Flags *)

Definition GRPC_WRITE_BUFFER_HINT : Z := 1.
Definition GRPC_WRITE_NO_COMPRESS : Z := 2.
Definition GRPC_INITIAL_METADATA_IDEMPOTENT_REQUEST : Z := 16.
Definition GRPC_INITIAL_METADATA_WAIT_FOR_READY : Z := 32.
Definition GRPC_INITIAL_METADATA_CACHEABLE_REQUEST : Z := 64.

(** [change_flag(&mut res, flag, set)] on [u32]; [!flag] is the complement in
    32 bits. *)
Definition change_flag (res flag : Z) (set : bool) : Z :=
  if set then Z.lor res flag else Z.land res (Z.lxor flag (Z.ones 32)).

Record WriteFlags := mkWriteFlags { flags : Z }.

Definition WriteFlags_default : WriteFlags := mkWriteFlags 0.

Definition buffer_hint (self : WriteFlags) (need_buffered : bool) : WriteFlags :=
  mkWriteFlags (change_flag (flags self) GRPC_WRITE_BUFFER_HINT need_buffered).

Definition force_no_compress (self : WriteFlags) (no_compress : bool) : WriteFlags :=
  mkWriteFlags (change_flag (flags self) GRPC_WRITE_NO_COMPRESS no_compress).

Definition get_buffer_hint (self : WriteFlags) : bool :=
  negb (Z.eqb (Z.land (flags self) GRPC_WRITE_BUFFER_HINT) 0).

Definition get_force_no_compress (self : WriteFlags) : bool :=
  negb (Z.eqb (Z.land (flags self) GRPC_WRITE_NO_COMPRESS) 0).

(** ** Lemmas *)

Lemma code_name_unlisted table code :
  Forall (fun p => p.1 <> code_value code) table ->
  code_name table code = "INVALID_STATUS_CODE".
Proof.
  induction 1 as [|[n k] table Hn Ht IH]; [done|]. simpl in *.
  rewrite bool_decide_eq_false_2; [done | by intros ->].
Qed.

Lemma testbit_lxor_ones w z i :
  (0 <= i < w)%Z -> Z.testbit (Z.lxor z (Z.ones w)) i = negb (Z.testbit z i).
Proof. intros Hi. rewrite Z.lxor_spec, Z.ones_spec_low by lia. by destruct (Z.testbit z i). Qed.

Lemma change_flag_testbit res k set i :
  (0 <= k < 32)%Z -> (0 <= i < 32)%Z ->
  Z.testbit (change_flag res (2 ^ k) set) i =
  if bool_decide (i = k) then set else Z.testbit res i.
Proof.
  intros Hk Hi. unfold change_flag.
  assert (Z.testbit (2 ^ k) i = bool_decide (i = k)) as Hbit.
  { case_bool_decide as E; [subst; apply Z.pow2_bits_true; lia|].
    apply Z.pow2_bits_false. lia. }
  destruct set.
  - rewrite Z.lor_spec, Hbit. case_bool_decide; [apply orb_true_r | apply orb_false_r].
  - rewrite Z.land_spec, testbit_lxor_ones, Hbit by lia.
    case_bool_decide; simpl; [apply andb_false_r | apply andb_true_r].
Qed.

Lemma change_flag_range res k set :
  (0 <= res < U32)%Z -> (0 <= k < 32)%Z -> (0 <= change_flag res (2 ^ k) set < U32)%Z.
Proof.
  intros Hres Hk.
  assert (0 <= 2 ^ k < 2 ^ 32)%Z as Hp.
  { split; [apply Z.pow_nonneg; lia | apply Z.pow_lt_mono_r; lia]. }
  unfold U32 in *.
  assert (0 <= change_flag res (2 ^ k) set)%Z as Hnn.
  { unfold change_flag. destruct set; [apply Z.lor_nonneg; lia|].
    apply Z.land_nonneg. lia. }
  split; [done|].
  destruct (Z.eq_dec (change_flag res (2 ^ k) set) 0%Z) as [->|Hz]; [lia|].
  apply Z.log2_lt_pow2; [lia|].
  assert (forall x, (0 <= x < 2 ^ 32)%Z -> (Z.log2 x < 32)%Z) as Hlog.
  { intros x Hx. destruct (Z.eq_dec x 0%Z) as [->|]; [simpl; lia|].
    apply Z.log2_lt_pow2; lia. }
  unfold change_flag. destruct set.
  - rewrite Z.log2_lor by lia. apply Z.max_lub_lt; apply Hlog; lia.
  - eapply Z.le_lt_trans; [apply Z.log2_land; [lia|] | ].
    + apply Z.lxor_nonneg. split; intros; [|lia]. vm_compute. done.
    + apply Z.min_lt_iff. left. by apply Hlog.
Qed.

Lemma land_pow2_testbit x k :
  (0 <= k)%Z -> negb (Z.eqb (Z.land x (2 ^ k)) 0) = Z.testbit x k.
Proof.
  intros Hk. destruct (Z.testbit x k) eqn:E.
  - apply negb_true_iff, Z.eqb_neq. intros H0.
    assert (Z.testbit (Z.land x (2 ^ k)) k = true) as Ht.
    { rewrite Z.land_spec, E, Z.pow2_bits_true by lia. done. }
    rewrite H0, Z.bits_0 in Ht. done.
  - apply negb_false_iff, Z.eqb_eq. apply Z.bits_inj'. intros i Hi.
    rewrite Z.land_spec, Z.bits_0. destruct (Z.eq_dec i k) as [->|Hne].
    + by rewrite E.
    + rewrite (Z.pow2_bits_false k i) by lia. apply andb_false_r.
Qed.

Lemma get_buffer_hint_testbit f : get_buffer_hint f = Z.testbit (flags f) 0.
Proof. unfold get_buffer_hint. by apply (land_pow2_testbit _ 0). Qed.

Lemma get_force_no_compress_testbit f : get_force_no_compress f = Z.testbit (flags f) 1.
Proof. unfold get_force_no_compress. by apply (land_pow2_testbit _ 1). Qed.

Lemma buffer_hint_testbit f b i :
  (0 <= i < 32)%Z ->
  Z.testbit (flags (buffer_hint f b)) i = if bool_decide (i = 0)%Z then b else Z.testbit (flags f) i.
Proof. intros Hi. apply (change_flag_testbit _ 0); lia. Qed.

Lemma force_no_compress_testbit f b i :
  (0 <= i < 32)%Z ->
  Z.testbit (flags (force_no_compress f b)) i =
  if bool_decide (i = 1)%Z then b else Z.testbit (flags f) i.
Proof. intros Hi. apply (change_flag_testbit _ 1); lia. Qed.

Lemma get_buffer_hint_set f b : get_buffer_hint (buffer_hint f b) = b.
Proof. by rewrite get_buffer_hint_testbit, buffer_hint_testbit by lia. Qed.

Lemma get_force_no_compress_buffer_hint f b :
  get_force_no_compress (buffer_hint f b) = get_force_no_compress f.
Proof. by rewrite !get_force_no_compress_testbit, buffer_hint_testbit by lia. Qed.

#[export] Hint Rewrite get_buffer_hint_set get_force_no_compress_buffer_hint : rust_rw.
