(* ===== verification/Cq.v ===== *)
(** The completion queue: src/src/cq.rs.

    [CompletionQueueHandle] guards a native queue with one atomic counter.  Every
    method is a compare-and-swap loop; it is modelled as a program counter whose
    steps are the atomic accesses of the loop, so that any number of threads
    interleave between them, and a weak compare-and-swap may fail spuriously.
    [Spec] is the contract the methods implement, and [Step_refines] the
    simulation.  [WorkQueue] is the thread-local queue beside it. *)

From S2P Require Import Prelude Status.

Local Open Scope Z_scope.

(** ** CompletionQueueHandle *)

(** [ref_cnt] is the atomic counter; of the native queue only the number of
    [grpc_completion_queue_shutdown] calls matters here. *)
Record CompletionQueueHandle := mkHandle {
  ref_cnt : Z;
  native_shutdowns : nat;
}.

Definition CompletionQueueHandle_new : CompletionQueueHandle :=
  {| ref_cnt := 1; native_shutdowns := 0 |}.

(** Where a thread is inside a method.  [..Load] is the initial [load], [..Loop c]
    the head of the loop with [cnt = c], [..Native] the call of the native shutdown. *)
Inductive pc :=
| AddRefLoad | AddRefLoop (cnt : Z) | AddRefRet (r : Result Error unit)
| UnrefLoad | UnrefLoop (cnt : Z) | UnrefNative
| ShutdownLoad | ShutdownLoop (cnt : Z) | ShutdownNative
| Idle.

(** [AtomicIsize::compare_exchange_weak]: [spurious] lets it fail although the
    value matches; the observed value is returned on failure. *)
Definition compare_exchange_weak (spurious : bool) (h : CompletionQueueHandle)
    (current new : Z) : Result Z Z * CompletionQueueHandle :=
  if bool_decide (ref_cnt h = current) && negb spurious
  then (Ok current, {| ref_cnt := new; native_shutdowns := native_shutdowns h |})
  else (Err (ref_cnt h), h).

Definition native_shutdown (h : CompletionQueueHandle) : CompletionQueueHandle :=
  {| ref_cnt := ref_cnt h; native_shutdowns := S (native_shutdowns h) |}.

(** One atomic access of [add_ref]. *)
Definition add_ref_step (spurious : bool) (p : pc) (h : CompletionQueueHandle) :
    option (pc * CompletionQueueHandle) :=
  match p with
  | AddRefLoad => Some (AddRefLoop (ref_cnt h), h)
  | AddRefLoop cnt =>
      if bool_decide (cnt <= 0)
      then Some (AddRefRet (Err QueueShutdown), h)
      else
        let new_cnt := cnt + 1 in
        match compare_exchange_weak spurious h cnt new_cnt with
        | (Ok _, h') => Some (AddRefRet (Ok tt), h')
        | (Err c, h') => Some (AddRefLoop c, h')
        end
  | _ => None
  end.

(** One atomic access of [unref]. *)
Definition unref_step (spurious : bool) (p : pc) (h : CompletionQueueHandle) :
    option (pc * CompletionQueueHandle) :=
  match p with
  | UnrefLoad => Some (UnrefLoop (ref_cnt h), h)
  | UnrefLoop cnt =>
      let new_cnt := cnt - Z.sgn cnt in
      match compare_exchange_weak spurious h cnt new_cnt with
      | (Ok _, h') => Some (if bool_decide (new_cnt = 0) then UnrefNative else Idle, h')
      | (Err c, h') => Some (UnrefLoop c, h')
      end
  | UnrefNative => Some (Idle, native_shutdown h)
  | _ => None
  end.

(** One atomic access of [shutdown]. *)
Definition shutdown_step (spurious : bool) (p : pc) (h : CompletionQueueHandle) :
    option (pc * CompletionQueueHandle) :=
  match p with
  | ShutdownLoad => Some (ShutdownLoop (ref_cnt h), h)
  | ShutdownLoop cnt =>
      if bool_decide (cnt <= 0)
      then Some (Idle, h)
      else
        let new_cnt := - cnt + 1 in
        match compare_exchange_weak spurious h cnt new_cnt with
        | (Ok _, h') => Some (if bool_decide (new_cnt = 0) then ShutdownNative else Idle, h')
        | (Err c, h') => Some (ShutdownLoop c, h')
        end
  | ShutdownNative => Some (Idle, native_shutdown h)
  | _ => None
  end.

Definition pc_step (spurious : bool) (p : pc) (h : CompletionQueueHandle) :
    option (pc * CompletionQueueHandle) :=
  match p with
  | AddRefLoad | AddRefLoop _ => add_ref_step spurious p h
  | UnrefLoad | UnrefLoop _ | UnrefNative => unref_step spurious p h
  | ShutdownLoad | ShutdownLoop _ | ShutdownNative => shutdown_step spurious p h
  | AddRefRet _ | Idle => None
  end.

(** ** Threads sharing a handle *)

(** [refs] counts the live [CompletionQueueRef] values.  [borrow] turns an
    accepted [add_ref] into one, dropping one runs [unref]; [asked] records that
    some [shutdown] has made the counter non-positive. *)
Record Sys := mkSys {
  handle : CompletionQueueHandle;
  threads : list pc;
  refs : nat;
  asked : bool;
}.

(** Did this step of this thread publish a shutdown? *)
Definition publishes (spurious : bool) (p : pc) (h : CompletionQueueHandle) : bool :=
  match p with
  | ShutdownLoop cnt =>
      bool_decide (0 < cnt) && bool_decide (ref_cnt h = cnt) && negb spurious
  | _ => false
  end.

Inductive Step : Sys -> Sys -> Prop :=
| StepBorrow h ts i n a :
    ts !! i = Some Idle ->
    Step (mkSys h ts n a) (mkSys h (<[i:=AddRefLoad]> ts) n a)
| StepBorrowOk h ts i n a :
    ts !! i = Some (AddRefRet (Ok tt)) ->
    Step (mkSys h ts n a) (mkSys h (<[i:=Idle]> ts) (S n) a)
| StepBorrowErr h ts i n a e :
    ts !! i = Some (AddRefRet (Err e)) ->
    Step (mkSys h ts n a) (mkSys h (<[i:=Idle]> ts) n a)
| StepDrop h ts i n a :
    ts !! i = Some Idle ->
    Step (mkSys h ts (S n) a) (mkSys h (<[i:=UnrefLoad]> ts) n a)
| StepShutdown h ts i n a :
    ts !! i = Some Idle ->
    Step (mkSys h ts n a) (mkSys h (<[i:=ShutdownLoad]> ts) n a)
| StepRun h ts i n a spurious p p' h' :
    ts !! i = Some p ->
    pc_step spurious p h = Some (p', h') ->
    Step (mkSys h ts n a) (mkSys h' (<[i:=p']> ts) n (a || publishes spurious p h)).

Definition Init (s : Sys) : Prop :=
  handle s = CompletionQueueHandle_new /\ Forall (fun p => p = Idle) (threads s) /\
  refs s = 0%nat /\ asked s = false.

(** ** The contract *)

(** A queue accepts borrows until it is asked to stop, and is stopped once, by
    whoever releases the last reference afterwards. *)
Record Spec := mkSpec { spec_refs : nat; spec_asked : bool; spec_stopped : nat }.

Inductive SpecStep : Spec -> Spec -> Prop :=
| SpecBorrow n : SpecStep (mkSpec n false 0) (mkSpec (S n) false 0)
| SpecRelease n : SpecStep (mkSpec (S n) false 0) (mkSpec n false 0)
| SpecAsk n : SpecStep (mkSpec n false 0) (mkSpec n true 0)
| SpecReleaseClosing n : SpecStep (mkSpec (S n) true 0) (mkSpec n true 0)
| SpecStop : SpecStep (mkSpec 0 true 0) (mkSpec 0 true 1).

(** A reference counts from the swap that takes it to the swap that gives it up. *)
Definition pc_refs (p : pc) : nat :=
  match p with
  | AddRefRet (Ok _) | UnrefLoad | UnrefLoop _ => 1
  | _ => 0
  end.

Definition pc_native (p : pc) : nat :=
  match p with
  | UnrefNative | ShutdownNative => 1
  | _ => 0
  end.

Definition counted (s : Sys) : nat := (refs s + sum_list_with pc_refs (threads s))%nat.

Definition absr (s : Sys) : Spec :=
  mkSpec (counted s) (asked s) (native_shutdowns (handle s)).

(** ** The methods run without interference *)

(** The effect of a whole method when no other access comes between its own, the
    form in which the other components use the handle.  [run_alone] below computes
    it from the accesses. *)
Definition add_ref (h : CompletionQueueHandle) : Result Error unit * CompletionQueueHandle :=
  if bool_decide (ref_cnt h <= 0)
  then (Err QueueShutdown, h)
  else (Ok tt, {| ref_cnt := ref_cnt h + 1; native_shutdowns := native_shutdowns h |}).

Definition unref (h : CompletionQueueHandle) : CompletionQueueHandle :=
  let new_cnt := ref_cnt h - Z.sgn (ref_cnt h) in
  let h' := {| ref_cnt := new_cnt; native_shutdowns := native_shutdowns h |} in
  if bool_decide (new_cnt = 0) then native_shutdown h' else h'.

Definition shutdown (h : CompletionQueueHandle) : CompletionQueueHandle :=
  if bool_decide (ref_cnt h <= 0)
  then h
  else
    let new_cnt := - ref_cnt h + 1 in
    let h' := {| ref_cnt := new_cnt; native_shutdowns := native_shutdowns h |} in
    if bool_decide (new_cnt = 0) then native_shutdown h' else h'.

Fixpoint run_alone (fuel : nat) (p : pc) (h : CompletionQueueHandle) :
    option (pc * CompletionQueueHandle) :=
  match p with
  | Idle | AddRefRet _ => Some (p, h)
  | _ =>
      match fuel with
      | O => None
      | S fuel' =>
          match pc_step false p h with
          | Some (p', h') => run_alone fuel' p' h'
          | None => None
          end
      end
  end.

(** ** WorkQueue *)

Definition QUEUE_CAPACITY : nat := 4096.

(** [VecDeque]: its elements, front first, and its capacity. *)
Record VecDeque (A : Type) := mkVecDeque { elems : list A; capacity : nat }.
Arguments mkVecDeque {A} _ _.
Arguments elems {A} _.
Arguments capacity {A} _.

(** [push_back] doubles a full buffer. *)
Definition push_back {A} (x : A) (q : VecDeque A) : VecDeque A :=
  {| elems := elems q ++ [x];
     capacity := if bool_decide (length (elems q) = capacity q)
                 then Nat.max 4 (2 * capacity q) else capacity q |}.

Definition pop_back {A} (q : VecDeque A) : option A * VecDeque A :=
  match last (elems q) with
  | None => (None, q)
  | Some x => (Some x, {| elems := take (pred (length (elems q))) (elems q);
                          capacity := capacity q |})
  end.

Definition shrink_to_fit {A} (q : VecDeque A) : VecDeque A :=
  {| elems := elems q; capacity := length (elems q) |}.

Definition ThreadId := nat.

Record WorkQueue (W : Type) := mkWorkQueue {
  wq_id : ThreadId;
  pending_work : VecDeque W;
}.
Arguments mkWorkQueue {W} _ _.
Arguments wq_id {W} _.
Arguments pending_work {W} _.

Definition WorkQueue_new {W} (current : ThreadId) : WorkQueue W :=
  {| wq_id := current; pending_work := mkVecDeque [] QUEUE_CAPACITY |}.

Definition push_work {W} (current : ThreadId) (work : W) (self : WorkQueue W) :
    option W * WorkQueue W :=
  if bool_decide (wq_id self = current)
  then (None, {| wq_id := wq_id self; pending_work := push_back work (pending_work self) |})
  else (Some work, self).

Definition pop_work {W} (self : WorkQueue W) : option W * WorkQueue W :=
  let queue := pending_work self in
  let queue :=
    if bool_decide (QUEUE_CAPACITY < capacity queue)%nat &&
       bool_decide (length (elems queue) < capacity queue `div` 2)%nat
    then shrink_to_fit queue else queue in
  let (r, queue) := pop_back queue in
  (r, {| wq_id := wq_id self; pending_work := queue |}).

(** ** The counter invariant *)

(** Before a shutdown is asked the counter is one more than the references,
    afterwards it is minus their number; the native shutdown has been called, or is
    about to be, exactly when a shutdown is asked and no reference is left. *)
Definition Inv (s : Sys) : Prop :=
  ref_cnt (handle s) = (if asked s then - Z.of_nat (counted s) else 1 + Z.of_nat (counted s)) /\
  (native_shutdowns (handle s) + sum_list_with pc_native (threads s))%nat =
    (if asked s && bool_decide (counted s = 0%nat) then 1 else 0)%nat.

Lemma Init_Inv s : Init s -> Inv s.
Proof.
  intros (Hh & Hidle & Hr & Ha). unfold Inv, counted. rewrite Hh, Hr, Ha. simpl.
  rewrite !sum_list_with_zero; [done | |];
    by eapply Forall_impl; [exact Hidle|]; intros ? ->.
Qed.

(** What one access of one thread does to the counter, case by case: it leaves it
    alone, takes a reference, gives one up, asks for shutdown or calls the native
    function. *)
Inductive Effect (p p' : pc) (h h' : CompletionQueueHandle) (published : bool) : Prop :=
| EffNone : h' = h -> published = false -> pc_refs p' = pc_refs p -> pc_native p' = pc_native p ->
    Effect p p' h h' published
| EffTake : 0 < ref_cnt h -> ref_cnt h' = ref_cnt h + 1 ->
    native_shutdowns h' = native_shutdowns h -> published = false ->
    pc_refs p = 0%nat -> pc_refs p' = 1%nat -> pc_native p = 0%nat -> pc_native p' = 0%nat ->
    Effect p p' h h' published
| EffGive : ref_cnt h' = ref_cnt h - Z.sgn (ref_cnt h) ->
    native_shutdowns h' = native_shutdowns h -> published = false ->
    pc_refs p = 1%nat -> pc_refs p' = 0%nat -> pc_native p = 0%nat ->
    pc_native p' = (if bool_decide (ref_cnt h' = 0) then 1%nat else 0%nat) ->
    Effect p p' h h' published
| EffAsk : 0 < ref_cnt h -> ref_cnt h' = - ref_cnt h + 1 ->
    native_shutdowns h' = native_shutdowns h -> published = true ->
    pc_refs p = 0%nat -> pc_refs p' = 0%nat -> pc_native p = 0%nat ->
    pc_native p' = (if bool_decide (ref_cnt h' = 0) then 1%nat else 0%nat) ->
    Effect p p' h h' published
| EffNative : ref_cnt h' = ref_cnt h -> native_shutdowns h' = S (native_shutdowns h) ->
    published = false -> pc_refs p = 0%nat -> pc_refs p' = 0%nat ->
    pc_native p = 1%nat -> pc_native p' = 0%nat ->
    Effect p p' h h' published.

Lemma compare_exchange_weak_cases spurious h cur new :
  (ref_cnt h = cur /\ spurious = false /\
   compare_exchange_weak spurious h cur new = (Ok cur, mkHandle new (native_shutdowns h))) \/
  (bool_decide (ref_cnt h = cur) && negb spurious = false /\
   compare_exchange_weak spurious h cur new = (Err (ref_cnt h), h)).
Proof.
  unfold compare_exchange_weak. case_bool_decide; destruct spurious; simpl; auto.
Qed.

Lemma pc_step_effect spurious p h p' h' :
  pc_step spurious p h = Some (p', h') -> Effect p p' h h' (publishes spurious p h).
Proof.
  destruct p as [|cnt|r| |cnt| | |cnt| |]; simpl; intros H; simplify_eq;
    try (by apply EffNone).
  - case_bool_decide as Hc; simplify_eq; [by apply EffNone|].
    destruct (compare_exchange_weak_cases spurious h cnt (cnt + 1))
      as [(? & ? & E)|(? & E)]; rewrite E in H; simplify_eq;
      [apply EffTake; simpl; lia | by apply EffNone].
  - destruct (compare_exchange_weak_cases spurious h cnt (cnt - Z.sgn cnt))
      as [(? & ? & E)|(? & E)]; rewrite E in H; simplify_eq;
      [apply EffGive; simpl; auto; by case_bool_decide | by apply EffNone].
  - by apply EffNative.
  - case_bool_decide as Hc; simplify_eq.
    { apply EffNone; auto. simpl. by rewrite bool_decide_eq_false_2 by lia. }
    destruct (compare_exchange_weak_cases spurious h cnt (- cnt + 1))
      as [(? & ? & E)|(Hb & E)]; rewrite E in H; simplify_eq.
    + apply EffAsk; simpl; try lia; auto; [|by case_bool_decide|by case_bool_decide].
      rewrite !bool_decide_eq_true_2 by lia. done.
    + apply EffNone; auto. simpl. by rewrite <-andb_assoc, Hb, andb_false_r.
  - by apply EffNative.
Qed.

(** The bookkeeping of one access: how [counted] and the pending native calls move. *)
Lemma counted_insert (h h' : CompletionQueueHandle) ts i p p' n a a' :
  ts !! i = Some p ->
  (counted (mkSys h' (<[i:=p']> ts) n a') + pc_refs p = counted (mkSys h ts n a) + pc_refs p' /\
   sum_list_with pc_native (<[i:=p']> ts) + pc_native p =
     sum_list_with pc_native ts + pc_native p')%nat.
Proof.
  intros Hi. unfold counted; simpl.
  pose proof (sum_list_with_insert pc_refs ts i p p' Hi).
  pose proof (sum_list_with_insert pc_native ts i p p' Hi). lia.
Qed.

Ltac counted_insert h h' i p' n a a' :=
  match goal with
  | H : ?ts !! i = Some ?p |- _ =>
      let H1 := fresh "Hrefs" in let H2 := fresh "Hnat" in
      destruct (counted_insert h h' ts i p p' n a a' H) as [H1 H2]; simpl in H1, H2
  end.

Ltac decide_all := repeat case_bool_decide; simpl in *; lia.

Lemma Step_Inv s s' : Inv s -> Step s s' -> Inv s'.
Proof.
  intros [Hc Hn] Hstep. destruct Hstep as
    [h ts i n a Hi|h ts i n a Hi|h ts i n a e Hi|h ts i n a Hi|h ts i n a Hi
    |h ts i n a sp p p' h' Hi Hrun].
  - counted_insert h h i AddRefLoad n a a. unfold Inv in *. simpl in *.
    destruct a; simpl in *; decide_all.
  - counted_insert h h i Idle n a a. unfold Inv in *. simpl in *.
    assert (counted (mkSys h (<[i:=Idle]> ts) (S n) a) = counted (mkSys h ts n a)) as ->.
    { unfold counted in *. simpl in *. lia. }
    destruct a; simpl in *; decide_all.
  - counted_insert h h i Idle n a a. unfold Inv in *. simpl in *.
    destruct a; simpl in *; decide_all.
  - counted_insert h h i UnrefLoad n a a. unfold Inv in *. simpl in *.
    assert (counted (mkSys h (<[i:=UnrefLoad]> ts) n a) = counted (mkSys h ts (S n) a)) as ->.
    { unfold counted in *. simpl in *. lia. }
    destruct a; simpl in *; decide_all.
  - counted_insert h h i ShutdownLoad n a a. unfold Inv in *. simpl in *.
    destruct a; simpl in *; decide_all.
  - counted_insert h h' i p' n a (a || publishes sp p h).
    unfold Inv in *. simpl in *.
    destruct (pc_step_effect _ _ _ _ _ Hrun) as [-> Hpub Hr Hnv| | | | ];
      try match goal with E : publishes _ _ _ = _ |- _ => rewrite E in * end;
      rewrite ?orb_false_r, ?orb_true_r in *; destruct a; simpl in *; decide_all.
Qed.

Lemma reachable_Inv s : reachable Step Init s -> Inv s.
Proof. apply reachable_inv; [apply Init_Inv | apply Step_Inv]. Qed.

(** Every access is invisible to the contract or one of its steps. *)
Lemma Step_refines s s' :
  Inv s -> Step s s' -> absr s = absr s' \/ SpecStep (absr s) (absr s').
Proof.
  intros [Hc Hn] Hstep. destruct Hstep as
    [h ts i n a Hi|h ts i n a Hi|h ts i n a e Hi|h ts i n a Hi|h ts i n a Hi
    |h ts i n a sp p p' h' Hi Hrun].
  - counted_insert h h i AddRefLoad n a a. left. unfold absr. simpl. f_equal. lia.
  - counted_insert h h i Idle n a a. left. unfold absr. simpl. f_equal.
    unfold counted in *. simpl in *. lia.
  - counted_insert h h i Idle n a a. left. unfold absr. simpl. f_equal. lia.
  - counted_insert h h i UnrefLoad n a a. left. unfold absr. simpl. f_equal.
    unfold counted in *. simpl in *. lia.
  - counted_insert h h i ShutdownLoad n a a. left. unfold absr. simpl. f_equal. lia.
  - counted_insert h h' i p' n a (a || publishes sp p h). unfold absr. simpl in *.
    destruct (pc_step_effect _ _ _ _ _ Hrun) as [-> Hpub Hr Hnv| | | | ];
      try match goal with E : publishes _ _ _ = _ |- _ => rewrite E in * end;
      rewrite ?orb_false_r, ?orb_true_r in *.
    + left. f_equal. lia.
    + right. destruct a; [lia|].
      replace (native_shutdowns h') with 0%nat by (simpl in *; lia).
      replace (native_shutdowns h) with 0%nat by (simpl in *; lia).
      match goal with |- SpecStep (mkSpec ?x _ _) (mkSpec ?y _ _) =>
        replace y with (S x) by lia end. constructor.
    + right.
      match goal with |- SpecStep (mkSpec ?x _ _) (mkSpec ?y _ _) =>
        replace x with (S y) by lia end.
      rewrite bool_decide_eq_false_2, andb_false_r in Hn by lia.
      replace (native_shutdowns h') with 0%nat by (simpl in *; lia).
      replace (native_shutdowns h) with 0%nat by (simpl in *; lia).
      destruct a; constructor.
    + right. destruct a; [lia|].
      match goal with |- SpecStep (mkSpec ?x _ _) (mkSpec ?y _ _) =>
        replace x with y by lia end.
      replace (native_shutdowns h') with 0%nat by (simpl in *; lia).
      replace (native_shutdowns h) with 0%nat by (simpl in *; lia). constructor.
    + right.
      pose proof (sum_list_with_lookup_le pc_native ts i p Hi) as Hle.
      destruct a; simpl in *; [|lia]. case_bool_decide as Hz; [|lia].
      match goal with |- SpecStep (mkSpec ?x _ _) (mkSpec ?y _ _) =>
        replace x with 0%nat by lia; replace y with 0%nat by lia end.
      replace (native_shutdowns h') with 1%nat by lia.
      replace (native_shutdowns h) with 0%nat by lia. constructor.
Qed.

Lemma Spec_reached s0 s :
  rtc Step s0 s -> Inv s0 -> rtc SpecStep (absr s0) (absr s).
Proof.
  induction 1 as [|a b c Hab Hbc IH]; intros HI; [constructor|].
  specialize (IH (Step_Inv _ _ HI Hab)).
  destruct (Step_refines _ _ HI Hab) as [Eq|Hst]; [by rewrite Eq | by eapply rtc_l].
Qed.

(** In a reachable state, a pending or performed native shutdown excludes references. *)
Lemma native_excludes_refs s :
  Inv s -> (0 < native_shutdowns (handle s) + sum_list_with pc_native (threads s))%nat ->
  asked s = true /\ counted s = 0%nat /\ ref_cnt (handle s) = 0.
Proof.
  intros [Hc Hn] Hpos. rewrite Hn in Hpos. destruct (asked s); simpl in *; [|lia].
  case_bool_decide; lia.
Qed.

(** Only a positive counter lets [add_ref] return [Ok]. *)
Lemma pc_step_accepts spurious p h h' :
  pc_step spurious p h = Some (AddRefRet (Ok tt), h') -> 0 < ref_cnt h.
Proof.
  destruct p as [|cnt| | |cnt| | |cnt| |]; simpl; intros H; simplify_eq.
  - case_bool_decide; simplify_eq.
    destruct (compare_exchange_weak_cases spurious h cnt (cnt + 1))
      as [(? & ? & E)|(? & E)]; rewrite E in H; simplify_eq. lia.
  - destruct (compare_exchange_weak_cases spurious h cnt (cnt - Z.sgn cnt))
      as [(? & ? & E)|(? & E)]; rewrite E in H; simplify_eq. by case_bool_decide.
  - case_bool_decide; simplify_eq.
    destruct (compare_exchange_weak_cases spurious h cnt (- cnt + 1))
      as [(? & ? & E)|(? & E)]; rewrite E in H; simplify_eq. by case_bool_decide.
Qed.

(** ** WorkQueue lemmas *)

Section work_queue.
Context {W : Type}.
Implicit Types (q : WorkQueue W) (w : W).

Lemma pop_back_snoc (l : list W) c w :
  pop_back (mkVecDeque (l ++ [w]) c) = (Some w, mkVecDeque l c).
Proof.
  unfold pop_back. simpl. rewrite last_snoc. do 3 f_equal.
  rewrite length_app, Nat.add_1_r. simpl. by rewrite take_app_length.
Qed.

(** Shrinking the buffer never touches its contents. *)
Lemma pop_work_spec q :
  match elems (pending_work q) with
  | [] => (pop_work q).1 = None /\ elems (pending_work (pop_work q).2) = []
  | _ :: _ => exists l w, elems (pending_work q) = l ++ [w] /\
      (pop_work q).1 = Some w /\ elems (pending_work (pop_work q).2) = l
  end /\ wq_id (pop_work q).2 = wq_id q.
Proof.
  destruct q as [t [l c]]. unfold pop_work. simpl.
  destruct (_ && _); [|]; simpl;
    (destruct l as [|x l'] using rev_ind; [by unfold pop_back; simpl|]);
    unfold shrink_to_fit; simpl; rewrite pop_back_snoc; simpl;
    (split; [|done]); destruct (l' ++ [x]) eqn:E;
    try (by destruct l'); rewrite <-E; by exists l', x.
Qed.
End work_queue.

(** ** Executing interleavings *)

(** A scheduler's choice: thread [i] enters a method, takes its result, or performs
    its next access. *)
Inductive Act :=
| ABorrow (i : nat) | ABorrowRet (i : nat) | ADrop (i : nat) | AShutdown (i : nat)
| ARun (i : nat) (spurious : bool).

Definition exec1 (act : Act) (s : Sys) : option Sys :=
  let '(mkSys h ts n a) := s in
  match act with
  | ABorrow i =>
      match ts !! i with
      | Some Idle => Some (mkSys h (<[i:=AddRefLoad]> ts) n a)
      | _ => None
      end
  | ABorrowRet i =>
      match ts !! i with
      | Some (AddRefRet (Ok _)) => Some (mkSys h (<[i:=Idle]> ts) (S n) a)
      | Some (AddRefRet (Err _)) => Some (mkSys h (<[i:=Idle]> ts) n a)
      | _ => None
      end
  | ADrop i =>
      match ts !! i, n with
      | Some Idle, S n' => Some (mkSys h (<[i:=UnrefLoad]> ts) n' a)
      | _, _ => None
      end
  | AShutdown i =>
      match ts !! i with
      | Some Idle => Some (mkSys h (<[i:=ShutdownLoad]> ts) n a)
      | _ => None
      end
  | ARun i sp =>
      match ts !! i with
      | Some p =>
          match pc_step sp p h with
          | Some (p', h') => Some (mkSys h' (<[i:=p']> ts) n (a || publishes sp p h))
          | None => None
          end
      | None => None
      end
  end.

Fixpoint exec (acts : list Act) (s : Sys) : option Sys :=
  match acts with
  | [] => Some s
  | act :: acts' => match exec1 act s with Some s' => exec acts' s' | None => None end
  end.

Lemma exec1_sound act s s' : exec1 act s = Some s' -> Step s s'.
Proof.
  destruct s as [h ts n a], act as [i|i|i|i|i sp]; simpl; intros H;
    repeat case_match; simplify_eq; try (by econstructor).
  by destruct t; econstructor.
Qed.

Lemma exec_sound acts s s' : exec acts s = Some s' -> rtc Step s s'.
Proof.
  revert s. induction acts as [|act acts IH]; simpl; intros s H; [simplify_eq; constructor|].
  destruct (exec1 act s) eqn:E; [|done]. eapply rtc_l; [by eapply exec1_sound | auto].
Qed.

Definition fresh (n : nat) : Sys := mkSys CompletionQueueHandle_new (replicate n Idle) 0 false.

Lemma fresh_Init n : Init (fresh n).
Proof. repeat split. apply Forall_replicate. done. Qed.

Lemma exec_reachable n acts s : exec acts (fresh n) = Some s -> reachable Step Init s.
Proof. intros H. exists (fresh n). split; [apply fresh_Init | by eapply exec_sound]. Qed.

(** Thread 0 borrows, thread 1 asks for shutdown (with one spurious failure), and
    thread 0 releases its reference. *)
Definition demo_closing : list Act :=
  [ABorrow 0; ARun 0 false; ARun 0 false; ABorrowRet 0;
   AShutdown 1; ARun 1 false; ARun 1 true; ARun 1 false].

Definition demo_closed : list Act :=
  demo_closing ++ [ADrop 0; ARun 0 false; ARun 0 false; ARun 0 false].

(** Thread 1 asks for shutdown between the swap and the return of thread 0's borrow. *)
Definition demo_race : list Act :=
  [ABorrow 0; ARun 0 false; ARun 0 false; AShutdown 1; ARun 1 false; ARun 1 false].

(** The state a schedule of [n] threads ends in. *)
Definition demo_state (n : nat) (acts : list Act) : Sys := default (fresh n) (exec acts (fresh n)).

(** ** Properties *)

(** C12: the native completion queue is shut down at most once, and by the time that
    call is made (or is the next access of some thread) the queue was asked to shut
    down, no [CompletionQueueRef] is alive or being handed out, and the counter is 0,
    so that every later [borrow] is refused. *)
Theorem cq_native_shutdown_safe s :
  reachable Step Init s ->
  (native_shutdowns (handle s) <= 1)%nat /\
  ((0 < native_shutdowns (handle s) + sum_list_with pc_native (threads s))%nat ->
   asked s = true /\ refs s = 0%nat /\ ref_cnt (handle s) = 0 /\
   fst (add_ref (handle s)) = Err QueueShutdown).
Proof.
  intros Hr. apply reachable_Inv in Hr as HI. split.
  - destruct HI as [_ Hn]. destruct (asked s && bool_decide _); lia.
  - intros Hpos. destruct (native_excludes_refs s HI Hpos) as (Ha & Hc & H0).
    repeat split; auto; [unfold counted in Hc; lia|].
    unfold add_ref. by rewrite H0.
Qed.

Lemma cq_native_shutdown_safe_witness :
  native_shutdowns (handle (demo_state 2 demo_closed)) = 1%nat /\
  refs (demo_state 2 demo_closed) = 0%nat.
Proof.
  split; [reflexivity|].
  apply (cq_native_shutdown_safe (demo_state 2 demo_closed)).
  - apply (exec_reachable 2 demo_closed). reflexivity.
  - vm_compute. lia.
Defined.

(** C26: once a shutdown was asked, the last reference is dropped and all threads have
    returned, the native queue has been shut down, exactly once. *)
Theorem cq_native_shutdown_happens s :
  reachable Step Init s ->
  asked s = true -> refs s = 0%nat -> Forall (fun p => p = Idle) (threads s) ->
  native_shutdowns (handle s) = 1%nat.
Proof.
  intros Hr Ha Hz Hidle. apply reachable_Inv in Hr as [_ Hn].
  assert (forall f, f Idle = 0%nat -> sum_list_with f (threads s) = 0%nat) as Hsum.
  { intros f Hf. apply sum_list_with_zero. by eapply Forall_impl; [exact Hidle|]; intros ? ->. }
  assert (counted s = 0%nat) as Hc by (unfold counted; rewrite Hsum by done; lia).
  rewrite Ha, Hsum, Hc in Hn by done. simpl in Hn. lia.
Qed.

Lemma cq_native_shutdown_happens_witness :
  native_shutdowns (handle (demo_state 2 demo_closed)) = 1%nat.
Proof.
  apply cq_native_shutdown_happens; try reflexivity.
  - apply (exec_reachable 2 demo_closed). reflexivity.
  - vm_compute. repeat constructor.
Defined.

(** C17: the compare-and-swap loops, under every interleaving and with spurious
    failures, implement the contract [Spec]: borrows until asked to stop, then one
    stop when the last reference is gone. *)
Theorem cq_refines_spec s0 s :
  Init s0 -> rtc Step s0 s -> rtc SpecStep (mkSpec 0 false 0) (absr s).
Proof.
  intros H0 Hr. pose proof (Spec_reached _ _ Hr (Init_Inv _ H0)) as Hsp.
  destruct H0 as (Hh & Hidle & Hz & Ha). revert Hsp.
  unfold absr at 1, counted. rewrite Hh, Hz, Ha, sum_list_with_zero; [done|].
  by eapply Forall_impl; [exact Hidle|]; intros ? ->.
Qed.

Lemma cq_refines_spec_witness : rtc SpecStep (mkSpec 0 false 0) (mkSpec 0 true 1).
Proof.
  exact (cq_refines_spec (fresh 2) (demo_state 2 demo_closed) (fresh_Init 2)
           (exec_sound demo_closed (fresh 2) _ eq_refl)).
Defined.

(** After a shutdown was asked no [add_ref] in progress or started later
    succeeds: no step makes a thread return [Ok] from it. *)
Theorem cq_no_borrow_after_shutdown s s' i :
  reachable Step Init s -> asked s = true -> Step s s' ->
  threads s' !! i = Some (AddRefRet (Ok tt)) -> threads s !! i = Some (AddRefRet (Ok tt)).
Proof.
  intros Hr Ha Hst Hi. apply reachable_Inv in Hr as [Hc _]. rewrite Ha in Hc.
  destruct Hst as
    [h ts j n a Hj|h ts j n a Hj|h ts j n a e Hj|h ts j n a Hj|h ts j n a Hj
    |h ts j n a sp p p' h' Hj Hrun]; simpl in *; subst a.
  1-5: destruct (decide (i = j)) as [->|Hne];
    [rewrite list_lookup_insert_eq in Hi by (by eapply lookup_lt_Some); simplify_eq
    | by rewrite list_lookup_insert_ne in Hi].
  destruct (decide (i = j)) as [->|Hne]; [|by rewrite list_lookup_insert_ne in Hi].
  rewrite list_lookup_insert_eq in Hi by (by eapply lookup_lt_Some). simplify_eq.
  apply pc_step_accepts in Hrun. lia.
Qed.

(** Thread 0 took a reference before thread 1 published its shutdown; it still
    returns [Ok] when thread 1 goes on. *)
Lemma cq_no_borrow_after_shutdown_witness :
  exists s', exec1 (AShutdown 1) (demo_state 2 demo_race) = Some s' /\
    asked (demo_state 2 demo_race) = true /\
    threads (demo_state 2 demo_race) !! 0%nat = Some (AddRefRet (Ok tt)).
Proof.
  eexists. split; [reflexivity|]. split; [reflexivity|].
  eapply (cq_no_borrow_after_shutdown (demo_state 2 demo_race)).
  - apply (exec_reachable 2 demo_race). reflexivity.
  - reflexivity.
  - apply (exec1_sound (AShutdown 1)). reflexivity.
  - reflexivity.
Defined.

(** Run without interference, each method performs at most three accesses and has
    the effect of [add_ref], [unref] or [shutdown]: the loops terminate, a borrow is
    refused exactly when the counter is not positive, and whoever brings the counter to
    zero calls the native shutdown. *)
Theorem cq_methods_sequential h :
  run_alone 3 AddRefLoad h = Some (AddRefRet (fst (add_ref h)), snd (add_ref h)) /\
  run_alone 3 UnrefLoad h = Some (Idle, unref h) /\
  run_alone 3 ShutdownLoad h = Some (Idle, shutdown h).
Proof.
  destruct h as [c n]. repeat split; simpl; unfold add_ref, unref, shutdown,
    compare_exchange_weak; simpl; rewrite ?(bool_decide_eq_true_2 (c = c)) by done;
    repeat case_bool_decide; simpl; auto; try done;
    rewrite ?(bool_decide_eq_true_2 (c = c)) by done; simpl;
    repeat case_bool_decide; simpl; auto; lia.
Qed.

(** C40: the counter stays within an [isize] as long as fewer than [2^63 - 2]
    references are held, so neither [cnt + 1] nor [-cnt + 1] overflows. *)
Theorem cq_counter_fits_isize s :
  reachable Step Init s -> Z.of_nat (counted s) < 2 ^ 63 - 2 ->
  ISIZE_MIN <= ref_cnt (handle s) < ISIZE_MAX /\
  ISIZE_MIN <= ref_cnt (handle s) + 1 <= ISIZE_MAX /\
  ISIZE_MIN <= - ref_cnt (handle s) + 1 <= ISIZE_MAX.
Proof.
  intros Hr Hb. apply reachable_Inv in Hr as [Hc _]. unfold ISIZE_MIN, ISIZE_MAX.
  destruct (asked s); rewrite Hc; lia.
Qed.

Lemma cq_counter_fits_isize_witness :
  ISIZE_MIN <= ref_cnt (handle (demo_state 2 demo_closing)) < ISIZE_MAX.
Proof.
  apply (cq_counter_fits_isize (demo_state 2 demo_closing)).
  - apply (exec_reachable 2 demo_closing). reflexivity.
  - vm_compute. reflexivity.
Defined.

(** A work queue is a stack owned by its thread: work pushed by the owner is the
    next one popped and leaves the rest as it was, whatever shrinking of the buffer
    happens, and work offered by another thread is handed back with the queue
    untouched. *)
Theorem work_queue_owner_stack {W : Type} (q : WorkQueue W) (w : W) (current : ThreadId) :
  (current = wq_id q ->
   (push_work current w q).1 = None /\
   (pop_work (push_work current w q).2).1 = Some w /\
   elems (pending_work (pop_work (push_work current w q).2).2) = elems (pending_work q)) /\
  (current <> wq_id q -> push_work current w q = (Some w, q)).
Proof.
  unfold push_work. split; intros Hid.
  - rewrite bool_decide_eq_true_2 by done. split; [done|].
    destruct (pop_work_spec (mkWorkQueue (wq_id q) (push_back w (pending_work q)))) as [Hp _].
    simpl in Hp. destruct (elems (pending_work q) ++ [w]) as [|a0 l0] eqn:E; [by destruct (elems (pending_work q))|].
    destruct Hp as (l & x & El & Hr & Hl). rewrite <-E in El.
    apply app_inj_tail in El as [-> ->]. by simpl in *.
  - rewrite bool_decide_eq_false_2 by done. done.
Qed.

Lemma work_queue_owner_stack_witness :
  (pop_work (push_work 7%nat true (WorkQueue_new 7%nat)).2).1 = Some true /\
  push_work 8%nat true (WorkQueue_new 7%nat) = (Some true, WorkQueue_new 7%nat).
Proof.
  split.
  - exact (proj1 (proj2 (proj1 (work_queue_owner_stack (WorkQueue_new 7%nat) true 7%nat) eq_refl))).
  - apply (proj2 (work_queue_owner_stack (WorkQueue_new 7%nat) true 8%nat)). done.
Defined.
