(* ===== verification/Executor.v ===== *)
(** The executor of spawned futures: src/src/task/executor.rs.

    A [SpawnTask] is shared by the poll thread that drives its future and by every
    thread that owns a waker of it; all they share is the atomic [state].  Each
    function is a program counter whose steps are its atomic accesses, as in [Cq], so
    that wakes and polls interleave arbitrarily.  A wake that runs inside the polled
    future on the same thread is an activity of its own. *)

From S2P Require Import Prelude Status Cq.

(** ** The states of a task *)

Definition NOTIFIED : Z := 1.
Definition IDLE : Z := 2.
Definition POLLING : Z := 3.
Definition COMPLETED : Z := 4.

(** [SpawnTask]: [task_future] is [true] while the cell holds the future. *)
Record SpawnTask := mkTask { task_state : Z; task_future : bool }.

Definition SpawnTask_new : SpawnTask := {| task_state := IDLE; task_future := true |}.

(** Where an activity is: in [mark_notified] ([Wake..]), about to schedule the task
    after [mark_notified] returned [true], or in [poll] with its [init_state]. *)
Inductive epc :=
| WakeCas1 | WakeCas2 | WakeSchedule
| PollCas (init_state : Z) | PollRun (init_state : Z) | PollStore (init_state : Z)
| PollTake (init_state : Z) | PollRelease (init_state : Z)
| Returned
| Crashed (msg : string).

#[export] Instance epc_eq_dec : EqDecision epc.
Proof. solve_decision. Defined.

(** [AtomicU8::compare_exchange], and its weak form when [spurious]. *)
Definition cas (spurious : bool) (t : SpawnTask) (current new : Z) : Result Z Z * SpawnTask :=
  if bool_decide (task_state t = current) && negb spurious
  then (Ok current, {| task_state := new; task_future := task_future t |})
  else (Err (task_state t), t).

(** One access of [mark_notified]; [Returned] is the result [false], on which
    [wake_by_ref] returns at once, [WakeSchedule] the result [true]. *)
Definition mark_notified_step (spurious : bool) (p : epc) (t : SpawnTask) :
    option (epc * SpawnTask) :=
  match p with
  | WakeCas1 =>
      match cas spurious t IDLE NOTIFIED with
      | (Ok _, t') => Some (WakeSchedule, t')
      | (Err s, t') =>
          if bool_decide (s = POLLING) then Some (WakeCas2, t')
          else if bool_decide (s = IDLE) then Some (WakeCas1, t')
          else Some (Returned, t')
      end
  | WakeCas2 =>
      match cas spurious t POLLING NOTIFIED with
      | (Err s, t') =>
          if bool_decide (s = IDLE) || bool_decide (s = POLLING)
          then Some (WakeCas1, t') else Some (Returned, t')
      | (Ok _, t') => Some (Returned, t')
      end
  | _ => None
  end.

(** One access of [poll]; [ready] is what the future answers when it is polled. *)
Definition poll_step (ready : bool) (p : epc) (t : SpawnTask) : option (epc * SpawnTask) :=
  match p with
  | PollCas init_state =>
      match cas false t init_state POLLING with
      | (Ok _, t') => Some (PollRun init_state, t')
      | (Err s, t') =>
          if bool_decide (s = COMPLETED) then Some (Returned, t')
          else Some (Crashed "unexpected state", t')
      end
  | PollRun init_state =>
      if task_future t
      then Some (if ready then PollStore init_state else PollRelease init_state, t)
      else Some (Crashed "called `Option::unwrap()` on a `None` value", t)
  | PollStore init_state =>
      Some (PollTake init_state, {| task_state := COMPLETED; task_future := task_future t |})
  | PollTake init_state =>
      Some (PollCas init_state, {| task_state := task_state t; task_future := false |})
  | PollRelease init_state =>
      match cas false t POLLING IDLE with
      | (Ok _, t') => Some (Returned, t')
      | (Err s, t') =>
          if bool_decide (s = NOTIFIED) then Some (PollCas NOTIFIED, t')
          else Some (Crashed "unexpected state", t')
      end
  | _ => None
  end.

(** [executor::resolve], from a popped [UnfinishedWork] or a [CallTag::Spawn]. *)
Definition resolve (success : bool) : epc :=
  if success then PollCas NOTIFIED else Crashed "assertion failed: success".

(** [Executor::spawn]: a fresh task and the first poll, [woken = false]. *)
Definition spawn : SpawnTask * epc := (SpawnTask_new, PollCas IDLE).

(** ** A task and its surroundings *)

(** [acts]: the activities with the thread they run on; [queue]: the work queue of the
    poll thread, holding this task when it was woken there; [tags]: [CallTag::Spawn]
    tags of this task in the completion queue; [dropped]: tags given up because the
    completion queue was shut down.  [waker] says that a waker of the task exists: one
    is made only when the task is first polled.  [owed] says that a wake has marked the
    task since a poll last began. *)
Record ESys := mkESys {
  task : SpawnTask;
  acts : list (ThreadId * epc);
  queue : WorkQueue unit;
  tags : nat;
  dropped : nat;
  cq : CompletionQueueHandle;
  waker : bool;
  owed : bool;
}.

(** What the rest of [wake_by_ref] did with the task. *)
Inductive scheduled := InQueue (q : WorkQueue unit) | InCq | Dropped | KickFailed.

(** [wake_by_ref] after [mark_notified] returned [true], with [Kicker::kick]: push the
    work when on the poll thread, otherwise kick the completion queue with a tag.
    [status] is the answer of [grpcwrap_call_kick_completion_queue]. *)
Definition wake_schedule (current : ThreadId) (status : grpc_call_error)
    (q : WorkQueue unit) (h : CompletionQueueHandle) : scheduled * CompletionQueueHandle :=
  match push_work current tt q with
  | (None, q') => (InQueue q', h)
  | (Some _, _) =>
      match add_ref h with
      | (Err _, h') => (Dropped, h')
      | (Ok _, h') =>
          if bool_decide (status = GRPC_CALL_OK)
          then (InCq, unref h') else (KickFailed, unref h')
      end
  end.

Section system.
(** The answers of the core to a kick, and the success flag of its event. *)
Context (kick_status : grpc_call_error) (tag_success : bool).

(** A wake that has taken effect or found the task already notified. *)
Definition marks (p p' : epc) (t t' : SpawnTask) : bool :=
  match p with
  | WakeCas1 | WakeCas2 =>
      match p' with
      | WakeSchedule => true
      | Returned => bool_decide (task_state t' = NOTIFIED)
      | _ => false
      end
  | _ => false
  end.

Definition starts_poll (p' : epc) : bool :=
  match p' with PollRun _ => true | _ => false end.

Definition run_step (spurious ready : bool) (p : epc) (t : SpawnTask) :
    option (epc * SpawnTask) :=
  match p with
  | WakeCas1 | WakeCas2 => mark_notified_step spurious p t
  | _ => poll_step ready p t
  end.

Inductive EStep : ESys -> ESys -> Prop :=
| EWake t a i id q n d h o :
    a !! i = Some (id, Returned) ->
    EStep (mkESys t a q n d h true o) (mkESys t (<[i:=(id, WakeCas1)]> a) q n d h true o)
| EAccess t a i id q n d h w o spurious ready p p' t' :
    a !! i = Some (id, p) -> run_step spurious ready p t = Some (p', t') ->
    EStep (mkESys t a q n d h w o)
      (mkESys t' (<[i:=(id, p')]> a) q n d h (w || starts_poll p')
         ((o || marks p p' t t') && negb (match p with PollCas _ => starts_poll p' | _ => false end)))
| EQueue t a i id q n d h w o q' h' :
    a !! i = Some (id, WakeSchedule) -> wake_schedule id kick_status q h = (InQueue q', h') ->
    EStep (mkESys t a q n d h w o) (mkESys t (<[i:=(id, Returned)]> a) q' n d h' w o)
| EKick t a i id q n d h w o h' :
    a !! i = Some (id, WakeSchedule) -> wake_schedule id kick_status q h = (InCq, h') ->
    EStep (mkESys t a q n d h w o) (mkESys t (<[i:=(id, Returned)]> a) q (S n) d h' w o)
| EDropTag t a i id q n d h w o h' :
    a !! i = Some (id, WakeSchedule) -> wake_schedule id kick_status q h = (Dropped, h') ->
    EStep (mkESys t a q n d h w o) (mkESys t (<[i:=(id, Returned)]> a) q n (S d) h' w o)
| EKickFail t a i id q n d h w o h' :
    a !! i = Some (id, WakeSchedule) -> wake_schedule id kick_status q h = (KickFailed, h') ->
    EStep (mkESys t a q n d h w o)
      (mkESys t (<[i:=(id, Crashed "unexpected error when canceling call")]> a) q n d h' w o)
| EPop t a i id q n d h w o q' :
    a !! i = Some (id, Returned) -> id = wq_id q -> pop_work q = (Some tt, q') ->
    EStep (mkESys t a q n d h w o) (mkESys t (<[i:=(id, resolve true)]> a) q' n d h w o)
| ETag t a i id q n d h w o :
    a !! i = Some (id, Returned) -> id = wq_id q ->
    EStep (mkESys t a q (S n) d h w o) (mkESys t (<[i:=(id, resolve tag_success)]> a) q n d h w o)
| ECq t a q n d h w o h' :
    h' = snd (add_ref h) \/ h' = unref h \/ h' = shutdown h ->
    EStep (mkESys t a q n d h w o) (mkESys t a q n d h' w o).

(** A task that was just spawned: its first poll is about to run on some thread. *)
Definition EInit (s : ESys) : Prop :=
  task s = fst spawn /\ (exists i id, acts s !! i = Some (id, snd spawn) /\
    forall j id' p, acts s !! j = Some (id', p) -> j <> i -> p = Returned) /\
  elems (pending_work (queue s)) = [] /\ tags s = 0 /\ dropped s = 0 /\
  waker s = false /\ owed s = false.
End system.

(** ** The single-driver invariant *)

(** Who is responsible for polling the task next: an activity about to schedule it or
    inside [poll]. *)
Definition drives (p : epc) : nat :=
  match p with
  | WakeSchedule | PollCas _ | PollRun _ | PollStore _ | PollTake _ | PollRelease _ => 1
  | WakeCas1 | WakeCas2 | Returned | Crashed _ => 0
  end.

Definition act_drives (a : ThreadId * epc) : nat := drives a.2.

Definition parked (s : ESys) : nat :=
  length (elems (pending_work (queue s))) + tags s + dropped s.

Definition drivers (s : ESys) : nat := parked s + sum_list_with act_drives (acts s).

(** What the task's state must be for an activity to be where it is. *)
Definition pc_ok (st : Z) (w : bool) (p : epc) : Prop :=
  match p with
  | WakeCas1 | WakeCas2 => w = true
  | WakeSchedule => st = NOTIFIED
  | PollCas init => (init = NOTIFIED /\ w = true \/ init = IDLE /\ w = false /\ st = init \/
                     init = IDLE /\ st = COMPLETED) /\ (st = init \/ st = COMPLETED)
  | PollRun init | PollStore init | PollRelease init =>
      (init = NOTIFIED \/ init = IDLE) /\ w = true /\ (st = POLLING \/ st = NOTIFIED)
  | PollTake init => (init = NOTIFIED \/ init = IDLE) /\ w = true /\ st = COMPLETED
  | Returned => True
  | Crashed _ => False
  end.

Record EInv (s : ESys) : Prop := mkEInv {
  einv_drivers :
    (task_state (task s) = IDLE /\ drivers s = (if waker s then 0 else 1)) \/
    (task_state (task s) = NOTIFIED /\ waker s = true /\ drivers s = 1) \/
    (task_state (task s) = POLLING /\ waker s = true /\ drivers s = 1) \/
    (task_state (task s) = COMPLETED /\ waker s = true /\ drivers s <= 1);
  einv_pcs : forall i id p, acts s !! i = Some (id, p) -> pc_ok (task_state (task s)) (waker s) p;
  einv_parked : 0 < parked s -> task_state (task s) = NOTIFIED;
  einv_future : task_future (task s) = false -> task_state (task s) = COMPLETED;
  einv_owed : owed s = true -> task_state (task s) = NOTIFIED \/ task_state (task s) = COMPLETED;
}.

(** An activity that does not drive the task is fine in every state. *)
Lemma pc_ok_bystander st st' w w' p :
  drives p = 0 -> pc_ok st w p -> (w = true -> w' = true) -> pc_ok st' w' p.
Proof. destruct p; simpl; intros ? Hok Hw; auto; done. Qed.

(** Being notified while it is polled disturbs nobody. *)
Lemma pc_ok_notify w p : pc_ok POLLING w p -> pc_ok NOTIFIED w p.
Proof. destruct p; simpl; unfold POLLING, NOTIFIED, COMPLETED, IDLE; intuition lia. Qed.

Lemma sum_two {A} (f : A -> nat) (l : list A) i j x y :
  i <> j -> l !! i = Some x -> l !! j = Some y -> f x + f y <= sum_list_with f l.
Proof.
  revert i j. induction l as [|a l IH]; intros [|i] [|j] Hne Hi Hj; simpl in *; simplify_eq.
  - pose proof (sum_list_with_lookup_le f l j y Hj). lia.
  - pose proof (sum_list_with_lookup_le f l i x Hi). lia.
  - assert (i <> j) as Hne' by lia. specialize (IH i j Hne' Hi Hj). lia.
Qed.

(** Updating activity [i]: its own obligation, and the others'. *)
Lemma pcs_update st' w' (a : list (ThreadId * epc)) i id p :
  pc_ok st' w' p ->
  (forall j id' p', a !! j = Some (id', p') -> j <> i -> pc_ok st' w' p') ->
  forall j id' p', <[i:=(id, p)]> a !! j = Some (id', p') -> pc_ok st' w' p'.
Proof.
  intros Hi Ho j id' p' Hj. destruct (decide (i = j)) as [->|Hne].
  - apply list_lookup_insert_Some in Hj as [(_ & E & _)|(? & _)]; by simplify_eq.
  - rewrite list_lookup_insert_ne in Hj by done. by eapply Ho.
Qed.

(** The sum over activities after one of them moved. *)
Lemma act_drives_insert (a : list (ThreadId * epc)) i id p p' :
  a !! i = Some (id, p) ->
  sum_list_with act_drives (<[i:=(id, p')]> a) + drives p =
  sum_list_with act_drives a + drives p'.
Proof. intros Hi. apply (sum_list_with_insert act_drives a i (id, p) (id, p') Hi). Qed.

Lemma EInit_EInv s : EInit s -> EInv s.
Proof.
  intros (Ht & (i & id & Hi & Ho) & Hq & Hn & Hd & Hw & Hob).
  assert (sum_list_with act_drives (acts s) = 1) as Hsum.
  { pose proof (act_drives_insert _ i _ _ Returned Hi) as E.
    rewrite (sum_list_with_zero act_drives (<[i:=(id, Returned)]> (acts s))) in E.
    - simpl in E. lia.
    - apply Forall_forall. intros [id' p] (j & Hj)%list_elem_of_lookup.
      apply list_lookup_insert_Some in Hj as [(-> & E' & _)|(Hne & Hj)].
      + by simplify_eq.
      + by rewrite (Ho _ _ _ Hj (not_eq_sym Hne)). }
  assert (parked s = 0) as Hp by (unfold parked; rewrite Hq, Hn, Hd; done).
  constructor.
  - left. unfold drivers. rewrite Ht, Hw, Hp, Hsum. done.
  - intros j id' p Hj. destruct (decide (j = i)) as [->|Hne].
    + rewrite Hi in Hj. simplify_eq. rewrite Ht, Hw. split; [right; left | left]; auto.
    + by rewrite (Ho _ _ _ Hj Hne).
  - rewrite Hp. lia.
  - rewrite Ht. done.
  - rewrite Hob. done.
Qed.

Lemma drivers_le_1 s : EInv s -> drivers s <= 1.
Proof. intros [H _ _ _ _]. destruct (waker s); intuition lia. Qed.

(** A driving activity is the only one, and nothing is parked. *)
Lemma driver_alone s i id p :
  EInv s -> acts s !! i = Some (id, p) -> drives p = 1 ->
  parked s = 0 /\ drivers s = 1 /\
  forall j id' p', acts s !! j = Some (id', p') -> j <> i -> drives p' = 0.
Proof.
  intros HI Hi Hd. pose proof (drivers_le_1 s HI) as Hle. unfold drivers in *.
  pose proof (sum_list_with_lookup_le act_drives _ _ _ Hi) as Hge.
  unfold act_drives in Hge at 1. simpl in Hge.
  split; [lia|]. split; [lia|]. intros j id' p' Hj Hne.
  pose proof (sum_two act_drives _ _ _ _ _ Hne Hj Hi) as H2.
  unfold act_drives in H2 at 1 2. simpl in H2. lia.
Qed.

(** When nobody drives the task, nothing is parked and no activity drives it. *)
Lemma nobody_drives s : drivers s = 0 ->
  parked s = 0 /\ forall j id' p', acts s !! j = Some (id', p') -> drives p' = 0.
Proof.
  unfold drivers. intros H. split; [lia|]. intros j id' p' Hj.
  pose proof (sum_list_with_lookup_le act_drives _ _ _ Hj) as Hge.
  unfold act_drives in Hge at 1. simpl in Hge. lia.
Qed.

(** Bystanders stay fine whatever happens to the state. *)
Lemma others_bystanders s i st' w' :
  EInv s -> (waker s = true -> w' = true) ->
  (forall j id' p', acts s !! j = Some (id', p') -> j <> i -> drives p' = 0) ->
  forall j id' p', acts s !! j = Some (id', p') -> j <> i -> pc_ok st' w' p'.
Proof.
  intros HI Hw Ho j id' p' Hj Hne. eapply pc_ok_bystander; [by eapply Ho| |exact Hw].
  by eapply einv_pcs.
Qed.

Lemma cas_cases spurious t cur new :
  (task_state t = cur /\ cas spurious t cur new = (Ok cur, mkTask new (task_future t))) \/
  cas spurious t cur new = (Err (task_state t), t).
Proof. unfold cas. case_bool_decide; destruct spurious; simpl; auto. Qed.
Lemma cas_hit t cur new :
  task_state t = cur -> cas false t cur new = (Ok cur, mkTask new (task_future t)).
Proof. intros H. unfold cas. by rewrite bool_decide_eq_true_2. Qed.
Lemma cas_miss t cur new :
  task_state t <> cur -> cas false t cur new = (Err (task_state t), t).
Proof. intros H. unfold cas. by rewrite bool_decide_eq_false_2. Qed.

Ltac states := unfold NOTIFIED, IDLE, POLLING, COMPLETED in *.

(** One activity moves from [p] to [p'] and the task from its state to [t']. *)
Lemma EInv_move s i id p p' t' (w' o' : bool) :
  EInv s -> acts s !! i = Some (id, p) ->
  (forall d, d + drives p = drivers s + drives p' ->
    (task_state t' = IDLE /\ d = (if w' then 0 else 1)) \/
    (task_state t' = NOTIFIED /\ w' = true /\ d = 1) \/
    (task_state t' = POLLING /\ w' = true /\ d = 1) \/
    (task_state t' = COMPLETED /\ w' = true /\ d <= 1)) ->
  pc_ok (task_state t') w' p' ->
  (forall j id' q, acts s !! j = Some (id', q) -> j <> i -> pc_ok (task_state t') w' q) ->
  (0 < parked s -> task_state t' = NOTIFIED) ->
  (task_future t' = false -> task_state t' = COMPLETED) ->
  (o' = true -> task_state t' = NOTIFIED \/ task_state t' = COMPLETED) ->
  EInv (mkESys t' (<[i:=(id, p')]> (acts s)) (queue s) (tags s) (dropped s) (cq s) w' o').
Proof.
  intros HI Hi Hd Hp Ho Hpk Hf Hob. constructor; simpl; auto.
  - apply Hd. unfold drivers at 1. simpl.
    pose proof (act_drives_insert _ i id p p' Hi). unfold drivers, parked in *. simpl. lia.
  - by apply pcs_update.
Qed.

(** A wake preserves the invariant, whatever its accesses find. *)
Lemma wake_access_inv s i id p spurious ready p' t' :
  EInv s -> acts s !! i = Some (id, p) -> (p = WakeCas1 \/ p = WakeCas2) ->
  run_step spurious ready p (task s) = Some (p', t') ->
  EInv (mkESys t' (<[i:=(id, p')]> (acts s)) (queue s) (tags s) (dropped s) (cq s)
          (waker s || starts_poll p') ((owed s || marks p p' (task s) t') && true)).
Proof.
  intros HI Hi Hp Hrun. pose proof (einv_pcs s HI _ _ _ Hi) as Hok.
  pose proof (einv_drivers s HI) as Hd.
  assert (waker s = true) as Hw by (destruct Hp as [-> | ->]; exact Hok).
  assert (drives p = 0) as Hdp by (by destruct Hp as [-> | ->]).
  assert (forall q, (q = WakeCas1 \/ q = WakeCas2 \/ q = Returned) ->
    EInv (mkESys (task s) (<[i:=(id, q)]> (acts s)) (queue s) (tags s) (dropped s) (cq s)
            (waker s || starts_poll q) ((owed s || marks p q (task s) (task s)) && true))) as Hmiss.
  { intros q Hq. assert (drives q = 0 /\ starts_poll q = false) as [Hdq Hsq]
      by (by destruct Hq as [-> | [-> | ->]]).
    rewrite Hsq, orb_false_r, andb_true_r. eapply EInv_move; eauto using einv_parked, einv_future.
    - intros d E. assert (d = drivers s) as -> by lia. exact Hd.
    - by destruct Hq as [-> | [-> | ->]].
    - intros j id' q' Hj _. by eapply einv_pcs.
    - intros [Ho|Hm]%orb_true_iff; [by apply einv_owed|].
      destruct Hp as [-> | ->], Hq as [-> | [-> | ->]]; simpl in Hm; try done;
        case_bool_decide; auto; done. }
  destruct Hp as [-> | ->]; simpl in Hrun.
  - destruct (cas_cases spurious (task s) IDLE NOTIFIED) as [[Hst E]|E]; rewrite E in Hrun;
      [|repeat case_bool_decide; simplify_eq; auto].
    simplify_eq. assert (drivers s = 0) as H0.
    { rewrite Hst, Hw in Hd. states. intuition lia. }
    destruct (nobody_drives s H0) as [Hpk Hnd].
    rewrite Hw. simpl. eapply EInv_move; eauto; simpl; auto; try lia.
    + eapply others_bystanders; eauto.
    + intros Hf. apply einv_future in Hf; [|done]. rewrite Hst in Hf. states. lia.
  - destruct (cas_cases spurious (task s) POLLING NOTIFIED) as [[Hst E]|E]; rewrite E in Hrun;
      [|destruct (_ || _); simplify_eq; auto].
    simplify_eq. rewrite Hw. simpl. eapply EInv_move; eauto; simpl; auto.
    + intros d Ed. right. left. rewrite Hst, Hw in Hd. states. intuition lia.
    + intros j id' q Hj _. apply pc_ok_notify. rewrite <-Hst, <-Hw. by eapply einv_pcs.
    + intros Hf. apply einv_future in Hf; [|done]. rewrite Hst in Hf. states. lia.
Qed.

(** A driving activity moves: everybody else is a bystander, nothing is parked. *)
Lemma EInv_drive s i id p p' t' (w' o' : bool) :
  EInv s -> acts s !! i = Some (id, p) -> drives p = 1 -> (waker s = true -> w' = true) ->
  (task_state t' = IDLE /\ drives p' = (if w' then 0 else 1) \/
   (task_state t' = NOTIFIED \/ task_state t' = POLLING) /\ w' = true /\ drives p' = 1 \/
   task_state t' = COMPLETED /\ w' = true) ->
  pc_ok (task_state t') w' p' ->
  (task_future t' = false -> task_state t' = COMPLETED) ->
  (o' = true -> task_state t' = NOTIFIED \/ task_state t' = COMPLETED) ->
  EInv (mkESys t' (<[i:=(id, p')]> (acts s)) (queue s) (tags s) (dropped s) (cq s) w' o').
Proof.
  intros HI Hi Hd Hw Hst Hp Hf Ho.
  destruct (driver_alone s i id p HI Hi Hd) as (Hpk & Hone & Halone).
  eapply EInv_move; eauto; try lia.
  - intros d E. assert (d = drives p') as -> by lia.
    assert (drives p' <= 1) by (destruct p'; simpl; lia). intuition lia.
  - eapply others_bystanders; eauto.
Qed.

Lemma poll_access_inv s i id p spurious ready p' t' :
  EInv s -> acts s !! i = Some (id, p) -> p <> WakeCas1 -> p <> WakeCas2 ->
  run_step spurious ready p (task s) = Some (p', t') ->
  EInv (mkESys t' (<[i:=(id, p')]> (acts s)) (queue s) (tags s) (dropped s) (cq s)
          (waker s || starts_poll p')
          ((owed s || marks p p' (task s) t') &&
           negb (match p with PollCas _ => starts_poll p' | _ => false end))).
Proof.
  intros HI Hi Hn1 Hn2 Hrun. pose proof (einv_pcs s HI _ _ _ Hi) as Hok.
  pose proof (einv_future s HI) as Hfut. pose proof (einv_owed s HI) as Howed.
  assert ((owed s || false) && true = true ->
    task_state (task s) = NOTIFIED \/ task_state (task s) = COMPLETED) as Howed'.
  { intros [Hb _]%andb_true_iff. rewrite orb_false_r in Hb. auto. }
  destruct p as [| | |init|init|init|init|init| |]; try done; simpl in Hrun; simpl in Hok.
  - destruct Hok as [Hinit [Hst|Hst]].
    + rewrite cas_hit in Hrun by done. simplify_eq.
      rewrite orb_true_r, andb_false_r.
      eapply EInv_drive; eauto; simpl; try done; [right; left; auto| |].
      * split; [|auto]. destruct Hinit as [[? _]|[[? _]|[? _]]]; auto.
      * intros Hf. specialize (Hfut Hf). states. intuition lia.
    + rewrite cas_miss in Hrun by (rewrite Hst; states; intuition lia).
      rewrite bool_decide_eq_true_2 in Hrun by done. simplify_eq. simpl.
      rewrite orb_false_r. eapply EInv_drive; eauto; simpl; auto.
      right; right. split; [done|].
      pose proof (einv_drivers s HI) as Hd. rewrite Hst in Hd. states. intuition lia.
  - destruct Hok as (Hinit & Hw & Hst).
    assert (task_future (task s) = true) as Hf.
    { destruct (task_future (task s)) eqn:E; [done|]. specialize (Hfut eq_refl).
      states. intuition lia. }
    rewrite Hf in Hrun. simplify_eq. rewrite Hw.
    destruct ready; (eapply EInv_drive; [done|exact Hi|done|done| | | |]; simpl;
      [right; left; intuition auto | auto | congruence | exact Howed']).
  - simplify_eq. destruct Hok as (Hinit & Hw & Hst). rewrite Hw.
    eapply EInv_drive; eauto; simpl; auto.
  - simplify_eq. destruct Hok as (Hinit & Hw & Hst). rewrite Hw.
    eapply EInv_drive; eauto; simpl; auto. split; [|by right].
    destruct Hinit; auto.
  - destruct Hok as (Hinit & Hw & [Hst|Hst]).
    + rewrite cas_hit in Hrun by done. simplify_eq. rewrite Hw.
      eapply EInv_drive; eauto; simpl; auto.
      * intros Hf. specialize (Hfut Hf). states. lia.
      * intros Hb%Howed'. states. lia.
    + rewrite cas_miss in Hrun by (rewrite Hst; states; lia).
      rewrite bool_decide_eq_true_2 in Hrun by done. simplify_eq. rewrite Hw.
      eapply EInv_drive; eauto; simpl; auto.
Qed.

Section preservation.
Context (kick_status : grpc_call_error) (tag_success : bool).
Context (Hkick : kick_status = GRPC_CALL_OK) (Htag : tag_success = true).

(** The number of parked wake-ups and of drivers after the task changes hands. *)
Lemma EInv_handover s i id p p' q' n' d' h' :
  EInv s -> acts s !! i = Some (id, p) ->
  length (elems (pending_work q')) + n' + d' + drives p' = parked s + drives p ->
  (0 < parked s + drives p -> task_state (task s) = NOTIFIED) ->
  pc_ok (task_state (task s)) (waker s) p' ->
  EInv (mkESys (task s) (<[i:=(id, p')]> (acts s)) q' n' d' h' (waker s) (owed s)).
Proof.
  intros HI Hi Hbal Hst Hp. constructor; simpl; eauto using einv_future, einv_owed.
  - pose proof (act_drives_insert _ i id p p' Hi) as E.
    pose proof (einv_drivers s HI) as Hd. unfold drivers, parked in *. simpl in *.
    replace (length (elems (pending_work q')) + n' + d' +
      sum_list_with act_drives (<[i:=(id, p')]> (acts s))) with
      (length (elems (pending_work (queue s))) + tags s + dropped s +
       sum_list_with act_drives (acts s)) by lia. exact Hd.
  - apply pcs_update; [done|]. intros j id' q Hj _. by eapply einv_pcs.
  - unfold parked at 1. simpl. intros H. apply Hst. lia.
Qed.

Lemma EStep_EInv s s' : EInv s -> EStep kick_status tag_success s s' -> EInv s'.
Proof.
  intros HI Hst. destruct Hst as
    [t a i id q n d h o Hi|t a i id q n d h w o sp rd p p' t' Hi Hrun
    |t a i id q n d h w o q' h' Hi Hs|t a i id q n d h w o h' Hi Hs
    |t a i id q n d h w o h' Hi Hs|t a i id q n d h w o h' Hi Hs
    |t a i id q n d h w o q' Hi Hid Hpop|t a i id q n d h w o Hi Hid|t a q n d h w o h' Hcq].
  - apply (EInv_handover _ i id Returned WakeCas1 q n d h HI Hi); simpl; auto.
    intros Hp. apply (einv_parked _ HI). unfold parked in *. simpl in *. lia.
  - destruct (decide (p = WakeCas1)) as [->|H1]; [|destruct (decide (p = WakeCas2)) as [->|H2]].
    + eapply (wake_access_inv _ i id WakeCas1 sp rd p' t' HI Hi); auto.
    + eapply (wake_access_inv _ i id WakeCas2 sp rd p' t' HI Hi); auto.
    + by eapply (poll_access_inv _ i id p sp rd p' t' HI Hi).
  - unfold wake_schedule, push_work in Hs. case_bool_decide as Hown; simplify_eq;
      [|repeat case_match; simplify_eq].
    pose proof (einv_pcs _ HI _ _ _ Hi) as Hok. simpl in Hok.
    apply (EInv_handover _ i _ WakeSchedule Returned _ n d h' HI Hi); simpl; auto.
    unfold parked. simpl. rewrite length_app. simpl. lia.
  - pose proof (einv_pcs _ HI _ _ _ Hi) as Hok. simpl in Hok.
    apply (EInv_handover _ i id WakeSchedule Returned q (S n) d h' HI Hi); simpl; auto.
    unfold parked. simpl. lia.
  - pose proof (einv_pcs _ HI _ _ _ Hi) as Hok. simpl in Hok.
    apply (EInv_handover _ i id WakeSchedule Returned q n (S d) h' HI Hi); simpl; auto.
    unfold parked. simpl. lia.
  - exfalso. unfold wake_schedule in Hs. rewrite Hkick in Hs. repeat case_match; simplify_eq.
  - destruct (pop_work_spec q) as [Hq _]. rewrite Hpop in Hq. simpl in Hq.
    destruct (elems (pending_work q)) as [|x l] eqn:El; [by destruct Hq|].
    destruct Hq as (l' & y & El' & _ & Eq).
    assert (task_state t = NOTIFIED) as HN.
    { apply (einv_parked _ HI). unfold parked. simpl. rewrite El. simpl. lia. }
    pose proof (einv_drivers _ HI) as Hd. simpl in Hd.
    apply (EInv_handover _ i id Returned (PollCas NOTIFIED) q' n d h HI Hi); simpl; auto.
    + unfold parked. simpl. rewrite Eq, El, El', length_app. simpl. lia.
    + rewrite HN. split; [left|by left]. split; [done|]. rewrite HN in Hd. states. intuition lia.
  - assert (task_state t = NOTIFIED) as HN.
    { apply (einv_parked _ HI). unfold parked. simpl. lia. }
    pose proof (einv_drivers _ HI) as Hd. simpl in Hd. unfold resolve. rewrite Htag.
    apply (EInv_handover _ i id Returned (PollCas NOTIFIED) q n d h HI Hi); simpl; auto.
    + unfold parked. simpl. lia.
    + rewrite HN. split; [left|by left]. split; [done|]. rewrite HN in Hd. states. intuition lia.
  - destruct HI as [H1 H2 H3 H4 H5]. by constructor.
Qed.

Lemma reachable_EInv s : reachable (EStep kick_status tag_success) EInit s -> EInv s.
Proof. apply reachable_inv; [apply EInit_EInv | apply EStep_EInv]. Qed.
End preservation.

(** ** Progress

    A wake has marked the task, its next poll has not begun, and the task is not complete or
    given up. *)
Definition waiting (s : ESys) : Prop :=
  owed s = true /\ task_state (task s) <> COMPLETED /\ dropped s = 0.

#[export] Instance waiting_dec s : Decision (waiting s).
Proof. unfold waiting. apply _. Defined.

(** How many moves of the driver are left until the task is polled. *)
Definition weight (p : epc) : nat :=
  match p with
  | WakeSchedule | PollRun _ => 3
  | PollRelease _ => 2
  | PollCas _ | PollStore _ => 1
  | _ => 0
  end.

Definition act_weight (a : ThreadId * epc) : nat := weight a.2.

Definition wait (s : ESys) : nat := 2 * parked s + sum_list_with act_weight (acts s).

(** The driver moves: the activity that drives the task, or the poll thread that takes the task
    from its queue or from the completion queue. *)
Definition driver_moves (s s' : ESys) : Prop :=
  (exists i id p, acts s !! i = Some (id, p) /\ drives p = 1 /\ acts s' !! i <> Some (id, p)) \/
  parked s' < parked s.

Section progress.
Context (tag_success : bool) (Htag : tag_success = true).
Abbreviation step := (EStep GRPC_CALL_OK tag_success).

Lemma sum_list_with_pos {A} (f : A -> nat) l :
  0 < sum_list_with f l -> exists i x, l !! i = Some x /\ 0 < f x.
Proof.
  induction l as [|a l IH]; simpl; [lia|]. intros H.
  destruct (decide (0 < f a)) as [Hp|Hp]; [by exists 0, a|].
  destruct IH as (i & x & Hi & Hx); [lia|]. by exists (S i), x.
Qed.

Lemma lookup_insert_self (a : list (ThreadId * epc)) i x y :
  a !! i = Some x -> <[i:=y]> a !! i = Some y.
Proof. intros H. apply list_lookup_insert_eq. by eapply lookup_lt_Some. Qed.

Lemma waiting_notified s : EInv s -> waiting s -> task_state (task s) = NOTIFIED.
Proof. intros HI (Ho & Hc & _). by destruct (einv_owed s HI Ho). Qed.

Lemma waiting_driven s : EInv s -> waiting s -> drivers s = 1.
Proof.
  intros HI Hw. pose proof (waiting_notified s HI Hw) as Hst. pose proof (einv_drivers s HI) as Hd.
  rewrite Hst in Hd. states. intuition lia.
Qed.

(** What one step does to the waiting: activity [i] goes from [p] to [p'], [k] wake-ups being
    parked or picked up. *)
Definition waits_less (s s' : ESys) : Prop :=
  wait s' <= wait s /\ (driver_moves s s' -> wait s' < wait s).

Lemma moved_waits_less s s' i id p p' :
  acts s !! i = Some (id, p) -> acts s' = <[i:=(id, p')]> (acts s) ->
  2 * parked s' + weight p' <= 2 * parked s + weight p ->
  (drives p = 1 \/ parked s' < parked s -> 2 * parked s' + weight p' < 2 * parked s + weight p) ->
  waits_less s s'.
Proof.
  intros Hi Ha Hle Hlt. unfold waits_less, wait. rewrite Ha.
  pose proof (sum_list_with_insert act_weight (acts s) i (id, p) (id, p') Hi) as E. unfold act_weight at 2 4 in E. simpl in E.
  split; [lia|]. intros Hd. enough (2 * parked s' + weight p' < 2 * parked s + weight p) by lia. apply Hlt.
  destruct Hd as [(j & id' & q & Hj & Hq & Hne)|Hd]; [left|by right]. destruct (decide (i = j)) as [->|Hij]; [congruence|].
  rewrite Ha, list_lookup_insert_ne in Hne by done. done.
Qed.

Lemma open_add_ref h : (0 < ref_cnt h)%Z -> exists h', add_ref h = (Ok tt, h').
Proof. intros H. unfold add_ref. rewrite bool_decide_eq_false_2 by lia. eauto. Qed.

(** An access of an activity that is not in [mark_notified] counts down to the poll. *)
Lemma access_waits_less s i id p sp rd p' t' s' :
  EInv s -> waiting s -> acts s !! i = Some (id, p) -> run_step sp rd p (task s) = Some (p', t') ->
  s' = mkESys t' (<[i:=(id, p')]> (acts s)) (queue s) (tags s) (dropped s) (cq s) (waker s || starts_poll p')
         ((owed s || marks p p' (task s) t') && negb (match p with PollCas _ => starts_poll p' | _ => false end)) ->
  ~ waiting s' \/ waits_less s s'.
Proof.
  intros HI Hw Hi Hrun ->. pose proof (waiting_notified s HI Hw) as Hst. pose proof (einv_pcs s HI _ _ _ Hi) as Hok.
  assert (forall p', (weight p' < weight p \/ weight p' = weight p /\ drives p = 0) -> forall t w o,
    waits_less s (mkESys t (<[i:=(id, p')]> (acts s)) (queue s) (tags s) (dropped s) (cq s) w o)) as Hless.
  { intros q Hq t w o. eapply moved_waits_less; [exact Hi|done|..]; unfold parked; simpl; lia. }
  assert (forall sp cur new, cur <> NOTIFIED -> cas sp (task s) cur new = (Err NOTIFIED, task s)) as Hmiss.
  { intros sp' cur new Hne. destruct (cas_cases sp' (task s) cur new) as [[E _]|E]; congruence. }
  destruct p as [| | |init|init|init|init|init| |]; simpl in Hrun, Hok; try done.
  - rewrite Hmiss in Hrun by done. simpl in Hrun. simplify_eq. right. apply Hless. by right.
  - rewrite Hmiss in Hrun by done. simpl in Hrun. simplify_eq. right. apply Hless. by right.
  - assert (init = NOTIFIED) as -> by (rewrite Hst in Hok; states; intuition lia).
    rewrite cas_hit in Hrun by done. simplify_eq. left. intros [Ho _]. simpl in Ho. by rewrite andb_false_r in Ho.
  - right. destruct (task_future (task s)) eqn:Hf;
      [|apply (einv_future s HI) in Hf; rewrite Hst in Hf; done].
    simplify_eq. apply Hless. destruct rd; simpl; lia.
  - simplify_eq. left. intros (_ & Hc & _). by apply Hc.
  - rewrite Hst in Hok. states. lia.
  - rewrite Hmiss in Hrun by done. simpl in Hrun. simplify_eq. right. apply Hless. simpl. lia.
Qed.

(** Every step, of whatever activity, ends the waiting or does not prolong it; a move of the
    driver shortens it.  No tag is dropped while the completion queue is open. *)
Lemma step_waits_less s s' : EInv s -> waiting s -> (0 < ref_cnt (cq s))%Z -> step s s' ->
  dropped s' = 0 /\ (~ waiting s' \/ waits_less s s').
Proof.
  intros HI Hw Hcq Hst. pose proof Hw as (_ & _ & Hd). destruct Hst as
    [t a i id q n d h o Hi|t a i id q n d h w o sp rd p p' t' Hi Hrun
    |t a i id q n d h w o q' h' Hi Hs|t a i id q n d h w o h' Hi Hs
    |t a i id q n d h w o h' Hi Hs|t a i id q n d h w o h' Hi Hs
    |t a i id q n d h w o q' Hi Hid Hpop|t a i id q n d h w o Hi Hid|t a q n d h w o h' Hh];
    simpl in Hd; subst d; (split; [|]); simpl; try done.
  - right. eapply moved_waits_less; [exact Hi|done|..]; unfold parked; simpl; lia.
  - by eapply (access_waits_less _ i id p).
  - right. unfold wake_schedule, push_work in Hs. case_bool_decide; simplify_eq; [|repeat case_match; simplify_eq].
    eapply moved_waits_less; [exact Hi|done|..]; unfold parked; simpl; rewrite length_app; simpl; lia.
  - right. eapply moved_waits_less; [exact Hi|done|..]; unfold parked; simpl; lia.
  - exfalso. destruct (open_add_ref _ Hcq) as [h1 E]. unfold wake_schedule in Hs. simpl in E. rewrite E in Hs. repeat case_match; simplify_eq.
  - exfalso. destruct (open_add_ref _ Hcq) as [h1 E]. unfold wake_schedule in Hs. simpl in E. rewrite E in Hs. repeat case_match; simplify_eq.
  - exfalso. unfold wake_schedule in Hs. repeat case_match; simplify_eq.
  - right. destruct (pop_work_spec q) as [Hq _]. rewrite Hpop in Hq. simpl in Hq.
    destruct (elems (pending_work q)) as [|x l] eqn:El; [by destruct Hq|]. destruct Hq as (l' & y & El' & _ & Eq).
    eapply moved_waits_less; [exact Hi|done|..]; unfold parked; simpl; rewrite Eq, El, El', length_app; simpl; lia.
  - right. rewrite Htag. eapply moved_waits_less; [exact Hi|done|..]; unfold parked; simpl; lia.
  - right. unfold waits_less, driver_moves, wait, parked. simpl. split; [done|].
    intros [(i & id & p & Hi & _ & Hne)|]; [done|lia].
Qed.

(** The driver can move: at once when it is an activity, and when the task is parked as soon as
    the poll thread is idle. *)
Lemma driver_can_move s j : EInv s -> waiting s ->
  acts s !! j = Some (wq_id (queue s), Returned) -> (0 < ref_cnt (cq s))%Z -> exists s', step s s' /\ driver_moves s s'.
Proof.
  intros HI Hw Hj Hcq. pose proof (waiting_notified s HI Hw) as Hst. pose proof (waiting_driven s HI Hw) as Hone.
  destruct (decide (0 < parked s)) as [Hp|Hp].
  - destruct Hw as (_ & _ & Hd). destruct s as [t a q n d h w o]. simpl in *. subst d.
    destruct (elems (pending_work q)) as [|x l] eqn:El.
    + unfold parked in Hp. simpl in Hp. rewrite El in Hp. destruct n as [|n]; [simpl in Hp; lia|].
      eexists. split; [by eapply (ETag _ _ t a j _ q n 0 h w o)|]. right. unfold parked. simpl. lia.
    + destruct (pop_work_spec q) as [Hq _]. rewrite El in Hq. destruct Hq as (l' & [] & El' & Hr & Eq).
      destruct (pop_work q) as [r q'] eqn:Epop. simpl in *. subst r.
      eexists. split; [by eapply (EPop _ _ t a j _ q n 0 h w o q')|]. right. unfold parked. simpl. rewrite Eq, El, El', length_app. simpl. lia.
  - unfold drivers in Hone. destruct (sum_list_with_pos act_drives (acts s)) as (i & [id p] & Hi & Hdp); [lia|].
    assert (drives p = 1) as Hd1 by (unfold act_drives in Hdp; simpl in Hdp; destruct p; simpl in *; lia).
    assert (forall s' p', step s s' -> acts s' = <[i:=(id, p')]> (acts s) -> p <> p' ->
      exists s', step s s' /\ driver_moves s s') as Hmove.
    { intros s' p' Hs Ha Hne. exists s'. split; [done|]. left. exists i, id, p. split; [done|]. split; [done|].
      rewrite Ha. erewrite lookup_insert_self by done. congruence. }
    destruct (decide (p = WakeSchedule)) as [->|Hp'].
    + destruct (open_add_ref _ Hcq) as [h' E]. destruct s as [t a q n d h w o]. simpl in *.
      destruct (wake_schedule id GRPC_CALL_OK q h) as [[q'| | |] h1] eqn:Es.
      * eapply Hmove; [by eapply EQueue|done|done].
      * eapply Hmove; [by eapply EKick|done|done].
      * eapply Hmove; [by eapply EDropTag|done|done].
      * unfold wake_schedule in Es. repeat case_match; simplify_eq.
    + destruct (run_step false false p (task s)) as [[p' t']|] eqn:Er;
        [|by destruct p as [| | |init|init|init|init|init| |]; simpl in *; repeat case_match].
      assert (p <> p') as Hne by (destruct p; simpl in Er; repeat case_match; simplify_eq; done).
      destruct s as [t a q n d h w o]. simpl in *.
      eapply Hmove; [eapply (EAccess _ _ t a i id q n d h w o false false p p' t'); done|done|done].
Qed.

(** A run in which activities may pause: the waiting does not get longer from one moment to a
    later one. *)
Section run.
Context (run : nat -> ESys).
Context (Hrun : forall n, step (run n) (run (S n)) \/ run (S n) = run n).
Context (Hopen : forall n, (0 < ref_cnt (cq (run n)))%Z).

Lemma run_waits n k : EInv (run n) -> waiting (run n) ->
  EInv (run (n + k)) /\ ((exists m, m <= n + k /\ n <= m /\ ~ waiting (run m) /\ dropped (run m) = 0) \/
    waiting (run (n + k)) /\ wait (run (n + k)) <= wait (run n)).
Proof.
  intros HI Hw. induction k as [|k [IHI IH]]; [rewrite Nat.add_0_r; auto|]. rewrite Nat.add_succ_r.
  destruct (Hrun (n + k)) as [Hst|E].
  - split; [by eapply EStep_EInv|]. destruct IH as [(m & ? & ? & ? & ?)|[Hw' Hle]]; [left; exists m; repeat split; auto; lia|].
    destruct (step_waits_less _ _ IHI Hw' (Hopen _) Hst) as [Hd Hless].
    destruct (decide (waiting (run (S (n + k))))) as [Hw2|Hw2].
    + destruct Hless as [?|[Hl _]]; [done|]. right. split; [done|lia].
    + left. exists (S (n + k)). repeat split; auto; lia.
  - rewrite E. split; [done|]. destruct IH as [(m & ? & ? & ? & ?)|?]; [left; exists m; repeat split; auto; lia|by right].
Qed.

(** The driver moves again and again while the task waits. *)
Context (Hfair : forall n, waiting (run n) -> exists m, n <= m /\ (driver_moves (run m) (run (S m)) \/ ~ waiting (run m))).

Lemma run_settles n : EInv (run n) -> waiting (run n) ->
  exists m, n <= m /\ (owed (run m) = false \/ task_state (task (run m)) = COMPLETED).
Proof.
  assert (forall m, ~ waiting (run m) -> dropped (run m) = 0 ->
    owed (run m) = false \/ task_state (task (run m)) = COMPLETED) as Hend.
  { intros m Hm Hd. destruct (owed (run m)) eqn:Ho; [right|by left].
    destruct (decide (task_state (task (run m)) = COMPLETED)); [done|]. by destruct Hm. }
  remember (wait (run n)) as k eqn:Ek. revert n Ek. induction (lt_wf k) as [k _ IH]. intros n -> HI Hw.
  destruct (Hfair n Hw) as (m & Hm & Hmove). replace m with (n + (m - n)) in Hmove by lia.
  destruct (run_waits n (m - n) HI Hw) as [HI' [(m' & ? & ? & ? & ?)|[Hw' Hle]]]; [exists m'; auto|].
  destruct Hmove as [Hmove|]; [|done]. destruct (Hrun (n + (m - n))) as [Hst|E].
  - destruct (step_waits_less _ _ HI' Hw' (Hopen _) Hst) as [Hd Hless].
    assert (EInv (run (S (n + (m - n))))) as HI2 by (by eapply EStep_EInv).
    destruct (decide (waiting (run (S (n + (m - n)))))) as [Hw2|Hw2]; [|exists (S (n + (m - n))); split; [lia|auto]].
    destruct Hless as [?|[_ Hlt]]; [done|]. specialize (Hlt Hmove).
    destruct (IH (wait (run (S (n + (m - n))))) ltac:(lia) _ eq_refl HI2 Hw2) as (m' & ? & ?).
    exists m'. split; [lia|done].
  - exfalso. rewrite E in Hmove. destruct Hmove as [(i & id & p & Hi & _ & Hne)|]; [done|lia].
Qed.
End run.
End progress.

(** Once a tag was dropped, the task is marked and nobody drives it, for ever. *)
Lemma dropped_stays kick_status tag_success s s' :
  kick_status = GRPC_CALL_OK -> tag_success = true ->
  EInv s -> 0 < dropped s -> EStep kick_status tag_success s s' -> 0 < dropped s'.
Proof. intros _ _ _ Hd Hst. destruct Hst; simpl in *; lia. Qed.

(** ** Executing interleavings *)

Inductive EAct :=
| XWake (i : nat) | XAccess (i : nat) (spurious ready : bool) | XSchedule (i : nat)
| XPop (i : nat) | XTag (i : nat) | XShutdown.

Definition eexec1 (x : EAct) (s : ESys) : option ESys :=
  let '(mkESys t a q n d h w o) := s in
  match x with
  | XWake i =>
      match a !! i, w with
      | Some (id, Returned), true => Some (mkESys t (<[i:=(id, WakeCas1)]> a) q n d h true o)
      | _, _ => None
      end
  | XAccess i sp rd =>
      match a !! i with
      | Some (id, p) =>
          match run_step sp rd p t with
          | Some (p', t') =>
              Some (mkESys t' (<[i:=(id, p')]> a) q n d h (w || starts_poll p')
                ((o || marks p p' t t') &&
                 negb (match p with PollCas _ => starts_poll p' | _ => false end)))
          | None => None
          end
      | None => None
      end
  | XSchedule i =>
      match a !! i with
      | Some (id, WakeSchedule) =>
          let a' := <[i:=(id, Returned)]> a in
          match wake_schedule id GRPC_CALL_OK q h with
          | (InQueue q', h') => Some (mkESys t a' q' n d h' w o)
          | (InCq, h') => Some (mkESys t a' q (S n) d h' w o)
          | (Dropped, h') => Some (mkESys t a' q n (S d) h' w o)
          | (KickFailed, _) => None
          end
      | _ => None
      end
  | XPop i =>
      match a !! i, pop_work q with
      | Some (id, Returned), (Some _, q') =>
          if bool_decide (id = wq_id q)
          then Some (mkESys t (<[i:=(id, resolve true)]> a) q' n d h w o) else None
      | _, _ => None
      end
  | XTag i =>
      match a !! i, n with
      | Some (id, Returned), S n' =>
          if bool_decide (id = wq_id q)
          then Some (mkESys t (<[i:=(id, resolve true)]> a) q n' d h w o) else None
      | _, _ => None
      end
  | XShutdown => Some (mkESys t a q n d (shutdown h) w o)
  end.

Fixpoint eexec (xs : list EAct) (s : ESys) : option ESys :=
  match xs with
  | [] => Some s
  | x :: xs' => match eexec1 x s with Some s' => eexec xs' s' | None => None end
  end.

Lemma eexec1_sound x s s' : eexec1 x s = Some s' -> EStep GRPC_CALL_OK true s s'.
Proof.
  destruct s as [t a q n d h w o], x as [i|i sp rd|i|i|i|]; simpl; intros H.
  - destruct (a !! i) as [[id []]|] eqn:E; try done. destruct w; simplify_eq. by econstructor.
  - destruct (a !! i) as [[id p]|] eqn:E; [|done].
    destruct (run_step sp rd p t) as [[p' t']|] eqn:Er; simplify_eq. by econstructor.
  - destruct (a !! i) as [[id []]|] eqn:E; try done.
    destruct (wake_schedule id GRPC_CALL_OK q h) as [[] h'] eqn:Es; simplify_eq;
      [by eapply EQueue | by eapply EKick | by eapply EDropTag].
  - destruct (a !! i) as [[id []]|] eqn:E; try done.
    destruct (pop_work q) as [[[]|] q'] eqn:Ep; [|done]. case_bool_decide; simplify_eq.
    by eapply EPop.
  - destruct (a !! i) as [[id []]|] eqn:E; try done. destruct n; [done|].
    case_bool_decide; simplify_eq. by eapply ETag.
  - simplify_eq. apply ECq. auto.
Qed.

Lemma eexec_sound xs s s' : eexec xs s = Some s' -> rtc (EStep GRPC_CALL_OK true) s s'.
Proof.
  revert s. induction xs as [|x xs IH]; simpl; intros s H; [simplify_eq; constructor|].
  destruct (eexec1 x s) eqn:E; [|done]. eapply rtc_l; [by eapply eexec1_sound | auto].
Qed.

(** The poll thread 1 has spawned a task; it has a second idle activity, and thread 2
    has one. *)
Definition spawned : ESys :=
  mkESys (fst spawn) [(1, snd spawn); (1, Returned); (2, Returned)] (WorkQueue_new 1) 0 0
    CompletionQueueHandle_new false false.

Lemma spawned_EInit : EInit spawned.
Proof.
  repeat split. exists 0, 1. split; [done|]. intros [|[|[|j]]] id' p Hj Hne; simpl in Hj;
    simplify_eq; done.
Qed.

Lemma eexec_reachable xs s :
  eexec xs spawned = Some s -> reachable (EStep GRPC_CALL_OK true) EInit s.
Proof. intros H. exists spawned. split; [apply spawned_EInit | by eapply eexec_sound]. Qed.

Definition estate (xs : list EAct) : ESys := default spawned (eexec xs spawned).

(** Woken from thread 2 while being polled: the poller will poll again. *)
Definition demo_wake_while_polling : list EAct :=
  [XAccess 0 false false; XWake 2; XAccess 2 false false; XAccess 2 true false;
   XAccess 2 false false; XAccess 2 false false].

(** Idle after a first poll, then the queue is shut down and thread 2 wakes the task. *)
Definition demo_wake_after_shutdown : list EAct :=
  [XAccess 0 false false; XAccess 0 false false; XAccess 0 false false; XShutdown;
   XWake 2; XAccess 2 false false; XSchedule 2].

(** A completed task stays completed at every access of a legal activity. *)
Lemma run_step_completed spurious ready w p t p' t' :
  task_state t = COMPLETED -> pc_ok (task_state t) w p ->
  run_step spurious ready p t = Some (p', t') -> task_state t' = COMPLETED.
Proof.
  intros Hc Hok Hrun. rewrite Hc in Hok.
  assert (forall sp cur new, cur <> COMPLETED -> cas sp t cur new = (Err COMPLETED, t)) as Hmiss.
  { intros sp cur new Hne. destruct (cas_cases sp t cur new) as [[E _]|E]; congruence. }
  destruct p as [| | |init|init|init|init|init| |]; simpl in Hrun, Hok; try done.
  - rewrite Hmiss in Hrun by done. simpl in Hrun. by simplify_eq.
  - rewrite Hmiss in Hrun by done. simpl in Hrun. by simplify_eq.
  - rewrite Hmiss in Hrun by (states; intuition lia). simpl in Hrun. by simplify_eq.
  - states. intuition lia.
  - by simplify_eq.
  - by simplify_eq.
  - states. intuition lia.
Qed.

(** ** Properties *)

(** C13: under every interleaving of polls and wakes, with kicks accepted by the core, no
    [panic!] or [unwrap] of [poll], [resolve] or [wake_by_ref] is reached, and at most one
    activity is responsible for the task: polls of the future never overlap. *)
Theorem executor_exclusive_and_panic_free s :
  reachable (EStep GRPC_CALL_OK true) EInit s ->
  (forall i id m, acts s !! i <> Some (id, Crashed m)) /\
  (forall i j id id' p p', acts s !! i = Some (id, p) -> acts s !! j = Some (id', p') ->
     drives p = 1 -> drives p' = 1 -> i = j).
Proof.
  intros Hr. apply reachable_EInv in Hr as HI; [|done..]. split.
  - intros i id m Hi. exact (einv_pcs s HI _ _ _ Hi).
  - intros i j id id' p p' Hi Hj Hp Hp'. destruct (decide (i = j)) as [|Hne]; [done|].
    destruct (driver_alone s i id p HI Hi Hp) as (_ & _ & Halone).
    rewrite (Halone j id' p' Hj (not_eq_sym Hne)) in Hp'. lia.
Qed.

Lemma executor_exclusive_and_panic_free_witness :
  acts (estate demo_wake_while_polling) !! 0 <> Some (1, Crashed "unexpected state").
Proof.
  apply (executor_exclusive_and_panic_free (estate demo_wake_while_polling)).
  apply (eexec_reachable demo_wake_while_polling). reflexivity.
Defined.

(** C14: no wake-up is lost while the completion queue is open: when a wake has marked a task
    that is not complete, and its next poll has not begun, exactly one driver for it exists,
    which can move as soon as the poll thread is idle; and in every run, however wakes and
    polls of other activities interleave, in which the queue is not shut down and the driver
    moves again and again, the task is polled anew or complete at some time. *)
Theorem executor_wake_leads_to_poll s :
  reachable (EStep GRPC_CALL_OK true) EInit s -> waiting s ->
  drivers s = 1 /\
  (forall j, acts s !! j = Some (wq_id (queue s), Returned) -> (0 < ref_cnt (cq s))%Z ->
     exists s', EStep GRPC_CALL_OK true s s' /\ driver_moves s s') /\
  (forall run : nat -> ESys, run 0 = s ->
     (forall n, EStep GRPC_CALL_OK true (run n) (run (S n)) \/ run (S n) = run n) ->
     (forall n, (0 < ref_cnt (cq (run n)))%Z) ->
     (forall n, waiting (run n) -> exists m, n <= m /\ (driver_moves (run m) (run (S m)) \/ ~ waiting (run m))) ->
     exists m, owed (run m) = false \/ task_state (task (run m)) = COMPLETED).
Proof.
  intros Hr Hw. apply reachable_EInv in Hr as HI; [|done..]. split; [by apply waiting_driven|]. split.
  - intros j Hj Hcq. by eapply driver_can_move.
  - intros run <- Hrun Hopen Hfair. destruct (run_settles true eq_refl run Hrun Hopen Hfair 0 HI Hw) as (m & _ & Hm). by exists m.
Qed.

(** The poll thread ends its poll and, having been notified meanwhile, polls again. *)
Definition demo_run (n : nat) : ESys :=
  estate (demo_wake_while_polling ++ take n [XAccess 0 false false; XAccess 0 false false; XAccess 0 false false]).

Lemma executor_wake_leads_to_poll_witness :
  drivers (estate demo_wake_while_polling) = 1 /\
  exists m, owed (demo_run m) = false \/ task_state (task (demo_run m)) = COMPLETED.
Proof.
  assert (reachable (EStep GRPC_CALL_OK true) EInit (estate demo_wake_while_polling)) as Hr
    by (apply (eexec_reachable demo_wake_while_polling); reflexivity).
  assert (waiting (estate demo_wake_while_polling)) as Hw by (vm_compute; done).
  assert (forall n, 2 < n -> demo_run n = demo_run 3) as Hend by (intros [|[|[|n]]] Hn; [lia..|]; unfold demo_run; by destruct n).
  split; [apply (executor_wake_leads_to_poll _ Hr Hw)|].
  apply (executor_wake_leads_to_poll _ Hr Hw); [reflexivity|..].
  - intros n. destruct (decide (2 < n)) as [Hn|Hn]; [right; by rewrite (Hend n), (Hend (S n)) by lia|].
    left. apply (eexec1_sound (XAccess 0 false false)). destruct n as [|[|[|n]]]; [vm_compute; reflexivity..|lia].
  - intros n. destruct (decide (2 < n)) as [Hn|Hn]; [rewrite (Hend n) by lia; vm_compute; reflexivity|].
    destruct n as [|[|[|n]]]; [vm_compute; reflexivity..|lia].
  - intros n _. exists (n + 3). split; [lia|]. right. rewrite Hend by lia. vm_compute. intros [? _]. done.
Defined.

(** A completed task is never polled again: it stays completed, and no activity
    polls its future. *)
Theorem executor_completed_is_final s s' :
  reachable (EStep GRPC_CALL_OK true) EInit s -> task_state (task s) = COMPLETED ->
  rtc (EStep GRPC_CALL_OK true) s s' ->
  task_state (task s') = COMPLETED /\ forall i id init, acts s' !! i <> Some (id, PollRun init).
Proof.
  intros Hr Hc Hrtc. apply reachable_EInv in Hr as HI; [|done..]. clear Hr.
  induction Hrtc as [s|s s1 s' Hst Hrtc IH].
  - split; [done|]. intros i id init Hi. pose proof (einv_pcs s HI _ _ _ Hi) as Hok.
    simpl in Hok. rewrite Hc in Hok. states. intuition lia.
  - pose proof (EStep_EInv _ _ eq_refl eq_refl _ _ HI Hst) as HI1. apply IH; [|done].
    destruct Hst as [| t a i id q n d h w o sp rd p p' t' Hi Hrun | | | | | | |]; simpl in *; auto.
    exact (run_step_completed _ _ _ _ _ _ _ Hc (einv_pcs _ HI _ _ _ Hi) Hrun).
Qed.

Definition demo_complete : list EAct :=
  [XAccess 0 false false; XAccess 0 false true; XAccess 0 false false].

Lemma executor_completed_is_final_witness :
  task_state (task (estate (demo_complete ++ [XWake 2; XAccess 2 false false]))) = COMPLETED.
Proof.
  apply (executor_completed_is_final (estate demo_complete)).
  - apply (eexec_reachable demo_complete). reflexivity.
  - reflexivity.
  - apply (eexec_sound [XWake 2; XAccess 2 false false]). reflexivity.
Defined.

(** A wake from another thread after the completion queue was shut down drops the
    tag; the task then stays marked as notified for ever and is never polled again. *)
Theorem executor_dropped_tag_is_never_resolved s s' :
  reachable (EStep GRPC_CALL_OK true) EInit s -> 0 < dropped s ->
  rtc (EStep GRPC_CALL_OK true) s s' ->
  task_state (task s') = NOTIFIED /\ forall i id p, acts s' !! i = Some (id, p) -> drives p = 0.
Proof.
  intros Hr Hd Hrtc. apply reachable_EInv in Hr as HI; [|done..]. clear Hr.
  induction Hrtc as [s|s s1 s' Hst Hrtc IH].
  - assert (0 < parked s) as Hp by (unfold parked; lia).
    split; [by apply einv_parked|]. intros i id p Hi.
    destruct (decide (drives p = 1)) as [H1|H1]; [|destruct p; simpl in *; lia].
    destruct (driver_alone s i id p HI Hi H1) as (Hz & _). lia.
  - apply IH; [by eapply dropped_stays | by eapply EStep_EInv].
Qed.

Lemma executor_dropped_tag_is_never_resolved_witness :
  dropped (estate demo_wake_after_shutdown) = 1 /\
  task_state (task (estate demo_wake_after_shutdown)) = NOTIFIED.
Proof.
  split; [reflexivity|].
  apply (executor_dropped_tag_is_never_resolved (estate demo_wake_after_shutdown)
           (estate demo_wake_after_shutdown)).
  - apply (eexec_reachable demo_wake_after_shutdown). reflexivity.
  - vm_compute. lia.
  - constructor.
Defined.
