(* ===== verification/Buf.v ===== *)
(** Slices, byte buffers and the message reader: src/src/buf.rs, and the message
    codecs that write into slices: src/src/codec.rs.

    The memory of a slice is owned by the C core, so its constructors and the
    byte-buffer reader are the fields of the interface [SliceCore]; its laws are what
    the headers of the core document of them.  [usize] values are [nat]s: they are
    lengths of objects in memory. *)

From S2P Require Import Prelude Status.

(** ** grpc_slice *)

Definition INLINED_SIZE : nat := 8 + 8 - 1 + 8.

(** [grpc_slice]: with a reference count, [refcounted.bytes] of [refcounted.length];
    without, the [INLINED_SIZE] inline bytes and how many of them count. *)
Inductive GrpcSlice :=
| Refcounted (bytes : list byte)
| Inlined (length : nat) (bytes : list byte).

#[export] Instance GrpcSlice_eq_dec : EqDecision GrpcSlice.
Proof. solve_decision. Defined.

Definition GrpcSlice_len (self : GrpcSlice) : nat :=
  match self with
  | Refcounted bytes => length bytes
  | Inlined n _ => n
  end.

Definition GrpcSlice_as_slice (self : GrpcSlice) : list byte :=
  match self with
  | Refcounted bytes => bytes
  | Inlined n bytes => take n bytes
  end.

Definition GrpcSlice_is_empty (self : GrpcSlice) : bool :=
  bool_decide (GrpcSlice_len self = 0).

Definition GrpcSlice_is_inline (self : GrpcSlice) : bool :=
  match self with Refcounted _ => false | Inlined _ _ => true end.

(** What the core guarantees of a slice: the inline storage has its full size and the
    inline length is within it, so that [bytes[..len]] is in range. *)
Definition slice_wf (s : GrpcSlice) : Prop :=
  match s with
  | Refcounted _ => True
  | Inlined n bytes => length bytes = INLINED_SIZE /\ n <= INLINED_SIZE
  end.

(** ** What the C core provides *)

Class SliceCore := {
  grpc_empty_slice : GrpcSlice;
  grpc_slice_from_static_buffer : list byte -> GrpcSlice;
  grpc_slice_from_copied_buffer : list byte -> GrpcSlice;
  grpc_slice_new_with_len : list byte -> GrpcSlice;
  grpc_slice_malloc_large : nat -> GrpcSlice;
  grpc_byte_buffer : Type;
  grpc_raw_byte_buffer_create : list GrpcSlice -> grpc_byte_buffer;
  grpc_byte_buffer_reader : Type;
  grpc_byte_buffer_reader_init : grpc_byte_buffer -> Z * grpc_byte_buffer_reader;
  grpc_byte_buffer_reader_next :
    grpc_byte_buffer_reader -> option (GrpcSlice * grpc_byte_buffer_reader);
  (** [grpc_byte_buffer_length] of the reader's [buffer_out]. *)
  grpc_byte_buffer_length : grpc_byte_buffer_reader -> nat;

  (** the slices of a buffer, and the slices a reader has not returned yet *)
  buffer_slices : grpc_byte_buffer -> list GrpcSlice;
  reader_rest : grpc_byte_buffer_reader -> list GrpcSlice;
}.

(** The documented behaviour the library relies on. *)
Class SliceCoreLaws (C : SliceCore) : Prop := {
  empty_slice_inline : exists bytes, grpc_empty_slice = Inlined 0 bytes /\ length bytes = INLINED_SIZE;
  static_buffer_bytes bs : GrpcSlice_as_slice (grpc_slice_from_static_buffer bs) = bs;
  copied_buffer_bytes bs : GrpcSlice_as_slice (grpc_slice_from_copied_buffer bs) = bs;
  new_with_len_bytes bs : GrpcSlice_as_slice (grpc_slice_new_with_len bs) = bs;
  malloc_large_len n : exists bytes, grpc_slice_malloc_large n = Refcounted bytes /\ length bytes = n;
  byte_buffer_create_slices ss : buffer_slices (grpc_raw_byte_buffer_create ss) = ss;
  reader_init_ok b : (grpc_byte_buffer_reader_init b).1 = 1%Z;
  reader_init_rest b : reader_rest (grpc_byte_buffer_reader_init b).2 = buffer_slices b;
  reader_next_None r : grpc_byte_buffer_reader_next r = None <-> reader_rest r = [];
  reader_next_Some r s r' :
    grpc_byte_buffer_reader_next r = Some (s, r') ->
    reader_rest r = s :: reader_rest r' /\ grpc_byte_buffer_length r' = grpc_byte_buffer_length r;
  reader_init_length b :
    grpc_byte_buffer_length (grpc_byte_buffer_reader_init b).2 =
    sum_list_with GrpcSlice_len (buffer_slices b);
}.

Section slices.
Context `{C : SliceCore}.

(** ** GrpcSlice *)

Definition GrpcSlice_default : GrpcSlice := grpc_empty_slice.

Definition GrpcSlice_from_static_slice (s : list byte) : GrpcSlice :=
  grpc_slice_from_static_buffer s.

Definition GrpcSlice_from_static_str (s : string) : GrpcSlice :=
  GrpcSlice_from_static_slice (as_bytes s).

(** [realloc]: the slice whose bytes the caller then initialises. *)
Definition GrpcSlice_realloc (self : GrpcSlice) (cap : nat) : GrpcSlice :=
  if bool_decide (cap <= INLINED_SIZE) then
    let self := if GrpcSlice_is_inline self then self else GrpcSlice_default in
    match self with
    | Inlined _ bytes => Inlined (cap mod 256) bytes
    | Refcounted bytes => Refcounted bytes
    end
  else grpc_slice_malloc_large cap.

(** Writing [data] through the [&mut [u8]] that [realloc] returned, of length
    [GrpcSlice_len s]; [None] when it does not fit. *)
Definition slice_write (s : GrpcSlice) (data : list byte) : option GrpcSlice :=
  if bool_decide (length data <= GrpcSlice_len s) then
    Some (match s with
          | Refcounted bytes => Refcounted (data ++ drop (length data) bytes)
          | Inlined n bytes => Inlined n (data ++ drop (length data) bytes)
          end)
  else None.

(** [From<Vec<u8>>]; [capacity] is that of the vector. *)
Definition GrpcSlice_from_vec (v : list byte) (capacity : nat) : GrpcSlice :=
  match v with
  | [] => GrpcSlice_default
  | _ => if bool_decide (length v = capacity) then grpc_slice_new_with_len v
         else grpc_slice_from_copied_buffer v
  end.

Definition GrpcSlice_from_string (s : string) (capacity : nat) : GrpcSlice :=
  GrpcSlice_from_vec (as_bytes s) capacity.

Definition GrpcSlice_from_slice (s : list byte) : GrpcSlice := grpc_slice_from_copied_buffer s.

Definition GrpcSlice_from_str (s : string) : GrpcSlice := GrpcSlice_from_slice (as_bytes s).

(** [PartialEq<[u8]>]. *)
Definition GrpcSlice_eq_bytes (self : GrpcSlice) (r : list byte) : bool :=
  bool_decide (GrpcSlice_as_slice self = r).

Definition GrpcByteBuffer_from_slices (slice : list GrpcSlice) : grpc_byte_buffer :=
  grpc_raw_byte_buffer_create slice.

Definition GrpcByteBuffer_from_slice (s : GrpcSlice) : grpc_byte_buffer :=
  grpc_raw_byte_buffer_create [s].

(** ** The reader *)

Record GrpcByteBufferReader := mkReader {
  r_reader : grpc_byte_buffer_reader;
  r_slice : GrpcSlice;
  r_offset : nat;
  r_remain : nat;
}.

(** One [grpc_byte_buffer_reader_next], an empty slice replacing a missing one. *)
Definition next_slice (reader : grpc_byte_buffer_reader) : GrpcSlice * grpc_byte_buffer_reader :=
  match grpc_byte_buffer_reader_next reader with
  | Some (s, reader') => (s, reader')
  | None => (grpc_empty_slice, reader)
  end.

Definition Reader_new (buf : grpc_byte_buffer) : outcome GrpcByteBufferReader :=
  let '(code, reader) := grpc_byte_buffer_reader_init buf in
  if bool_decide (code = 1%Z) then
    let '(s, reader) := next_slice reader in
    Done {| r_reader := reader; r_slice := s; r_offset := 0;
            r_remain := grpc_byte_buffer_length reader |}
  else Panicked "assertion failed: `(left == right)`".

Definition load_next_slice (self : GrpcByteBufferReader) : GrpcByteBufferReader :=
  let '(s, reader) := next_slice (r_reader self) in
  {| r_reader := reader; r_slice := s; r_offset := 0; r_remain := r_remain self |}.

Definition Reader_len (self : GrpcByteBufferReader) : nat := r_remain self.

Definition Reader_is_empty (self : GrpcByteBufferReader) : bool := bool_decide (r_remain self = 0).

(** [fill_buf], and [bytes::Buf::chunk] which has the same body. *)
Definition fill_buf (self : GrpcByteBufferReader) : list byte :=
  if GrpcSlice_is_empty (r_slice self) then []
  else drop (r_offset self) (GrpcSlice_as_slice (r_slice self)).

(** The loop of [consume]; [None] when the fuel is used up. *)
Fixpoint consume_loop (fuel : nat) (offset : nat) (self : GrpcByteBufferReader) :
    option (nat * GrpcByteBufferReader) :=
  match fuel with
  | 0 => None
  | S fuel =>
      if bool_decide (GrpcSlice_len (r_slice self) <= offset) && bool_decide (0 < offset)
      then consume_loop fuel (offset - GrpcSlice_len (r_slice self)) (load_next_slice self)
      else Some (offset, self)
  end.

Definition consume (fuel : nat) (amt : nat) (self : GrpcByteBufferReader) :
    option GrpcByteBufferReader :=
  let amt := if bool_decide (r_remain self < amt) then r_remain self else amt in
  let self := mkReader (r_reader self) (r_slice self) (r_offset self) (r_remain self - amt) in
  match consume_loop fuel (r_offset self + amt) self with
  | Some (offset, self) => Some (mkReader (r_reader self) (r_slice self) offset (r_remain self))
  | None => None
  end.

(** [bytes::Buf::advance]. *)
Definition advance (fuel : nat) (cnt : nat) (self : GrpcByteBufferReader) := consume fuel cnt self.

(** [Read::read] into a buffer of [buf_len] bytes: the bytes copied, and the reader. *)
Definition read (fuel : nat) (buf_len : nat) (self : GrpcByteBufferReader) :
    option (list byte * GrpcByteBufferReader) :=
  let copied := take buf_len (fill_buf self) in
  match consume fuel (length copied) self with
  | Some self' => Some (copied, self')
  | None => None
  end.

(** The loop of [read_to_end]. *)
Fixpoint read_to_end_loop (fuel : nat) (buf : list byte) (self : GrpcByteBufferReader) :
    option (list byte * GrpcByteBufferReader) :=
  match fuel with
  | 0 => None
  | S fuel' =>
      if bool_decide (0 < r_remain self) then
        let s := fill_buf self in
        match consume fuel (length s) self with
        | Some self' => read_to_end_loop fuel' (buf ++ s) self'
        | None => None
        end
      else Some (buf, self)
  end.

(** [Read::read_to_end]: the vector, the returned count and the reader. *)
Definition read_to_end (fuel : nat) (buf : list byte) (self : GrpcByteBufferReader) :
    option (list byte * nat * GrpcByteBufferReader) :=
  let cap := r_remain self in
  match read_to_end_loop fuel buf self with
  | Some (buf, self) => Some (buf, cap, self)
  | None => None
  end.
End slices.

Arguments GrpcByteBufferReader : clear implicits.
Arguments GrpcByteBufferReader C : assert.

(** ** Codecs *)

Section codecs.
Context `{C : SliceCore} {T : Type}.
(** The generated message code of the protobuf libraries: the size it announces, the
    bytes it writes, and its decoder. *)
Context (compute_size : T -> nat) (encode : T -> list byte).

Definition pb_ser (t : T) (buf : GrpcSlice) : outcome GrpcSlice :=
  let cap := compute_size t in
  match slice_write (GrpcSlice_realloc buf cap) (encode t) with
  | Some buf => Done buf
  | None => Panicked "called `Result::unwrap()` on an `Err` value"
  end.

(** [debug]: whether [debug_assert!] is compiled in. *)
Definition pr_ser (debug : bool) (msg : T) (buf : GrpcSlice) : outcome GrpcSlice :=
  let size := compute_size msg in
  match slice_write (GrpcSlice_realloc buf size) (encode msg) with
  | Some buf =>
      if debug && negb (bool_decide (length (encode msg) = GrpcSlice_len buf))
      then Panicked "assertion failed: b.is_empty()" else Done buf
  | None => Panicked "Writing message to buffer failed"
  end.

(** [pb_codec::de]; [merge_from] is that of the message on a stream over the reader. *)
Definition pb_de (merge_from : GrpcByteBufferReader C -> Result string T)
    (reader : GrpcByteBufferReader C) : Result Error T :=
  match merge_from reader with Ok m => Ok m | Err e => Err (Codec e) end.

(** [pr_codec::de]; [decode] is [prost::Message::decode]. *)
Definition pr_de (fuel : nat) (decode : GrpcByteBufferReader C -> Result string T)
    (reader : GrpcByteBufferReader C) : option (Result Error T) :=
  match advance fuel 0 reader with
  | Some reader =>
      Some (match decode reader with Ok m => Ok m | Err e => Err (Codec e) end)
  | None => None
  end.
End codecs.

(** ** Lemmas *)

Section slice_lemmas.
Context `{C : SliceCore} `{L : !SliceCoreLaws C}.
Implicit Types (r : GrpcByteBufferReader C) (s : GrpcSlice).

Lemma slice_length s : slice_wf s -> length (GrpcSlice_as_slice s) = GrpcSlice_len s.
Proof. destruct s; simpl; [done|]. intros [Hl Hn]. rewrite length_take. lia. Qed.

Lemma empty_slice_wf : slice_wf grpc_empty_slice.
Proof. destruct empty_slice_inline as (bytes & -> & ?). simpl. lia. Qed.

Lemma empty_slice_len : GrpcSlice_len grpc_empty_slice = 0.
Proof. by destruct empty_slice_inline as (bytes & -> & ?). Qed.

Lemma empty_slice_bytes : GrpcSlice_as_slice grpc_empty_slice = [].
Proof. by destruct empty_slice_inline as (bytes & -> & ?). Qed.

(** The slices a reader still holds, the current one first, and the unread bytes. *)
Definition held r : list GrpcSlice := r_slice r :: reader_rest (r_reader r).

Definition bytes_of (ss : list GrpcSlice) : list byte := ss ≫= GrpcSlice_as_slice.

#[local] Arguments held : simpl never.
#[local] Arguments bytes_of : simpl never.

Definition pending r : list byte := drop (r_offset r) (bytes_of (held r)).

Record RInv r : Prop := {
  rinv_wf : Forall slice_wf (held r);
  rinv_offset : r_offset r <= GrpcSlice_len (r_slice r);
  rinv_remain : r_remain r = length (pending r);
}.

Lemma next_slice_cases rd :
  (reader_rest rd = [] /\ next_slice rd = (grpc_empty_slice, rd)) \/
  (exists s rd', reader_rest rd = s :: reader_rest rd' /\ next_slice rd = (s, rd') /\
     grpc_byte_buffer_length rd' = grpc_byte_buffer_length rd).
Proof.
  unfold next_slice. destruct (grpc_byte_buffer_reader_next rd) as [[s rd']|] eqn:E.
  - apply reader_next_Some in E as [? ?]. right. eauto.
  - left. by rewrite reader_next_None in E.
Qed.

Lemma bytes_of_cons s ss : bytes_of (s :: ss) = GrpcSlice_as_slice s ++ bytes_of ss.
Proof. done. Qed.

Lemma bytes_of_length ss :
  Forall slice_wf ss -> sum_list_with GrpcSlice_len ss = length (bytes_of ss).
Proof.
  induction 1 as [|s ss Hs Hss IH]; [done|]. rewrite bytes_of_cons, length_app, slice_length by done.
  simpl. lia.
Qed.

Lemma bytes_of_held r : bytes_of (held r) =
  GrpcSlice_as_slice (r_slice r) ++ bytes_of (reader_rest (r_reader r)).
Proof. done. Qed.

Lemma load_next_slice_held r :
  r_remain (load_next_slice r) = r_remain r /\
  (reader_rest (r_reader r) = [] /\ held (load_next_slice r) = [grpc_empty_slice] \/
   held (load_next_slice r) = reader_rest (r_reader r)).
Proof.
  unfold load_next_slice, held.
  destruct (next_slice_cases (r_reader r)) as [[Hr E]|(s & rd' & Hr & E & _)]; rewrite E; simpl.
  - rewrite Hr. auto.
  - rewrite <-Hr. auto.
Qed.

Lemma load_next_slice_bytes r :
  bytes_of (held (load_next_slice r)) = bytes_of (reader_rest (r_reader r)).
Proof.
  destruct (load_next_slice_held r) as (_ & [[E ->]| ->]); [|done].
  rewrite E. unfold bytes_of. simpl. by rewrite empty_slice_bytes.
Qed.

Lemma load_next_slice_wf r : Forall slice_wf (held r) -> Forall slice_wf (held (load_next_slice r)).
Proof.
  intros [_ Hwf]%Forall_cons. destruct (load_next_slice_held r) as (_ & [[E ->]| ->]); [|done].
  repeat constructor. apply empty_slice_wf.
Qed.

Lemma load_next_slice_length r : length (held (load_next_slice r)) <= length (held r).
Proof. destruct (load_next_slice_held r) as (_ & [[E ->]| ->]); simpl; lia. Qed.

(** The loop of [consume] ends, and stops at the same place in the data. *)
Lemma consume_loop_spec fuel off r :
  Forall slice_wf (held r) -> off <= length (bytes_of (held r)) -> length (held r) < fuel ->
  exists off' r', consume_loop fuel off r = Some (off', r') /\ r_remain r' = r_remain r /\
    Forall slice_wf (held r') /\ length (held r') <= length (held r) /\
    (off' = 0 \/ off' < GrpcSlice_len (r_slice r')) /\
    drop off' (bytes_of (held r')) = drop off (bytes_of (held r)).
Proof.
  revert off r. induction fuel as [|fuel IH]; intros off r Hwf Hoff Hfuel; [lia|]. cbn [consume_loop].
  assert (length (GrpcSlice_as_slice (r_slice r)) = GrpcSlice_len (r_slice r)) as Hlen
    by (apply slice_length; by apply Forall_cons in Hwf as [? _]).
  case_bool_decide as H1; [case_bool_decide as H2|]; cbn [andb];
    [|exists off, r; repeat split; auto; lia..].
  rewrite bytes_of_held, length_app in Hoff.
  assert (drop (off - GrpcSlice_len (r_slice r)) (bytes_of (held (load_next_slice r))) =
          drop off (bytes_of (held r))) as Hd.
  { rewrite load_next_slice_bytes, bytes_of_held, drop_app_ge, Hlen by lia. done. }
  pose proof (load_next_slice_length r) as Hll.
  destruct (load_next_slice_held r) as (Hrem & Hh).
  destruct (decide (off - GrpcSlice_len (r_slice r) = 0)) as [Hz|Hnz].
  - destruct fuel as [|fuel]; [unfold held in Hfuel; simpl in Hfuel; lia|]. rewrite Hz in *. cbn [consume_loop].
    rewrite (bool_decide_eq_false_2 (0 < 0)) by lia.
    rewrite andb_false_r.
    eexists 0, _. split; [done|]. split; [done|]. split; [by apply load_next_slice_wf|].
    split; [done|]. split; [by left | done].
  - destruct Hh as [[E _]|Hh]; [rewrite E in Hoff; unfold bytes_of in Hoff; simpl in Hoff; lia|].
    destruct (IH (off - GrpcSlice_len (r_slice r)) (load_next_slice r)) as
      (off' & r' & -> & Hr' & Hw & Hl & Hp & Hd');
      [by apply load_next_slice_wf | rewrite load_next_slice_bytes; lia
      | unfold held in Hfuel, Hll; rewrite Hh; simpl in Hfuel; lia |].
    exists off', r'. split; [done|]. split; [congruence|]. split; [done|]. split; [lia|].
    split; [done | congruence].
Qed.

Lemma pending_length r : RInv r ->
  length (bytes_of (held r)) = r_offset r + r_remain r.
Proof.
  intros [Hwf Ho Hr]. rewrite Hr. unfold pending. rewrite length_drop.
  rewrite bytes_of_held, length_app, slice_length; [lia|]. by apply Forall_cons in Hwf as [? _].
Qed.

(** [consume] drops exactly the consumed bytes, however the data is sliced. *)
Lemma consume_spec fuel amt r :
  RInv r -> length (held r) < fuel ->
  exists r', consume fuel amt r = Some r' /\ RInv r' /\ pending r' = drop amt (pending r) /\
    length (held r') <= length (held r) /\
    (r_offset r' = 0 \/ r_offset r' < GrpcSlice_len (r_slice r')).
Proof.
  intros HI Hfuel. pose proof (pending_length r HI) as Hpl. destruct HI as [Hwf Ho Hr].
  unfold consume. set (amt' := if bool_decide _ then _ else _).
  assert (amt' <= r_remain r /\ drop amt' (pending r) = drop amt (pending r)) as [Hle Hdrop].
  { unfold amt'. case_bool_decide; [|split; [lia|done]]. split; [done|].
    rewrite !drop_ge; [done|lia|lia]. }
  simpl. destruct (consume_loop_spec fuel (r_offset r + amt')
      (mkReader (r_reader r) (r_slice r) (r_offset r) (r_remain r - amt'))) as
    (off' & r' & -> & Hrem & Hw & Hl & Hp & Hd); [done | unfold held in *; simpl in *; lia | done |].
  exists (mkReader (r_reader r') (r_slice r') off' (r_remain r')). simpl in *.
  assert (pending (mkReader (r_reader r') (r_slice r') off' (r_remain r')) = drop amt' (pending r))
    as Hpend.
  { unfold pending, held in *. simpl in *. rewrite Hd, drop_drop. done. }
  split; [done|]. split; [|split; [by rewrite Hpend | split; [exact Hl | exact Hp]]].
  constructor; simpl; [done | destruct Hp; lia |].
  rewrite Hpend, length_drop, <-Hr. lia.
Qed.

(** A reader whose first slice is empty only when nothing is left, and which the core
    gives no empty slice. *)
Definition compact r : Prop :=
  Forall (fun s => GrpcSlice_len s <> 0) (reader_rest (r_reader r)) /\
  (GrpcSlice_len (r_slice r) = 0 -> reader_rest (r_reader r) = []).

Lemma load_next_slice_compact r : compact r -> compact (load_next_slice r).
Proof.
  intros [Hr Hs]. unfold load_next_slice.
  destruct (next_slice_cases (r_reader r)) as [[E Hn]|(s & rd' & E & Hn & _)]; rewrite Hn;
    split; simpl; auto; try (by rewrite E).
  - rewrite E in Hr. by apply Forall_cons in Hr as [_ ?].
  - rewrite E in Hr. apply Forall_cons in Hr as [? _]. done.
Qed.

Lemma consume_loop_compact fuel off r off' r' :
  compact r -> consume_loop fuel off r = Some (off', r') -> compact r'.
Proof.
  revert off r. induction fuel as [|fuel IH]; intros off r Hc; [done|]. simpl.
  destruct (_ && _); [|by intros [= <- <-]]. apply IH. by apply load_next_slice_compact.
Qed.

Lemma consume_compact fuel amt r r' : compact r -> consume fuel amt r = Some r' -> compact r'.
Proof.
  intros Hc. unfold consume.
  destruct (consume_loop _ _ _) as [[off' r1]|] eqn:E; [|done]. intros [= <-].
  apply consume_loop_compact in E; [exact E | exact Hc].
Qed.

(** The chunk offered to the caller is a prefix of the unread bytes. *)
Lemma fill_buf_prefix r : RInv r ->
  exists rest, pending r = fill_buf r ++ rest.
Proof.
  intros [Hwf Ho Hr]. unfold pending, fill_buf, GrpcSlice_is_empty. rewrite bytes_of_held.
  apply Forall_cons in Hwf as [Hws _].
  case_bool_decide as E; [eauto|].
  rewrite drop_app_le by (rewrite slice_length by done; lia). eauto.
Qed.

(** On a compact reader between operations, the chunk is empty only at the end. *)
Lemma fill_buf_nonempty r : RInv r -> compact r ->
  (r_offset r = 0 \/ r_offset r < GrpcSlice_len (r_slice r)) -> fill_buf r = [] -> pending r = [].
Proof.
  intros [Hwf Ho Hr] [Hc1 Hc2] Hoff Hf. apply Forall_cons in Hwf as [Hws _].
  unfold fill_buf, GrpcSlice_is_empty in Hf. case_bool_decide as E.
  - unfold pending. rewrite bytes_of_held, Hc2 by done. unfold bytes_of. simpl.
    rewrite app_nil_r. apply nil_length_inv. rewrite length_drop, slice_length by done. lia.
  - apply (f_equal length) in Hf. rewrite length_drop, slice_length in Hf by done. simpl in Hf. lia.
Qed.

Lemma read_to_end_loop_spec fuel buf r :
  RInv r -> compact r -> (r_offset r = 0 \/ r_offset r < GrpcSlice_len (r_slice r)) ->
  length (held r) + r_remain r < fuel ->
  exists r', read_to_end_loop fuel buf r = Some (buf ++ pending r, r') /\ RInv r' /\
    r_remain r' = 0.
Proof.
  revert buf r. induction fuel as [|fuel IH]; intros buf r HI Hc Ho Hfuel; [lia|]. cbn [read_to_end_loop].
  case_bool_decide as Hr.
  - destruct (consume_spec (S fuel) (length (fill_buf r)) r) as
      (r1 & E & HI1 & Hp1 & Hl1 & Ho1); [done|lia|]. rewrite E.
    destruct (fill_buf_prefix r HI) as [rest Hrest].
    assert (fill_buf r <> []) as Hne.
    { intros Hf. apply fill_buf_nonempty in Hf; [|done..]. rewrite (rinv_remain r HI), Hf in Hr.
      simpl in Hr. lia. }
    rewrite Hrest, drop_app_length in Hp1.
    pose proof (rinv_remain r HI) as Hrem. rewrite Hrest, length_app in Hrem.
    pose proof (rinv_remain r1 HI1) as Hrem1. rewrite Hp1 in Hrem1.
    assert (length (fill_buf r) <> 0) by (by destruct (fill_buf r)).
    destruct (IH (buf ++ fill_buf r) r1) as (r' & -> & HI' & Hz);
      [done | by eapply consume_compact | done | lia |].
    exists r'. split; [|done]. by rewrite Hp1, Hrest, app_assoc.
  - exists r. split; [|split; [done|]]; [|lia].
    assert (pending r = []) as -> by (apply nil_length_inv; rewrite <-(rinv_remain r HI); lia).
    by rewrite app_nil_r.
Qed.

(** Once the chunk is empty with bytes remaining, consuming it changes nothing. *)
Lemma consume_zero fuel r : r_offset r = 0 -> consume (S fuel) 0 r = Some r.
Proof.
  intros Ho. unfold consume. destruct r as [rd s o rem].
  cbn [r_remain r_offset r_reader r_slice] in *. subst o.
  assert ((if bool_decide (rem < 0) then rem else 0) = 0) as -> by (case_bool_decide; lia).
  simpl. rewrite andb_false_r. by rewrite Nat.sub_0_r.
Qed.

Lemma read_to_end_stuck fuel buf r :
  r_offset r = 0 -> fill_buf r = [] -> 0 < r_remain r -> read_to_end_loop fuel buf r = None.
Proof.
  intros Ho Hf Hr. revert buf. induction fuel as [|fuel IH]; intros buf; [done|].
  cbn [read_to_end_loop]. rewrite bool_decide_eq_true_2, Hf by done. simpl length.
  rewrite consume_zero by done. apply IH.
Qed.

(** A new reader is at the start of the buffer. *)
Lemma Reader_new_spec (buf : grpc_byte_buffer) :
  Forall slice_wf (buffer_slices buf) ->
  exists r, Reader_new buf = Done r /\ RInv r /\ r_offset r = 0 /\
    pending r = bytes_of (buffer_slices buf) /\
    length (held r) <= S (length (buffer_slices buf)) /\
    (Forall (fun s => GrpcSlice_len s <> 0) (buffer_slices buf) -> compact r).
Proof.
  intros Hwf. unfold Reader_new. pose proof (reader_init_ok buf) as H1. pose proof (reader_init_rest buf) as H2.
  pose proof (reader_init_length buf) as H3.
  destruct (grpc_byte_buffer_reader_init buf) as [code rd]. simpl in *. subst code.
  rewrite bool_decide_eq_true_2 by done.
  destruct (next_slice_cases rd) as [[Hr E]|(s & rd' & Hr & E & Hl)]; rewrite E.
  - rewrite <-H2, Hr in *. eexists. split; [done|]. unfold pending, held. simpl. rewrite Hr.
    unfold bytes_of. simpl. rewrite empty_slice_bytes. split; [constructor|]; simpl; auto.
    + unfold held. simpl. rewrite Hr. repeat constructor. apply empty_slice_wf.
    + lia.
    + unfold pending, held. simpl. rewrite Hr, H3. unfold bytes_of. simpl.
      by rewrite empty_slice_bytes.
    + split; [done|]. split; [done|]. split; [simpl; lia|]. intros _. split; simpl; by rewrite Hr.
  - rewrite <-H2, Hr in *. eexists. split; [done|]. unfold pending, held. simpl. split.
    { constructor; simpl; [done|lia|]. unfold pending, held. simpl. rewrite Hl, H3, drop_0.
      change (GrpcSlice_len s + sum_list_with GrpcSlice_len (reader_rest rd')) with
        (sum_list_with GrpcSlice_len (s :: reader_rest rd')). by apply bytes_of_length. }
    split; [done|]. split; [by rewrite drop_0|]. split; [simpl; lia|].
    intros [Hs Hne]%Forall_cons. split; simpl; [done|]. intros H0. done.
Qed.
End slice_lemmas.

Section realloc_lemmas.
Context `{C : SliceCore} `{L : !SliceCoreLaws C}.

(** [realloc] gives a valid slice of exactly the asked length, whatever it was before. *)
Lemma realloc_spec s cap :
  slice_wf s -> slice_wf (GrpcSlice_realloc s cap) /\ GrpcSlice_len (GrpcSlice_realloc s cap) = cap.
Proof.
  intros Hwf. unfold GrpcSlice_realloc. case_bool_decide as Hc.
  - assert (cap mod 256 = cap) as Hm.
    { apply Nat.mod_small. unfold INLINED_SIZE in Hc. lia. }
    rewrite Hm. destruct s as [bytes|n bytes]; simpl; [|simpl in Hwf; intuition lia].
    destruct empty_slice_inline as (bytes' & E & Hl). unfold GrpcSlice_default. by rewrite E.
  - destruct (malloc_large_len cap) as (bytes & -> & Hl). done.
Qed.

Lemma slice_write_full s data :
  slice_wf s -> length data = GrpcSlice_len s ->
  exists s', slice_write s data = Some s' /\ GrpcSlice_as_slice s' = data /\ slice_wf s' /\
    GrpcSlice_len s' = GrpcSlice_len s.
Proof.
  intros Hwf Hl. unfold slice_write. rewrite bool_decide_eq_true_2 by lia. eexists. split; [done|].
  destruct s as [bytes|n bytes]; simpl in *.
  - rewrite drop_ge, app_nil_r by lia. auto.
  - rewrite take_app_le by lia. rewrite take_ge by lia. split; [done|].
    rewrite length_app, length_drop. intuition lia.
Qed.
End realloc_lemmas.

(** ** A concrete core

    An implementation of the interface, to run the definitions on. *)

Definition inline_slice (bs : list byte) : GrpcSlice :=
  Inlined (length bs) (bs ++ replicate (INLINED_SIZE - length bs) x00).

Definition copied_slice (bs : list byte) : GrpcSlice :=
  if bool_decide (length bs <= INLINED_SIZE) then inline_slice bs else Refcounted bs.

#[export] Instance list_core : SliceCore := {|
  grpc_empty_slice := inline_slice [];
  grpc_slice_from_static_buffer := Refcounted;
  grpc_slice_from_copied_buffer := copied_slice;
  grpc_slice_new_with_len := copied_slice;
  grpc_slice_malloc_large n := Refcounted (replicate n x00);
  grpc_byte_buffer := list GrpcSlice;
  grpc_raw_byte_buffer_create ss := ss;
  grpc_byte_buffer_reader := list GrpcSlice * nat;
  grpc_byte_buffer_reader_init b := (1%Z, (b, sum_list_with GrpcSlice_len b));
  grpc_byte_buffer_reader_next r :=
    match r.1 with [] => None | s :: ss => Some (s, (ss, r.2)) end;
  grpc_byte_buffer_length := snd;
  buffer_slices b := b;
  reader_rest := fst;
|}.

#[export] Instance list_core_laws : SliceCoreLaws list_core.
Proof.
  assert (forall bs, GrpcSlice_as_slice (copied_slice bs) = bs) as Hc.
  { intros bs. unfold copied_slice. case_bool_decide; [|done].
    simpl. rewrite take_app_le, take_ge by lia. done. }
  constructor; simpl; auto.
  - by eexists.
  - intros n. eexists. split; [done|]. apply length_replicate.
  - intros [[|s ss] n]; simpl; split; done.
  - intros [[|s ss] n] s' r'; simpl; intros E; by simplify_eq.
Qed.

(** ** Properties *)

Section buf_properties.
Context `{C : SliceCore} `{L : !SliceCoreLaws C}.

(** [consume] terminates, within one step per slice still held, and leaves exactly
    the unread bytes after the consumed ones, for every way the core cuts the message
    into slices, empty ones included; asking for more than remains consumes what is left,
    and the reader stays consistent. *)
Theorem buf_consume_drops fuel amt (r : GrpcByteBufferReader C) :
  RInv r -> length (held r) < fuel ->
  exists r', consume fuel amt r = Some r' /\ RInv r' /\
    pending r' = drop amt (pending r) /\ Reader_len r' = Reader_len r - amt.
Proof.
  intros HI Hf. destruct (consume_spec fuel amt r HI Hf) as (r' & E & HI' & Hp & _).
  exists r'. split; [done|]. split; [done|]. split; [done|]. unfold Reader_len.
  rewrite (rinv_remain _ HI'), (rinv_remain _ HI), Hp, length_drop. done.
Qed.

(** C28: a message read to its end is the message: [read_to_end] on a new reader of a
    buffer without empty slices terminates and appends the bytes of all its slices in
    order, returns their number, and leaves nothing to read. *)
Theorem buf_read_to_end (buf : grpc_byte_buffer) (dest : list byte) fuel :
  Forall slice_wf (buffer_slices buf) ->
  Forall (fun s => GrpcSlice_len s <> 0) (buffer_slices buf) ->
  S (length (buffer_slices buf)) + length (bytes_of (buffer_slices buf)) < fuel ->
  exists r r', Reader_new buf = Done r /\
    read_to_end fuel dest r =
      Some (dest ++ bytes_of (buffer_slices buf), length (bytes_of (buffer_slices buf)), r') /\
    Reader_is_empty r' = true.
Proof.
  intros Hwf Hne Hf. destruct (Reader_new_spec buf Hwf) as (r & E & HI & Ho & Hp & Hl & Hc).
  pose proof (rinv_remain r HI) as Hrem. rewrite Hp in Hrem.
  destruct (read_to_end_loop_spec fuel dest r) as (r' & E' & HI' & Hz);
    [done | auto | auto | lia |].
  exists r, r'. split; [done|]. unfold read_to_end, Reader_is_empty. rewrite E', Hz, Hp, Hrem. done.
Qed.

(** [read] returns the next bytes of the message and only moves past those; between
    operations on a reader without empty slices it returns nothing only for an empty
    destination or at the end of the message. *)
Theorem buf_read_is_prefix fuel n (r : GrpcByteBufferReader C) :
  RInv r -> length (held r) < fuel ->
  exists bs r', read fuel n r = Some (bs, r') /\ RInv r' /\ length bs <= n /\
    pending r = bs ++ pending r' /\
    (compact r -> (r_offset r = 0 \/ r_offset r < GrpcSlice_len (r_slice r)) ->
     bs = [] -> n = 0 \/ Reader_is_empty r = true).
Proof.
  intros HI Hf. unfold read. destruct (fill_buf_prefix r HI) as [rest Hrest].
  destruct (consume_spec fuel (length (take n (fill_buf r))) r HI Hf) as (r' & E & HI' & Hp & _).
  rewrite E. eexists _, r'. split; [done|]. split; [done|]. split; [rewrite length_take; lia|].
  assert (take n (fill_buf r) = take (length (take n (fill_buf r))) (pending r)) as Ht.
  { rewrite length_take, Hrest, take_app_le by lia. rewrite Nat.min_comm.
    destruct (decide (n <= length (fill_buf r))); [by rewrite Nat.min_r by lia|].
    rewrite Nat.min_l, !take_ge by lia. done. }
  split; [rewrite Hp, Ht at 1; by rewrite take_drop|].
  intros Hc Ho Hbs. unfold Reader_is_empty. destruct n as [|n]; [by left|right].
  apply bool_decide_eq_true_2. rewrite (rinv_remain r HI).
  destruct (fill_buf r) as [|b bs] eqn:Ef; [|done].
  by rewrite (fill_buf_nonempty r HI Hc Ho Ef).
Qed.

(** A serializer writes exactly the encoding of the message, in debug and release
    builds and whatever the reused slice held before, when the codec announces the size
    it writes. *)
Theorem codec_ser_writes {T} (compute_size : T -> nat) (encode : T -> list byte)
    (debug : bool) (t : T) (buf : GrpcSlice) :
  length (encode t) = compute_size t -> slice_wf buf ->
  exists s, pb_ser compute_size encode t buf = Done s /\
    pr_ser compute_size encode debug t buf = Done s /\
    GrpcSlice_as_slice s = encode t /\ slice_wf s.
Proof.
  intros Hsz Hwf. destruct (realloc_spec buf (compute_size t) Hwf) as [Hw Hl].
  destruct (slice_write_full (GrpcSlice_realloc buf (compute_size t)) (encode t)) as
    (s & E & Hb & Hws & Hls); [done | by rewrite Hl |].
  exists s. unfold pb_ser, pr_ser. rewrite E, Hls, Hl, bool_decide_eq_true_2 by apply Hsz.
  rewrite andb_false_r. done.
Qed.
End buf_properties.

Definition bytes1 : GrpcSlice := inline_slice [x01].

Definition demo_buffer : list GrpcSlice := [inline_slice [x01; x02]; inline_slice [x03]].

Definition demo_reader : GrpcByteBufferReader list_core :=
  mkReader ([inline_slice [x03]], 3) (inline_slice [x01; x02]) 0 3.

Lemma demo_reader_RInv : RInv demo_reader.
Proof.
  constructor; [|vm_compute; lia|reflexivity].
  repeat constructor; vm_compute; lia.
Qed.

Lemma buf_consume_drops_witness :
  exists r', consume 3 2 demo_reader = Some r' /\ pending r' = [x03].
Proof.
  destruct (buf_consume_drops 3 2 demo_reader demo_reader_RInv) as (r' & E & _ & Hp & _).
  - vm_compute. lia.
  - exists r'. split; [exact E|]. rewrite Hp. reflexivity.
Defined.

Lemma buf_read_to_end_witness :
  exists r r', Reader_new (C:=list_core) demo_buffer = Done r /\
    read_to_end 9 [] r = Some ([x01; x02; x03], 3, r') /\ Reader_is_empty r' = true.
Proof.
  apply (buf_read_to_end (C:=list_core) demo_buffer [] 9).
  - repeat constructor; vm_compute; lia.
  - repeat constructor; vm_compute; lia.
  - vm_compute. lia.
Defined.

Lemma buf_read_is_prefix_witness :
  exists bs r', read 3 1 demo_reader = Some (bs, r') /\ length bs <= 1 /\
    pending demo_reader = bs ++ pending r'.
Proof.
  destruct (buf_read_is_prefix 3 1 demo_reader demo_reader_RInv) as (bs & r' & E & _ & Hl & Hp & _).
  - vm_compute. lia.
  - exists bs, r'. auto.
Defined.

Lemma codec_ser_writes_witness :
  exists s, pb_ser (@length byte) id [x01; x02] bytes1 = Done s /\
    GrpcSlice_as_slice s = [x01; x02].
Proof.
  destruct (codec_ser_writes (@length byte) id true [x01; x02] bytes1) as (s & E & _ & Hs & _).
  - reflexivity.
  - vm_compute. lia.
  - exists s. auto.
Defined.

(** A message whose buffer holds an empty slice before its last data cannot be read:
    after the data before the empty slice, [read] reports the end of the message although
    bytes remain, and [read_to_end] never returns. *)
Theorem buf_empty_slice_stalls :
  exists r : GrpcByteBufferReader list_core,
    Reader_new (C:=list_core) [bytes1; inline_slice []; bytes1] = Done r /\
    (forall fuel dest, read_to_end fuel dest r = None) /\
    exists r1, read 9 4 r = Some ([x01], r1) /\ Reader_len r1 = 1 /\
      read 9 4 r1 = Some ([], r1).
Proof.
  eexists. split; [reflexivity|]. split; [|eexists; split; [vm_compute; reflexivity|];
    split; vm_compute; reflexivity].
  intros [|fuel] dest; [done|]. unfold read_to_end. cbn [read_to_end_loop].
  rewrite bool_decide_eq_true_2 by (simpl; lia).
  destruct (consume _ _ _) as [r1|] eqn:E; [|done].
  destruct fuel as [|fuel]; [done|].
  vm_compute in E. simplify_eq. rewrite read_to_end_stuck; [done..|vm_compute; lia].
Qed.
