(* ===== verification/BytesBuf.v ===== *)
(** The message reader as a [bytes::Buf], which is how prost reads a message
    (src/src/buf.rs, src/src/codec.rs).

    [BytesBuf] has the methods that an implementation gives, [BytesBufLaws] what the
    documentation of the trait asks of them; the methods that the trait itself provides, and
    with them prost, rely on nothing else. *)

From S2P Require Import Prelude Status Buf.

(** [bytes::Buf]; [None]: [advance] does not return. *)
Class BytesBuf (R : Type) := {
  remaining : R -> nat;
  chunk : R -> list byte;
  advance : R -> nat -> option R;
}.

(** Of a valid reader with these unread bytes: [remaining] counts them; [chunk] starts them and
    is empty only when there are none; [advance] drops as many as asked. *)
Class BytesBufLaws (R : Type) `{BytesBuf R} (valid : R -> Prop) (unread : R -> list byte) : Prop := {
  remaining_unread r : valid r -> remaining r = length (unread r);
  chunk_unread r : valid r -> chunk r `prefix_of` unread r;
  chunk_empty r : valid r -> chunk r = [] -> remaining r = 0;
  advance_unread r n : valid r -> n <= remaining r ->
    exists r', advance r n = Some r' /\ valid r' /\ unread r' = drop n (unread r);
}.

Section reader.
Context `{C : SliceCore} `{L : !SliceCoreLaws C}.
Implicit Types (r : GrpcByteBufferReader C).

(** The loop of [consume] passes each slice that is still held once. *)
#[export] Instance reader_buf : BytesBuf (GrpcByteBufferReader C) := {|
  remaining r := r_remain r;
  chunk r := fill_buf r;
  advance r n := Buf.advance (2 + length (held r)) n r;
|}.

Record valid_reader r : Prop := {
  vr_inv : RInv r;
  vr_compact : compact r;
  vr_offset : r_offset r = 0 \/ r_offset r < GrpcSlice_len (r_slice r);
}.

#[export] Instance reader_buf_laws : BytesBufLaws (GrpcByteBufferReader C) valid_reader pending.
Proof.
  split.
  - intros r [HI _ _]. apply HI.
  - intros r [HI _ _]. destruct (fill_buf_prefix r HI) as [rest E]. by exists rest.
  - intros r [HI Hc Ho] E. cbn. by rewrite (rinv_remain r HI), (fill_buf_nonempty r HI Hc Ho E).
  - intros r n [HI Hc Ho] Hn. destruct (consume_spec (2 + length (held r)) n r HI) as (r' & E & HI' & Hp & _ & Ho'); [lia|].
    exists r'. split; [exact E|]. split; [|done]. split; [done| |done]. by eapply consume_compact.
Qed.
End reader.

(** Reading any [bytes::Buf] chunk by chunk, as a decoder does. *)
Section chunks.
Context {R : Type} `{BytesBuf R} {valid : R -> Prop} {unread : R -> list byte} `{L : !BytesBufLaws R valid unread}.

(** [n] rounds of taking the chunk and passing over it. *)
Fixpoint chunks (n : nat) (r : R) : option (list byte * R) :=
  match n with
  | 0 => Some ([], r)
  | S n =>
      match advance r (length (chunk r)) with
      | Some r' => match chunks n r' with Some (bs, r'') => Some (chunk r ++ bs, r'') | None => None end
      | None => None
      end
  end.

(** Every round makes progress, so that as many rounds as there are bytes read them all. *)
Lemma chunks_read_all n r : valid r -> remaining r <= n ->
  exists r', chunks n r = Some (unread r, r') /\ valid r' /\ remaining r' = 0.
Proof.
  revert r. induction n as [|n IH]; intros r Hv Hn.
  - exists r. rewrite (remaining_unread r Hv) in *. cbn [chunks]. destruct (unread r); [done|]. cbn in Hn. lia.
  - destruct (chunk_unread r Hv) as [rest Hc]. pose proof (remaining_unread r Hv) as Hr.
    rewrite Hc, length_app in Hr. destruct (advance_unread r (length (chunk r)) Hv) as (r1 & E & Hv1 & Hu1); [lia|].
    pose proof (remaining_unread r1 Hv1) as Hr1. rewrite Hu1, Hc, drop_app_length in *.
    destruct (IH r1 Hv1) as (r' & E' & Hv' & Hz).
    { destruct (chunk r) eqn:Ec; cbn [length] in *; [|lia]. pose proof (chunk_empty r Hv Ec). lia. }
    exists r'. cbn [chunks]. rewrite E, E'. split; [|done]. congruence.
Qed.
End chunks.

(** C29: a message reader keeps the contract of [bytes::Buf]: a reader that is made for a buffer
    without empty slices has the bytes of the slices, [remaining] counts what is unread,
    [chunk] is the beginning of it and empty only at the end, [advance] returns and passes over
    exactly what it is asked to, and taking chunk after chunk reads the whole message. *)
Theorem reader_is_bytes_buf `{C : SliceCore} `{L : !SliceCoreLaws C} (buf : grpc_byte_buffer) :
  Forall slice_wf (buffer_slices buf) -> Forall (fun s => GrpcSlice_len s <> 0) (buffer_slices buf) ->
  BytesBufLaws (GrpcByteBufferReader C) valid_reader pending /\
  exists r r', Reader_new buf = Done r /\ valid_reader r /\ pending r = bytes_of (buffer_slices buf) /\
    chunks (remaining r) r = Some (bytes_of (buffer_slices buf), r') /\ remaining r' = 0.
Proof.
  intros Hwf Hne. split; [apply reader_buf_laws|].
  destruct (Reader_new_spec buf Hwf) as (r & E & HI & Ho & Hp & _ & Hc).
  assert (valid_reader r) as Hv by (split; [done|by apply Hc|by left]).
  destruct (chunks_read_all (remaining r) r Hv) as (r' & Er & _ & Hz); [done|].
  exists r, r'. by rewrite <-Hp.
Qed.

Lemma reader_is_bytes_buf_witness :
  exists r r', Reader_new (C:=list_core) demo_buffer = Done r /\
    chunks (remaining r) r = Some ([x01; x02; x03], r') /\ remaining r' = 0.
Proof.
  destruct (reader_is_bytes_buf (C:=list_core) demo_buffer) as (_ & r & r' & E & _ & _ & Er & Hz).
  - repeat constructor; cbn; unfold INLINED_SIZE; lia.
  - repeat constructor; cbn; lia.
  - exists r, r'. split; [exact E|]. split; [exact Er|exact Hz].
Defined.
