(* ===== verification/Refs.v ===== *)
(** The memory of slices: reference counts, destructors and ownership in src/src/buf.rs.

    Buf says which bytes slices and readers have.  Here is who keeps them in memory: a
    slice is a pointer to a reference count of the core, a buffer keeps references to its
    slices, a reader owns its buffer and one reference to the slice it reads, and a vector
    handed to the core comes back to [drop_vec] when its last reference is gone.  The core
    is the interface [CountingCore] with the laws its headers document; the values of a
    program are a list, and the operations of the module are run on them in any order. *)

From S2P Require Import Prelude Status Buf.
Local Open Scope rust_scope.

(** [grpc_slice]: the bytes, and the reference count they are kept by, if it is not null
    or the constant one of static memory. *)
Record CSlice := mkCSlice { data : GrpcSlice; refcount : option nat }.

(** A call of the destructor that [grpc_slice_new_with_len] was given. *)
Abbreviation Destroy := (nat * nat)%type.

(** What is known of a reference count: how many references there are, and with which
    arguments the destructor is called after the last one. *)
Abbreviation Counts := (gmap nat (nat * option Destroy)).

Definition inc_ref (s : CSlice) (c : Counts) : Counts :=
  match refcount s with
  | Some b => alter (fun x => (S x.1, x.2)) b c
  | None => c
  end.

Definition drop_ref (s : CSlice) (c : Counts) : list Destroy * Counts :=
  match refcount s with
  | Some b =>
      match c !! b with
      | Some (1, d) => (option_list d, delete b c)
      | Some (n, d) => ([], <[b:=(n - 1, d)]> c)
      | None => ([], c)
      end
  | None => ([], c)
  end.

Fixpoint drop_refs (ss : list CSlice) (c : Counts) : list Destroy * Counts :=
  match ss with
  | [] => ([], c)
  | s :: ss => let '(ds, c) := drop_ref s c in let '(ds', c) := drop_refs ss c in (ds ++ ds', c)
  end.

Definition held (c : Counts) (s : CSlice) : Prop :=
  match refcount s with Some b => is_Some (c !! b) | None => True end.

#[export] Instance held_dec c s : Decision (held c s).
Proof. unfold held. destruct (refcount s); apply _. Defined.

(** ** What the C core provides *)

Class CountingCore := {
  core_heap : Type;
  grpc_empty_slice : CSlice;
  grpc_slice_from_static_buffer : list byte -> CSlice;
  grpc_slice_ref : CSlice -> core_heap -> CSlice * core_heap;
  grpc_slice_unref : CSlice -> core_heap -> list Destroy * core_heap;
  grpc_slice_new_with_len : nat -> list byte -> core_heap -> CSlice * core_heap;
  grpc_slice_from_copied_buffer : list byte -> core_heap -> CSlice * core_heap;
  grpc_slice_malloc_large : nat -> core_heap -> CSlice * core_heap;
  grpc_raw_byte_buffer_create : list CSlice -> core_heap -> nat * core_heap;
  grpc_byte_buffer_copy : nat -> core_heap -> nat * core_heap;
  grpc_byte_buffer_destroy : nat -> core_heap -> list Destroy * core_heap;
  native_reader : Type;
  buffer_in : native_reader -> nat;
  grpc_byte_buffer_reader_init : nat -> core_heap -> Z * native_reader * core_heap;
  grpc_byte_buffer_reader_next : native_reader -> core_heap -> option (CSlice * native_reader) * core_heap;
  grpc_byte_buffer_reader_destroy : native_reader -> core_heap -> core_heap;
  (** [grpc_byte_buffer_length] of the reader's [buffer_out]. *)
  grpc_byte_buffer_length : native_reader -> core_heap -> nat;

  (** what the heap has: reference counts and buffers; what a reader has not returned *)
  counts : core_heap -> Counts;
  buffers : core_heap -> gmap nat (list CSlice);
  rest : native_reader -> list CSlice;
}.

Definition lengths `{CountingCore} (ss : list CSlice) : nat := sum_list_with (fun s => GrpcSlice_len (data s)) ss.

(** A slice with memory of its own: a reference count that was not in use, held once. *)
Definition allocated `{CountingCore} (d : option Destroy) (h : core_heap) (r : CSlice * core_heap) : Prop :=
  exists b, refcount r.1 = Some b /\ counts h !! b = None /\
    counts r.2 = <[b:=(1, d)]> (counts h) /\ buffers r.2 = buffers h.

(** The documented behaviour the library relies on. *)
Class CountingCoreLaws (C : CountingCore) : Prop := {
  empty_slice_law : refcount grpc_empty_slice = None /\ exists bytes, data grpc_empty_slice = Inlined 0 bytes;
  static_buffer_law bs : refcount (grpc_slice_from_static_buffer bs) = None;
  ref_law s h : held (counts h) s -> let '(s', h') := grpc_slice_ref s h in
    s' = s /\ counts h' = inc_ref s (counts h) /\ buffers h' = buffers h;
  unref_law s h : held (counts h) s -> let '(ds, h') := grpc_slice_unref s h in
    (ds, counts h') = drop_ref s (counts h) /\ buffers h' = buffers h;
  new_with_len_law ptr bs h : allocated (Some (ptr, length bs)) h (grpc_slice_new_with_len ptr bs h);
  copied_buffer_law bs h : let r := grpc_slice_from_copied_buffer bs h in
    allocated None h r \/ (refcount r.1 = None /\ counts r.2 = counts h /\ buffers r.2 = buffers h);
  malloc_large_law n h : allocated None h (grpc_slice_malloc_large n h);
  buffer_create_law ss h : Forall (held (counts h)) ss -> let '(p, h') := grpc_raw_byte_buffer_create ss h in
    buffers h !! p = None /\ buffers h' = <[p:=ss]> (buffers h) /\
    counts h' = foldr inc_ref (counts h) ss;
  buffer_copy_law p ss h : buffers h !! p = Some ss -> let '(p', h') := grpc_byte_buffer_copy p h in
    buffers h !! p' = None /\ buffers h' = <[p':=ss]> (buffers h) /\
    counts h' = foldr inc_ref (counts h) ss;
  buffer_destroy_law p ss h : buffers h !! p = Some ss -> let '(ds, h') := grpc_byte_buffer_destroy p h in
    (ds, counts h') = drop_refs ss (counts h) /\ buffers h' = delete p (buffers h);
  reader_init_law p ss h : buffers h !! p = Some ss ->
    let '(code, r, h') := grpc_byte_buffer_reader_init p h in
    code = 1%Z /\ buffer_in r = p /\ rest r = ss /\ counts h' = counts h /\ buffers h' = buffers h;
  reader_length_law r ss h : buffers h !! buffer_in r = Some ss -> grpc_byte_buffer_length r h = lengths ss;
  reader_next_law r ss h : buffers h !! buffer_in r = Some ss -> rest r `suffix_of` ss ->
    let '(o, h') := grpc_byte_buffer_reader_next r h in buffers h' = buffers h /\
    match rest r with
    | [] => o = None /\ counts h' = counts h
    | s :: ss => exists r', o = Some (s, r') /\ rest r' = ss /\ buffer_in r' = buffer_in r /\
        counts h' = inc_ref s (counts h)
    end;
  reader_destroy_law r h : let h' := grpc_byte_buffer_reader_destroy r h in
    counts h' = counts h /\ buffers h' = buffers h;
}.

(** ** The module *)

Section memory.
Context `{C : CountingCore}.

(** The heap of the core, and the vectors in the heap of Rust with their capacities. *)
Record Heap := mkHeap { core : core_heap; vecs : gmap nat nat }.

Definition on_core {A} (f : core_heap -> A * core_heap) : M Heap A := fun w =>
  let '(a, h) := f (core w) in Done (a, mkHeap h (vecs w)).

(** Freeing memory of Rust: it must be there, with the size it was allocated with. *)
Definition dealloc (ptr cap : nat) : M Heap unit := fun w =>
  if bool_decide (cap = 0) then Done (tt, w)
  else if bool_decide (vecs w !! ptr = Some cap) then Done (tt, mkHeap (core w) (delete ptr (vecs w)))
  else Panicked "invalid free".

(** A new vector of this capacity; without capacity nothing is allocated. *)
Definition alloc_vec (cap : nat) : M Heap nat := fun w =>
  let ptr := fresh (dom (vecs w)) in
  Done (ptr, if bool_decide (cap = 0) then w else mkHeap (core w) (<[ptr:=cap]> (vecs w))).

Definition drop_vec (ptr len : nat) : M Heap unit := dealloc ptr len.

(** The destructors the core called. *)
Fixpoint run_destroys (ds : list Destroy) : M Heap unit :=
  match ds with
  | [] => ret tt
  | (ptr, len) :: ds => do* drop_vec ptr len in run_destroys ds
  end.

Definition GrpcSlice_drop (self : CSlice) : M Heap unit :=
  let* ds := on_core (grpc_slice_unref self) in run_destroys ds.

Definition GrpcSlice_clone (self : CSlice) : M Heap CSlice := on_core (grpc_slice_ref self).

(** [as_slice]: memory that was released must not be read. *)
Definition as_slice (self : CSlice) : M Heap (list byte) := fun w =>
  if bool_decide (held (counts (core w)) self) then Done (GrpcSlice_as_slice (data self), w)
  else Panicked "use after free".

(** [From<Vec<u8>>]: a vector at [ptr] with these bytes and this capacity. *)
Definition from_vec (ptr : nat) (v : list byte) (capacity : nat) : M Heap CSlice :=
  if bool_decide (v = []) then do* dealloc ptr capacity in ret grpc_empty_slice
  else if bool_decide (length v = capacity) then on_core (grpc_slice_new_with_len ptr v)
  else let* s := on_core (grpc_slice_from_copied_buffer v) in do* dealloc ptr capacity in ret s.

(** [From<CString>]: the vector of a C string has room for its NUL. *)
Definition from_cstring (ptr : nat) (s : list byte) : M Heap CSlice := from_vec ptr s (S (length s)).

Definition from_slice (s : list byte) : M Heap CSlice := on_core (grpc_slice_from_copied_buffer s).

(** [From<&CStr>], a C string without its NUL. *)
Definition from_cstr (s : list byte) : M Heap CSlice := from_slice s.

(** [realloc]: an assignment drops the value that was there. *)
Definition realloc (self : CSlice) (cap : nat) : M Heap CSlice :=
  if bool_decide (cap <= INLINED_SIZE) then
    let* self := if GrpcSlice_is_inline (data self) then ret self
                 else do* GrpcSlice_drop self in ret grpc_empty_slice in
    ret (match data self with
         | Inlined _ bytes => mkCSlice (Inlined (cap mod 256) bytes) (refcount self)
         | Refcounted _ => self
         end)
  else
    let* s := on_core (grpc_slice_malloc_large cap) in
    do* GrpcSlice_drop self in ret s.

Definition buffer_from_slices (slice : list CSlice) : M Heap nat := on_core (grpc_raw_byte_buffer_create slice).

Definition buffer_from_slice (s : CSlice) : M Heap nat := on_core (grpc_raw_byte_buffer_create [s]).

Definition GrpcByteBuffer_clone (self : nat) : M Heap nat := on_core (grpc_byte_buffer_copy self).

Definition GrpcByteBuffer_drop (self : nat) : M Heap unit :=
  let* ds := on_core (grpc_byte_buffer_destroy self) in run_destroys ds.

Record MReader := mkMReader {
  mr_reader : native_reader;
  mr_slice : CSlice;
  mr_offset : nat;
  mr_remain : nat;
}.

(** [grpc_byte_buffer_reader_next] with an empty slice when there is none. *)
Definition next_or_empty (r : native_reader) : M Heap (CSlice * native_reader) :=
  let* o := on_core (grpc_byte_buffer_reader_next r) in ret (default (grpc_empty_slice, r) o).

Definition reader_new (buf : nat) : M Heap MReader :=
  let* (code, reader) := on_core (grpc_byte_buffer_reader_init buf) in
  do* rassert (bool_decide (code = 1%Z)) "assertion failed: `(left == right)`" in
  let* (s, reader) := next_or_empty reader in
  let* remain := gets (fun w => grpc_byte_buffer_length reader (core w)) in
  ret (mkMReader reader s 0 remain).

Definition load_next_slice (self : MReader) : M Heap MReader :=
  do* GrpcSlice_drop (mr_slice self) in
  let* (s, reader) := next_or_empty (mr_reader self) in
  ret (mkMReader reader s 0 (mr_remain self)).

Definition fill_buf (self : MReader) : M Heap (list byte) :=
  if bool_decide (GrpcSlice_len (data (mr_slice self)) = 0) then ret []
  else let* bs := as_slice (mr_slice self) in ret (drop (mr_offset self) bs).

Fixpoint consume_loop (fuel : nat) (offset : nat) (self : MReader) : M Heap (nat * MReader) :=
  match fuel with
  | 0 => panic "out of fuel"
  | S fuel =>
      let len := GrpcSlice_len (data (mr_slice self)) in
      if bool_decide (len <= offset) && bool_decide (0 < offset)
      then let* self := load_next_slice self in consume_loop fuel (offset - len) self
      else ret (offset, self)
  end.

(** [consume]; the loop loads each slice that is left at most once. *)
Definition consume (amt : nat) (self : MReader) : M Heap MReader :=
  let amt := if bool_decide (mr_remain self < amt) then mr_remain self else amt in
  let self := mkMReader (mr_reader self) (mr_slice self) (mr_offset self) (mr_remain self - amt) in
  let* (offset, self) := consume_loop (S (S (length (rest (mr_reader self))))) (mr_offset self + amt) self in
  ret (mkMReader (mr_reader self) (mr_slice self) offset (mr_remain self)).

Definition Reader_drop (self : MReader) : M Heap unit :=
  do* on_core (fun h => (tt, grpc_byte_buffer_reader_destroy (mr_reader self) h)) in
  do* GrpcSlice_drop (mr_slice self) in
  GrpcByteBuffer_drop (buffer_in (mr_reader self)).
End memory.
Arguments Heap : clear implicits.
Arguments Heap C : assert.
Arguments MReader : clear implicits.
Arguments MReader C : assert.

(** ** Programs

    The values a program owns, and what it can do with them.  Every operation of the module
    borrows values or takes them, as its type says; an operation on a value that is not
    there, or not of the right type, is no program and does nothing. *)

Inductive Val `{C : CountingCore} :=
| VSlice (s : CSlice)
| VBuffer (p : nat)
| VReader (r : MReader C).
Arguments Val : clear implicits.
Arguments Val C : assert.

Inductive MemOp :=
| OpDefault
| OpFromStatic (bs : list byte)
| OpFromVec (bs : list byte) (spare : nat)
| OpFromCString (bs : list byte)
| OpFromSlice (bs : list byte)
| OpFromCStr (bs : list byte)
| OpAsSlice (i : nat)
| OpClone (i : nat)
| OpRealloc (i cap : nat)
| OpBuffer (ids : list nat)
| OpBufferOf (i : nat)
| OpReader (i : nat)
| OpFillBuf (i : nat)
| OpConsume (i amt : nat)
| OpDrop (i : nat).

Section programs.
Context `{C : CountingCore}.

Definition slice_of (v : Val C) : option CSlice := match v with VSlice s => Some s | _ => None end.

Definition push {A} (f : A -> Val C) (vs : list (Val C)) (c : M (Heap C) A) : M (Heap C) (list (Val C)) :=
  let* a := c in ret (f a :: vs).

(** A new vector with these bytes and some spare capacity. *)
Definition vec_given (bs : list byte) (spare : nat) (k : nat -> M (Heap C) CSlice) : M (Heap C) CSlice :=
  let* ptr := alloc_vec (length bs + spare) in k ptr.

Definition drop_value (v : Val C) : M (Heap C) unit :=
  match v with
  | VSlice s => GrpcSlice_drop s
  | VBuffer p => GrpcByteBuffer_drop p
  | VReader r => Reader_drop r
  end.

Definition run_op (op : MemOp) (vs : list (Val C)) : M (Heap C) (list (Val C)) :=
  match op with
  | OpDefault => ret (VSlice grpc_empty_slice :: vs)
  | OpFromStatic bs => ret (VSlice (grpc_slice_from_static_buffer bs) :: vs)
  | OpFromVec bs spare =>
      push VSlice vs (vec_given bs spare (fun ptr => from_vec ptr bs (length bs + spare)))
  | OpFromCString bs => push VSlice vs (vec_given bs 1 (fun ptr => from_cstring ptr bs))
  | OpFromSlice bs => push VSlice vs (from_slice bs)
  | OpFromCStr bs => push VSlice vs (from_cstr bs)
  | OpAsSlice i =>
      match vs !! i with Some (VSlice s) => do* as_slice s in ret vs | _ => ret vs end
  | OpClone i =>
      match vs !! i with
      | Some (VSlice s) => push VSlice vs (GrpcSlice_clone s)
      | Some (VBuffer p) => push VBuffer vs (GrpcByteBuffer_clone p)
      | _ => ret vs
      end
  | OpRealloc i cap =>
      match vs !! i with
      | Some (VSlice s) => push VSlice (delete i vs) (realloc s cap)
      | _ => ret vs
      end
  | OpBuffer ids => push VBuffer vs (buffer_from_slices (omap (fun i => vs !! i ≫= slice_of) ids))
  | OpBufferOf i =>
      match vs !! i with Some (VSlice s) => push VBuffer vs (buffer_from_slice s) | _ => ret vs end
  | OpReader i =>
      match vs !! i with Some (VBuffer p) => push VReader (delete i vs) (reader_new p) | _ => ret vs end
  | OpFillBuf i =>
      match vs !! i with Some (VReader r) => do* fill_buf r in ret vs | _ => ret vs end
  | OpConsume i amt =>
      match vs !! i with
      | Some (VReader r) => push VReader (delete i vs) (consume amt r)
      | _ => ret vs
      end
  | OpDrop i =>
      match vs !! i with Some v => do* drop_value v in ret (delete i vs) | None => ret vs end
  end.

Fixpoint run_program (ops : list MemOp) (vs : list (Val C)) : M (Heap C) (list (Val C)) :=
  match ops with
  | [] => ret vs
  | op :: ops => let* vs := run_op op vs in run_program ops vs
  end.

(** ** What is owned

    The references a value owns, and those of all of them. *)

Definition buffer_slices (h : core_heap) (p : nat) : list CSlice := default [] (buffers h !! p).

Definition buffer_of (v : Val C) : option nat :=
  match v with
  | VSlice _ => None
  | VBuffer p => Some p
  | VReader r => Some (buffer_in (mr_reader r))
  end.

Definition own_slice (v : Val C) : option CSlice :=
  match v with
  | VSlice s => Some s
  | VBuffer _ => None
  | VReader r => Some (mr_slice r)
  end.

Definition owned (h : core_heap) (vs : list (Val C)) : list CSlice :=
  omap own_slice vs ++ (omap buffer_of vs ≫= buffer_slices h).

Definition refs (b : nat) (ss : list CSlice) : nat := length (filter (fun s => refcount s = Some b) ss).

(** The counts are those of the references [ss]. *)
Definition counted (c : Counts) (ss : list CSlice) : Prop :=
  forall b, refs b ss = match c !! b with Some (n, _) => n | None => 0 end /\ (forall d, c !! b <> Some (0, d)).

(** What is given to the destructor of a reference count. *)
Definition dest (c : Counts) (b : nat) : option Destroy := c !! b ≫= snd.

(** The vectors are those the core has to give back, each to one reference count, with the
    capacity they were allocated with. *)
Definition kept (c : Counts) (vecs : gmap nat nat) : Prop :=
  (forall ptr cap, vecs !! ptr = Some cap <-> exists b, dest c b = Some (ptr, cap)) /\
  (forall b b' ptr len len', dest c b = Some (ptr, len) -> dest c b' = Some (ptr, len') -> b = b') /\
  (forall b ptr, dest c b <> Some (ptr, 0)).

(** A reader is within its buffer. *)
Definition reader_ok (h : core_heap) (v : Val C) : Prop :=
  match v with
  | VReader r => rest (mr_reader r) `suffix_of` buffer_slices h (buffer_in (mr_reader r)) /\
      mr_offset r + mr_remain r = lengths (mr_slice r :: rest (mr_reader r))
  | _ => True
  end.

(** The references in the heap are [ss]. *)
Definition sound (w : Heap C) (ss : list CSlice) : Prop :=
  counted (counts (core w)) ss /\ kept (counts (core w)) (vecs w).

Record consistent (vs : list (Val C)) (w : Heap C) : Prop := {
  con_sound : sound w (owned (core w) vs);
  con_nodup : NoDup (omap buffer_of vs);
  con_dom : forall p, p ∈ omap buffer_of vs <-> is_Some (buffers (core w) !! p);
  con_readers : Forall (reader_ok (core w)) vs;
}.
End programs.

(** ** Counting *)

Section counting.
Implicit Types (c : Counts) (s : CSlice) (ss : list CSlice).

#[export] Instance refs_proper b : Proper ((≡ₚ) ==> eq) (refs b).
Proof. intros ss ss' H. unfold refs. by rewrite H. Qed.

#[export] Instance counted_proper c : Proper ((≡ₚ) ==> iff) (counted c).
Proof. intros ss ss' H. unfold counted. by setoid_rewrite H. Qed.

Lemma refs_cons b s ss : refs b (s :: ss) = (if decide (refcount s = Some b) then 1 else 0) + refs b ss.
Proof. unfold refs. rewrite filter_cons. by case_decide. Qed.

Lemma counted_held c ss s : counted c ss -> s ∈ ss -> held c s.
Proof.
  intros Hc Hs. unfold held. destruct (refcount s) as [b|] eqn:E; [|done].
  destruct (Hc b) as [Hb _]. destruct (c !! b) as [x|] eqn:Eb; [by eexists|].
  apply list_elem_of_split in Hs as (l1 & l2 & ->). rewrite <-Permutation_middle, refs_cons in Hb.
  by rewrite decide_True in Hb.
Qed.

Lemma counted_none c s ss : refcount s = None -> counted c (s :: ss) <-> counted c ss.
Proof. intros Hs. unfold counted. setoid_rewrite refs_cons. by rewrite Hs. Qed.

Lemma counted_fresh c s ss b d : counted c ss -> c !! b = None -> refcount s = Some b ->
  counted (<[b:=(1, d)]> c) (s :: ss).
Proof.
  intros Hc Hb Hs b'. rewrite refs_cons, Hs. destruct (Hc b') as [Hr Hz]. destruct (decide (b = b')) as [->|Hne].
  - rewrite lookup_insert_eq, decide_True by done. rewrite Hb in Hr. split; [lia|congruence].
  - rewrite lookup_insert_ne, decide_False by congruence. done.
Qed.

Lemma counted_add c s ss : counted c ss -> held c s -> counted (inc_ref s c) (s :: ss).
Proof.
  unfold held, inc_ref. intros Hc Hs. destruct (refcount s) as [b|] eqn:E; [|by apply counted_none].
  destruct Hs as [[n d] Hb]. intros b'. rewrite refs_cons, E. destruct (Hc b') as [Hr Hz].
  destruct (decide (b = b')) as [->|Hne].
  - rewrite lookup_alter_eq, Hb, decide_True by done. rewrite Hb in Hr. simpl. split; [lia|congruence].
  - rewrite lookup_alter_ne, decide_False by congruence. done.
Qed.

Lemma counted_drop c s ss : counted c (s :: ss) -> counted (drop_ref s c).2 ss.
Proof.
  unfold drop_ref. intros Hc. destruct (refcount s) as [b|] eqn:E; [|by apply (counted_none _ s)].
  intros b'. destruct (Hc b') as [Hr Hz]. rewrite refs_cons, E in Hr. destruct (decide (b = b')) as [->|Hne].
  - rewrite decide_True in Hr by done. destruct (c !! b') as [[[|[|n]] d]|] eqn:Eb; [lia|..|lia]; simpl.
    + rewrite lookup_delete_eq. split; [lia|done].
    + rewrite lookup_insert_eq. split; [lia|congruence].
  - rewrite decide_False in Hr by congruence.
    destruct (c !! b) as [[[|[|n]] d]|] eqn:Eb; simpl; rewrite ?lookup_insert_ne, ?lookup_delete_ne by done; done.
Qed.

Lemma held_add c s s' : held c s' -> held (inc_ref s c) s'.
Proof.
  unfold held, inc_ref. destruct (refcount s'), (refcount s); [|done..].
  by rewrite lookup_alter_is_Some.
Qed.

Lemma counted_adds c l ss : counted c ss -> Forall (held c) l -> counted (foldr inc_ref c l) (l ++ ss).
Proof.
  intros Hc. induction 1 as [|s l Hs Hl IH]; [done|]. apply (counted_add _ s); [done|].
  clear IH Hl. induction l; [done|]. by apply held_add.
Qed.

(** ** Vectors *)

Lemma dest_add c s b : dest (inc_ref s c) b = dest c b.
Proof.
  unfold dest, inc_ref. destruct (refcount s) as [b'|]; [|done].
  destruct (decide (b' = b)) as [->|]; [rewrite lookup_alter_eq|by rewrite lookup_alter_ne]. by destruct (c !! b).
Qed.

Lemma kept_ext c c' v : (forall b, dest c' b = dest c b) -> kept c v -> kept c' v.
Proof. unfold kept. intros H. by setoid_rewrite H. Qed.

Lemma kept_fresh_core c v b : c !! b = None -> kept c v -> kept (<[b:=(1, None)]> c) v.
Proof.
  intros Hb. apply kept_ext. intros b'. unfold dest. destruct (decide (b = b')) as [->|].
  - by rewrite lookup_insert_eq, Hb.
  - by rewrite lookup_insert_ne.
Qed.

Lemma dest_fresh c b b' d : c !! b = None ->
  dest (<[b:=(1, Some d)]> c) b' = if decide (b = b') then Some d else dest c b'.
Proof. intros Hb. unfold dest. case_decide; subst; [by rewrite lookup_insert_eq|by rewrite lookup_insert_ne]. Qed.

Lemma kept_fresh_vec c v b ptr cap : c !! b = None -> v !! ptr = None -> cap <> 0 ->
  kept c v -> kept (<[b:=(1, Some (ptr, cap))]> c) (<[ptr:=cap]> v).
Proof.
  intros Hb Hp Hcap (Hv & Hi & Hz). unfold kept. setoid_rewrite dest_fresh; [|done..].
  assert (forall b' len, dest c b' <> Some (ptr, len)) as Hn.
  { intros b' len H. assert (v !! ptr = Some len) as E by (apply Hv; eauto). congruence. }
  split; [|split].
  - intros p n. destruct (decide (ptr = p)) as [->|Hne].
    + rewrite lookup_insert_eq. split.
      * intros [= <-]. exists b. by rewrite decide_True.
      * intros [b' H]. case_decide; [congruence|]. by destruct (Hn b' n).
    + rewrite lookup_insert_ne, Hv by done. split; intros [b' H]; exists b'.
      * rewrite decide_False; [done|]. intros ->. unfold dest in H. by rewrite Hb in H.
      * case_decide; [congruence|done].
  - intros b1 b2 p l1 l2 H1 H2.
    destruct (decide (b = b1)), (decide (b = b2)); simplify_eq; [done|..|by eapply Hi].
    + by destruct (Hn _ _ H2).
    + by destruct (Hn _ _ H1).
  - intros b' p. case_decide; [congruence|apply Hz].
Qed.

(** A last reference takes its vector along. *)
Lemma kept_delete c v b n d : c !! b = Some (n, d) -> kept c v ->
  kept (delete b c) (match d with Some x => delete x.1 v | None => v end).
Proof.
  intros Hb (Hv & Hi & Hz).
  assert (forall b', dest (delete b c) b' = if decide (b = b') then None else dest c b') as Hd.
  { intros b'. unfold dest. case_decide; subst; [by rewrite lookup_delete_eq|by rewrite lookup_delete_ne]. }
  assert (dest c b = d) as Hdb by (unfold dest; by rewrite Hb).
  unfold kept. setoid_rewrite Hd. split; [|split].
  - intros p cap. destruct d as [[ptr len]|]; [destruct (decide (ptr = p)) as [->|Hne]|]; simpl.
    + rewrite lookup_delete_eq. split; [done|]. intros [b' H]. case_decide; [done|]. by destruct (Hi b b' p len cap).
    + rewrite lookup_delete_ne, Hv by done. split; intros [b' H]; exists b'; case_decide; congruence.
    + rewrite Hv. split; intros [b' H]; exists b'; case_decide; congruence.
  - intros b1 b2 p l1 l2. repeat case_decide; [done..|]. apply Hi.
  - intros b' p. case_decide; [done|apply Hz].
Qed.
End counting.

(** ** The operations keep the count *)

Section operations.
Context `{C : CountingCore} `{L : !CountingCoreLaws C}.
Implicit Types (w : Heap C) (s : CSlice) (ss : list CSlice).

#[export] Instance sound_proper w : Proper ((≡ₚ) ==> iff) (sound w).
Proof. intros ss ss' H. unfold sound. by rewrite H. Qed.

Lemma sound_none w s ss : refcount s = None -> sound w (s :: ss) <-> sound w ss.
Proof. intros Hs. unfold sound. by rewrite counted_none. Qed.

(** A method that leaves the buffers alone returns, and [post] holds then. *)
Definition safely {A} (c : M (Heap C) A) (w : Heap C) (post : A -> Heap C -> Prop) : Prop :=
  exists a w', c w = Done (a, w') /\ buffers (core w') = buffers (core w) /\ post a w'.

Lemma safely_bind {A B} (c : M (Heap C) A) (k : A -> M (Heap C) B) w P Q :
  safely c w P -> (forall a w', P a w' -> safely (k a) w' Q) -> safely (bind c k) w Q.
Proof.
  intros (a & w1 & E & Hb & HP) Hk. destruct (Hk a w1 HP) as (b & w2 & E2 & Hb2 & HQ).
  exists b, w2. unfold bind. by rewrite E, E2, Hb2.
Qed.

Lemma safely_ret {A} (a : A) w (P : A -> Heap C -> Prop) : P a w -> safely (ret a) w P.
Proof. intros H. by exists a, w. Qed.

(** Dropping a reference: the destructors of the core free vectors that are there. *)
Lemma destroy_dropped s ss c v h : counted c (s :: ss) -> kept c v ->
  exists v', run_destroys (drop_ref s c).1 (mkHeap h v) = Done (tt, mkHeap h v') /\ kept (drop_ref s c).2 v'.
Proof.
  intros Hc Hk. unfold drop_ref. destruct (refcount s) as [b|] eqn:E; [|by exists v].
  destruct (Hc b) as [Hr Hz]. rewrite refs_cons, E, decide_True in Hr by done.
  destruct (c !! b) as [[[|[|n]] d]|] eqn:Eb; [lia|..|lia].
  - exists (match d with Some x => delete x.1 v | None => v end). split; [|by eapply kept_delete].
    destruct d as [[ptr len]|]; [|done]. cbn. unfold bind, drop_vec, dealloc. destruct Hk as (Hv & _ & Hn).
    assert (dest c b = Some (ptr, len)) as Hd by (unfold dest; by rewrite Eb).
    rewrite bool_decide_eq_false_2 by (intros ->; by apply (Hn b ptr)). cbn.
    rewrite bool_decide_eq_true_2; [done|]. apply Hv. by exists b.
  - exists v. split; [done|]. eapply kept_ext; [|exact Hk]. intros b'. unfold dest. cbn.
    destruct (decide (b = b')) as [->|]; [by rewrite lookup_insert_eq, Eb|by rewrite lookup_insert_ne].
Qed.

Lemma run_destroys_app ds ds' w : run_destroys (ds ++ ds') w = bind (run_destroys ds) (fun _ => run_destroys ds') w.
Proof.
  revert w. induction ds as [|[p n] ds IH]; intros w; [done|]. cbn. unfold bind.
  destruct (drop_vec p n w) as [[[] w']|]; [|done]. apply IH.
Qed.

Lemma destroy_all_dropped l ss c v h : counted c (l ++ ss) -> kept c v ->
  exists v', run_destroys (drop_refs l c).1 (mkHeap h v) = Done (tt, mkHeap h v') /\
    counted (drop_refs l c).2 ss /\ kept (drop_refs l c).2 v'.
Proof.
  revert c v. induction l as [|s l IH]; intros c v Hc Hk; [by exists v|]. cbn [drop_refs].
  destruct (destroy_dropped s (l ++ ss) c v h Hc Hk) as (v1 & E1 & Hk1). apply counted_drop in Hc.
  destruct (drop_ref s c) as [ds c1]. cbn in *.
  destruct (IH c1 v1 Hc Hk1) as (v2 & E2 & Hc2 & Hk2). destruct (drop_refs l c1) as [ds' c2]. cbn in *.
  exists v2. rewrite run_destroys_app. unfold bind. by rewrite E1.
Qed.

Lemma drop_safe w s ss : sound w (s :: ss) -> safely (GrpcSlice_drop s) w (fun _ w' => sound w' ss).
Proof.
  intros [Hc Hk]. pose proof (unref_law s (core w)) as Hu. unfold safely, GrpcSlice_drop, on_core, bind.
  destruct (grpc_slice_unref s (core w)) as [ds h]. destruct Hu as [Hu Hb]; [by eapply counted_held; [|left]|].
  destruct (destroy_dropped s ss _ (vecs w) h Hc Hk) as (v' & E & Hk').
  apply counted_drop in Hc. rewrite <-Hu in *. cbn in *. exists tt, (mkHeap h v'). done.
Qed.

Lemma clone_safe w s ss : sound w ss -> s ∈ ss ->
  safely (GrpcSlice_clone s) w (fun s' w' => s' = s /\ sound w' (s :: ss)).
Proof.
  intros [Hc Hk] Hs. pose proof (counted_held _ _ _ Hc Hs) as Hh. pose proof (ref_law s (core w) Hh) as Hr.
  unfold safely, GrpcSlice_clone, on_core. destruct (grpc_slice_ref s (core w)) as [s' h].
  destruct Hr as (-> & Hr & Hb). eexists s, _. split; [done|]. split; [done|]. split; [done|].
  split; cbn; rewrite Hr; [by apply counted_add|]. eapply kept_ext; [|done]. intros b. apply dest_add.
Qed.

(** Slices whose memory is the core's. *)
Lemma core_slice_safe w ss (f : core_heap -> CSlice * core_heap) : sound w ss ->
  allocated None (core w) (f (core w)) \/
  (refcount (f (core w)).1 = None /\ counts (f (core w)).2 = counts (core w) /\
   buffers (f (core w)).2 = buffers (core w)) ->
  safely (on_core f) w (fun s w' => sound w' (s :: ss) /\ vecs w' = vecs w).
Proof.
  intros [Hc Hk] Hf. unfold safely, on_core. destruct (f (core w)) as [s h]. cbn in Hf.
  eexists s, _. split; [done|]. destruct Hf as [(b & Hs & Hn & Hcs & Hb)|(Hs & Hcs & Hb)]; cbn in *.
  - split; [done|]. split; [|done]. split; cbn; rewrite Hcs; [by apply counted_fresh|by apply kept_fresh_core].
  - split; [done|]. split; [|done]. apply sound_none; [done|]. split; cbn; by rewrite Hcs.
Qed.

Lemma from_slice_safe w ss bs : sound w ss -> safely (from_slice bs) w (fun s w' => sound w' (s :: ss)).
Proof.
  intros H. destruct (core_slice_safe w ss (grpc_slice_from_copied_buffer bs) H) as (s & w' & E & Hb & Hs & _).
  { apply copied_buffer_law. }
  by exists s, w'.
Qed.

(** A vector becomes a slice: freed at once when its bytes were copied, and otherwise kept
    for the destructor, which is then told its capacity. *)
Lemma vec_safe w ss bs spare : sound w ss ->
  safely (vec_given bs spare (fun ptr => from_vec ptr bs (length bs + spare))) w (fun s w' => sound w' (s :: ss)).
Proof.
  intros Hs. set (ptr := fresh (dom (vecs w))).
  assert (vecs w !! ptr = None) as Hptr by (apply not_elem_of_dom, is_fresh).
  set (cap := length bs + spare).
  set (w1 := if bool_decide (cap = 0) then w else mkHeap (core w) (<[ptr:=cap]> (vecs w))).
  assert (core w1 = core w) as Hcore by (unfold w1; by case_bool_decide).
  assert (forall w', vecs w' = vecs w1 ->
    dealloc ptr cap w' = Done (tt, mkHeap (core w') (vecs w))) as Hde.
  { intros [h v] E. cbn in E. subst v. unfold dealloc, w1. destruct (bool_decide (cap = 0)) eqn:Ec; [done|]. cbn.
    rewrite bool_decide_eq_true_2 by apply lookup_insert_eq. by rewrite delete_insert_id. }
  change (safely (vec_given bs spare (fun ptr => from_vec ptr bs cap)) w (fun s w' => sound w' (s :: ss))).
  unfold safely. change (vec_given bs spare (fun ptr => from_vec ptr bs cap) w) with (from_vec ptr bs cap w1).
  unfold from_vec. destruct (bool_decide (bs = [])) eqn:Eb.
  { unfold bind, ret. rewrite Hde by done. rewrite Hcore. eexists _, _. split; [done|]. split; [done|].
    apply sound_none; [apply empty_slice_law|]. by destruct w. }
  apply bool_decide_eq_false in Eb. destruct (bool_decide (length bs = cap)) eqn:El.
  - apply bool_decide_eq_true in El. assert (cap <> 0) as Hne by (rewrite <-El; by destruct bs).
    destruct (new_with_len_law ptr bs (core w)) as (b & Hr & Hn & Hc & Hb). unfold on_core. rewrite Hcore.
    destruct (grpc_slice_new_with_len ptr bs (core w)) as [s h]. cbn in *. eexists s, _. split; [done|].
    split; [done|]. destruct Hs as [Hc0 Hk0]. unfold w1. rewrite bool_decide_eq_false_2 by done.
    split; cbn; rewrite Hc; [by apply counted_fresh|]. rewrite El. by apply kept_fresh_vec.
  - destruct (core_slice_safe w ss (grpc_slice_from_copied_buffer bs) Hs) as (s & w' & E & Hb & Hs' & Hv);
      [apply copied_buffer_law|].
    unfold bind, on_core in *. rewrite Hcore. destruct (grpc_slice_from_copied_buffer bs (core w)) as [s0 h].
    injection E as -> <-. rewrite Hde by done. eexists s, _. split; [done|]. done.
Qed.

Lemma realloc_safe w s ss cap : sound w (s :: ss) ->
  safely (realloc s cap) w (fun s' w' => sound w' (s' :: ss)).
Proof.
  intros Hs. unfold realloc. destruct (bool_decide (cap <= INLINED_SIZE)).
  - assert (forall s w, sound w (s :: ss) -> sound w (match data s with
      | Inlined _ bytes => mkCSlice (Inlined (cap mod 256) bytes) (refcount s) | Refcounted _ => s end :: ss)) as Hsame.
    { clear. intros s w Hs. destruct (data s); [done|]. destruct Hs as [Hc Hk]. split; [|done].
      intros b'. specialize (Hc b'). rewrite refs_cons in *. exact Hc. }
    eapply (safely_bind _ _ _ (fun s' w' => sound w' (s' :: ss))); [|intros s' w' H; by apply safely_ret, Hsame].
    destruct (GrpcSlice_is_inline (data s)); [by apply safely_ret|].
    eapply safely_bind; [by apply drop_safe|]. intros [] w' H. apply safely_ret.
    apply sound_none; [apply empty_slice_law|done].
  - eapply (safely_bind _ _ _ (fun s' w' => sound w' (s' :: s :: ss) /\ vecs w' = vecs w));
      [apply core_slice_safe; [done|left; apply malloc_large_law]|].
    intros s' w' [H _]. rewrite (Permutation_swap s s' ss) in H.
    eapply safely_bind; [by apply drop_safe|]. intros [] w2 H2. by apply safely_ret.
Qed.

(** ** Readers

    A reader of buffer [p] with slices [bs], which are among the other references [ss]. *)
Record reading (p : nat) (bs ss : list CSlice) (r : MReader C) (w : Heap C) : Prop := {
  rd_buffer : buffers (core w) !! p = Some bs;
  rd_in : buffer_in (mr_reader r) = p;
  rd_rest : rest (mr_reader r) `suffix_of` bs;
  rd_sound : sound w (mr_slice r :: ss);
}.

Lemma next_safe w p bs ss r : buffers (core w) !! p = Some bs -> buffer_in r = p -> rest r `suffix_of` bs ->
  sound w ss -> bs ⊆ ss ->
  safely (next_or_empty r) w (fun x w' =>
    (forall offset remain, reading p bs ss (mkMReader x.2 x.1 offset remain) w') /\
    lengths (x.1 :: rest x.2) = lengths (rest r) /\ length (rest x.2) = pred (length (rest r))).
Proof.
  intros Hb <- Hr Hs Hin. pose proof (reader_next_law r bs (core w) Hb Hr) as Hn.
  unfold safely, next_or_empty, on_core, bind, ret. destruct (grpc_byte_buffer_reader_next r (core w)) as [o h].
  destruct Hn as [Hbs Hn]. eexists _, _. split; [done|]. split; [done|].
  destruct (rest r) as [|s tl] eqn:Er.
  - destruct Hn as [-> Hc]. destruct empty_slice_law as (He & bytes & Hd). cbn. rewrite Er. split; [|split; [|done]].
    + intros. split; cbn; [congruence|done|by rewrite Er|]. apply sound_none; [done|]. unfold sound. cbn. by rewrite Hc.
    + unfold lengths. cbn. by rewrite Hd.
  - destruct Hn as (r' & -> & Hrest & Hi & Hc). cbn. rewrite Hrest. split; [|done]. intros. split; cbn.
    + congruence.
    + done.
    + rewrite Hrest. destruct Hr as [k ->]. exists (k ++ [s]). by rewrite <-app_assoc.
    + destruct Hs as [Hs Hk]. split; cbn; rewrite Hc.
      * apply counted_add; [done|]. eapply counted_held; [done|]. apply Hin. destruct Hr as [k ->].
        apply elem_of_app. right. left.
      * eapply kept_ext; [|done]. intros b. apply dest_add.
Qed.

Lemma load_next_safe w p bs ss r : reading p bs ss r w -> bs ⊆ ss ->
  safely (load_next_slice r) w (fun r' w' => reading p bs ss r' w' /\
    lengths (mr_slice r' :: rest (mr_reader r')) = lengths (rest (mr_reader r)) /\
    length (rest (mr_reader r')) = pred (length (rest (mr_reader r))) /\ mr_remain r' = mr_remain r).
Proof.
  intros [Hb Hi Hr Hs] Hin.
  eapply (safely_bind _ _ _ (fun _ w' => sound w' ss /\ buffers (core w') !! p = Some bs)).
  { destruct (drop_safe w (mr_slice r) ss Hs) as ([] & w' & E & Hbs & H). exists tt, w'.
    split; [done|]. split; [done|]. split; [done|]. congruence. }
  intros [] w1 [Hs1 Hb1]. eapply safely_bind; [by apply (next_safe w1 p bs ss)|].
  intros [s r'] w2 (H & Hl & Hn). apply safely_ret. cbn in *. split; [apply H|]. done.
Qed.

(** The loop ends with what is consumed within the slice in hand. *)
Lemma consume_loop_safe fuel w p bs ss r offset : reading p bs ss r w -> bs ⊆ ss ->
  offset + mr_remain r = lengths (mr_slice r :: rest (mr_reader r)) ->
  length (rest (mr_reader r)) + 1 < fuel ->
  safely (consume_loop fuel offset r) w (fun x w' => reading p bs ss x.2 w' /\
    x.1 + mr_remain x.2 = lengths (mr_slice x.2 :: rest (mr_reader x.2))).
Proof.
  intros Hrd Hin. revert w r offset Hrd. induction fuel as [|fuel IH]; intros w r offset Hrd Hlen Hf; [lia|].
  cbn [consume_loop]. set (len := GrpcSlice_len (data (mr_slice r))).
  assert (lengths (mr_slice r :: rest (mr_reader r)) = len + lengths (rest (mr_reader r))) as Hsum by done.
  destruct (bool_decide (len <= offset)) eqn:E1, (bool_decide (0 < offset)) eqn:E2; cbn [andb];
    [|by apply safely_ret..]. apply bool_decide_eq_true in E1, E2.
  eapply safely_bind; [by apply (load_next_safe w p bs ss)|]. intros r' w' (Hrd' & Hl & Hn & Hrem).
  destruct (decide (offset - len = 0)) as [Hz|Hnz].
  - destruct fuel as [|fuel]; [lia|]. cbn [consume_loop]. rewrite Hz.
    rewrite (bool_decide_eq_false_2 (0 < 0)) by lia. rewrite andb_false_r. apply safely_ret. cbn [fst snd].
    split; [done|]. rewrite Hl. lia.
  - apply IH; [done|lia|]. destruct (rest (mr_reader r)) as [|s tl] eqn:Er; cbn in *; [|lia].
    unfold lengths in Hsum, Hlen. cbn in *. lia.
Qed.

Lemma consume_safe w p bs ss r amt : reading p bs ss r w -> bs ⊆ ss ->
  mr_offset r + mr_remain r = lengths (mr_slice r :: rest (mr_reader r)) ->
  safely (consume amt r) w (fun r' w' => reading p bs ss r' w' /\
    mr_offset r' + mr_remain r' = lengths (mr_slice r' :: rest (mr_reader r'))).
Proof.
  intros [Hb Hi Hr Hs] Hin Hl. unfold consume. cbn zeta. set (amt' := if bool_decide _ then _ else _).
  assert (amt' <= mr_remain r) by (unfold amt'; case_bool_decide; lia).
  eapply safely_bind.
  - apply (consume_loop_safe _ _ p bs ss); [by split| done | cbn; cbn in Hl; lia | cbn; lia].
  - intros [offset r'] w' [[Hb' Hi' Hr' Hs'] Hl']. apply safely_ret. by split.
Qed.
End operations.

(** ** Programs keep the heap consistent *)

Section kept_consistent.
Context `{C : CountingCore} `{L : !CountingCoreLaws C}.
Implicit Types (w : Heap C) (vs : list (Val C)).

#[export] Instance owned_proper h : Proper ((≡ₚ) ==> (≡ₚ)) (owned (C:=C) h).
Proof. intros vs vs' H. unfold owned. by rewrite H. Qed.

#[export] Instance consistent_proper : Proper ((≡ₚ) ==> eq ==> iff) (consistent (C:=C)).
Proof.
  assert (forall vs vs' w, vs ≡ₚ vs' -> consistent vs w -> consistent vs' w) as H.
  { intros vs vs' w Hp [H1 H2 H3 H4]. split; [by rewrite <-Hp..|intros p; by rewrite <-Hp|by rewrite <-Hp]. }
  intros vs vs' Hp w ? <-. split; by apply H.
Qed.

Lemma owned_ext h h' vs : (forall p, p ∈ omap buffer_of vs -> buffers h !! p = buffers h' !! p) ->
  owned h vs = owned h' vs /\ (Forall (reader_ok h) vs -> Forall (reader_ok h') vs).
Proof.
  intros H. split.
  - unfold owned. f_equal. induction (omap buffer_of vs) as [|p l IH]; [done|]. cbn. f_equal.
    + unfold buffer_slices. by rewrite H by left.
    + apply IH. intros. apply H. by right.
  - rewrite !Forall_forall. intros Hr v Hv. specialize (Hr v Hv). destruct v as [| |r]; [done..|].
    cbn in *. unfold buffer_slices in *. rewrite <-H; [done|]. apply list_elem_of_omap. eauto.
Qed.

(** Values whose buffers did not change. *)
Lemma same_buffers vs w w' : consistent vs w -> buffers (core w') = buffers (core w) ->
  sound w' (owned (core w) vs) -> consistent vs w'.
Proof.
  intros [H1 H2 H3 H4] Hb Hs. destruct (owned_ext (core w) (core w') vs) as [Ho Hr]; [by rewrite Hb|].
  split; [by rewrite <-Ho | done | by rewrite Hb | auto].
Qed.

Lemma add_slice vs w w' s : consistent vs w -> buffers (core w') = buffers (core w) ->
  sound w' (s :: owned (core w) vs) -> consistent (VSlice s :: vs) w'.
Proof.
  intros [H1 H2 H3 H4] Hb Hs. destruct (owned_ext (core w) (core w') vs) as [Ho Hr]; [by rewrite Hb|].
  split; [|done|by rewrite Hb|by constructor; auto].
  change (sound w' (s :: owned (core w') vs)). by rewrite <-Ho.
Qed.

Lemma swap_slice vs w w' s s' : consistent (VSlice s :: vs) w -> buffers (core w') = buffers (core w) ->
  sound w' (s' :: owned (core w) vs) -> consistent (VSlice s' :: vs) w'.
Proof.
  intros [H1 H2 H3 H4] Hb Hs. destruct (owned_ext (core w) (core w') vs) as [Ho Hr]; [by rewrite Hb|].
  split; [|done|by rewrite Hb|].
  - change (sound w' (s' :: owned (core w') vs)). by rewrite <-Ho.
  - apply Forall_cons in H4 as [_ H4]. by constructor; auto.
Qed.

Lemma remove_slice vs w w' s : consistent (VSlice s :: vs) w -> buffers (core w') = buffers (core w) ->
  sound w' (owned (core w) vs) -> consistent vs w'.
Proof.
  intros [H1 H2 H3 H4] Hb Hs. destruct (owned_ext (core w) (core w') vs) as [Ho Hr]; [by rewrite Hb|].
  split; [by rewrite <-Ho|done|by rewrite Hb|]. apply Hr. by inv H4.
Qed.

Lemma owned_buffer h p vs : owned h (VBuffer p :: vs) ≡ₚ buffer_slices h p ++ owned h vs.
Proof. unfold owned. cbn. rewrite !app_assoc. apply Permutation_app_tail, Permutation_app_comm. Qed.

Lemma add_buffer vs w w' p bs : consistent vs w -> buffers (core w) !! p = None ->
  buffers (core w') = <[p:=bs]> (buffers (core w)) -> sound w' (bs ++ owned (core w) vs) ->
  consistent (VBuffer p :: vs) w'.
Proof.
  intros [H1 H2 H3 H4] Hp Hb Hs.
  assert (p ∉ omap buffer_of vs) as Hn by (rewrite H3, Hp; by apply is_Some_None).
  destruct (owned_ext (core w) (core w') vs) as [Ho Hr].
  { intros q Hq. rewrite Hb, lookup_insert_ne; [done|]. by intros ->. }
  split.
  - rewrite owned_buffer, <-Ho. unfold buffer_slices. by rewrite Hb, lookup_insert_eq.
  - cbn. by constructor.
  - intros q. cbn. rewrite elem_of_cons, H3, Hb, lookup_insert_is_Some'. by split; intros [->|?]; auto.
  - constructor; [done|auto].
Qed.

Lemma remove_buffer vs w w' p : consistent (VBuffer p :: vs) w ->
  buffers (core w') = delete p (buffers (core w)) -> sound w' (owned (core w) vs) -> consistent vs w'.
Proof.
  intros [H1 H2 H3 H4] Hb Hs. cbn in H2, H3. apply NoDup_cons in H2 as [Hn H2].
  destruct (owned_ext (core w) (core w') vs) as [Ho Hr].
  { intros q Hq. rewrite Hb, lookup_delete_ne; [done|]. by intros ->. }
  split; [by rewrite <-Ho|done| |apply Hr; by inv H4].
  intros q. rewrite Hb, lookup_delete_is_Some. specialize (H3 q). rewrite elem_of_cons in H3. split.
  - intros Hq. split; [by intros ->|]. apply H3. by right.
  - intros [Hne Hq]. apply H3 in Hq as [->|Hq]; [done|exact Hq].
Qed.

Lemma buffer_there vs w p : consistent (VBuffer p :: vs) w ->
  buffers (core w) !! p = Some (buffer_slices (core w) p).
Proof.
  intros [_ _ H3 _]. destruct (proj1 (H3 p)) as [bs Hbs]; [by left|]. unfold buffer_slices. by rewrite Hbs.
Qed.

(** A reader owns its buffer and a reference to the slice in hand. *)
Lemma reader_parts vs w r : consistent (VReader r :: vs) w <->
  consistent (VSlice (mr_slice r) :: VBuffer (buffer_in (mr_reader r)) :: vs) w /\ reader_ok (core w) (VReader r).
Proof.
  split.
  - intros [H1 H2 H3 H4]. apply Forall_cons in H4 as [Hr H4]. split; [|exact Hr]. split; [done..|].
    by repeat constructor.
  - intros [[H1 H2 H3 H4] H]. split; [done..|].
    apply Forall_cons in H4 as [_ H4]. apply Forall_cons in H4 as [_ H4]. by constructor.
Qed.

(** A program step that returns with consistent values. *)
Definition returns (c : M (Heap C) (list (Val C))) w : Prop :=
  exists vs' w', c w = Done (vs', w') /\ consistent vs' w'.

Lemma push_slice vs0 vs w (c : M (Heap C) CSlice) :
  (forall s w', buffers (core w') = buffers (core w) -> sound w' (s :: owned (core w) vs) ->
     consistent (VSlice s :: vs) w') ->
  safely c w (fun s w' => sound w' (s :: owned (core w) vs)) -> vs0 = vs -> returns (push VSlice vs0 c) w.
Proof.
  intros H (s & w' & E & Hb & Hs) ->. exists (VSlice s :: vs), w'. unfold push, bind. rewrite E. auto.
Qed.

Lemma buffer_create_returns vs w ss (f : core_heap -> nat * core_heap) : consistent vs w ->
  (forall s, s ∈ ss -> s ∈ owned (core w) vs) ->
  (let '(p, h') := f (core w) in buffers (core w) !! p = None /\
     buffers h' = <[p:=ss]> (buffers (core w)) /\ counts h' = foldr inc_ref (counts (core w)) ss) ->
  returns (push VBuffer vs (on_core f)) w.
Proof.
  intros Hw Hin Hf. unfold returns, push, bind, on_core. destruct (f (core w)) as [p h]. destruct Hf as (Hp & Hb & Hc).
  eexists _, _. split; [done|]. eapply add_buffer; [done|done|done|]. destruct (con_sound _ _ Hw) as [Hcs Hk].
  split; cbn; rewrite Hc.
  - apply counted_adds; [done|]. apply Forall_forall. intros s Hs. eapply counted_held; [done|auto].
  - clear Hc Hb Hin. induction ss as [|s ss IH]; [done|]. eapply kept_ext; [|done]. intros b. apply dest_add.
Qed.

Lemma drop_buffer vs w p : consistent (VBuffer p :: vs) w ->
  exists w', GrpcByteBuffer_drop p w = Done (tt, w') /\ consistent vs w'.
Proof.
  intros Hw. pose proof (buffer_there _ _ _ Hw) as Hp. destruct (con_sound _ _ Hw) as [Hc Hk].
  rewrite owned_buffer in Hc. pose proof (buffer_destroy_law _ _ _ Hp) as Hd.
  unfold GrpcByteBuffer_drop, bind, on_core. destruct (grpc_byte_buffer_destroy p (core w)) as [ds h].
  destruct Hd as [Hd Hb]. destruct (destroy_all_dropped _ _ _ (vecs w) h Hc Hk) as (v' & E & Hc' & Hk').
  rewrite <-Hd in *. cbn in *. rewrite E. eexists. split; [done|]. by eapply remove_buffer.
Qed.

Lemma drop_slice vs w s : consistent (VSlice s :: vs) w ->
  exists w', GrpcSlice_drop s w = Done (tt, w') /\ consistent vs w'.
Proof.
  intros Hw. destruct (drop_safe w s (owned (core w) vs) (con_sound _ _ Hw)) as ([] & w' & E & Hb & Hs).
  exists w'. split; [done|]. by eapply remove_slice.
Qed.

Lemma drop_value_safe vs w v : consistent (v :: vs) w ->
  exists w', drop_value v w = Done (tt, w') /\ consistent vs w'.
Proof.
  destruct v as [s|p|r]; [apply drop_slice|apply drop_buffer|]. intros Hw. apply reader_parts in Hw as [Hw _].
  set (h := grpc_byte_buffer_reader_destroy (mr_reader r) (core w)).
  change (exists w', (do* GrpcSlice_drop (mr_slice r) in GrpcByteBuffer_drop (buffer_in (mr_reader r)))
    (mkHeap h (vecs w)) = Done (tt, w') /\ consistent vs w').
  destruct (reader_destroy_law (mr_reader r) (core w)) as [Hc Hb]. fold h in Hc, Hb.
  assert (consistent (VSlice (mr_slice r) :: VBuffer (buffer_in (mr_reader r)) :: vs) (mkHeap h (vecs w))) as Hw1.
  { eapply same_buffers; [exact Hw|done|]. unfold sound. cbn. rewrite Hc. apply (con_sound _ _ Hw). }
  destruct (drop_slice _ _ _ Hw1) as (w2 & E2 & Hw2). unfold bind. rewrite E2. by apply drop_buffer.
Qed.

(** Taking a value out of the list. *)
Lemma take_out vs w i v : consistent vs w -> vs !! i = Some v -> consistent (v :: delete i vs) w.
Proof. intros Hw Hi. by rewrite <-(delete_Permutation _ _ _ Hi). Qed.

Lemma slice_owned h vs i s : vs !! i = Some (VSlice s) -> s ∈ owned h vs.
Proof.
  intros Hi. apply elem_of_app. left. apply list_elem_of_omap. exists (VSlice s).
  split; [by eapply list_elem_of_lookup_2|done].
Qed.

Lemma buffer_owned h vs i p : vs !! i = Some (VBuffer p) -> forall s, s ∈ buffer_slices h p -> s ∈ owned h vs.
Proof.
  intros Hi s Hs. apply elem_of_app. right. apply list_elem_of_bind. exists p. split; [done|].
  apply list_elem_of_omap. exists (VBuffer p). split; [by eapply list_elem_of_lookup_2|done].
Qed.

Lemma reader_returns vs w p : consistent (VBuffer p :: vs) w -> returns (push VReader vs (reader_new p)) w.
Proof.
  intros Hw. pose proof (buffer_there _ _ _ Hw) as Hp. set (bs := buffer_slices (core w) p) in *.
  pose proof (reader_init_law p bs (core w) Hp) as Hi.
  unfold returns, push, reader_new, bind at 1 2, on_core.
  destruct (grpc_byte_buffer_reader_init p (core w)) as [[code nr] h]. destruct Hi as (-> & Hin & Hrest & Hc & Hb).
  cbn. assert (sound (mkHeap h (vecs w)) (owned (core w) (VBuffer p :: vs))) as Hs.
  { unfold sound. cbn. rewrite Hc. apply (con_sound _ _ Hw). }
  destruct (next_safe (mkHeap h (vecs w)) p bs (owned (core w) (VBuffer p :: vs)) nr) as
    ([s nr'] & w1 & E & Hb1 & Hrd & Hl & _); [cbn; congruence|done|by rewrite Hrest|done| |].
  { intros x Hx. rewrite owned_buffer. apply elem_of_app. by left. }
  rewrite bool_decide_eq_true_2 by done. unfold bind. cbn. rewrite E. cbn. eexists _, _. split; [done|]. set (r := mkMReader _ _ _ _).
  cbn in Hb1. destruct (Hrd 0 (mr_remain r)) as [Hp1 Hi1 Hr1 Hs1]. cbn in Hi1, Hr1, Hs1, Hl.
  apply reader_parts. split.
  - cbn. rewrite Hi1. eapply (add_slice (VBuffer p :: vs) w); [done|congruence|done].
  - cbn. rewrite Hi1. unfold buffer_slices. rewrite Hp1. split; [done|].
    rewrite (reader_length_law _ bs) by (by rewrite Hi1). rewrite <-Hrest. by rewrite <-Hl.
Qed.

Lemma consume_returns vs w r amt : consistent (VReader r :: vs) w -> returns (push VReader vs (consume amt r)) w.
Proof.
  intros Hw. apply reader_parts in Hw as [Hw [Hsuf Hl]]. set (p := buffer_in (mr_reader r)) in *.
  assert (consistent (VBuffer p :: VSlice (mr_slice r) :: vs) w) as Hw' by (by rewrite Permutation_swap).
  pose proof (buffer_there _ _ _ Hw') as Hp. set (bs := buffer_slices (core w) p) in *.
  destruct (consume_safe w p bs (owned (core w) (VBuffer p :: vs)) r amt) as (r' & w' & E & Hb & Hrd & Hl').
  - split; [done..|]. apply (con_sound _ _ Hw).
  - intros x Hx. rewrite owned_buffer. apply elem_of_app. by left.
  - done.
  - unfold returns, push, bind. rewrite E. eexists _, _. split; [done|].
    destruct Hrd as [Hp1 Hi1 Hr1 Hs1]. apply reader_parts. rewrite Hi1. split.
    + by eapply (swap_slice (VBuffer p :: vs) w).
    + cbn. rewrite Hi1. unfold buffer_slices. by rewrite Hp1.
Qed.

Lemma returns_same vs w {A} (c : M (Heap C) A) a : consistent vs w -> c w = Done (a, w) ->
  returns (do* c in ret vs) w.
Proof. intros Hw E. exists vs, w. unfold bind. by rewrite E. Qed.

Lemma as_slice_there vs w s : consistent vs w -> s ∈ owned (core w) vs ->
  as_slice s w = Done (GrpcSlice_as_slice (data s), w).
Proof.
  intros Hw Hs. unfold as_slice. rewrite bool_decide_eq_true_2; [done|].
  eapply counted_held; [apply (con_sound _ _ Hw)|done].
Qed.

Lemma run_op_returns op vs w : consistent vs w -> returns (run_op op vs) w.
Proof.
  intros Hw. pose proof (con_sound _ _ Hw) as Hs.
  assert (forall vs, consistent vs w -> returns (ret vs) w) as Hret by (intros; by eexists _, _).
  assert (forall c, safely c w (fun s w' => sound w' (s :: owned (core w) vs)) -> returns (push VSlice vs c) w) as Hnew.
  { intros c Hc. eapply push_slice; [|exact Hc|done]. intros. by eapply add_slice. }
  destruct op; cbn [run_op]; try (destruct (vs !! i) as [[s|p|r]|] eqn:Hi; [..|by apply Hret]; try by apply Hret).
  - apply Hret. eapply add_slice; [done..|]. apply sound_none; [apply empty_slice_law|done].
  - apply Hret. eapply add_slice; [done..|]. apply sound_none; [apply static_buffer_law|done].
  - by apply Hnew, vec_safe.
  - apply Hnew. unfold from_cstring. replace (S (length bs)) with (length bs + 1) by lia. by apply vec_safe.
  - by apply Hnew, from_slice_safe.
  - by apply Hnew, from_slice_safe.
  - eapply returns_same; [done|]. eapply as_slice_there; [done|]. by eapply slice_owned.
  - apply Hnew. destruct (clone_safe w s _ Hs (slice_owned _ _ _ _ Hi)) as (s' & w' & E & Hb & -> & H).
    by exists s, w'.
  - apply buffer_create_returns with (buffer_slices (core w) p); [done|by eapply buffer_owned|].
    apply buffer_copy_law. apply (buffer_there (delete i vs)). by apply take_out.
  - pose proof (take_out _ _ _ _ Hw Hi) as Hw'. eapply push_slice; [|apply realloc_safe|done].
    + intros. by eapply swap_slice.
    + apply (con_sound _ _ Hw').
  - set (ss := omap _ ids). assert (forall s, s ∈ ss -> s ∈ owned (core w) vs) as Hin.
    { intros s (i & _ & Hi)%list_elem_of_omap. apply bind_Some in Hi as ([s'|p|r] & Hi & [= <-]). by eapply slice_owned. }
    apply buffer_create_returns with ss; [done..|]. apply buffer_create_law. apply Forall_forall. intros s Hx.
    eapply counted_held; [apply Hs|auto].
  - apply buffer_create_returns with [s]; [done| |].
    + intros x ->%list_elem_of_singleton. by eapply slice_owned.
    + apply buffer_create_law. apply Forall_singleton. eapply counted_held; [apply Hs|by eapply slice_owned].
  - by apply reader_returns, take_out.
  - assert (exists bs, fill_buf r w = Done (bs, w)) as [bs E]; [|by eapply returns_same].
    unfold fill_buf. case_bool_decide; [by eexists|]. unfold bind. erewrite as_slice_there; [by eexists|done|].
    apply elem_of_app. left. apply list_elem_of_omap. exists (VReader r). split; [by eapply list_elem_of_lookup_2|done].
  - by apply consume_returns, take_out.
  - destruct (drop_value_safe (delete i vs) w (VSlice s)) as (w' & E & H); [by apply take_out|].
    exists (delete i vs), w'. unfold bind. by rewrite E.
  - destruct (drop_value_safe (delete i vs) w (VBuffer p)) as (w' & E & H); [by apply take_out|].
    exists (delete i vs), w'. unfold bind. by rewrite E.
  - destruct (drop_value_safe (delete i vs) w (VReader r)) as (w' & E & H); [by apply take_out|].
    exists (delete i vs), w'. unfold bind. by rewrite E.
Qed.

Lemma run_program_returns ops vs w : consistent vs w -> returns (run_program ops vs) w.
Proof.
  revert vs w. induction ops as [|op ops IH]; intros vs w Hw; [by exists vs, w|].
  destruct (run_op_returns op vs w Hw) as (vs1 & w1 & E & Hw1). unfold returns. cbn. unfold bind. rewrite E.
  by apply IH.
Qed.

Lemma consistent_nil w : consistent [] w -> counts (core w) = ∅ /\ buffers (core w) = ∅ /\ vecs w = ∅.
Proof.
  intros [[Hc [Hv _]] _ Hd _]. assert (counts (core w) = ∅) as E.
  { apply map_empty. intros b. destruct (Hc b) as [Hr Hz]. cbn in Hr.
    destruct (counts (core w) !! b) as [[n d]|]; [|done]. subst n. by destruct (Hz d). }
  split; [done|]. split; apply map_empty.
  - intros p. apply eq_None_not_Some. rewrite <-Hd. cbn. apply not_elem_of_nil.
  - intros ptr. destruct (vecs w !! ptr) as [cap|] eqn:Ep; [|done]. apply Hv in Ep as [b Hb].
    unfold dest in Hb. by rewrite E in Hb.
Qed.

(** C7: the memory of messages is released once and never used after: whatever a program
    does with slices, buffers and readers, no operation reads a slice that was released,
    frees a vector twice or with another size than it was allocated with, and every
    [consume] ends; the count of each piece of memory is the number of references that
    values have to it; the vectors given to the core that are still allocated are those of
    the pieces in use; and once all values are dropped, nothing is left. *)
Theorem slices_released_once (ops : list MemOp) (h : core_heap) :
  counts h = ∅ -> buffers h = ∅ ->
  exists vs w, run_program ops [] (mkHeap h ∅) = Done (vs, w) /\
    counted (counts (core w)) (owned (core w) vs) /\ kept (counts (core w)) (vecs w) /\
    (vs = [] -> counts (core w) = ∅ /\ buffers (core w) = ∅ /\ vecs w = ∅).
Proof.
  intros Hc Hb. destruct (run_program_returns ops [] (mkHeap h ∅)) as (vs & w & E & Hw).
  - split; [split|..]; cbn.
    + intros b. rewrite Hc, lookup_empty. done.
    + rewrite Hc. split; [|by split; intros; unfold dest in *; rewrite lookup_empty in *].
      intros ptr cap. rewrite lookup_empty. split; [done|]. intros [b H]. unfold dest in H. by rewrite lookup_empty in H.
    + constructor.
    + intros p. rewrite Hb, lookup_empty. split; [by intros ?%not_elem_of_nil|by intros [? ?]].
    + constructor.
  - exists vs, w. split; [done|]. destruct (con_sound _ _ Hw) as [? ?]. split; [done|]. split; [done|].
    intros ->. by apply consistent_nil.
Qed.
End kept_consistent.

(** ** A concrete core *)

Record CountHeap := mkCountHeap { ch_counts : Counts; ch_buffers : gmap nat (list CSlice) }.

Definition count_alloc (data : GrpcSlice) (d : option Destroy) (h : CountHeap) : CSlice * CountHeap :=
  let b := fresh (dom (ch_counts h)) in
  (mkCSlice data (Some b), mkCountHeap (<[b:=(1, d)]> (ch_counts h)) (ch_buffers h)).

Definition count_buffer (ss : list CSlice) (h : CountHeap) : nat * CountHeap :=
  let p := fresh (dom (ch_buffers h)) in
  (p, mkCountHeap (foldr inc_ref (ch_counts h) ss) (<[p:=ss]> (ch_buffers h))).

#[export] Instance counting_core : CountingCore := {|
  core_heap := CountHeap;
  grpc_empty_slice := mkCSlice (inline_slice []) None;
  grpc_slice_from_static_buffer bs := mkCSlice (Refcounted bs) None;
  grpc_slice_ref s h := (s, mkCountHeap (inc_ref s (ch_counts h)) (ch_buffers h));
  grpc_slice_unref s h :=
    let '(ds, c) := drop_ref s (ch_counts h) in (ds, mkCountHeap c (ch_buffers h));
  grpc_slice_new_with_len ptr bs := count_alloc (Refcounted bs) (Some (ptr, length bs));
  grpc_slice_from_copied_buffer bs h :=
    if bool_decide (length bs <= INLINED_SIZE) then (mkCSlice (inline_slice bs) None, h)
    else count_alloc (Refcounted bs) None h;
  grpc_slice_malloc_large n := count_alloc (Refcounted (replicate n x00)) None;
  grpc_raw_byte_buffer_create := count_buffer;
  grpc_byte_buffer_copy p h := count_buffer (default [] (ch_buffers h !! p)) h;
  grpc_byte_buffer_destroy p h :=
    let '(ds, c) := drop_refs (default [] (ch_buffers h !! p)) (ch_counts h) in
    (ds, mkCountHeap c (delete p (ch_buffers h)));
  native_reader := nat * list CSlice;
  buffer_in := fst;
  grpc_byte_buffer_reader_init p h := (1%Z, (p, default [] (ch_buffers h !! p)), h);
  grpc_byte_buffer_reader_next r h :=
    match r.2 with
    | [] => (None, h)
    | s :: ss => (Some (s, (r.1, ss)), mkCountHeap (inc_ref s (ch_counts h)) (ch_buffers h))
    end;
  grpc_byte_buffer_reader_destroy _ h := h;
  grpc_byte_buffer_length r h :=
    sum_list_with (fun s => GrpcSlice_len (data s)) (default [] (ch_buffers h !! r.1));
  counts := ch_counts;
  buffers := ch_buffers;
  rest := snd;
|}.

#[export] Instance counting_core_laws : CountingCoreLaws counting_core.
Proof.
  assert (forall bs d h, allocated d h (count_alloc bs d h)) as Ha.
  { intros bs d h. eexists. split; [done|]. split; [apply not_elem_of_dom, is_fresh|done]. }
  assert (forall ss h, let '(p, h') := count_buffer ss h in ch_buffers h !! p = None /\
    ch_buffers h' = <[p:=ss]> (ch_buffers h) /\ ch_counts h' = foldr inc_ref (ch_counts h) ss) as Hb.
  { intros ss h. split; [apply not_elem_of_dom, is_fresh|done]. }
  constructor; cbn.
  - split; [done|]. by eexists.
  - done.
  - done.
  - intros s h _. by destruct (drop_ref s (ch_counts h)).
  - intros ptr bs h. apply Ha.
  - intros bs h. case_bool_decide; [by right|left]. apply Ha.
  - intros n h. apply Ha.
  - intros ss h _. apply Hb.
  - intros p ss h ->. apply Hb.
  - intros p ss h ->. cbn. by destruct (drop_refs ss (ch_counts h)).
  - intros p ss h ->. done.
  - intros r ss h ->. done.
  - intros [p [|s l]] ss h _ _; cbn; [done|]. split; [done|]. by eexists.
  - done.
Qed.

(** ** Witness

    A vector becomes a slice, is put twice into a buffer, cloned and dropped; the buffer is
    read to the end and everything dropped. *)
Definition demo_program : list MemOp :=
  [OpFromVec [x01; x02; x03] 0; OpClone 0; OpBuffer [0; 1]; OpDrop 1; OpReader 0; OpFillBuf 0; OpConsume 0 4;
   OpFillBuf 0; OpDrop 1; OpConsume 0 2; OpFromVec [x04] 3; OpRealloc 0 30; OpDrop 1; OpDrop 0].

Lemma slices_released_once_witness :
  exists w, run_program (C:=counting_core) demo_program [] (mkHeap (C:=counting_core) (mkCountHeap ∅ ∅) ∅) = Done ([], w) /\
    counts (core w) = ∅ /\ buffers (core w) = ∅ /\ vecs w = ∅.
Proof.
  destruct (slices_released_once (C:=counting_core) demo_program (mkCountHeap ∅ ∅)) as (vs & w & E & _ & _ & H); [done|done|].
  assert (vs = []) as ->.
  { apply nil_length_inv, (Done_elim _ _ (fun x => length x.1 = 0) E). vm_compute. reflexivity. }
  exists w. split; [exact E|]. by apply H.
Defined.
