(* ===== verification/Utf8.v ===== *)
(** The part of the standard library's UTF-8 support the crate uses: validity and
    [String::from_utf8_lossy], which src/src/call/mod.rs applies to the message of a
    status received from the peer. *)

From S2P Require Import Prelude.

Definition bZ (b : byte) : Z := Z.of_N (Byte.to_N b).

(** [lo..=hi] contains [b]. *)
Definition in_range (lo hi : Z) (b : byte) : bool := Z.leb lo (bZ b) && Z.leb (bZ b) hi.

(** A continuation byte: [b & 192 == 128]. *)
Definition is_cont (b : byte) : bool := Z.eqb (Z.land (bZ b) 192) 128.

(** Which second bytes may follow a first byte, by width of the sequence. *)
Definition second_ok (b b1 : byte) : bool :=
  if bool_decide (b = xe0) then in_range 160 191 b1
  else if in_range 225 236 b then in_range 128 191 b1
  else if bool_decide (b = xed) then in_range 128 159 b1
  else if in_range 238 239 b then in_range 128 191 b1
  else if bool_decide (b = xf0) then in_range 144 191 b1
  else if in_range 241 243 b then in_range 128 191 b1
  else if bool_decide (b = xf4) then in_range 128 143 b1
  else is_cont b1.

(** The number of bytes of the sequence a byte starts; [0] when it starts none. *)
Definition utf8_char_width (b : byte) : nat :=
  if in_range 0 127 b then 1
  else if in_range 194 223 b then 2
  else if in_range 224 239 b then 3
  else if in_range 240 244 b then 4
  else 0.

(** How many of the following bytes continue a sequence that needs [need] more. *)
Fixpoint take_conts (need : nat) (bs : list byte) : nat :=
  match need, bs with
  | S need, b :: bs => if is_cont b then S (take_conts need bs) else 0
  | _, _ => 0
  end.

(** The first character of the input: whether it is valid, and its length; for an
    invalid one the length of the part replaced by one replacement character. *)
Definition utf8_first (bs : list byte) : option (bool * nat) :=
  match bs with
  | [] => None
  | b :: bs =>
      match utf8_char_width b with
      | 0 => Some (false, 1)
      | 1 => Some (true, 1)
      | S need =>
          match bs with
          | b1 :: bs =>
              if second_ok b b1 then
                let n := take_conts (need - 1) bs in
                Some (bool_decide (n = need - 1), S (S n))
              else Some (false, 1)
          | [] => Some (false, 1)
          end
      end
  end.

Definition REPLACEMENT : list byte := [xef; xbf; xbd].

(** [str::from_utf8(..).is_ok()]; each step removes at least a byte. *)
Fixpoint utf8_valid_loop (fuel : nat) (bs : list byte) : bool :=
  match fuel with
  | 0 => bool_decide (bs = [])
  | S fuel =>
      match utf8_first bs with
      | None => true
      | Some (ok, n) => ok && utf8_valid_loop fuel (drop n bs)
      end
  end.

Definition utf8_valid (bs : list byte) : bool := utf8_valid_loop (length bs) bs.

Fixpoint lossy_loop (fuel : nat) (bs : list byte) : list byte :=
  match fuel with
  | 0 => []
  | S fuel =>
      match utf8_first bs with
      | None => []
      | Some (true, n) => take n bs ++ lossy_loop fuel (drop n bs)
      | Some (false, n) => REPLACEMENT ++ lossy_loop fuel (drop n bs)
      end
  end.

Definition from_utf8_lossy (bs : list byte) : string :=
  String.string_of_list_byte (lossy_loop (length bs) bs).

(** ** Lemmas *)

Lemma take_conts_le need bs : take_conts need bs <= length bs.
Proof.
  revert bs. induction need as [|need IH]; intros [|b bs]; simpl; try lia.
  destruct (is_cont b); [specialize (IH bs)|]; lia.
Qed.

Lemma utf8_first_len bs ok n : utf8_first bs = Some (ok, n) -> 1 <= n <= length bs.
Proof.
  destruct bs as [|b [|b1 bs]]; simpl; [done|..].
  - destruct (utf8_char_width b) as [|[|k]]; intros E; simplify_eq; lia.
  - destruct (utf8_char_width b) as [|[|k]]; intros E; simplify_eq; try lia.
    destruct (second_ok b b1); simplify_eq; [|lia].
    match goal with |- context [take_conts ?k ?l] => pose proof (take_conts_le k l) end. lia.
Qed.

Lemma as_bytes_of_list bs : as_bytes (String.string_of_list_byte bs) = bs.
Proof. apply String.list_byte_of_string_of_list_byte. Qed.

Lemma of_list_as_bytes s : String.string_of_list_byte (as_bytes s) = s.
Proof. apply String.string_of_list_byte_of_string. Qed.

#[export] Hint Rewrite as_bytes_of_list of_list_as_bytes : rust_rw.

(** Valid text is returned as it is. *)
Lemma lossy_loop_valid fuel bs :
  length bs <= fuel -> utf8_valid_loop fuel bs = true -> lossy_loop fuel bs = bs.
Proof.
  revert bs. induction fuel as [|fuel IH]; intros bs Hl Hv; simpl in *.
  - by apply bool_decide_eq_true in Hv.
  - destruct (utf8_first bs) as [[ok n]|] eqn:E.
    + apply andb_true_iff in Hv as [-> Hv]. apply utf8_first_len in E.
      rewrite IH; [by rewrite take_drop | rewrite length_drop; lia | done].
    + by destruct bs as [|b bs]; [|simpl in E; repeat split_match].
Qed.

Lemma from_utf8_lossy_valid s : utf8_valid (as_bytes s) = true -> from_utf8_lossy (as_bytes s) = s.
Proof.
  intros Hv. unfold from_utf8_lossy. rewrite lossy_loop_valid by done. by autorewrite with rust_rw.
Qed.
