(* ===== verification/Metadata.v ===== *)
(** Metadata of a call: src/src/metadata.rs, over the growable array of
    src/grpc-sys/grpc_wrap.cc that it calls. *)

From S2P Require Import Prelude Status Utf8.

Local Open Scope string_scope.

(** [grpc_metadata_array]: the filled entries, [count] of them, and the allocated
    [capacity].  Keys are handed out as [&str] unchecked. *)
Record Metadata := mkMetadata {
  md_entries : list (string * list byte);
  md_capacity : nat;
}.

Definition BINARY_ERROR_DETAILS_KEY : string := "grpc-status-details-bin".

(** ** Keys *)

(** The loop of [normalize_key] over the bytes of the key: [None] for a byte that no
    key may have, otherwise whether there was an upper case letter. *)
Fixpoint key_loop (is_upper_case : bool) (key : list byte) : option bool :=
  match key with
  | [] => Some is_upper_case
  | b :: key =>
      if in_range 65 90 b then key_loop true key
      else if in_range 97 122 b || in_range 48 57 b || bool_decide (b = "_"%byte)
              || bool_decide (b = "-"%byte) || bool_decide (b = "."%byte)
      then key_loop is_upper_case key
      else None
  end.

(** [u8::to_ascii_lowercase]. *)
Definition to_ascii_lowercase_u8 (b : byte) : byte :=
  if in_range 65 90 b then default b (Byte.of_N (Byte.to_N b + 32)) else b.

Definition to_ascii_lowercase (s : string) : string :=
  String.string_of_list_byte (to_ascii_lowercase_u8 <$> as_bytes s).

Definition ends_with (bs suf : list byte) : bool := bool_decide (suf `suffix_of` bs).

Section metadata.
(** [libc::isprint], and the [Debug] text of a string. *)
Context (isprint : Z -> Z) (debug_str : string -> string).

Definition normalize_key (key : string) (binary : bool) : Result Error string :=
  if bool_decide (key = "") then Err (InvalidMetadata "metadata key should not be empty")
  else
    match key_loop false (as_bytes key) with
    | None => Err (InvalidMetadata ("key " +:+ debug_str key +:+ " is invalid"))
    | Some is_upper_case =>
        let key := if is_upper_case then to_ascii_lowercase key else key in
        if binary then
          if negb (ends_with (as_bytes key) (as_bytes "-bin"))
          then Err (InvalidMetadata "binary key should end with '-bin'")
          else Ok key
        else if ends_with (as_bytes key) (as_bytes "-bin")
             then Err (InvalidMetadata "non-binary key should not end with '-bin'")
             else Ok key
    end.

(** ** The array *)

Definition metadata_array_init (capacity : nat) : Metadata :=
  {| md_entries := []; md_capacity := capacity |}.

Definition metadata_array_add (array : Metadata) (key : string) (value : list byte) : Metadata :=
  {| md_entries := (md_entries array ++ [(key, value)])%list;
     md_capacity :=
       if bool_decide (length (md_entries array) = md_capacity array)
       then if bool_decide (md_capacity array = 0) then 4 else md_capacity array * 2
       else md_capacity array |}.

Definition metadata_array_shrink_to_fit (array : Metadata) : Metadata :=
  {| md_entries := md_entries array; md_capacity := length (md_entries array) |}.

(** ** The builder *)

Definition MetadataBuilder_with_capacity (cap : nat) : Metadata := metadata_array_init cap.

Definition MetadataBuilder_new : Metadata := MetadataBuilder_with_capacity 0.

Definition is_ascii (value : string) : bool := forallb (in_range 0 127) (as_bytes value).

Definition add_metadata (self : Metadata) (key : string) (value : list byte) : Metadata :=
  metadata_array_add self key value.

Definition add_str (self : Metadata) (key value : string) : Result Error Metadata :=
  if negb (is_ascii value) then Err (InvalidMetadata "only ascii value is accepted.")
  else if negb (forallb (fun b => negb (Z.eqb (isprint (bZ b)) 0)) (as_bytes value))
  then Err (InvalidMetadata "Only printable chars are accepted.")
  else match normalize_key key false with
       | Ok key => Ok (add_metadata self key (as_bytes value))
       | Err e => Err e
       end.

Definition add_bytes (self : Metadata) (key : string) (value : list byte) :
    Result Error Metadata :=
  match normalize_key key true with
  | Ok key => Ok (add_metadata self key value)
  | Err e => Err e
  end.

Definition set_binary_error_details (self : Metadata) (value : list byte) : Metadata :=
  add_metadata self BINARY_ERROR_DETAILS_KEY value.

Definition MetadataBuilder_build (self : Metadata) : Metadata := metadata_array_shrink_to_fit self.

(** ** Metadata *)

Definition Metadata_len (self : Metadata) : nat := length (md_entries self).

Definition Metadata_is_empty (self : Metadata) : bool := bool_decide (Metadata_len self = 0).

Definition Metadata_get (self : Metadata) (index : nat) : option (string * list byte) :=
  if bool_decide (Metadata_len self <= index) then None else md_entries self !! index.

Record MetadataIter := mkIter { it_data : Metadata; it_index : nat }.

Definition Metadata_iter (self : Metadata) : MetadataIter :=
  {| it_data := self; it_index := 0 |}.

Definition MetadataIter_next (self : MetadataIter) :
    option (string * list byte) * MetadataIter :=
  match Metadata_get (it_data self) (it_index self) with
  | Some kv => (Some kv, {| it_data := it_data self; it_index := S (it_index self) |})
  | None => (None, self)
  end.

Definition MetadataIter_size_hint (self : MetadataIter) : nat * option nat :=
  let remain := Metadata_len (it_data self) - it_index self in (remain, Some remain).

(** A [for] loop over an iterator: fold the items until [next] returns [None]. *)
Fixpoint for_each {A} (fuel : nat) (f : A -> string * list byte -> A) (a : A) (it : MetadataIter) :
    option A :=
  match fuel with
  | 0 => None
  | S fuel =>
      match MetadataIter_next it with
      | (Some kv, it) => for_each fuel f (f a kv) it
      | (None, _) => Some a
      end
  end.

(** The loop of [search_binary_error_details], which returns at the first match. *)
Fixpoint search_loop (fuel : nat) (it : MetadataIter) : option (list byte) :=
  match fuel with
  | 0 => None
  | S fuel =>
      match MetadataIter_next it with
      | (Some (k, v), it) =>
          if bool_decide (k = BINARY_ERROR_DETAILS_KEY) then Some v else search_loop fuel it
      | (None, _) => Some []
      end
  end.

Definition search_binary_error_details (self : Metadata) : option (list byte) :=
  search_loop (S (Metadata_len self)) (Metadata_iter self).

Definition Metadata_clone (self : Metadata) : option Metadata :=
  match for_each (S (Metadata_len self)) (fun builder kv => add_metadata builder kv.1 kv.2)
          (MetadataBuilder_with_capacity (Metadata_len self)) (Metadata_iter self) with
  | Some builder => Some (MetadataBuilder_build builder)
  | None => None
  end.
End metadata.

(** ** Lemmas *)

(** The bytes a normalised key is made of. *)
Definition key_byte (b : byte) : bool :=
  in_range 97 122 b || in_range 48 57 b || bool_decide (b = "_"%byte)
  || bool_decide (b = "-"%byte) || bool_decide (b = "."%byte).

Definition key_char (b : byte) : bool := in_range 65 90 b || key_byte b.

Lemma key_loop_spec up bs :
  key_loop up bs = if forallb key_char bs then Some (up || existsb (in_range 65 90) bs) else None.
Proof.
  revert up. induction bs as [|b bs IH]; intros up; simpl; [by rewrite orb_false_r|].
  unfold key_char, key_byte at 1. destruct (in_range 65 90 b) eqn:Eu; simpl.
  - rewrite IH. by destruct (forallb _ bs), up.
  - destruct (_ || bool_decide (b = "."%byte)); simpl; [rewrite IH|done].
    by destruct (forallb _ bs).
Qed.

Lemma lowercase_u8_char b : key_char b = true -> key_byte (to_ascii_lowercase_u8 b) = true.
Proof. destruct b; vm_compute; done. Qed.

Lemma lowercase_u8_id b : in_range 65 90 b = false -> to_ascii_lowercase_u8 b = b.
Proof. unfold to_ascii_lowercase_u8. by intros ->. Qed.

Lemma to_ascii_lowercase_id s :
  existsb (in_range 65 90) (as_bytes s) = false -> to_ascii_lowercase s = s.
Proof.
  intros H. unfold to_ascii_lowercase.
  assert (to_ascii_lowercase_u8 <$> as_bytes s = as_bytes s) as ->; [|apply of_list_as_bytes].
  induction (as_bytes s) as [|b bs IH]; [done|]. simpl in H.
  apply orb_false_iff in H as [H1 H2]. by rewrite fmap_cons, lowercase_u8_id, IH.
Qed.

(** The bytes of an accepted key after lower-casing. *)
Lemma as_bytes_lowercase s : as_bytes (to_ascii_lowercase s) = to_ascii_lowercase_u8 <$> as_bytes s.
Proof. unfold to_ascii_lowercase. apply as_bytes_of_list. Qed.

Lemma lowercase_all_key_byte s :
  forallb key_char (as_bytes s) = true ->
  forallb key_byte (as_bytes (to_ascii_lowercase s)) = true.
Proof.
  rewrite as_bytes_lowercase. induction (as_bytes s) as [|b bs IH]; simpl; [done|].
  intros [H1 H2]%andb_true_iff. rewrite lowercase_u8_char by done. by apply IH.
Qed.

Lemma normalize_key_lower debug_str key binary :
  normalize_key debug_str key binary =
  if bool_decide (key = "") then Err (InvalidMetadata "metadata key should not be empty")
  else if forallb key_char (as_bytes key) then
    if Bool.eqb binary (ends_with (as_bytes (to_ascii_lowercase key)) (as_bytes "-bin"))
    then Ok (to_ascii_lowercase key)
    else Err (InvalidMetadata (if binary then "binary key should end with '-bin'"
                               else "non-binary key should not end with '-bin'"))
  else Err (InvalidMetadata ("key " +:+ debug_str key +:+ " is invalid")).
Proof.
  unfold normalize_key. case_bool_decide; [done|]. rewrite key_loop_spec.
  destruct (forallb key_char (as_bytes key)); [|done]. simpl.
  assert ((if existsb (in_range 65 90) (as_bytes key) then to_ascii_lowercase key else key) =
          to_ascii_lowercase key) as ->.
  { destruct (existsb _ _) eqn:E; [done|]. by rewrite to_ascii_lowercase_id. }
  by destruct binary, (ends_with _ _).
Qed.

Lemma Metadata_get_lookup m i : Metadata_get m i = md_entries m !! i.
Proof.
  unfold Metadata_get, Metadata_len. case_bool_decide; [|done].
  by rewrite lookup_ge_None_2.
Qed.

(** A loop over the iterator visits the entries from the index on, in order. *)
Lemma for_each_spec {A} (f : A -> string * list byte -> A) m fuel i a :
  length (md_entries m) - i < fuel ->
  for_each fuel f a (mkIter m i) = Some (fold_left f (drop i (md_entries m)) a).
Proof.
  revert i a. induction fuel as [|fuel IH]; intros i a Hf; [lia|]. simpl.
  unfold MetadataIter_next. simpl. rewrite Metadata_get_lookup.
  destruct (md_entries m !! i) as [kv|] eqn:E.
  - rewrite IH by (apply lookup_lt_Some in E; lia). by rewrite (drop_S _ _ _ E).
  - apply lookup_ge_None in E. by rewrite drop_ge by lia.
Qed.

(** The value of the first entry with the details key. *)
Fixpoint first_details (l : list (string * list byte)) : list byte :=
  match l with
  | [] => []
  | (k, v) :: l => if bool_decide (k = BINARY_ERROR_DETAILS_KEY) then v else first_details l
  end.

Lemma search_loop_spec m fuel i :
  length (md_entries m) - i < fuel ->
  search_loop fuel (mkIter m i) = Some (first_details (drop i (md_entries m))).
Proof.
  revert i. induction fuel as [|fuel IH]; intros i Hf; [lia|]. simpl.
  unfold MetadataIter_next. simpl. rewrite Metadata_get_lookup.
  destruct (md_entries m !! i) as [[k v]|] eqn:E.
  - rewrite (drop_S _ _ _ E). simpl. case_bool_decide; [done|].
    apply IH. apply lookup_lt_Some in E. lia.
  - apply lookup_ge_None in E. by rewrite drop_ge by lia.
Qed.

Lemma search_details_spec m :
  search_binary_error_details m = Some (first_details (md_entries m)).
Proof. unfold search_binary_error_details, Metadata_iter, Metadata_len. by rewrite search_loop_spec by lia. Qed.

Lemma fold_add_metadata l m :
  md_entries (fold_left (fun b kv => add_metadata b kv.1 kv.2) l m) = (md_entries m ++ l)%list.
Proof.
  revert m. induction l as [|[k v] l IH]; intros m; simpl; [by rewrite app_nil_r|].
  rewrite IH. simpl. by rewrite <-app_assoc.
Qed.

(** The array never overflows its allocation. *)
Lemma array_add_capacity m k v :
  length (md_entries m) <= md_capacity m ->
  length (md_entries (metadata_array_add m k v)) <= md_capacity (metadata_array_add m k v).
Proof. intros H. simpl. rewrite length_app. simpl. repeat case_bool_decide; lia. Qed.

(** ** Properties *)

Section metadata_properties.
Context (isprint : Z -> Z) (debug_str : string -> string).


(** The iterator of a [Metadata] returns its entries in order, [get] and [len] agree
    with it, and a clone has the same entries in a fresh array of exactly their number. *)
Theorem metadata_iter_clone (m : Metadata) :
  for_each (S (Metadata_len m)) (fun acc kv => acc ++ [kv])%list [] (Metadata_iter m) =
    Some (md_entries m) /\
  (forall i, Metadata_get m i = md_entries m !! i) /\
  Metadata_clone m = Some (mkMetadata (md_entries m) (Metadata_len m)).
Proof.
  split; [|split].
  - unfold Metadata_iter. rewrite for_each_spec by (unfold Metadata_len; lia). f_equal.
    rewrite drop_0. assert (forall l acc, fold_left (fun acc (kv : string * list byte) =>
      acc ++ [kv]) l acc = acc ++ l)%list as H; [|by rewrite H].
    induction l as [|kv l IH]; intros acc; simpl; [by rewrite app_nil_r|].
    by rewrite IH, <-app_assoc.
  - apply Metadata_get_lookup.
  - unfold Metadata_clone, Metadata_iter. rewrite for_each_spec by (unfold Metadata_len; lia).
    unfold MetadataBuilder_build, metadata_array_shrink_to_fit. rewrite drop_0, fold_add_metadata.
    done.
Qed.
End metadata_properties.

Definition c_isprint (c : Z) : Z := if Z.leb 32 c && Z.leb c 126 then 1 else 0.

Example metadata_upper_case_key :
  add_str c_isprint id MetadataBuilder_new "K1" "v1" =
  Ok (mkMetadata [("k1", as_bytes "v1")] 4).
Proof. reflexivity. Qed.

Example metadata_bin_key :
  add_bytes id MetadataBuilder_new "k5-Bin" [x00] = Ok (mkMetadata [("k5-bin", [x00])] 4).
Proof. reflexivity. Qed.
