(* ===== verification/Task.v ===== *)
(** Futures of the completion queue and the promises that resolve them:
    src/src/task/mod.rs, src/src/task/promise.rs, and [BatchContext] of
    src/src/call/mod.rs; with the world the call layer runs in.

    A [CqFuture] and the promise that resolves it share an [Arc<Mutex<NotifyHandle>>]:
    here an address in the heap of handles of a [World].  The poll threads resolve
    batches and queues are shut down while other threads are inside the call layer;
    each place where the code takes a lock or borrows the queue is therefore preceded by
    an arbitrary finite list of such events, taken from the schedule of the world. *)

From S2P Require Import Prelude Status Cq Buf Utf8 Metadata.

Local Open Scope rust_scope.

(** The identity of a [Waker]; [will_wake] compares it. *)
Abbreviation Waker := nat (only parsing).

(** A [CqFuture] is the address of its handle. *)
Abbreviation BatchFuture := nat (only parsing).

(** ** NotifyHandle *)

Record NotifyHandle (T : Type) := mkNotifyHandle {
  result : option (Result Error T);
  nh_waker : option Waker;
  stale : bool;
}.
Arguments mkNotifyHandle {T} _ _ _.
Arguments result {T} _.
Arguments nh_waker {T} _.
Arguments stale {T} _.

Section notify.
Context {T : Type}.
Implicit Types guard : NotifyHandle T.

Definition NotifyHandle_new : NotifyHandle T :=
  {| result := None; nh_waker := None; stale := false |}.

(** The waker to wake, and the handle with the result and without the waker. *)
Definition set_result guard (res : Result Error T) : option Waker * NotifyHandle T :=
  (nh_waker guard, {| result := Some res; nh_waker := None; stale := stale guard |}).

(** [task::check_alive], on the locked handle. *)
Definition check_alive guard : Result Error unit :=
  match result guard with
  | None => Ok tt
  | Some (Err (RpcFailure status)) => Err (RpcFinished (Some status))
  | Some (Ok _) | Some (Err _) => Err (RpcFinished None)
  end.

(** [CqFuture::poll], on the locked handle, by a task with waker [cx]. *)
Definition CqFuture_poll (cx : Waker) guard :
    outcome (Poll (Result Error T) * NotifyHandle T) :=
  if stale guard then Panicked "Resolved future is not supposed to be polled again."
  else
    match result guard with
    | Some res => Done (Ready res, {| result := None; nh_waker := nh_waker guard; stale := true |})
    | None =>
        let register :=
          match nh_waker guard with
          | None => true
          | Some w => negb (bool_decide (w = cx))
          end in
        Done (Pending, if register
                       then {| result := None; nh_waker := Some cx; stale := false |} else guard)
    end.
End notify.

(** ** Batches *)

Inductive BatchType := Finish | Read | CheckRead.

#[export] Instance BatchType_eq_dec : EqDecision BatchType.
Proof. solve_decision. Defined.

Section batch.
Context `{SC : SliceCore}.

Definition MessageReader : Type := GrpcByteBufferReader SC.

(** [grpcwrap_batch_context] when its batch completes: what the core received. *)
Record BatchContext := mkBatchContext {
  bc_recv_message : option grpc_byte_buffer;
  bc_status : Z;
  bc_status_details : list byte;
  bc_trailing_metadata : Metadata;
}.

(** [rpc_status]: the status received from the peer. *)
Definition rpc_status (self : BatchContext) : RpcStatus :=
  let status := mkRpcStatusCode (bc_status self) in
  if bool_decide (status = CODE_OK) then RpcStatus_ok
  else
    let message := from_utf8_lossy (bc_status_details self) in
    let details := default [] (search_binary_error_details (bc_trailing_metadata self)) in
    RpcStatus_with_details status message details.

(** [take_recv_message] and [recv_message]. *)
Definition recv_message (self : BatchContext) : outcome (option MessageReader) :=
  match bc_recv_message self with
  | None => Done None
  | Some buf => let+ reader := Reader_new buf in Done (Some reader)
  end.

(** What [resolve] of a batch promise stores in the handle: [read_one_msg],
    [finish_response] and [handle_unary_response]. *)
Definition read_one_msg (ctx : BatchContext) (success : bool) :
    outcome (Result Error (option MessageReader)) :=
  if success then let+ m := recv_message ctx in Done (Ok m)
  else Done (Ok None).

Definition finish_response (ctx : BatchContext) (succeed : bool) :
    outcome (Result Error (option MessageReader)) :=
  if succeed then
    let status := rpc_status ctx in
    if bool_decide (status_code status = CODE_OK) then Done (Ok None)
    else Done (Err (RpcFailure status))
  else Done (Err RemoteStopped).

Definition handle_unary_response (ctx : BatchContext) :
    outcome (Result Error (option MessageReader)) :=
  let status := rpc_status ctx in
  if bool_decide (status_code status = CODE_OK)
  then let+ m := recv_message ctx in Done (Ok m)
  else Done (Err (RpcFailure status)).

Definition Batch_resolve (ty : BatchType) (ctx : BatchContext) (success : bool) :
    outcome (Result Error (option MessageReader)) :=
  match ty with
  | CheckRead =>
      if success then handle_unary_response ctx else Panicked "assertion failed: success"
  | Finish => finish_response ctx success
  | Read => read_one_msg ctx success
  end.

(** [Action::resolve]. *)
Definition Action_resolve (guard : NotifyHandle bool) (success : bool) :
    option Waker * NotifyHandle bool :=
  set_result guard (Ok success).

(** ** Batches of operations given to the core *)

(** [grpc_op_type]. *)
Inductive grpc_op :=
| SEND_INITIAL_METADATA | SEND_MESSAGE | SEND_CLOSE_FROM_CLIENT | SEND_STATUS_FROM_SERVER
| RECV_INITIAL_METADATA | RECV_MESSAGE | RECV_STATUS_ON_CLIENT | RECV_CLOSE_ON_SERVER.

#[export] Instance grpc_op_eq_dec : EqDecision grpc_op.
Proof. solve_decision. Defined.

(** The wrappers of grpc_wrap.cc that start a batch, with what they are given. *)
Inductive Start :=
| SendMessage (send_buffer : list byte) (write_flags : Z) (send_empty_initial_metadata : bool)
| SendCloseFromClient
| RecvMessage
| StartServerside
| SendStatusFromServer (status_code : Z) (status_details : list byte)
    (trailing_metadata : option Metadata) (send_empty_initial_metadata : bool)
    (optional_send_buffer : option (list byte)) (write_flags : Z)
| StartUnary (send_buffer : list byte) (write_flags : Z) (initial_metadata : option Metadata)
    (initial_metadata_flags : Z)
| StartClientStreaming (initial_metadata : option Metadata) (initial_metadata_flags : Z)
| StartServerStreaming (send_buffer : list byte) (write_flags : Z)
    (initial_metadata : option Metadata) (initial_metadata_flags : Z)
| StartDuplexStreaming (initial_metadata : option Metadata) (initial_metadata_flags : Z)
| RecvInitialMetadata.

(** The operations of the batch each of them starts. *)
Definition start_ops (s : Start) : list grpc_op :=
  match s with
  | SendMessage _ _ meta => SEND_MESSAGE :: (if meta then [SEND_INITIAL_METADATA] else [])
  | SendCloseFromClient => [SEND_CLOSE_FROM_CLIENT]
  | RecvMessage => [RECV_MESSAGE]
  | StartServerside => [RECV_CLOSE_ON_SERVER]
  | SendStatusFromServer _ _ _ meta payload _ =>
      SEND_STATUS_FROM_SERVER :: (match payload with Some _ => [SEND_MESSAGE] | None => [] end)
      ++ (if meta then [SEND_INITIAL_METADATA] else [])
  | StartUnary _ _ _ _ =>
      [SEND_INITIAL_METADATA; SEND_MESSAGE; SEND_CLOSE_FROM_CLIENT; RECV_INITIAL_METADATA;
       RECV_MESSAGE; RECV_STATUS_ON_CLIENT]
  | StartClientStreaming _ _ =>
      [SEND_INITIAL_METADATA; RECV_INITIAL_METADATA; RECV_MESSAGE; RECV_STATUS_ON_CLIENT]
  | StartServerStreaming _ _ _ _ =>
      [SEND_INITIAL_METADATA; SEND_MESSAGE; SEND_CLOSE_FROM_CLIENT; RECV_STATUS_ON_CLIENT]
  | StartDuplexStreaming _ _ => [SEND_INITIAL_METADATA; RECV_STATUS_ON_CLIENT]
  | RecvInitialMetadata => [RECV_INITIAL_METADATA]
  end.

(** What the library asked of the core, by call. *)
Inductive CoreCall :=
| StartBatch (call : nat) (s : Start)
| CreateCall (call : nat) (method : option string) (timeout : option Z)
| Cancel (call : nat)
| CallUnref (call : nat).

(** ** The world *)

(** What other threads may do at any time: a poll thread resolves a batch with what
    the core received, or the queue is shut down. *)
Inductive Event :=
| EvResolve (tag : nat) (success : bool) (ctx : BatchContext)
| EvShutdown.

(** [handles]: the heap of notify handles, a future being an address in it; [inflight]:
    the tags the core holds, by the address of their handle; [calls]: what the core was
    asked, [completed] the batches it completed and with which result, both oldest first;
    [late]: how many of the calls were made after the native queue was shut down;
    [woken]: the wakers woken. *)
Record World := mkWorld {
  handles : list (NotifyHandle (option MessageReader));
  inflight : gmap nat (BatchType * nat * Start);
  w_cq : CompletionQueueHandle;
  calls : list CoreCall;
  late : nat;
  completed : list (nat * nat * Start * Result Error (option MessageReader));
  woken : list Waker;
  sched : list (list Event);
}.

Definition set_handle (f : BatchFuture) (guard : NotifyHandle (option MessageReader))
    (w : World) : World :=
  mkWorld (<[f:=guard]> (handles w)) (inflight w) (w_cq w) (calls w) (late w) (completed w) (woken w)
    (sched w).

Definition set_cq (h : CompletionQueueHandle) (w : World) : World :=
  mkWorld (handles w) (inflight w) h (calls w) (late w) (completed w) (woken w) (sched w).

Definition set_sched (sch : list (list Event)) (w : World) : World :=
  mkWorld (handles w) (inflight w) (w_cq w) (calls w) (late w) (completed w) (woken w) sch.

Definition set_inflight (m : gmap nat (BatchType * nat * Start)) (w : World) : World :=
  mkWorld (handles w) m (w_cq w) (calls w) (late w) (completed w) (woken w) (sched w).

(** A poll thread pops a tag and resolves it; a promise that panics is dropped with its
    tag. *)
Definition resolve_tag (tag : nat) (success : bool) (ctx : BatchContext) (w : World) : World :=
  match inflight w !! tag, handles w !! tag with
  | Some (ty, call, s), Some guard =>
      match Batch_resolve ty ctx success with
      | Done res =>
          let '(waker, guard) := set_result guard res in
          {| handles := <[tag:=guard]> (handles w); inflight := delete tag (inflight w);
             w_cq := w_cq w; calls := calls w; late := late w;
             completed := completed w ++ [(tag, call, s, res)];
             woken := woken w ++ option_list waker; sched := sched w |}
      | Panicked _ => set_inflight (delete tag (inflight w)) w
      end
  | _, _ => w
  end.

Definition event (e : Event) (w : World) : World :=
  match e with
  | EvResolve tag success ctx => resolve_tag tag success ctx w
  | EvShutdown => set_cq (shutdown (w_cq w)) w
  end.

(** Let the other threads run. *)
Definition interfere : M World unit := fun w =>
  match sched w with
  | [] => Done (tt, w)
  | es :: sched' =>
      Done (tt, foldl (fun w e => event e w) (set_sched sched' w) es)
  end.

(** Lock the handle of a future and poll it. *)
Definition poll_future (cx : Waker) (f : BatchFuture) :
    M World (Poll (Result Error (option MessageReader))) :=
  do* interfere in fun w =>
  match handles w !! f with
  | None => Panicked "no such handle"
  | Some guard =>
      match CqFuture_poll cx guard with
      | Done (p, guard) =>
          Done (p, set_handle f guard w)
      | Panicked m => Panicked m
      end
  end.

(** [task::check_alive] of a future. *)
Definition check_alive_future (f : BatchFuture) : M World (Result Error unit) :=
  do* interfere in fun w =>
  match handles w !! f with
  | None => Panicked "no such handle"
  | Some guard => Done (check_alive guard, w)
  end.

(** [CompletionQueue::borrow], and the drop of the reference. *)
Definition borrow : M World (Result Error unit) :=
  do* interfere in fun w =>
  let '(r, h) := add_ref (w_cq w) in Done (r, set_cq h w).

Definition drop_ref : M World unit := modify (fun w => set_cq (unref (w_cq w)) w).

(** ** Starting batches *)

Section core.
(** The answer of [grpc_call_start_batch] to a batch, given what was started before and
    is still running. *)
Context (start_answer : list CoreCall -> gmap nat (BatchType * nat * Start) ->
                        nat -> Start -> grpc_call_error).

(** Is a call of the core made too late? *)
Definition lateness (h : CompletionQueueHandle) : nat :=
  if bool_decide (0 < native_shutdowns h) then 1 else 0.

(** [check_run]: make a future and its tag, and run the wrapper that starts the batch. *)
Definition check_run (bt : BatchType) (call : nat) (s : Start) : M World BatchFuture :=
  do* interfere in fun w =>
  let tag := length (handles w) in
  match start_answer (calls w) (inflight w) call s with
  | GRPC_CALL_OK =>
      Done (tag, mkWorld (handles w ++ [NotifyHandle_new])
                   (<[tag:=(bt, call, s)]> (inflight w)) (w_cq w)
                   (calls w ++ [StartBatch call s]) (late w + lateness (w_cq w))
                   (completed w) (woken w) (sched w))
  | _ => Panicked "create call fail"
  end.

(** Borrow the queue for the duration of [check_run]. *)
Definition with_cq_ref (bt : BatchType) (call : nat) (s : Start) :
    M World (Result Error BatchFuture) :=
  let* r := borrow in
  match r with
  | Err e => ret (Err e)
  | Ok _ =>
      let* f := check_run bt call s in
      do* drop_ref in
      ret (Ok f)
  end.
End core.
End batch.

Arguments World : clear implicits.
Arguments World SC : assert.
Arguments BatchContext : clear implicits.
Arguments BatchContext SC : assert.
Arguments MessageReader : clear implicits.
Arguments MessageReader SC : assert.
Arguments Event : clear implicits.
Arguments Event SC : assert.

(** An open queue can always be borrowed. *)
Lemma add_ref_open (h : CompletionQueueHandle) :
  (0 < ref_cnt h)%Z ->
  add_ref h = (Ok tt, {| ref_cnt := ref_cnt h + 1; native_shutdowns := native_shutdowns h |}).
Proof. intros H. unfold add_ref. by rewrite bool_decide_eq_false_2 by lia. Qed.

(** Dropping a reference just taken restores the queue. *)
Lemma unref_add_ref (h : CompletionQueueHandle) :
  (0 < ref_cnt h)%Z ->
  unref {| ref_cnt := ref_cnt h + 1; native_shutdowns := native_shutdowns h |} = h.
Proof.
  intros H. unfold unref. simpl. rewrite Z.sgn_pos by lia.
  replace (ref_cnt h + 1 - 1)%Z with (ref_cnt h) by lia.
  rewrite bool_decide_eq_false_2 by lia. by destruct h.
Qed.

(** ** What the core documents of batches

    Each operation but sending and receiving messages happens at most once for a call,
    and only one batch with a given operation may be outstanding at a time. *)

Definition repeatable (op : grpc_op) : bool :=
  match op with SEND_MESSAGE | RECV_MESSAGE => true | _ => false end.

Definition started (call : nat) (op : grpc_op) (c : CoreCall) : bool :=
  match c with
  | StartBatch call' s => bool_decide (call' = call) && bool_decide (op ∈ start_ops s)
  | CreateCall _ _ _ | Cancel _ | CallUnref _ => false
  end.

Definition running (call : nat) (op : grpc_op) (m : gmap nat (BatchType * nat * Start)) : Prop :=
  exists t ty s, m !! t = Some (ty, call, s) /\ op ∈ start_ops s.

Definition batch_allowed (hist : list CoreCall) (m : gmap nat (BatchType * nat * Start))
    (call : nat) (s : Start) : Prop :=
  forall op, op ∈ start_ops s ->
    if repeatable op then ~ running call op m else existsb (started call op) hist = false.

(** The core accepts a batch that follows these rules. *)
Class CallCore `{SC : SliceCore} (start_answer : list CoreCall ->
    gmap nat (BatchType * nat * Start) -> nat -> Start -> grpc_call_error) : Prop :=
  start_accepted hist m call s :
    batch_allowed hist m call s -> start_answer hist m call s = GRPC_CALL_OK.

(** ** Lemmas *)

Section world_lemmas.
Context `{SC : SliceCore}.
Implicit Types w : World SC.

(** A predicate on worlds other threads cannot falsify. *)
Class Stable (P : World SC -> Prop) : Prop := {
  stable_event e w : P w -> P (event e w);
  stable_sched sch w : P w -> P (set_sched sch w);
}.

Lemma interfere_stable P w :
  Stable P -> P w -> exists w', interfere w = Done (tt, w') /\ P w'.
Proof.
  intros HS HP. unfold interfere. destruct (sched w) as [|es sch]; [eauto|].
  eexists. split; [done|]. assert (P (set_sched sch w)) as H by (by apply stable_sched).
  revert H. generalize (set_sched sch w). induction es as [|e es IH]; intros w' Hw'; simpl; [done|].
  apply IH. by apply stable_event.
Qed.

#[export] Instance Stable_and P Q : Stable P -> Stable Q -> Stable (fun w => P w /\ Q w).
Proof.
  intros HP HQ. split; intros ? w [? ?]; split;
    solve [by apply stable_event | by apply stable_sched].
Qed.

#[export] Instance Stable_const (P : Prop) : Stable (fun _ => P).
Proof. by split. Qed.

#[export] Instance Stable_impl (P : Prop) Q : Stable Q -> Stable (fun w => P -> Q w).
Proof. intros HQ. split; intros ? w H HP; [apply stable_event | apply stable_sched]; auto. Qed.

(** What an event does: at most drop a tag, or complete a batch. *)
Lemma event_cases e w :
  (handles (event e w) = handles w /\ calls (event e w) = calls w /\
   completed (event e w) = completed w /\ (w_cq (event e w) = w_cq w \/ w_cq (event e w) = shutdown (w_cq w)) /\
   (inflight (event e w) = inflight w \/ exists t, inflight (event e w) = delete t (inflight w))) \/
  (exists tag ty c s g r, inflight w !! tag = Some (ty, c, s) /\ handles w !! tag = Some g /\
     handles (event e w) = <[tag:=mkNotifyHandle (Some r) None (stale g)]> (handles w) /\
     calls (event e w) = calls w /\ completed (event e w) = completed w ++ [(tag, c, s, r)] /\
     w_cq (event e w) = w_cq w /\ inflight (event e w) = delete tag (inflight w)).
Proof.
  destruct e as [tag success ctx|]; simpl; [|left; auto 10].
  unfold resolve_tag. destruct (inflight w !! tag) as [[[ty c] s]|] eqn:Ei; [|left; auto 10].
  destruct (handles w !! tag) as [g|] eqn:Eh; [|left; auto 10].
  destruct (Batch_resolve ty ctx success) as [r|m]; simpl.
  - right. exists tag, ty, c, s, g, r. done.
  - left. repeat (split; [by auto|]). right. by exists tag.
Qed.

(** The result of a completed batch is what its promise made of it. *)
Lemma event_result e w tag ty c s r :
  inflight w !! tag = Some (ty, c, s) -> completed (event e w) = completed w ++ [(tag, c, s, r)] ->
  exists ctx success, Batch_resolve ty ctx success = Done r.
Proof.
  intros Hi Hc.
  assert (completed w <> completed w ++ [(tag, c, s, r)]) as Hne.
  { intros E. apply (f_equal length) in E. rewrite length_app in E. simpl in E. lia. }
  destruct e as [tag' success ctx|]; simpl in Hc; [|done]. unfold resolve_tag in Hc.
  destruct (inflight w !! tag') as [[[ty' c'] s']|] eqn:Ei; [|done].
  destruct (handles w !! tag') as [g|]; [|done].
  destruct (Batch_resolve ty' ctx success) as [r'|m] eqn:Eb; simpl in Hc; [|done].
  apply app_inv_head in Hc. simplify_eq. eauto.
Qed.

(** Tags the core holds are of futures that are not resolved. *)
Definition WInv w : Prop :=
  forall t e, inflight w !! t = Some e ->
    exists g, handles w !! t = Some g /\ result g = None /\ stale g = false.

Definition live (f : BatchFuture) w : Prop :=
  exists g, handles w !! f = Some g /\ stale g = false.

#[export] Instance Stable_WInv : Stable WInv.
Proof.
  split; [|done]. intros e w HI t en Ht.
  destruct (event_cases e w) as [(Hh & _ & _ & _ & Hi)|(tag & ty & c & s & g & r & _ & Hg & Hh & _ & _ & _ & Hi)].
  - rewrite Hh. destruct Hi as [Hi|[t' Hi]]; rewrite Hi in Ht; [by apply (HI t en)|].
    apply lookup_delete_Some in Ht as [_ Ht]. by apply (HI t en).
  - rewrite Hi in Ht. apply lookup_delete_Some in Ht as [Hne Ht]. rewrite Hh.
    rewrite list_lookup_insert_ne by done. by apply (HI t en).
Qed.

#[export] Instance Stable_live f : Stable (live f).
Proof.
  split; [|done]. intros e w (g & Hg & Hs).
  destruct (event_cases e w) as [(Hh & _)|(tag & ty & c & s & g' & r & _ & Hg' & Hh & _)].
  - exists g. by rewrite Hh.
  - unfold live. rewrite Hh. destruct (decide (tag = f)) as [->|Hne].
    + rewrite list_lookup_insert_eq by (by eapply lookup_lt_Some). 
      eexists. split; [done|]. simpl. congruence.
    + rewrite list_lookup_insert_ne by done. eauto.
Qed.

Definition future_live (f : option BatchFuture) w : Prop :=
  match f with Some f => live f w | None => True end.

#[export] Instance Stable_future_live f : Stable (future_live f).
Proof. destruct f as [f|]; [exact (Stable_live f) | exact (Stable_const True)]. Qed.

(** Only one batch with [op] may run for [call], and only with this tag. *)
Definition only_running (call : nat) (op : grpc_op) (f : option BatchFuture) w : Prop :=
  forall t ty s, inflight w !! t = Some (ty, call, s) -> op ∈ start_ops s -> f = Some t.

#[export] Instance Stable_only_running call op f : Stable (only_running call op f).
Proof.
  split; [|done]. intros e w H t ty s Ht. apply (H t ty s).
  destruct (event_cases e w) as [(_ & _ & _ & _ & [Hi|[t' Hi]])|(tag & ? & ? & ? & ? & ? & _ & _ & _ & _ & _ & _ & Hi)];
    rewrite Hi in Ht; [done|..]; by apply lookup_delete_Some in Ht as [_ Ht].
Qed.

#[export] Instance Stable_calls (P : list CoreCall -> Prop) : Stable (fun w => P (calls w)).
Proof.
  split; [|done]. intros e w H.
  by destruct (event_cases e w) as [(_ & Hc & _)|(tag & ? & ? & ? & ? & ? & _ & _ & _ & Hc & _)];
    rewrite Hc.
Qed.

(** The queue was asked to shut down: it cannot be borrowed any more. *)
Definition queue_shut w : Prop := (ref_cnt (w_cq w) <= 0)%Z.

#[export] Instance Stable_queue_shut : Stable queue_shut.
Proof.
  split; [|done]. unfold queue_shut. intros e w H.
  destruct (event_cases e w) as [(_ & _ & _ & [Hq|Hq] & _)|(? & ? & ? & ? & ? & ? & _ & _ & _ & _ & _ & Hq & _)];
    rewrite Hq; [done| |done].
  unfold shutdown. by rewrite bool_decide_eq_true_2.
Qed.

Lemma only_running_None call op w : only_running call op None w <-> ~ running call op (inflight w).
Proof.
  split.
  - intros H (t & ty & s & Ht & Ho). by specialize (H t ty s Ht Ho).
  - intros H t ty s Ht Ho. destruct H. by exists t, ty, s.
Qed.

(** Polling a live future: it is resolved, and then its batch is no longer running, or
    it stays as it is. *)
Lemma poll_future_spec P cx f w :
  Stable P -> WInv w -> live f w -> P w ->
  exists w1 g, P w1 /\ WInv w1 /\ handles w1 !! f = Some g /\ stale g = false /\
    ((exists res, result g = Some res /\ inflight w1 !! f = None /\
        poll_future cx f w =
          Done (Ready res, set_handle f (mkNotifyHandle None (nh_waker g) true) w1)) \/
     (result g = None /\
      exists wk, poll_future cx f w =
          Done (Pending, set_handle f (mkNotifyHandle None wk false) w1))).
Proof.
  intros HS HW Hl HP.
  destruct (interfere_stable (fun w => P w /\ WInv w /\ live f w) w) as
    (w1 & E & HP1 & HW1 & g & Hg & Hst); [apply _|done|].
  exists w1, g. split; [done|]. split; [done|]. split; [done|]. split; [done|].
  unfold poll_future, bind. rewrite E, Hg. unfold CqFuture_poll. rewrite Hst.
  destruct (result g) as [res|] eqn:Er.
  - left. exists res. split; [done|]. split; [|done].
    destruct (inflight w1 !! f) as [en|] eqn:Ei; [|done].
    destruct (HW1 f en Ei) as (g' & Hg' & Hr & _). congruence.
  - right. split; [done|]. destruct g as [gr gw gs]; simpl in *; subst.
    repeat case_match; eauto.
Qed.

Lemma set_handle_WInv f g w :
  WInv w -> (is_Some (inflight w !! f) -> result g = None /\ stale g = false) ->
  WInv (set_handle f g w).
Proof.
  intros HW Hf t e Ht. simpl in *. destruct (HW t e Ht) as (g' & Hg' & ? & ?).
  destruct (decide (f = t)) as [->|Hne].
  - exists g. rewrite list_lookup_insert_eq by (by eapply lookup_lt_Some). split; [done|]. by apply Hf.
  - rewrite list_lookup_insert_ne by done. eauto.
Qed.

Lemma set_handle_live f g w f' :
  live f' w -> (f = f' -> stale g = false) -> live f' (set_handle f g w).
Proof.
  intros (g' & Hg & Hs) Hf. unfold live. simpl. destruct (decide (f = f')) as [->|Hne].
  - rewrite list_lookup_insert_eq by (by eapply lookup_lt_Some). eauto.
  - rewrite list_lookup_insert_ne by done. eauto.
Qed.
End world_lemmas.

Section start_lemmas.
Context `{SC : SliceCore} start_answer `{CC : !CallCore start_answer}.
Implicit Types w : World SC.

(** The world after a batch was started in [w], with the queue in state [h]. *)
Definition started_world bt call s (h : CompletionQueueHandle) w : World SC :=
  mkWorld (handles w ++ [NotifyHandle_new]) (<[length (handles w):=(bt, call, s)]> (inflight w))
    h (calls w ++ [StartBatch call s]) (late w + lateness (w_cq w)) (completed w) (woken w)
    (sched w).

(** [check_run] starts an allowed batch with a fresh future. *)
Lemma check_run_spec P bt call s w :
  Stable P -> WInv w -> P w ->
  (forall w1, P w1 -> WInv w1 -> batch_allowed (calls w1) (inflight w1) call s) ->
  exists w1, P w1 /\ WInv w1 /\
    check_run start_answer bt call s w =
      Done (length (handles w1), started_world bt call s (w_cq w1) w1).
Proof.
  intros HS HW HP Hal.
  destruct (interfere_stable (fun w => P w /\ WInv w) w) as (w1 & E & HP1 & HW1); [apply _|done|].
  exists w1. split; [done|]. split; [done|]. unfold check_run, bind. rewrite E.
  rewrite (start_accepted (start_answer:=start_answer)) by (by apply Hal). done.
Qed.

(** Starting an allowed batch with the queue borrowed: either the queue is shut down,
    or the batch runs with a fresh future, and the native queue is not shut down yet. *)
Lemma with_cq_ref_spec P bt call s w :
  Stable P -> (forall h w, P w -> P (set_cq h w)) -> WInv w -> P w ->
  (forall w1, P w1 -> WInv w1 -> batch_allowed (calls w1) (inflight w1) call s) ->
  exists w1, P w1 /\ WInv w1 /\
    ((with_cq_ref start_answer bt call s w = Done (Err QueueShutdown, w1) /\ queue_shut w1) \/
     with_cq_ref start_answer bt call s w =
       Done (Ok (length (handles w1)), started_world bt call s (unref (w_cq w1)) w1)).
Proof.
  intros HS HC HW HP Hal.
  destruct (interfere_stable (fun w => P w /\ WInv w) w) as (w1 & E & HP1 & HW1); [apply _|done|].
  unfold with_cq_ref, borrow, bind. rewrite E.
  destruct (add_ref (w_cq w1)) as [r h] eqn:Ea. unfold add_ref in Ea. case_bool_decide; simplify_eq.
  - exists w1. split; [done|]. split; [done|]. left. split; [by destruct w1|done].
  - set (h := mkHandle _ _).
    destruct (check_run_spec P bt call s (set_cq h w1)) as (w2 & HP2 & HW2 & E2);
      [done | done | by apply HC | done |].
    exists w2. split; [done|]. split; [done|]. right. rewrite E2. done.
Qed.

(** The world after a batch was started is consistent, and its future is live. *)
Lemma start_WInv bt call s w h :
  WInv w ->
  WInv (started_world bt call s h w).
Proof.
  intros HW t e Ht. simpl in *. apply lookup_insert_Some in Ht as [[<- _]|[Hne Ht]].
  - exists NotifyHandle_new. split; [by apply list_lookup_middle | done].
  - destruct (HW t e Ht) as (g & Hg & ? & ?). exists g. split; [|done].
    by apply lookup_app_l_Some.
Qed.

Lemma start_live bt call s w h f :
  live f w \/ f = length (handles w) ->
  live f (started_world bt call s h w).
Proof.
  intros [(g & Hg & Hs)| ->].
  - exists g. split; [by apply lookup_app_l_Some | done].
  - exists NotifyHandle_new. split; [by apply list_lookup_middle | done].
Qed.

Lemma start_only_running bt call s w h op f :
  only_running call op f w -> (op ∈ start_ops s -> f = None \/ f = Some (length (handles w))) ->
  only_running call op (if decide (op ∈ start_ops s) then Some (length (handles w)) else f)
    (started_world bt call s h w).
Proof.
  intros Ho Hf t ty s' Ht Hop. simpl in Ht. apply lookup_insert_Some in Ht as [[<- ?]|[Hne Ht]].
  - simplify_eq. by rewrite decide_True.
  - specialize (Ho _ _ _ Ht Hop). case_decide as Hd; [|done].
    destruct (Hf Hd) as [-> | ->]; simplify_eq.
Qed.
End start_lemmas.

#[export] Hint Resolve set_handle_WInv set_handle_live start_WInv start_live : rust.
