(* ===== verification/Call.v ===== *)
(** A call and the building blocks of its streams: the methods of [Call], [ShareCall],
    [StreamingBase] and [SinkBase] of src/src/call/mod.rs.

    A method runs in the world of [Task]; the object it mutates is passed and returned.
    A [Call] is the number of its [grpc_call]. *)

From S2P Require Import Prelude Status Cq Buf Utf8 Metadata Task.

Local Open Scope rust_scope.

Section call.
Context `{SC : SliceCore}.
Context (start_answer : list CoreCall -> gmap nat (BatchType * nat * Start) ->
                        nat -> Start -> grpc_call_error).
Let W := World SC.

(** ** Call *)

Definition start_send_message (call : nat) (msg : GrpcSlice) (write_flags : Z)
    (initial_meta : bool) : M W (Result Error BatchFuture) :=
  with_cq_ref start_answer Finish call
    (SendMessage (GrpcSlice_as_slice msg) write_flags initial_meta).

Definition start_send_close_client (call : nat) : M W (Result Error BatchFuture) :=
  with_cq_ref start_answer Finish call SendCloseFromClient.

Definition start_recv_message (call : nat) : M W (Result Error BatchFuture) :=
  with_cq_ref start_answer Read call RecvMessage.

Definition start_server_side (call : nat) : M W (Result Error BatchFuture) :=
  with_cq_ref start_answer Finish call StartServerside.

(** The batch of [start_send_status_from_server]: the message is sent only with an
    error, the details as trailing metadata. *)
Definition status_start (status : RpcStatus) (send_empty_metadata : bool)
    (payload : option GrpcSlice) (write_flags : Z) : Start :=
  SendStatusFromServer (RpcStatusCode_into_i32 (status_code status))
    (if bool_decide (status_code status = CODE_OK) then [] else as_bytes (status_message status))
    (match status_details status with
     | [] => None
     | details => Some (MetadataBuilder_build (set_binary_error_details MetadataBuilder_new details))
     end)
    send_empty_metadata (GrpcSlice_as_slice <$> payload) write_flags.

Definition start_send_status_from_server (call : nat) (status : RpcStatus)
    (send_empty_metadata : bool) (payload : option GrpcSlice) (write_flags : Z) :
    M W (Result Error BatchFuture) :=
  with_cq_ref start_answer Finish call
    (status_start status send_empty_metadata payload write_flags).

(** A call of the core that has no future. *)
Definition log_call (c : CoreCall) : M W unit :=
  modify (fun w => mkWorld (handles w) (inflight w) (w_cq w) (calls w ++ [c])
                     (late w + lateness (w_cq w)) (completed w) (woken w) (sched w)).

Definition core_call (c : CoreCall) : M W unit := do* interfere in log_call c.

(** The batch [abort] starts: no details, no payload, with the initial metadata. *)
Definition abort_start (status : RpcStatus) : Start :=
  SendStatusFromServer (RpcStatusCode_into_i32 (status_code status))
    (if bool_decide (status_code status = CODE_OK) then [] else as_bytes (status_message status))
    None true None 0.

(** [abort]: the reference of [borrow] is dropped with the [match]; the call is dropped,
    or moved into the tag of the batch. *)
Definition abort (call : nat) (status : RpcStatus) : M W unit :=
  let* r := borrow in
  match r with
  | Err QueueShutdown => core_call (CallUnref call)
  | Err _ => panic "unexpected error when aborting call"
  | Ok _ =>
      do* drop_ref in
      do* interfere in
      let* answer := gets (fun w => start_answer (calls w) (inflight w) call (abort_start status)) in
      match answer with
      | GRPC_CALL_OK => log_call (StartBatch call (abort_start status))
      | _ => panic "create call fail"
      end
  end.

Definition cancel (call : nat) : M W unit :=
  let* r := borrow in
  match r with
  | Err QueueShutdown => ret tt
  | Err _ => panic "unexpected error when canceling call"
  | Ok _ => do* drop_ref in core_call (Cancel call)
  end.

(** ** ShareCall *)

Record ShareCall := mkShareCall {
  sc_call : nat;
  sc_close_f : BatchFuture;
  sc_finished : bool;
  sc_status : option RpcStatus;
}.

Definition ShareCall_new (call : nat) (close_f : BatchFuture) : ShareCall :=
  {| sc_call := call; sc_close_f := close_f; sc_finished := false; sc_status := None |}.

Definition poll_finish (cx : Waker) (self : ShareCall) :
    M W (Poll (Result Error (option (MessageReader SC))) * ShareCall) :=
  let* p := poll_future cx (sc_close_f self) in
  match p with
  | Pending => ret (Pending, self)
  | Ready res =>
      let status :=
        match res with
        | Ok _ => Some RpcStatus_ok
        | Err (RpcFailure status) => Some status
        | Err _ => sc_status self
        end in
      ret (Ready res, mkShareCall (sc_call self) (sc_close_f self) true status)
  end.

Definition ShareCall_check_alive (self : ShareCall) : M W (Result Error unit) :=
  if sc_finished self then ret (Err (RpcFinished (sc_status self)))
  else check_alive_future (sc_close_f self).

(** ** StreamingBase *)

Record StreamingBase := mkStreamingBase {
  sb_close_f : option BatchFuture;
  sb_msg_f : option BatchFuture;
  sb_read_done : bool;
}.

Definition StreamingBase_new (close_f : option BatchFuture) : StreamingBase :=
  {| sb_close_f := close_f; sb_msg_f := None; sb_read_done := false |}.

(** What a poll of a stream returns. *)
Definition StreamPoll := Poll (option (Result Error (MessageReader SC))).

(** The check of [close_f] at the start of [poll]: [Some] is the error it returns. *)
Definition poll_close_f (cx : Waker) (skip_finish_check : bool) (self : StreamingBase) :
    M W (option Error * StreamingBase) :=
  match skip_finish_check, sb_close_f self with
  | false, Some close_f =>
      let* p := poll_future cx close_f in
      match p with
      | Ready (Err e) => ret (Some e, self)
      | Ready (Ok _) => ret (None, mkStreamingBase None (sb_msg_f self) (sb_read_done self))
      | Pending => ret (None, self)
      end
  | _, _ => ret (None, self)
  end.

(** The rest of [poll]; it calls itself once when it had to start the first read. *)
Fixpoint poll_msgs (fuel : nat) (cx : Waker) (call : nat) (self : StreamingBase) :
    M W (StreamPoll * StreamingBase) :=
  match fuel with
  | 0 => panic "recursion limit"
  | S fuel =>
      let read_done_now (self : StreamingBase) : M W (StreamPoll * StreamingBase) :=
        ret (match sb_close_f self with None => Ready None | Some _ => Pending end, self) in
      let start_read (bytes : option (MessageReader SC)) (self : StreamingBase) :
          M W (StreamPoll * StreamingBase) :=
        let* r := start_recv_message call in
        match r with
        | Err e => ret (Ready (Some (Err e)), mkStreamingBase (sb_close_f self) None (sb_read_done self))
        | Ok msg_f =>
            let self := mkStreamingBase (sb_close_f self) (Some msg_f) (sb_read_done self) in
            match bytes with
            | None => poll_msgs fuel cx call self
            | Some b => ret (Ready (Some (Ok b)), self)
            end
        end in
      if sb_read_done self then read_done_now self
      else
        match sb_msg_f self with
        | None => start_read None self
        | Some msg_f =>
            let* p := poll_future cx msg_f in
            match p with
            | Pending => ret (Pending, self)
            | Ready (Err e) => ret (Ready (Some (Err e)), self)
            | Ready (Ok None) =>
                read_done_now (mkStreamingBase (sb_close_f self) (sb_msg_f self) true)
            | Ready (Ok (Some b)) => start_read (Some b) self
            end
        end
  end.

(** Two levels are enough: see [poll_msgs_spec]. *)
Definition StreamingBase_poll (cx : Waker) (call : nat) (skip_finish_check : bool)
    (self : StreamingBase) : M W (StreamPoll * StreamingBase) :=
  let* (e, self) := poll_close_f cx skip_finish_check self in
  match e with
  | Some e => ret (Ready (Some (Err e)), self)
  | None => poll_msgs 2 cx call self
  end.

Definition on_drop (call : nat) (self : StreamingBase) : M W unit :=
  if negb (sb_read_done self) || bool_decide (is_Some (sb_close_f self))
  then cancel call else ret tt.

(** ** SinkBase *)

Record SinkBase := mkSinkBase {
  si_batch_f : option BatchFuture;
  si_send_metadata : bool;
  si_enhance_buffer_strategy : bool;
  si_buffer : GrpcSlice;
  si_buf_flags : option WriteFlags;
  si_last_buf_hint : bool;
}.

Definition SinkBase_new (send_metadata : bool) : SinkBase :=
  {| si_batch_f := None; si_buffer := GrpcSlice_default; si_buf_flags := None;
     si_last_buf_hint := true; si_send_metadata := send_metadata;
     si_enhance_buffer_strategy := false |}.

Definition start_send_buffer_message (call : nat) (hint : bool) (self : SinkBase) :
    M W (Result Error unit * SinkBase) :=
  do* rassert (bool_decide (si_batch_f self = None)) "assertion failed: self.batch_f.is_none()" in
  let* flags0 := unwrap (si_buf_flags self) "called `Option::unwrap()` on a `None` value" in
  let wflags := buffer_hint flags0 hint in
  let* r := start_send_message call (si_buffer self) (flags wflags) (si_send_metadata self) in
  match r with
  | Err e => ret (Err e, self)
  | Ok write_f =>
      ret (Ok tt,
        {| si_batch_f := Some write_f;
           si_buffer := if GrpcSlice_is_inline (si_buffer self) then si_buffer self
                        else GrpcSlice_default;
           si_buf_flags := None;
           si_last_buf_hint := si_last_buf_hint self;
           si_send_metadata := si_send_metadata self;
           si_enhance_buffer_strategy := si_enhance_buffer_strategy self |})
  end.

Definition set_buffer (buffer : GrpcSlice) (buf_flags : option WriteFlags) (last_buf_hint : bool)
    (self : SinkBase) : SinkBase :=
  mkSinkBase (si_batch_f self) (si_send_metadata self) (si_enhance_buffer_strategy self)
    buffer buf_flags last_buf_hint.

(** Lift a serializer, which may panic, into the world. *)
Definition run_ser {T} (ser : T -> GrpcSlice -> outcome GrpcSlice) (t : T) (buf : GrpcSlice) :
    M W GrpcSlice := fun w =>
  match ser t buf with
  | Done b => Done (b, w)
  | Panicked m => Panicked m
  end.

(** [start_send] after the first message of a sink that sends metadata. *)
Definition start_send_rest {T} (call : nat) (t : T) (wflags : WriteFlags)
    (ser : T -> GrpcSlice -> outcome GrpcSlice) (self : SinkBase) :
    M W (Result Error unit * SinkBase) :=
  let* buffer := run_ser ser t (si_buffer self) in
  let hint := get_buffer_hint wflags in
  let self := set_buffer buffer (Some wflags) (si_last_buf_hint self && hint) self in
  if negb (si_enhance_buffer_strategy self)
  then start_send_buffer_message call hint self
  else ret (Ok tt, self).

Definition SinkBase_start_send {T} (call : nat) (t : T) (wflags : WriteFlags)
    (ser : T -> GrpcSlice -> outcome GrpcSlice) (self : SinkBase) :
    M W (Result Error unit * SinkBase) :=
  if si_send_metadata self then
    let* buffer := run_ser ser t (si_buffer self) in
    let self := set_buffer buffer (Some wflags) (si_last_buf_hint self) self in
    let* (r, self) := start_send_buffer_message call false self in
    match r with
    | Err e => ret (Err e, self)
    | Ok _ =>
        ret (Ok tt, mkSinkBase (si_batch_f self) false (si_enhance_buffer_strategy self)
                      (si_buffer self) (si_buf_flags self) (si_last_buf_hint self))
    end
  else if bool_decide (is_Some (si_buf_flags self)) then
    let* (r, self) := start_send_buffer_message call true self in
    match r with
    | Err e => ret (Err e, self)
    | Ok _ => start_send_rest call t wflags ser self
    end
  else start_send_rest call t wflags ser self.

Definition set_batch_f (f : option BatchFuture) (self : SinkBase) : SinkBase :=
  mkSinkBase f (si_send_metadata self) (si_enhance_buffer_strategy self) (si_buffer self)
    (si_buf_flags self) (si_last_buf_hint self).

Definition SinkBase_poll_ready (cx : Waker) (self : SinkBase) :
    M W (Poll (Result Error unit) * SinkBase) :=
  match si_batch_f self with
  | None => ret (Ready (Ok tt), self)
  | Some f =>
      let* p := poll_future cx f in
      match p with
      | Pending => ret (Pending, self)
      | Ready (Err e) => ret (Ready (Err e), self)
      | Ready (Ok _) => ret (Ready (Ok tt), set_batch_f None self)
      end
  end.

Definition set_last_buf_hint (b : bool) (self : SinkBase) : SinkBase :=
  set_buffer (si_buffer self) (si_buf_flags self) b self.

(** [poll_flush] once no batch is outstanding. *)
Definition flush_buffer (cx : Waker) (call : nat) (self : SinkBase) :
    M W (Poll (Result Error unit) * SinkBase) :=
  if bool_decide (is_Some (si_buf_flags self)) then
    let* (r, self) := start_send_buffer_message call (si_last_buf_hint self) self in
    match r with
    | Err e => ret (Ready (Err e), self)
    | Ok _ =>
        let* (p, self) := SinkBase_poll_ready cx self in
        match p with
        | Ready (Ok _) => ret (Ready (Ok tt), set_last_buf_hint true self)
        | p => ret (p, self)
        end
    end
  else ret (Ready (Ok tt), set_last_buf_hint true self).

Definition SinkBase_poll_flush (cx : Waker) (call : nat) (self : SinkBase) :
    M W (Poll (Result Error unit) * SinkBase) :=
  if bool_decide (is_Some (si_batch_f self)) then
    let* (p, self) := SinkBase_poll_ready cx self in
    match p with
    | Ready (Ok _) => flush_buffer cx call self
    | p => ret (p, self)
    end
  else flush_buffer cx call self.
End call.

(** ** The sink under its contract *)

Section sink_contract.
Context `{SC : SliceCore}.
Context (start_answer : list CoreCall -> gmap nat (BatchType * nat * Start) ->
                        nat -> Start -> grpc_call_error).
Context {T : Type} (ser : T -> GrpcSlice -> outcome GrpcSlice).
Let W := World SC.

(** What a user of the sink may do. *)
Inductive SinkOp := OpReady (cx : Waker) | OpSend (t : T) (wflags : WriteFlags) | OpFlush (cx : Waker).

(** [sr_ready]: the last operation was a [poll_ready] that returned ready; [sr_accepted]:
    the messages [start_send] accepted; [sr_error]: the error that ended the use. *)
Record SinkRun := mkSinkRun {
  sr_sink : SinkBase;
  sr_ready : bool;
  sr_accepted : list (T * WriteFlags);
  sr_error : option Error;
}.

Definition sink_op (call : nat) (op : SinkOp) (st : SinkRun) : M W SinkRun :=
  match op with
  | OpReady cx =>
      let* (p, self) := SinkBase_poll_ready cx (sr_sink st) in
      ret (match p with
           | Ready (Ok _) => mkSinkRun self true (sr_accepted st) None
           | Ready (Err e) => mkSinkRun self false (sr_accepted st) (Some e)
           | Pending => mkSinkRun self false (sr_accepted st) None
           end)
  | OpSend t wflags =>
      if sr_ready st then
        let* (r, self) := SinkBase_start_send start_answer call t wflags ser (sr_sink st) in
        ret (match r with
             | Ok _ => mkSinkRun self false (sr_accepted st ++ [(t, wflags)]) None
             | Err e => mkSinkRun self false (sr_accepted st) (Some e)
             end)
      else ret st
  | OpFlush cx =>
      let* (p, self) := SinkBase_poll_flush start_answer cx call (sr_sink st) in
      ret (match p with
           | Ready (Err e) => mkSinkRun self false (sr_accepted st) (Some e)
           | _ => mkSinkRun self false (sr_accepted st) None
           end)
  end.

(** Use the sink until the operations are done or one returned an error; a message is
    only offered after a successful [poll_ready]. *)
Fixpoint sink_run (call : nat) (ops : list SinkOp) (st : SinkRun) : M W SinkRun :=
  match ops with
  | [] => ret st
  | op :: ops =>
      match sr_error st with
      | Some _ => ret st
      | None => let* st := sink_op call op st in sink_run call ops st
      end
  end.
End sink_contract.

(** The messages started on a call: payload, flags, and whether with the metadata. *)
Definition sent_of (call : nat) (c : CoreCall) : list (list byte * Z * bool) :=
  match c with
  | StartBatch call' (SendMessage payload fl meta) =>
      if bool_decide (call' = call) then [(payload, fl, meta)] else []
  | _ => []
  end.

Definition sent (call : nat) (hist : list CoreCall) : list (list byte * Z * bool) :=
  hist ≫= sent_of call.

(** ** The stream of messages received *)

(** What the core delivered to the reads of a call, in order. *)
Definition received_of `{SC : SliceCore} (call : nat)
    (e : nat * nat * Start * Result Error (option (MessageReader SC))) :
    list (Result Error (option (MessageReader SC))) :=
  match e with
  | (_, c, RecvMessage, r) => if bool_decide (c = call) then [r] else []
  | _ => []
  end.

Definition received `{SC : SliceCore} (call : nat) (w : World SC) :
    list (Result Error (option (MessageReader SC))) :=
  completed w ≫= received_of call.

(** Poll a stream for each waker of a list until it ends or fails; [true] when it ended. *)
Fixpoint stream_run `{SC : SliceCore}
    (start_answer : list CoreCall -> gmap nat (BatchType * nat * Start) ->
                    nat -> Start -> grpc_call_error)
    (call : nat) (cxs : list Waker) (self : StreamingBase) (got : list (MessageReader SC)) :
    M (World SC) (list (MessageReader SC) * bool * option Error) :=
  match cxs with
  | [] => ret (got, false, None)
  | cx :: cxs =>
      let* (p, self) := StreamingBase_poll start_answer cx call false self in
      match p with
      | Ready (Some (Ok m)) => stream_run start_answer call cxs self (got ++ [m])
      | Ready (Some (Err e)) => ret (got, false, Some e)
      | Ready None => ret (got, true, None)
      | Pending => stream_run start_answer call cxs self got
      end
  end.

Section stream_lemmas.
Context `{SC : SliceCore} start_answer `{CC : !CallCore start_answer}.
Implicit Types w : World SC.

(** The future of a read: still in the core, or resolved with the last result. *)
Definition read_state (call : nat) (f : BatchFuture)
    (got : list (Result Error (option (MessageReader SC)))) w : Prop :=
  exists g, handles w !! f = Some g /\ stale g = false /\
    (result g = None /\ received call w = got /\
     (inflight w !! f = None \/ inflight w !! f = Some (Read, call, RecvMessage)) \/
     exists m, result g = Some (Ok m) /\ received call w = got ++ [Ok m]).

Definition received_is (call : nat) (got : list (Result Error (option (MessageReader SC)))) w :=
  received call w = got.

(** An event adds to what a call received only by completing a read of it. *)
Lemma received_event call e w :
  received call (event e w) = received call w \/
  exists tag ty g r, inflight w !! tag = Some (ty, call, RecvMessage) /\
    handles w !! tag = Some g /\
    handles (event e w) = <[tag:=mkNotifyHandle (Some r) None (stale g)]> (handles w) /\
    received call (event e w) = received call w ++ [r] /\
    exists ctx success, Batch_resolve ty ctx success = Done r.
Proof.
  unfold received.
  destruct (event_cases e w) as
    [(_ & _ & Hc & _)|(tag & ty & c & s & g & r & Hi & Hg & Hh & _ & Hc & _)].
  - left. by rewrite Hc.
  - pose proof (event_result e w tag ty c s r Hi Hc) as Hres. rewrite Hc, bind_app.
    destruct s; simpl; rewrite ?app_nil_r; auto. case_bool_decide as E; simpl; subst.
    + right. exists tag, ty, g, r. auto.
    + left. apply app_nil_r.
Qed.

#[export] Instance Stable_received_none call got :
  Stable (fun w => only_running call RECV_MESSAGE None w /\ received_is call got w).
Proof.
  split; [|done]. intros e w [Ho Hr]. split; [by apply stable_event|]. unfold received_is in *.
  destruct (received_event call e w) as [E|(tag & ty & g & r & Hi & _)]; [congruence|].
  exfalso. assert (None = Some tag) by (apply (Ho _ _ _ Hi); simpl; by left). done.
Qed.

#[export] Instance Stable_read_state call f got :
  Stable (fun w => only_running call RECV_MESSAGE (Some f) w /\ WInv w /\ read_state call f got w).
Proof.
  split; [|done]. intros e w (Ho & HW & g & Hg & Hs & Hcase). split; [by apply stable_event|].
  split; [by apply stable_event|].
  destruct (received_event call e w) as
    [E|(tag & ty & g' & r & Hi & Hg' & Hh & Er & ctx & success & Hb)].
  - (* a completion that is not a read of this call *)
    unfold read_state. rewrite E.
    destruct (event_cases e w) as
      [(Hh & _ & _ & _ & Hi)|(tag & ty & c & s & g' & r & Hi & Hg' & Hh & _ & Hc & _ & Hd)].
    + rewrite Hh. exists g. split; [done|]. split; [done|].
      destruct Hcase as [(Hr & Hrec & Hin)|?]; [|by right]. left. split; [done|]. split; [done|].
      destruct Hi as [-> | [t ->]]; [done|]. rewrite lookup_delete. case_decide; auto.
    + destruct (decide (tag = f)) as [->|Hne].
      * exfalso. destruct Hcase as [(Hr & Hrec & [Hin|Hin])|(m & Hr & Hrec)]; [congruence| |].
        -- rewrite Hi in Hin. injection Hin as -> -> ->. unfold received in E.
           rewrite Hc, bind_app in E. apply (f_equal length) in E. rewrite length_app in E.
           simpl in E. rewrite bool_decide_eq_true_2 in E by done. simpl in E. lia.
        -- destruct (HW f _ Hi) as (g'' & Hg'' & Hn & _). congruence.
      * rewrite Hh, list_lookup_insert_ne, Hd, lookup_delete_ne by done. eauto.
  - assert (tag = f) as ->.
    { assert (Some f = Some tag) by (apply (Ho _ _ _ Hi); simpl; by left). congruence. }
    destruct (HW f _ Hi) as (g'' & Hg'' & Hn & _).
    destruct Hcase as [(Hr & Hrec & Hin)|(m & Hr & Hrec)]; [|congruence].
    destruct Hin as [Hin|Hin]; [congruence|]. rewrite Hi in Hin. injection Hin as ->.
    exists (mkNotifyHandle (Some r) None (stale g')). rewrite Hh.
    rewrite list_lookup_insert_eq by (by eapply lookup_lt_Some). split; [done|].
    split; [simpl; congruence|]. right. simpl in Hb. unfold read_one_msg in Hb.
    assert (exists m, r = Ok m) as [m ->].
    { destruct success; [|simplify_eq; eauto]. destruct (recv_message ctx); simplify_eq/=; eauto. }
    exists m. by rewrite Er, Hrec.
Qed.

Definition oks (Y : list (MessageReader SC)) : list (Result Error (option (MessageReader SC))) :=
  (fun m => Ok (Some m)) <$> Y.

(** The invariant of a stream that has returned the messages [Y]. *)
Definition TInv (call : nat) (self : StreamingBase) (Y : list (MessageReader SC)) w : Prop :=
  WInv w /\ future_live (sb_close_f self) w /\
  (forall f, sb_close_f self = Some f -> sb_msg_f self <> Some f) /\
  if sb_read_done self
  then only_running call RECV_MESSAGE None w /\ received_is call (oks Y ++ [Ok None]) w
  else match sb_msg_f self with
       | None => only_running call RECV_MESSAGE None w /\ received_is call (oks Y) w
       | Some f => only_running call RECV_MESSAGE (Some f) w /\ WInv w /\
                   read_state call f (oks Y) w
       end.

#[export] Instance Stable_TInv call self Y : Stable (TInv call self Y).
Proof.
  unfold TInv. apply Stable_and; [apply _|]. apply Stable_and; [apply _|].
  apply Stable_and; [apply Stable_const|].
  destruct (sb_read_done self); [apply _|]. destruct (sb_msg_f self); apply _.
Qed.

Lemma read_state_live call f got w : read_state call f got w -> live f w.
Proof. intros (g & ? & ? & _). by exists g. Qed.

Lemma read_state_set_handle call f got w f' g :
  f' <> f -> read_state call f got w -> read_state call f got (set_handle f' g w).
Proof.
  intros Hne (g0 & Hg & H). exists g0. split; [|exact H]. simpl. by rewrite list_lookup_insert_ne.
Qed.

(** Polling the future of the end of the call leaves the messages alone. *)
Lemma poll_close_future_spec cx call self f Y w :
  TInv call self Y w -> sb_close_f self = Some f ->
  exists p w', poll_future cx f w = Done (p, w') /\
    match p with
    | Ready _ => TInv call (mkStreamingBase None (sb_msg_f self) (sb_read_done self)) Y w'
    | Pending => TInv call self Y w'
    end.
Proof.
  intros HT Ef. pose proof HT as (HW & Hl & _). rewrite Ef in Hl.
  destruct (poll_future_spec (TInv call self Y) cx f w) as
    (w1 & g & HT1 & HW1 & Hg & Hst & Hcase); [apply _|done..|].
  destruct HT1 as (_ & Hl1 & Hne & Hrest). rewrite Ef in Hl1.
  assert (forall g', (is_Some (inflight w1 !! f) -> result g' = None /\ stale g' = false) ->
    WInv (set_handle f g' w1) /\
    (if sb_read_done self
     then only_running call RECV_MESSAGE None (set_handle f g' w1) /\
          received_is call (oks Y ++ [Ok None]) (set_handle f g' w1)
     else match sb_msg_f self with
          | None => only_running call RECV_MESSAGE None (set_handle f g' w1) /\
                    received_is call (oks Y) (set_handle f g' w1)
          | Some f0 => only_running call RECV_MESSAGE (Some f0) (set_handle f g' w1) /\
                       WInv (set_handle f g' w1) /\ read_state call f0 (oks Y) (set_handle f g' w1)
          end)) as Hset.
  { intros g' Hg'. assert (WInv (set_handle f g' w1)) as HW' by (by apply set_handle_WInv).
    split; [done|]. destruct (sb_read_done self); [exact Hrest|].
    destruct (sb_msg_f self) as [f0|] eqn:Em; [|exact Hrest].
    destruct Hrest as (? & _ & ?). split; [done|]. split; [done|]. apply read_state_set_handle; [|done].
    intros ->. by apply (Hne f0). }
  destruct Hcase as [(res & Hr & Hni & ->)|(Hr & wk & ->)].
  - eexists _, _. split; [reflexivity|].
    destruct (Hset (mkNotifyHandle None (nh_waker g) true)) as [HW2 Hr2].
    { rewrite Hni. by intros [? ?]. }
    split; [exact HW2|]. split; [done|]. split; [done|]. exact Hr2.
  - eexists _, _. split; [reflexivity|].
    destruct (Hset (mkNotifyHandle None wk false)) as [HW2 Hr2]; [done|].
    split; [exact HW2|]. rewrite Ef. split; [by apply set_handle_live|]. split; [|exact Hr2].
    by rewrite <-Ef.
Qed.

(** [Y] is what the core delivered, up to at most one completed read. *)
Definition behind (call : nat) (Y : list (MessageReader SC)) w : Prop :=
  exists last, received call w = oks Y ++ last /\ length last <= 1.

Lemma TInv_behind call self Y w : TInv call self Y w -> behind call Y w.
Proof.
  intros (_ & _ & _ & HT). unfold behind. destruct (sb_read_done self); [destruct HT as [_ ->]; by eexists|].
  destruct (sb_msg_f self) as [f|].
  - destruct HT as (_ & _ & g & _ & _ & [(_ & -> & _)|(m & _ & ->)]); [|by eexists].
    exists []. split; [by rewrite app_nil_r | simpl; lia].
  - destruct HT as [_ ->]. exists []. split; [by rewrite app_nil_r | simpl; lia].
Qed.

Lemma poll_close_f_spec cx call skip self Y w :
  TInv call self Y w ->
  exists e self' w', poll_close_f cx skip self w = Done ((e, self'), w') /\
    match e with None => TInv call self' Y w' | Some _ => behind call Y w' end.
Proof.
  intros HT. unfold poll_close_f. destruct skip; [by eexists _, _, _|].
  destruct (sb_close_f self) as [f|] eqn:Ef; [|by eexists _, _, _].
  destruct (poll_close_future_spec cx call self f Y w HT Ef) as (p & w' & E & Hp).
  unfold bind. rewrite E. destruct p as [[v|e]|]; eexists _, _, _; (split; [reflexivity|]); [done| |done].
  by eapply TInv_behind.
Qed.

(** Reading messages does not touch the end of the call, and ends only after it. *)
Lemma poll_msgs_close fuel cx call self w p b w' :
  poll_msgs start_answer fuel cx call self w = Done ((p, b), w') ->
  sb_close_f b = sb_close_f self /\ (p = Ready None -> sb_close_f self = None).
Proof.
  revert self w. induction fuel as [|fuel IH]; intros self w E; [done|]. cbn [poll_msgs] in E.
  assert (forall bytes w0, (let* r := start_recv_message start_answer call in
     match r with
     | Ok msg_f =>
         match bytes with
         | Some b0 => ret (Ready (Some (Ok b0)), mkStreamingBase (sb_close_f self) (Some msg_f) (sb_read_done self))
         | None => poll_msgs start_answer fuel cx call
                     (mkStreamingBase (sb_close_f self) (Some msg_f) (sb_read_done self))
         end
     | Err e => ret (Ready (Some (Err e)), mkStreamingBase (sb_close_f self) None (sb_read_done self))
     end) w0 = Done ((p, b), w') ->
    sb_close_f b = sb_close_f self /\ (p = Ready None -> sb_close_f self = None)) as Hstart.
  { intros bytes w0 E0. unfold bind in E0.
    destruct (start_recv_message start_answer call w0) as [[r w1]|]; [|done].
    destruct r as [f|e]; [|by injection E0 as <- <- <-].
    destruct bytes as [m|]; [by injection E0 as <- <- <-|]. by apply IH in E0. }
  destruct (sb_read_done self) eqn:Hrd.
  - injection E as <- <- <-. split; [done|]. by destruct (sb_close_f self).
  - destruct (sb_msg_f self) as [f|]; [|by apply (Hstart None) in E].
    unfold bind at 1 in E. destruct (poll_future cx f w) as [[q w1]|]; [|done].
    destruct q as [[[m|]|e]|]; [by apply (Hstart (Some m)) in E| | |];
      injection E as <- <- <-; split; try done. by destruct (sb_close_f self).
Qed.

(** What a poll of the stream may answer, and what it then has returned; when the queue is
    shut down, a message that was read is not returned. *)
Definition stream_post call (p : StreamPoll) (self : StreamingBase) Y w : Prop :=
  match p with
  | Ready (Some (Ok m)) => TInv call self (Y ++ [m]) w
  | Ready (Some (Err e)) => e = QueueShutdown /\ behind call Y w
  | Ready None => TInv call self Y w /\ sb_read_done self = true
  | Pending => TInv call self Y w
  end.

Lemma recv_allowed call w :
  only_running call RECV_MESSAGE None w -> batch_allowed (calls w) (inflight w) call RecvMessage.
Proof.
  intros Ho op Hop. simpl in Hop. apply list_elem_of_singleton in Hop as ->. simpl.
  by apply only_running_None.
Qed.

(** Starting the next read once the last one was taken. *)
Lemma start_recv_spec call close_f got w :
  WInv w -> future_live close_f w -> only_running call RECV_MESSAGE None w ->
  received_is call got w ->
  exists r w', start_recv_message start_answer call w = Done (r, w') /\
    match r with
    | Err e => e = QueueShutdown /\ received_is call got w'
    | Ok f => WInv w' /\ future_live close_f w' /\ close_f <> Some f /\
              only_running call RECV_MESSAGE (Some f) w' /\ read_state call f got w'
    end.
Proof.
  intros HW Hl Ho Hr.
  destruct (with_cq_ref_spec start_answer
    (fun w => future_live close_f w /\ only_running call RECV_MESSAGE None w /\ received_is call got w)
    Read call RecvMessage w) as (w1 & (Hl1 & Ho1 & Hr1) & HW1 & Hcase);
    [apply _ | by intros h w' ? | done | done | intros; apply recv_allowed; tauto |].
  unfold start_recv_message. destruct Hcase as [[E _]|E]; rewrite E; eexists _, _; (split; [reflexivity|]);
    [done|]. simpl. split; [by apply start_WInv|]. split.
  { destruct close_f; [|done]. apply start_live. by left. }
  split.
  { intros ->. destruct Hl1 as (g & Hg & _). apply lookup_lt_Some in Hg. lia. }
  split.
  - pose proof (start_only_running Read call RecvMessage w1 (unref (w_cq w1)) RECV_MESSAGE None) as H.
    rewrite decide_True in H by (simpl; by left). apply H; [done|by left].
  - exists NotifyHandle_new. split; [by apply list_lookup_middle|]. split; [done|]. left.
    split; [done|]. split; [exact Hr1|]. right. simpl. by rewrite lookup_insert_eq.
Qed.

(** A stream with a read outstanding. *)
Lemma poll_msgs_Some fuel cx call self f Y w :
  TInv call self Y w -> sb_read_done self = false -> sb_msg_f self = Some f ->
  exists p self' w', poll_msgs start_answer (S fuel) cx call self w = Done ((p, self'), w') /\
    stream_post call p self' Y w'.
Proof.
  intros HT Hrd Hf. cbn [poll_msgs]. rewrite Hrd, Hf.
  pose proof HT as (HW & Hl & Hne & Hrest). rewrite Hrd, Hf in Hrest.
  destruct Hrest as (_ & _ & Hrs). apply read_state_live in Hrs.
  destruct (poll_future_spec (TInv call self Y) cx f w) as
    (w1 & g & HT1 & HW1 & Hg & Hst & Hcase); [apply _|done..|].
  destruct HT1 as (_ & Hl1 & _ & Hrest). rewrite Hrd, Hf in Hrest.
  destruct Hrest as (Ho1 & _ & (g0 & Hg0 & _ & Hrs1)). rewrite Hg in Hg0. injection Hg0 as <-.
  unfold bind at 1. destruct Hcase as [(res & Hr & Hni & ->)|(Hr & wk & ->)].
  - destruct Hrs1 as [(Hr' & _)|(m & Hr' & Hrec)]; [congruence|].
    assert (res = Ok m) as -> by congruence.
    set (w2 := set_handle f (mkNotifyHandle None (nh_waker g) true) w1).
    assert (WInv w2) as HW2.
    { apply set_handle_WInv; [done|]. rewrite Hni. by intros [? ?]. }
    assert (only_running call RECV_MESSAGE None w2) as Ho2.
    { intros t ty s Ht Hop. specialize (Ho1 t ty s Ht Hop). simplify_eq. simpl in Ht. congruence. }
    assert (future_live (sb_close_f self) w2) as Hl2.
    { destruct (sb_close_f self) as [f'|] eqn:Ec; [|done]. apply set_handle_live; [done|].
      intros <-. by destruct (Hne f). }
    destruct m as [m|].
    + destruct (start_recv_spec call (sb_close_f self) (oks (Y ++ [m])) w2) as (r & w' & E & Hr2);
        [done | done | done | unfold received_is, oks; rewrite fmap_app; exact Hrec |].
      unfold bind. rewrite E. destruct r as [f'|e]; eexists _, _, _; (split; [reflexivity|]);
        [|destruct Hr2 as [-> Hr2]; split; [done|]; exists [Ok (Some m)]; split; [|done];
          unfold received_is, oks in Hr2; by rewrite fmap_app in Hr2].
      destruct Hr2 as (HW' & Hl' & Hne' & Ho' & Hrs').
      simpl. split; [done|]. split; [done|]. simpl. split; [|done].
      intros f0 E0. congruence.
    + assert (TInv call (mkStreamingBase (sb_close_f self) (sb_msg_f self) true) Y w2) as HT2.
      { split; [done|]. split; [done|]. split; [done|]. split; [exact Ho2|exact Hrec]. }
      eexists _, _, _. split; [rewrite <-?Hf; reflexivity|]. simpl.
      destruct (sb_close_f self); [exact HT2|]. split; [exact HT2|done].
  - eexists _, _, _. split; [reflexivity|]. simpl.
    split; [by apply set_handle_WInv|]. split.
    { destruct (sb_close_f self); [|done]. by apply set_handle_live. }
    split; [done|]. rewrite Hrd, Hf. split; [exact Ho1|]. split; [by apply set_handle_WInv|].
    destruct Hrs1 as [(_ & Hrec & Hin)|(m & Hr' & _)]; [|congruence].
    eexists. split; [apply list_lookup_insert_eq; by eapply lookup_lt_Some|]. split; [done|]. by left.
Qed.

Lemma poll_msgs_spec fuel cx call self Y w :
  TInv call self Y w ->
  exists p self' w', poll_msgs start_answer (S (S fuel)) cx call self w = Done ((p, self'), w') /\
    stream_post call p self' Y w'.
Proof.
  intros HT. destruct (sb_read_done self) eqn:Hrd.
  - cbn [poll_msgs]. rewrite Hrd. eexists _, self, w. split; [reflexivity|].
    destruct (sb_close_f self) eqn:E; done.
  - destruct (sb_msg_f self) as [f|] eqn:Hf; [by eapply poll_msgs_Some|].
    remember (S fuel) as fuel1. cbn [poll_msgs]. rewrite Hrd, Hf. subst fuel1.
    destruct HT as (HW & Hl & Hne & Hrest). rewrite Hrd, Hf in Hrest. destruct Hrest as [Ho Hr].
    destruct (start_recv_spec call (sb_close_f self) (oks Y) w) as (r & w1 & E & Hr1); [done..|].
    unfold bind at 1. rewrite E. destruct r as [f|e].
    2: { eexists _, _, _. split; [reflexivity|]. destruct Hr1 as [-> Hr1]. split; [done|]. exists [].
         split; [by rewrite app_nil_r | simpl; lia]. }
    destruct Hr1 as (HW1 & Hl1 & Hne1 & Ho1 & Hrs1).
    eapply poll_msgs_Some; [|done..]. split; [done|]. split; [done|]. simpl.
    split; [intros f0 E0; congruence | done].
Qed.

Lemma stream_poll_spec cx call skip self Y w :
  TInv call self Y w ->
  exists p self' w', StreamingBase_poll start_answer cx call skip self w = Done ((p, self'), w') /\
    match p with Ready (Some (Err _)) => behind call Y w' | _ => stream_post call p self' Y w' end.
Proof.
  intros HT. unfold StreamingBase_poll.
  destruct (poll_close_f_spec cx call skip self Y w HT) as (e & self1 & w1 & E & HT1).
  unfold bind. rewrite E. destruct e as [e|]; [by eexists _, _, _|].
  destruct (poll_msgs_spec 0 cx call self1 Y w1 HT1) as (p & self' & w' & E' & Hp).
  exists p, self', w'. split; [done|]. destruct p as [[[?|?]|]|]; [done|by destruct Hp|done..].
Qed.
End stream_lemmas.

(** ** An abstract sink

    What a sink promises, without futures, serialization and queues: which messages it
    hands to the core, with which flags, when it accepts a message and when it is
    flushed.  [a_buf] is the message held back in the enhanced mode. *)

Record ASink := mkASink {
  a_meta : bool;
  a_enhance : bool;
  a_buf : option (list byte * WriteFlags);
  a_hint : bool;
}.

(** The message held back, as it is sent with a given hint. *)
Definition held (s : ASink) (hint : bool) : list (list byte * Z * bool) :=
  match a_buf s with
  | Some (p, f) => [(p, flags (buffer_hint f hint), false)]
  | None => []
  end.

Definition a_send (s : ASink) (payload : list byte) (wflags : WriteFlags) :
    ASink * list (list byte * Z * bool) :=
  if a_meta s then
    (mkASink false (a_enhance s) None (a_hint s), [(payload, flags (buffer_hint wflags false), true)])
  else
    let out := held s true in
    let hint := a_hint s && get_buffer_hint wflags in
    if a_enhance s then (mkASink false true (Some (payload, wflags)) hint, out)
    else (mkASink false false None hint,
          out ++ [(payload, flags (buffer_hint wflags (get_buffer_hint wflags)), false)]).

Definition a_flush (s : ASink) : ASink * list (list byte * Z * bool) :=
  (mkASink (a_meta s) (a_enhance s) None (a_hint s), held s (a_hint s)).

Definition a_reset_hint (s : ASink) : ASink := mkASink (a_meta s) (a_enhance s) (a_buf s) true.

(** A message is held back only in the enhanced mode and after the metadata. *)
Definition a_ok (s : ASink) : Prop :=
  is_Some (a_buf s) -> a_enhance s = true /\ a_meta s = false.

(** A serializer that writes an encoding, run on a buffer. *)
Lemma run_ser_at {SC : SliceCore} {T} (ser : T -> GrpcSlice -> outcome GrpcSlice) (bytes : list byte) t buf
    (w : World SC) :
  (exists s, ser t buf = Done s /\ GrpcSlice_as_slice s = bytes /\ slice_wf s) ->
  exists s, run_ser ser t buf w = Done (s, w) /\ GrpcSlice_as_slice s = bytes /\ slice_wf s.
Proof. intros (s & E & Hs & Hw). exists s. unfold run_ser. by rewrite E. Qed.

Section sink_lemmas.
Context `{SC : SliceCore} `{SL : !SliceCoreLaws SC}.
Context start_answer `{CC : !CallCore start_answer}.
Context {T : Type} (encode : T -> list byte) (ser : T -> GrpcSlice -> outcome GrpcSlice).
(** The codec writes the encoding of the message into the slice. *)
Context (Hser : forall t buf, slice_wf buf ->
  exists s, ser t buf = Done s /\ GrpcSlice_as_slice s = encode t /\ slice_wf s).
Implicit Types w : World SC.

(** The sink's invariant: the only batch that may be sending a message is [batch_f], and
    the metadata has not been sent when the sink still has to. *)
Definition SInv (call : nat) (self : SinkBase) w : Prop :=
  slice_wf (si_buffer self) /\ WInv w /\
  only_running call SEND_MESSAGE (si_batch_f self) w /\ future_live (si_batch_f self) w /\
  (si_send_metadata self = true ->
   existsb (started call SEND_INITIAL_METADATA) (calls w) = false).

#[export] Instance Stable_SInv call self : Stable (SInv call self).
Proof.
  unfold SInv. apply Stable_and; [apply Stable_const|]. apply Stable_and; [apply _|].
  apply Stable_and; [apply _|]. apply Stable_and; [apply _|]. apply Stable_impl.
  apply (Stable_calls (fun l => existsb _ l = false)).
Qed.

Lemma sent_app call l1 l2 : sent call (l1 ++ l2) = sent call l1 ++ sent call l2.
Proof. unfold sent. apply bind_app. Qed.

Lemma send_allowed call self w payload fl :
  SInv call self w -> si_batch_f self = None ->
  batch_allowed (calls w) (inflight w) call (SendMessage payload fl (si_send_metadata self)).
Proof.
  intros (_ & _ & Ho & _ & Hm) Hb op Hop. rewrite Hb in Ho.
  apply only_running_None in Ho. simpl in Hop.
  apply elem_of_cons in Hop as [->|Hop]; [exact Ho|].
  destruct (si_send_metadata self); [|by apply not_elem_of_nil in Hop].
  apply list_elem_of_singleton in Hop as ->. by apply Hm.
Qed.

(** Sending the buffered message: the queue is shut down, or exactly that message is
    handed to the core. *)
Lemma send_buffer_spec call hint self fl w S0 :
  SInv call self w -> si_batch_f self = None -> si_buf_flags self = Some fl ->
  sent call (calls w) = S0 ->
  exists w',
    (start_send_buffer_message start_answer call hint self w = Done ((Err QueueShutdown, self), w') /\
     SInv call self w' /\ sent call (calls w') = S0) \/
    (exists f, let self' := mkSinkBase (Some f) (si_send_metadata self)
         (si_enhance_buffer_strategy self)
         (if GrpcSlice_is_inline (si_buffer self) then si_buffer self else GrpcSlice_default)
         None (si_last_buf_hint self) in
     start_send_buffer_message start_answer call hint self w = Done ((Ok tt, self'), w') /\
     SInv call (mkSinkBase (Some f) false (si_enhance_buffer_strategy self')
                  (si_buffer self') None (si_last_buf_hint self')) w' /\
     sent call (calls w') = S0 ++ [(GrpcSlice_as_slice (si_buffer self),
                                    flags (buffer_hint fl hint), si_send_metadata self)]).
Proof.
  intros HI Hb Hf HS.
  destruct (with_cq_ref_spec start_answer (fun w => SInv call self w /\ sent call (calls w) = S0)
    Finish call (SendMessage (GrpcSlice_as_slice (si_buffer self)) (flags (buffer_hint fl hint))
                   (si_send_metadata self)) w) as (w1 & (HI1 & HS1) & HW1 & Hcase).
  - apply Stable_and; [apply _|]. apply (Stable_calls (fun l => sent call l = S0)).
  - by intros h w' [? ?].
  - apply HI.
  - done.
  - intros w' [HI' _] _. by apply send_allowed.
  - unfold start_send_buffer_message, rassert, unwrap, start_send_message.
    rewrite bool_decide_eq_true_2, Hf by done. cbn [bind ret]. unfold bind, ret at 1 2.
    destruct Hcase as [[E _]|E]; rewrite E.
    + exists w1. left. done.
    + eexists. right. exists (length (handles w1)). split; [done|].
      destruct HI1 as (Hwf & HW & Ho & Hl & Hm). split.
      * split; simpl; [destruct (GrpcSlice_is_inline _); [done|apply empty_slice_wf]|].
        split; [by apply start_WInv|]. split; [|split; [apply start_live; by right|done]].
        pose proof (start_only_running Finish call
          (SendMessage (GrpcSlice_as_slice (si_buffer self)) (flags (buffer_hint fl hint))
             (si_send_metadata self)) w1 (unref (w_cq w1)) SEND_MESSAGE None) as Hor.
        rewrite decide_True in Hor by (simpl; set_solver). apply Hor; [|by left].
        by rewrite <-Hb.
      * simpl. rewrite sent_app, HS1. f_equal. unfold sent. simpl.
        by rewrite bool_decide_eq_true_2.
Qed.

(** The abstract state of a sink. *)
Definition abs (self : SinkBase) : ASink :=
  mkASink (si_send_metadata self) (si_enhance_buffer_strategy self)
    ((fun f => (GrpcSlice_as_slice (si_buffer self), f)) <$> si_buf_flags self)
    (si_last_buf_hint self).

Lemma poll_ready_spec cx call self w S0 :
  SInv call self w -> sent call (calls w) = S0 ->
  exists p self' w', SinkBase_poll_ready cx self w = Done ((p, self'), w') /\
    sent call (calls w') = S0 /\ abs self' = abs self /\
    match p with
    | Ready (Ok _) => SInv call self' w' /\ si_batch_f self' = None
    | Pending => SInv call self' w'
    | Ready (Err _) => True
    end.
Proof.
  intros HI HS. unfold SinkBase_poll_ready. destruct (si_batch_f self) as [f|] eqn:Ef.
  - pose proof HI as (Hwf & HW & Ho & Hl & Hm). rewrite Ef in Ho, Hl.
    destruct (poll_future_spec (fun w => SInv call self w /\ sent call (calls w) = S0) cx f w) as
      (w1 & g & (HI1 & HS1) & HW1 & Hg & Hst & Hcase);
      [apply Stable_and; [apply _|apply (Stable_calls (fun l => sent call l = S0))] | done..|].
    pose proof HI1 as (Hwf1 & _ & Ho1 & Hl1 & Hm1). rewrite Ef in Ho1, Hl1. unfold bind.
    destruct Hcase as [(res & Hr & Hni & ->)|(Hr & wk & ->)].
    + destruct res as [v|e]; eexists _, _, _; (split; [reflexivity|]); (split; [exact HS1|]);
        (split; [done|]); [|done].
      split; [|done]. split; [done|]. split; [apply set_handle_WInv; [done|]|].
      { rewrite Hni. by intros [? ?]. }
      split; [|done]. intros t ty s Ht Hop. specialize (Ho1 t ty s Ht Hop). simplify_eq.
      simpl in Ht. congruence.
    + eexists _, _, _. split; [reflexivity|]. split; [exact HS1|]. split; [done|].
      split; [done|]. split; [by apply set_handle_WInv|]. rewrite Ef. split; [done|].
      split; [by apply set_handle_live|done].
  - exists (Ready (Ok tt)), self, w. done.
Qed.

Lemma run_ser_ok t buf w : slice_wf buf ->
  exists s, run_ser ser t buf w = Done (s, w) /\ GrpcSlice_as_slice s = encode t /\ slice_wf s.
Proof. intros Hb. by apply run_ser_at, Hser. Qed.

(** Replacing the buffer of a sink keeps its invariant. *)
Lemma SInv_set_buffer call self w b f h :
  SInv call self w -> slice_wf b -> SInv call (set_buffer b f h self) w.
Proof. by intros (_ & H) Hb. Qed.

Lemma start_send_rest_spec call t fl self w S0 :
  SInv call self w -> sent call (calls w) = S0 ->
  si_buf_flags self = None -> si_send_metadata self = false ->
  (si_enhance_buffer_strategy self = false -> si_batch_f self = None) ->
  exists r self' w' X,
    start_send_rest start_answer call t fl ser self w = Done ((r, self'), w') /\
    sent call (calls w') = S0 ++ X /\
    match r with
    | Ok _ => SInv call self' w' /\ (abs self', X) = a_send (abs self) (encode t) fl
    | Err _ => X = []
    end.
Proof.
  intros HI HS Hbuf Hmeta Hb. unfold start_send_rest.
  destruct (run_ser_ok t (si_buffer self) w) as (b & E & Hbs & Hbw); [apply HI|].
  unfold bind at 1. rewrite E.
  set (self1 := set_buffer b (Some fl) (si_last_buf_hint self && get_buffer_hint fl) self).
  assert (SInv call self1 w) as HI1 by (by apply SInv_set_buffer).
  change (si_enhance_buffer_strategy self1) with (si_enhance_buffer_strategy self).
  destruct (si_enhance_buffer_strategy self) eqn:Een; cbn [negb].
  - exists (Ok tt), self1, w, []. rewrite app_nil_r. split; [done|]. split; [done|]. split; [done|].
    unfold a_send, abs, self1, set_buffer. simpl. by rewrite Hmeta, Een, Hbs, Hbuf.
  - destruct (send_buffer_spec call (get_buffer_hint fl) self1 fl w S0) as
      (w' & [(-> & HI' & HS')|(f & -> & HI' & HS')]); [done|by apply Hb|done|done|..].
    + exists (Err QueueShutdown), self1, w', []. by rewrite app_nil_r.
    + eexists (Ok tt), _, w', _. split; [reflexivity|]. split; [exact HS'|].
      unfold self1 in *. simpl in *. rewrite Hmeta in *. split; [exact HI'|].
      unfold a_send, abs. simpl. by rewrite Hmeta, Een, Hbs, Hbuf.
Qed.

(** [start_send] implements the abstract send, unless it fails, in which case it has
    sent no more than the message that was held back. *)
Lemma start_send_spec call t fl self w S0 :
  SInv call self w -> a_ok (abs self) -> si_batch_f self = None -> sent call (calls w) = S0 ->
  exists r self' w' X,
    SinkBase_start_send start_answer call t fl ser self w = Done ((r, self'), w') /\
    sent call (calls w') = S0 ++ X /\
    match r with
    | Ok _ => SInv call self' w' /\ (abs self', X) = a_send (abs self) (encode t) fl
    | Err _ => X `prefix_of` held (abs self) true
    end.
Proof.
  intros HI Hok Hb HS. unfold SinkBase_start_send.
  destruct (si_send_metadata self) eqn:Hmeta; [|case_bool_decide as Hbuf].
  - destruct (run_ser_ok t (si_buffer self) w) as (b & E & Hbs & Hbw); [apply HI|].
    unfold bind at 1. rewrite E.
    set (self1 := set_buffer b (Some fl) (si_last_buf_hint self) self).
    destruct (send_buffer_spec call false self1 fl w S0) as
      (w' & [(E' & HI' & HS')|(f & E' & HI' & HS')]); [by apply SInv_set_buffer|done|done|done|..];
      unfold bind; rewrite E'.
    + eexists (Err _), _, w', []. split; [done|]. rewrite app_nil_r. split; [done|]. apply prefix_nil.
    + eexists (Ok tt), _, w', _. split; [reflexivity|]. split; [exact HS'|]. split; [exact HI'|].
      unfold a_send, abs. simpl. by rewrite Hmeta, Hbs.
  - destruct Hbuf as [f0 Hf0]. assert (si_enhance_buffer_strategy self = true) as Hen.
    { apply Hok. unfold abs. simpl. by rewrite Hf0. }
    destruct (send_buffer_spec call true self f0 w S0) as
      (w1 & [(E' & HI' & HS')|(f & E' & HI' & HS')]); [done|done|done|done|..];
      unfold bind at 1; rewrite E'.
    + eexists (Err _), _, w1, []. split; [done|]. rewrite app_nil_r. split; [done|]. apply prefix_nil.
    + rewrite Hmeta in *. simpl in HI'.
      destruct (start_send_rest_spec call t fl _ w1 _ HI' HS') as
        (r & self' & w' & X & E2 & HS2 & Hr); [done|done|simpl; congruence|].
      simpl in E2. rewrite E2. eexists r, self', w', _. split; [done|].
      rewrite <-app_assoc in HS2. split; [exact HS2|].
      unfold a_send, abs in *. simpl in *. rewrite Hmeta, Hen in *. simpl in *. rewrite Hf0. simpl.
      destruct r; [|by subst X].
      destruct Hr as [HI2 Ha]. split; [done|].
      injection Ha as E3 E4 E5 E6 ->. by rewrite E3, E4, E5, E6.
  - apply eq_None_not_Some in Hbuf.
    destruct (start_send_rest_spec call t fl self w S0) as (r & self' & w' & X & E2 & HS2 & Hr);
      [done..|]. exists r, self', w', X. split; [done|]. split; [done|].
    destruct r; [done|]. subst X. apply prefix_nil.
Qed.

(** [poll_flush]: nothing yet, or the abstract flush; the hint is reset when it is
    complete. *)
Lemma flush_buffer_spec cx call self w S0 :
  SInv call self w -> a_ok (abs self) -> si_batch_f self = None -> sent call (calls w) = S0 ->
  exists p self' w' X, flush_buffer start_answer cx call self w = Done ((p, self'), w') /\
    sent call (calls w') = S0 ++ X /\
    match p with
    | Ready (Ok _) => SInv call self' w' /\
        (abs self', X) = (a_reset_hint (a_flush (abs self)).1, (a_flush (abs self)).2)
    | Pending => SInv call self' w' /\ (abs self', X) = a_flush (abs self)
    | Ready (Err _) => X `prefix_of` held (abs self) (si_last_buf_hint self)
    end.
Proof.
  intros HI Hok Hb HS. unfold flush_buffer. case_bool_decide as Hbuf.
  - destruct Hbuf as [fl Hfl].
    destruct (send_buffer_spec call (si_last_buf_hint self) self fl w S0) as
      (w1 & [(E' & HI' & HS')|(f & E' & HI' & HS')]); [done..| |];
      unfold bind at 1; rewrite E'.
    + eexists (Ready (Err _)), _, w1, []. split; [done|]. rewrite app_nil_r. split; [done|].
      apply prefix_nil.
    + assert (si_send_metadata self = false) as Hmeta.
      { apply Hok. unfold abs. simpl. by rewrite Hfl. }
      rewrite Hmeta in *. simpl in HI'.
      destruct (poll_ready_spec cx call _ w1 _ HI' HS') as (p & self' & w' & E2 & HS2 & Ha & Hp).
      simpl in E2. unfold bind. rewrite E2.
      assert ((abs self', [(GrpcSlice_as_slice (si_buffer self),
        flags (buffer_hint fl (si_last_buf_hint self)), false)]) = a_flush (abs self)) as Hab.
      { unfold a_flush. rewrite Ha. unfold abs. simpl. by rewrite Hfl, Hmeta. }
      destruct p as [[[]|e]|]; eexists _, _, w', _; (split; [reflexivity|]); (split; [exact HS2|]).
      * rewrite <-Hab. destruct Hp as [HIp _]. split; [|done].
        apply SInv_set_buffer; [exact HIp | apply HIp].
      * apply (f_equal snd) in Hab. simpl in Hab. by rewrite <-Hab.
      * done.
  - apply eq_None_not_Some in Hbuf. eexists _, _, w, []. split; [reflexivity|]. rewrite app_nil_r.
    split; [done|]. split; [apply SInv_set_buffer; [exact HI | apply HI]|].
    unfold a_flush, abs, a_reset_hint. simpl. by rewrite Hbuf.
Qed.

(** An operation of the sink is one of these abstract steps. *)
Lemma sink_op_spec call op st w S0 :
  SInv call (sr_sink st) w -> a_ok (abs (sr_sink st)) -> sr_error st = None ->
  (sr_ready st = true -> si_batch_f (sr_sink st) = None) -> sent call (calls w) = S0 ->
  exists st' w' X, sink_op start_answer ser call op st w = Done (st', w') /\
    sent call (calls w') = S0 ++ X /\
    (sr_error st' = None -> SInv call (sr_sink st') w' /\
       (sr_ready st' = true -> si_batch_f (sr_sink st') = None)) /\
    ((* nothing sent, nothing accepted *)
     X = [] /\ sr_accepted st' = sr_accepted st /\
     (sr_error st' = None -> abs (sr_sink st') = abs (sr_sink st) \/
        (exists cx, op = OpFlush cx) /\ a_buf (abs (sr_sink st)) = None /\
        abs (sr_sink st') = a_reset_hint (abs (sr_sink st))) \/
     (* accepted a message *)
     (exists t fl, op = OpSend t fl /\ sr_error st' = None /\
        sr_accepted st' = sr_accepted st ++ [(t, fl)] /\
        (abs (sr_sink st'), X) = a_send (abs (sr_sink st)) (encode t) fl) \/
     (* flushed *)
     (exists cx, op = OpFlush cx /\ sr_error st' = None /\ sr_accepted st' = sr_accepted st /\
        X = (a_flush (abs (sr_sink st))).2 /\
        (abs (sr_sink st') = (a_flush (abs (sr_sink st))).1 \/
         abs (sr_sink st') = a_reset_hint (a_flush (abs (sr_sink st))).1)) \/
     (* failed *)
     (is_Some (sr_error st') /\ sr_accepted st' = sr_accepted st /\
      exists hint, X `prefix_of` held (abs (sr_sink st)) hint)).
Proof.
  intros HI Hok Herr Hrd HS. destruct op as [cx|t fl|cx]; unfold sink_op.
  - destruct (poll_ready_spec cx call _ w S0 HI HS) as (p & self' & w' & E & HS' & Ha & Hp).
    unfold bind. rewrite E. eexists _, w', []. split; [reflexivity|]. rewrite app_nil_r.
    split; [done|]. destruct p as [[[]|e]|]; simpl; (split; [by intuition|]); left; auto.
  - destruct (sr_ready st) eqn:Er.
    + destruct (start_send_spec call t fl _ w S0 HI Hok (Hrd eq_refl) HS) as
        (r & self' & w' & X & E & HS' & Hr).
      unfold bind. rewrite E. eexists _, w', X. split; [reflexivity|]. split; [done|].
      destruct r as [[]|e]; simpl.
      * destruct Hr as [HI' Ha]. split; [done|]. right. left. eauto 10.
      * split; [done|]. right. right. right. split; [by eexists|]. split; [done|]. eauto.
    + exists st, w, []. rewrite app_nil_r. split; [done|]. split; [done|].
      split; [by rewrite Er|]. left. auto.
  - unfold SinkBase_poll_flush. case_bool_decide as Hbf.
    + destruct (poll_ready_spec cx call _ w S0 HI HS) as (p & self' & w1 & E & HS1 & Ha & Hp).
      unfold bind. rewrite E. destruct p as [[[]|e]|].
      * destruct Hp as [HI1 Hb1]. rewrite <-Ha.
        destruct (flush_buffer_spec cx call self' w1 S0) as (p & self2 & w' & X & E2 & HS2 & Hp2);
          [done | by rewrite Ha | done | done |].
        rewrite E2. eexists _, w', X. split; [reflexivity|]. split; [done|].
        destruct p as [[[]|e]|]; cbn [sr_error sr_sink sr_ready sr_accepted].
        -- destruct Hp2 as [HI2 E3]. split; [done|]. right. right. left. exists cx.
          pose proof (f_equal fst E3) as Ea. pose proof (f_equal snd E3) as Ex.
          cbn [fst snd] in Ea, Ex. rewrite Ea, Ex. auto 10.
        -- split; [done|]. right. right. right. split; [by eexists|]. eauto 10.
        -- destruct Hp2 as [HI2 E3]. split; [done|]. right. right. left. exists cx.
          pose proof (f_equal fst E3) as Ea. pose proof (f_equal snd E3) as Ex.
          cbn [fst snd] in Ea, Ex. rewrite Ea, Ex. auto 10.
      * eexists _, w1, []. split; [reflexivity|]. rewrite app_nil_r. split; [done|]. simpl.
        split; [done|]. left. auto.
      * eexists _, w1, []. split; [reflexivity|]. rewrite app_nil_r. split; [done|]. simpl.
        split; [done|]. left. auto.
    + apply eq_None_not_Some in Hbf.
      destruct (flush_buffer_spec cx call _ w S0 HI Hok Hbf HS) as (p & self2 & w' & X & E2 & HS2 & Hp2).
      unfold bind. rewrite E2. eexists _, w', X. split; [reflexivity|]. split; [done|].
      destruct p as [[[]|e]|]; cbn [sr_error sr_sink sr_ready sr_accepted].
      * destruct Hp2 as [HI2 E3]. split; [done|]. right. right. left. exists cx.
          pose proof (f_equal fst E3) as Ea. pose proof (f_equal snd E3) as Ex.
          cbn [fst snd] in Ea, Ex. rewrite Ea, Ex. auto 10.
      * split; [done|]. right. right. right. split; [by eexists|]. eauto 10.
      * destruct Hp2 as [HI2 E3]. split; [done|]. right. right. left. exists cx.
          pose proof (f_equal fst E3) as Ea. pose proof (f_equal snd E3) as Ex.
          cbn [fst snd] in Ea, Ex. rewrite Ea, Ex. auto 10.
Qed.

(** *** The trace of the abstract sink *)

Definition payloads (X : list (list byte * Z * bool)) : list (list byte) := (fun x => x.1.1) <$> X.

Definition buffered (s : ASink) : list (list byte) := option_list (fst <$> a_buf s).

(** Only the first message sent carries the metadata, if any does. *)
Definition metas_ok (m0 : bool) (X : list (list byte * Z * bool)) : Prop :=
  match X with
  | [] => True
  | x :: X => x.2 = m0 /\ Forall (fun y => y.2 = false) X
  end.

Record AInv (m0 : bool) (X : list (list byte * Z * bool)) (s : ASink)
    (acc : list (T * WriteFlags)) : Prop := {
  ai_ok : a_ok s;
  ai_payloads : payloads X ++ buffered s = encode <$> acc.*1;
  ai_metas : metas_ok m0 X;
  ai_meta : if a_meta s then X = [] /\ m0 = true else m0 = true -> X <> [];
}.

Lemma payloads_held s hint : payloads (held s hint) = buffered s.
Proof. unfold held, buffered. by destruct (a_buf s) as [[p f]|]. Qed.

Lemma payloads_app X Y : payloads (X ++ Y) = payloads X ++ payloads Y.
Proof. apply fmap_app. Qed.

Lemma held_no_meta s hint : Forall (fun y => y.2 = false) (held s hint).
Proof. unfold held. destruct (a_buf s) as [[p f]|]; repeat constructor. Qed.

Lemma metas_ok_app m0 X Y :
  metas_ok m0 X -> Forall (fun y => y.2 = false) Y -> (X = [] -> m0 = false) -> metas_ok m0 (X ++ Y).
Proof.
  destruct X as [|x X]; simpl.
  - intros _ HY H. rewrite H by done. destruct HY; [done|]. by split.
  - intros [H1 H2] HY _. split; [done|]. by apply Forall_app.
Qed.

Lemma AInv_first m0 X s acc : AInv m0 X s acc -> a_meta s = false -> X = [] -> m0 = false.
Proof. intros [_ _ _ Hm] E ->. rewrite E in Hm. destruct m0; [|done]. by destruct Hm. Qed.

Lemma AInv_send m0 X s acc t fl s' Y :
  AInv m0 X s acc -> a_send s (encode t) fl = (s', Y) -> AInv m0 (X ++ Y) s' (acc ++ [(t, fl)]).
Proof.
  intros HA Hs. pose proof HA as [Hok Hp Hmo Hm]. unfold a_send in Hs.
  assert (encode <$> (acc ++ [(t, fl)]).*1 = (encode <$> acc.*1) ++ [encode t]) as Hacc
    by (by rewrite !fmap_app).
  destruct (a_meta s) eqn:Em.
  - destruct Hm as [-> ->]. injection Hs as <- <-. simpl in Hp.
    assert (buffered s = []) as Hb.
    { unfold buffered. destruct (a_buf s) eqn:E; [|done].
      destruct (Hok ltac:(by rewrite E)) as [_ ?]. congruence. }
    split; [by intros [? ?]| |by repeat constructor|done]. rewrite Hacc, <-Hp, Hb. done.
  - assert (X ++ Y <> [] \/ m0 = false) as Hne.
    { destruct m0; [left|by right]. intros [? _]%app_nil. by destruct Hm. }
    destruct (a_enhance s) eqn:Ee; injection Hs as <- <-.
    + split; [done| |apply metas_ok_app; eauto using held_no_meta, AInv_first|].
      * rewrite Hacc, payloads_app, payloads_held, <-Hp. done.
      * simpl. intros ->. by destruct Hne.
    + split; [by intros [? ?]| | |].
      * rewrite Hacc, !payloads_app, payloads_held, <-Hp. unfold buffered at 2. simpl.
        by rewrite app_nil_r, <-!app_assoc.
      * apply metas_ok_app; eauto using AInv_first. apply Forall_app.
        split; [apply held_no_meta | by repeat constructor].
      * simpl. intros ->. by destruct Hne.
Qed.

Lemma AInv_flush m0 X s acc : AInv m0 X s acc -> AInv m0 (X ++ (a_flush s).2) (a_flush s).1 acc.
Proof.
  intros HA. pose proof HA as [Hok Hp Hmo Hm]. simpl. split; simpl.
  - by intros [? ?].
  - rewrite payloads_app, payloads_held, <-Hp. unfold buffered at 2. simpl. by rewrite app_nil_r.
  - destruct (a_meta s) eqn:Em.
    + assert (held s (a_hint s) = []) as ->; [|by rewrite app_nil_r].
      unfold held. destruct (a_buf s) eqn:E; [|done].
      destruct (Hok ltac:(by rewrite E)) as [_ ?]. congruence.
    + apply metas_ok_app; eauto using held_no_meta, AInv_first.
  - destruct (a_meta s) eqn:Em.
    + destruct Hm as [-> ->]. split; [|done]. unfold held. destruct (a_buf s) eqn:E; [|done].
      destruct (Hok ltac:(by rewrite E)) as [_ ?]. congruence.
    + intros ? [? _]%app_nil. by destruct Hm.
Qed.

Lemma AInv_reset m0 X s acc : AInv m0 X s acc -> AInv m0 X (a_reset_hint s) acc.
Proof. by intros []. Qed.

(** What a failed operation may have sent is still a prefix of what was accepted. *)
Lemma AInv_fail m0 X s acc Y hint :
  AInv m0 X s acc -> Y `prefix_of` held s hint ->
  payloads (X ++ Y) `prefix_of` encode <$> acc.*1 /\ metas_ok m0 (X ++ Y).
Proof.
  intros HA [Z HZ]. pose proof HA as [Hok Hp Hmo Hm]. split.
  - exists (payloads Z). rewrite <-payloads_app, <-app_assoc, <-HZ, payloads_app, payloads_held.
    by rewrite Hp.
  - assert (Forall (fun y => y.2 = false) Y) as HY.
    { pose proof (held_no_meta s hint) as H. rewrite HZ in H. by apply Forall_app in H as [? _]. }
    destruct (a_meta s) eqn:Em; [|by eauto using metas_ok_app, AInv_first].
    assert (Y = []) as ->; [|by rewrite app_nil_r].
    unfold held in HZ. destruct (a_buf s) eqn:E.
    + destruct (Hok ltac:(by rewrite E)) as [_ ?]. congruence.
    + symmetry in HZ. by apply app_nil in HZ as [? _].
Qed.

(** The state of a run: the sink is fine and the trace accounts for every message, or the
    run has ended with an error. *)
Definition RunInv (m0 : bool) (call : nat) (S0 X : list (list byte * Z * bool))
    (st : SinkRun) w : Prop :=
  sent call (calls w) = S0 ++ X /\ metas_ok m0 X /\
  match sr_error st with
  | None => SInv call (sr_sink st) w /\ AInv m0 X (abs (sr_sink st)) (sr_accepted st) /\
            (sr_ready st = true -> si_batch_f (sr_sink st) = None)
  | Some _ => payloads X `prefix_of` encode <$> (sr_accepted st).*1
  end.

Lemma sink_op_RunInv m0 call op S0 X st w :
  RunInv m0 call S0 X st w -> sr_error st = None ->
  exists st' w' Y, sink_op start_answer ser call op st w = Done (st', w') /\
    RunInv m0 call S0 (X ++ Y) st' w'.
Proof.
  intros (HS & Hm & H) He. rewrite He in H. destruct H as (HI & HA & Hr).
  destruct (sink_op_spec call op st w _ HI (ai_ok _ _ _ _ HA) He Hr HS) as
    (st' & w' & Y & E & HS' & HI' & Hcase).
  exists st', w', Y. split; [done|]. split; [by rewrite HS', app_assoc|].
  destruct Hcase as [(-> & Ha & Hs)|[(t & fl & -> & Hn & Ha & Hs)|[(cx & -> & Hn & Ha & -> & Hs)|
    (Hn & Ha & hint & Hpre)]]].
  - rewrite app_nil_r. split; [done|]. destruct (sr_error st') eqn:En.
    + rewrite Ha. destruct (AInv_fail m0 X _ _ [] true HA) as [Hp _]; [apply prefix_nil|].
      by rewrite app_nil_r in Hp.
    + destruct HI' as [HI1 HI2]; [done|]. split; [done|]. split; [|done]. rewrite Ha.
      destruct (Hs eq_refl) as [-> | (_ & _ & ->)]; [done | by apply AInv_reset].
  - symmetry in Hs. pose proof (AInv_send _ _ _ _ _ _ _ _ HA Hs) as HA'. rewrite Hn, Ha.
    split; [apply HA'|]. destruct HI'; done.
  - pose proof (AInv_flush _ _ _ _ HA) as HA'. rewrite Hn, Ha. split; [apply HA'|].
    destruct HI' as [HI1 HI2]; [done|]. split; [done|]. split; [|done].
    destruct Hs as [-> | ->]; [done | by apply AInv_reset].
  - destruct (AInv_fail _ _ _ _ _ _ HA Hpre) as [Hp Hmo]. split; [done|].
    destruct Hn as [e ->]. by rewrite Ha.
Qed.

Lemma sink_run_RunInv m0 call ops S0 X st w :
  RunInv m0 call S0 X st w ->
  exists st' w' Y, sink_run start_answer ser call ops st w = Done (st', w') /\
    RunInv m0 call S0 (X ++ Y) st' w'.
Proof.
  revert X st w. induction ops as [|op ops IH]; intros X st w HR; simpl.
  - exists st, w, []. by rewrite app_nil_r.
  - destruct (sr_error st) as [e|] eqn:He.
    + exists st, w, []. by rewrite app_nil_r.
    + destruct (sink_op_RunInv m0 call op S0 X st w HR He) as (st1 & w1 & Y & E & HR1).
      unfold bind. rewrite E. destruct (IH _ _ _ HR1) as (st' & w' & Y' & E' & HR').
      exists st', w', (Y ++ Y'). by rewrite app_assoc.
Qed.
End sink_lemmas.

(** ** A round of the enhanced mode *)

Section round.
Context `{SC : SliceCore} `{SL : !SliceCoreLaws SC}.
Context start_answer `{CC : !CallCore start_answer}.
Context {T : Type} (encode : T -> list byte) (ser : T -> GrpcSlice -> outcome GrpcSlice).
Context (Hser : forall t buf, slice_wf buf ->
  exists s, ser t buf = Done s /\ GrpcSlice_as_slice s = encode t /\ slice_wf s).
Implicit Types w : World SC.

(** All messages but the last with the hint set, the last with [hint]. *)
Fixpoint round_out (hint : bool) (ms : list (T * WriteFlags)) : list (list byte * Z * bool) :=
  match ms with
  | [] => []
  | [m] => [(encode m.1, flags (buffer_hint m.2 hint), false)]
  | m :: ms => (encode m.1, flags (buffer_hint m.2 true), false) :: round_out hint ms
  end.

Lemma round_out_snoc hint ms m :
  round_out hint (ms ++ [m]) =
  round_out true ms ++ [(encode m.1, flags (buffer_hint m.2 hint), false)].
Proof.
  induction ms as [|m0 ms IH]; [done|]. simpl. rewrite IH.
  destruct ms as [|m1 ms]; done.
Qed.

(** A round has accepted [acc] and sent [X]. *)
Definition round_state (X : list (list byte * Z * bool)) (s : ASink) (acc : list (T * WriteFlags)) :=
  a_enhance s = true /\ a_meta s = false /\ (forall hint, X ++ held s hint = round_out hint acc) /\
  a_hint s = forallb (fun m => get_buffer_hint m.2) acc.

Lemma round_state_send X s acc t fl s' Y :
  round_state X s acc -> (s', Y) = a_send s (encode t) fl ->
  round_state (X ++ Y) s' (acc ++ [(t, fl)]).
Proof.
  intros (He & Hm & HX & Hh) Hs. unfold a_send in Hs. rewrite Hm, He in Hs.
  injection Hs as -> ->. split; [done|]. split; [done|]. split.
  - intros hint. rewrite round_out_snoc, <-HX. done.
  - simpl. rewrite forallb_app, Hh. simpl. by rewrite andb_true_r.
Qed.

Definition is_flush (op : SinkOp (T:=T)) : bool := match op with OpFlush _ => true | _ => false end.

Lemma sink_run_round call ops S0 X st w st' w' :
  SInv call (sr_sink st) w -> a_ok (abs (sr_sink st)) -> sr_error st = None ->
  (sr_ready st = true -> si_batch_f (sr_sink st) = None) -> sent call (calls w) = S0 ++ X ->
  round_state X (abs (sr_sink st)) (sr_accepted st) ->
  forallb (fun op => negb (is_flush op)) ops = true ->
  sink_run start_answer ser call ops st w = Done (st', w') -> sr_error st' = None ->
  exists X', sent call (calls w') = S0 ++ X' /\ SInv call (sr_sink st') w' /\
    a_ok (abs (sr_sink st')) /\
    (sr_ready st' = true -> si_batch_f (sr_sink st') = None) /\
    round_state X' (abs (sr_sink st')) (sr_accepted st').
Proof.
  revert X st w. induction ops as [|op ops IH]; intros X st w HI Hok He Hrd HS HR Hnf Hrun He'.
  - injection Hrun as <- <-. eauto 10.
  - simpl in Hnf, Hrun. apply andb_true_iff in Hnf as [Hop Hnf]. rewrite He in Hrun.
    destruct (sink_op_spec start_answer encode ser Hser call op st w _ HI Hok He Hrd HS) as
      (st1 & w1 & Y & E & HS1 & HI1 & Hcase).
    unfold bind in Hrun. rewrite E in Hrun.
    assert (sr_error st1 = None) as He1.
    { destruct (sr_error st1) eqn:E1; [|done]. destruct ops; simpl in Hrun;
        [|rewrite E1 in Hrun]; injection Hrun as <- <-; congruence. }
    destruct (HI1 He1) as [HI2 Hrd2]. rewrite <-app_assoc in HS1.
    destruct Hcase as [(-> & Ha & Hs)|[(t & fl & -> & _ & Ha & Hs)|[(cx & -> & _)|([? Hn] & _)]]];
      [| |done|congruence].
    + destruct (Hs He1) as [Hab|[[cx ->] _]]; [|done].
      apply (IH (X ++ []) st1 w1); try done; [by rewrite Hab|]. by rewrite app_nil_r, Hab, Ha.
    + apply (IH (X ++ Y) st1 w1); try done.
      * unfold a_send in Hs. destruct HR as (Hen & Hm & _). rewrite Hm, Hen in Hs.
        apply (f_equal fst) in Hs. cbn [fst] in Hs. by rewrite Hs.
      * rewrite Ha. by eapply round_state_send.
Qed.
End round.

(** ** Calls made too late *)

Section late.
Context `{SC : SliceCore}.
Implicit Types w : World SC.

(** A borrowed queue: its native shutdown waits for the reference. *)
Definition borrowed (n : nat) w : Prop :=
  (2 <= ref_cnt (w_cq w) \/ ref_cnt (w_cq w) <= -1)%Z /\ native_shutdowns (w_cq w) = 0 /\ late w = n.

#[export] Instance Stable_borrowed n : Stable (borrowed n).
Proof.
  split; [|done]. intros [tag success ctx|] w Hb; simpl.
  - unfold resolve_tag. by repeat case_match.
  - destruct Hb as (Hr & Hn & Hl). unfold borrowed, shutdown. simpl.
    case_bool_decide; [by auto|]. rewrite bool_decide_eq_false_2 by lia. simpl. split; [lia|done].
Qed.

Definition cq_open (h : CompletionQueueHandle) : Prop := (0 < ref_cnt h)%Z -> native_shutdowns h = 0.

#[export] Instance Stable_cq_open n : Stable (fun w => cq_open (w_cq w) /\ late w = n).
Proof.
  split; [|done]. intros [tag success ctx|] w [Hc Hl]; simpl.
  - unfold resolve_tag. by repeat case_match.
  - split; [|done]. unfold cq_open, shutdown in *. case_bool_decide; simpl; [exact Hc|].
    case_bool_decide; simpl; lia.
Qed.

Lemma with_cq_ref_not_late start_answer bt call s w r w' :
  cq_open (w_cq w) -> with_cq_ref start_answer bt call s w = Done (r, w') -> late w' = late w.
Proof.
  intros Hc Hrun. unfold with_cq_ref, borrow, bind in Hrun.
  destruct (interfere_stable (fun w1 => cq_open (w_cq w1) /\ late w1 = late w) w) as
    (w1 & E & Hc1 & Hl1); [apply _|done|]. rewrite E in Hrun.
  destruct (add_ref (w_cq w1)) as [r1 h] eqn:Ea. unfold add_ref in Ea.
  case_bool_decide; injection Ea as <- <-; [by injection Hrun as <- <-|].
  unfold check_run, bind in Hrun.
  destruct (interfere_stable (borrowed (late w))
    (set_cq {| ref_cnt := ref_cnt (w_cq w1) + 1; native_shutdowns := native_shutdowns (w_cq w1) |} w1))
    as (w2 & E2 & _ & Hn2 & Hl2).
  { apply _. }
  { split; [simpl; lia|]. split; [simpl; apply Hc1; lia | done]. }
  rewrite E2 in Hrun. destruct (start_answer _ _ _ _); try done.
  injection Hrun as <- <-. simpl. rewrite Hl2. unfold lateness. rewrite Hn2, bool_decide_eq_false_2 by lia. lia.
Qed.
End late.
