(* ===== verification/CallSpec.v ===== *)
(** Properties of the call layer of [Call], with runs on concrete inputs: what a sink
    hands to the core, what a stream returns, how a status travels, and when the core is
    called. *)

From S2P Require Import Prelude Status Cq Buf Utf8 Metadata Task Call.

Local Open Scope rust_scope.

(** ** Concrete instances *)

Definition any_answer (hist : list CoreCall) (m : gmap nat (BatchType * nat * Start))
    (call : nat) (s : Start) : grpc_call_error := GRPC_CALL_OK.

#[export] Instance any_answer_core : CallCore (SC:=list_core) any_answer.
Proof. done. Qed.

Definition world0 (schedule : list (list (Event list_core))) : World list_core :=
  mkWorld [] ∅ CompletionQueueHandle_new [] 0 [] [] schedule.

Lemma world0_WInv schedule : WInv (world0 schedule).
Proof. intros t e Ht. simpl in Ht. by rewrite lookup_empty in Ht. Qed.

Lemma world0_idle schedule call op : ~ running call op (inflight (world0 schedule)).
Proof. intros (t & ty & s & Ht & _). simpl in Ht. by rewrite lookup_empty in Ht. Qed.

(** A codec of byte strings. *)
Definition raw_ser : list byte -> GrpcSlice -> outcome GrpcSlice := pb_ser length id.

Lemma raw_ser_ok t buf : slice_wf buf ->
  exists s, raw_ser t buf = Done s /\ GrpcSlice_as_slice s = id t /\ slice_wf s.
Proof.
  intros Hb. destruct (realloc_spec buf (length t) Hb) as [Hw Hl].
  destruct (slice_write_full (GrpcSlice_realloc buf (length t)) t) as (s & E & Hs & Hws & _);
    [done | by rewrite Hl |].
  exists s. unfold raw_ser, pb_ser, id in *. by rewrite E.
Qed.

(** A batch that ends well, and one that brings a message. *)
Definition ctx_ok : BatchContext list_core := mkBatchContext None 0 [] MetadataBuilder_new.
Definition ctx_msg (bs : list byte) : BatchContext list_core :=
  mkBatchContext (Some [inline_slice bs] : option grpc_byte_buffer) 0 [] MetadataBuilder_new.

(** A use of a sink on call 7: two messages and a flush, each send completed in time. *)
Definition demo_ops : list (SinkOp (T:=list byte)) :=
  [OpReady 1; OpSend [x01] (mkWriteFlags 1); OpReady 1; OpSend [x02] WriteFlags_default;
   OpReady 1; OpSend [x03] (mkWriteFlags 1); OpFlush 1].

Definition demo_sched : list (list (Event list_core)) :=
  [[]; []; [EvResolve 0 true ctx_ok]; []; []; [EvResolve 1 true ctx_ok]].

Definition fresh_run (meta enhance : bool) : SinkRun (T:=list byte) :=
  mkSinkRun (mkSinkBase None meta enhance GrpcSlice_default None true) false [] None.

Definition payload_x : list (list byte) := [[x01]; [x02]; [x03]].

Section call_properties.
Context `{SC : SliceCore} `{SL : !SliceCoreLaws SC}.
Context start_answer `{CC : !CallCore start_answer}.
Context {T : Type} (encode : T -> list byte) (ser : T -> GrpcSlice -> outcome GrpcSlice).

(** C10: however the sends complete and the queue is shut down meanwhile, a sink used as
    its contract asks (a message only after [poll_ready] was ready, until an error) never
    panics and starts no batch the core would refuse; the messages it hands to the core
    are the accepted ones, each once and in order, with at most the last one held back;
    and the initial metadata goes with the first message exactly when the sink has to
    send it. *)
Theorem sink_sends_in_order (call : nat) (meta enhance : bool) (ops : list (SinkOp (T:=T)))
    (w : World SC) :
  (forall t buf, slice_wf buf ->
     exists s, ser t buf = Done s /\ GrpcSlice_as_slice s = encode t /\ slice_wf s) ->
  WInv w -> ~ running call SEND_MESSAGE (inflight w) ->
  existsb (started call SEND_INITIAL_METADATA) (calls w) = false ->
  exists st w' X,
    sink_run start_answer ser call ops
      (mkSinkRun (mkSinkBase None meta enhance GrpcSlice_default None true) false [] None) w
      = Done (st, w') /\
    sent call (calls w') = sent call (calls w) ++ X /\ metas_ok meta X /\
    payloads X `prefix_of` encode <$> (sr_accepted st).*1 /\
    (sr_error st = None ->
     payloads X ++ buffered (abs (sr_sink st)) = encode <$> (sr_accepted st).*1).
Proof.
  intros Hser HW Hr Hm.
  set (st0 := mkSinkRun _ _ _ _).
  assert (RunInv encode meta call (sent call (calls w)) [] st0 w) as HR.
  { split; [by rewrite app_nil_r|]. split; [done|]. split.
    - split; [apply empty_slice_wf|]. split; [done|]. split; [by apply only_running_None|]. done.
    - split; [|done]. split; simpl; [by intros [? ?]|done|done|by destruct meta]. }
  destruct (sink_run_RunInv start_answer encode ser Hser meta call ops _ [] st0 w HR) as
    (st & w' & X & E & HS & Hmo & Hst).
  exists st, w', X. split; [done|]. split; [done|]. split; [done|].
  destruct (sr_error st); [by split|]. destruct Hst as (_ & HA & _). split.
  - destruct HA as [_ Hp _ _]. rewrite <-Hp. by eexists.
  - intros _. apply HA.
Qed.

(** In the enhanced mode, the messages accepted since the sink was last flushed go
    out with the buffer hint set, except that the last one, sent by the flush, has it
    cleared when any of them was offered without the hint. *)
Theorem sink_enhanced_round (call : nat) (ops : list (SinkOp (T:=T))) (cx : Waker)
    (self : SinkBase) (w : World SC) st w' :
  (forall t buf, slice_wf buf ->
     exists s, ser t buf = Done s /\ GrpcSlice_as_slice s = encode t /\ slice_wf s) ->
  SInv call self w -> si_send_metadata self = false -> si_enhance_buffer_strategy self = true ->
  si_buf_flags self = None -> si_last_buf_hint self = true ->
  forallb (fun op => negb (is_flush op)) ops = true ->
  (let* st := sink_run start_answer ser call ops (mkSinkRun self false [] None) in
   sink_run start_answer ser call [OpFlush cx] st) w = Done (st, w') ->
  sr_error st = None -> si_buf_flags (sr_sink st) = None ->
  sent call (calls w') = sent call (calls w) ++
    round_out encode (forallb (fun m => get_buffer_hint m.2) (sr_accepted st)) (sr_accepted st).
Proof.
  intros Hser HI Hm He Hb Hh Hnf Hrun Herr Hbuf. unfold bind in Hrun.
  destruct (sink_run start_answer ser call ops _ w) as [[st1 w1]|] eqn:E; [|done].
  assert (sr_error st1 = None) as Herr1.
  { simpl in Hrun. destruct (sr_error st1) eqn:E1; [|done]. injection Hrun as <- <-. congruence. }
  assert (round_state encode [] (abs self) []) as HR0.
  { unfold round_state, abs, held. simpl. rewrite Hb. simpl. by rewrite Hh. }
  destruct (sink_run_round start_answer encode ser Hser call ops (sent call (calls w)) []
    (mkSinkRun self false [] None) w st1 w1) as (X & HS1 & HI1 & Hok1 & Hrd1 & HR1);
    [done | unfold a_ok, abs; simpl; rewrite Hb; by intros [? ?] | done | done
    | by rewrite app_nil_r | done | done | done | done |].
  destruct (sink_op_spec start_answer encode ser Hser call (OpFlush cx) st1 w1 _ HI1 Hok1 Herr1
    Hrd1 HS1) as (st2 & w2 & Y & E2 & HS2 & HI2 & Hcase).
  cbn [sink_run] in Hrun. rewrite Herr1 in Hrun. unfold bind at 1 in Hrun. rewrite E2 in Hrun.
  injection Hrun as <- <-.
  destruct HR1 as (_ & _ & HX & Hhint).
  destruct Hcase as [(-> & Ha & Hs)|[(t & fl & ? & _)|[(cx' & _ & _ & Ha & -> & _)|([? ?] & _)]]];
    [|done| |congruence].
  - rewrite HS2, Ha, app_nil_r. f_equal. rewrite <-HX. unfold held.
    assert (a_buf (abs (sr_sink st1)) = None) as ->; [|by rewrite app_nil_r].
    destruct (Hs Herr) as [Hab|(_ & ? & _)]; [|done]. rewrite <-Hab. unfold abs. simpl.
    by rewrite Hbuf.
  - rewrite HS2, Ha, <-app_assoc. f_equal. rewrite <-HX, <-Hhint. done.
Qed.

(** C11: however the reads complete, a stream that is polled until it ends or fails never
    panics and returns the messages the core delivered, each once and in order: what it has
    not returned is at most one completed read, also when it fails, and when it ends this is
    the end of the messages. *)
Theorem stream_returns_in_order (call : nat) (close_f : option BatchFuture) (cxs : list Waker)
    (w : World SC) :
  WInv w -> future_live close_f w -> ~ running call RECV_MESSAGE (inflight w) ->
  received call w = [] ->
  exists got ended err last w',
    stream_run start_answer call cxs (StreamingBase_new close_f) [] w = Done ((got, ended, err), w') /\
    received call w' = oks got ++ last /\ length last <= 1 /\
    (ended = true -> last = [Ok None]).
Proof.
  intros HW Hl Hr Hrec.
  assert (TInv call (StreamingBase_new close_f) [] w) as HT.
  { split; [done|]. split; [done|]. split; [done|]. simpl. split; [by apply only_running_None|done]. }
  revert HT. generalize (StreamingBase_new close_f) ([] : list (MessageReader SC)).
  clear HW Hl Hr Hrec. revert w. induction cxs as [|cx cxs IH]; intros w self Y HT; cbn [stream_run].
  - destruct (TInv_behind _ _ _ _ HT) as (last & Hr & Hl). by exists Y, false, None, last, w.
  - destruct (stream_poll_spec start_answer cx call false self Y w HT) as (p & self' & w' & E & Hp).
    unfold bind. rewrite E. destruct p as [[[m|e]|]|].
    + by apply IH.
    + destruct Hp as (last & Hr & Hl). by exists Y, false, (Some e), last, w'.
    + destruct Hp as [HT' Hd]. exists Y, true, None, [Ok None], w'. split; [done|].
      destruct HT' as (_ & _ & _ & HT'). rewrite Hd in HT'. by destruct HT' as [_ Hr'].
    + by apply IH.
Qed.

(** What the client makes of a status the server sent. *)
Lemma rpc_status_of_start (status : RpcStatus) (send_empty : bool) (payload : option GrpcSlice)
    (wflags : Z) (others : list (string * list byte)) (ctx : BatchContext SC) code text trailing :
  utf8_valid (as_bytes (status_message status)) = true ->
  Forall (fun kv => kv.1 <> BINARY_ERROR_DETAILS_KEY) others ->
  status_start status send_empty payload wflags =
    SendStatusFromServer code text trailing send_empty (GrpcSlice_as_slice <$> payload) wflags ->
  bc_status ctx = code -> bc_status_details ctx = text ->
  md_entries (bc_trailing_metadata ctx) = others ++ from_option md_entries [] trailing ->
  rpc_status ctx = if bool_decide (status_code status = CODE_OK) then RpcStatus_ok else status.
Proof.
  intros Hu Ho Hs <- <- Hm. unfold status_start in Hs. injection Hs as E1 E2 E3.
  unfold rpc_status. rewrite <-E1. destruct status as [[c] msg det]. simpl in *.
  unfold RpcStatusCode_into_i32. simpl.
  case_bool_decide; [done|]. rewrite <-E2, from_utf8_lossy_valid by done.
  rewrite search_details_spec, Hm. unfold RpcStatus_with_details. f_equal. simpl.
  assert (forall l, first_details (others ++ l) = first_details l) as Hskip.
  { clear Hm. induction Ho as [|[k v] others Hk Hl IH]; intros l; [done|]. simpl in *.
    rewrite bool_decide_eq_false_2 by done. apply IH. }
  rewrite Hskip. destruct det as [|d det]; by rewrite <-E3.
Qed.

(** C21: a status sent by a server at the end of a call arrives at the client as it was,
    code, message and details, when the core delivers the code, the text and the trailing
    metadata and the code is an error; every OK status arrives as the plain OK status. *)
Theorem status_round_trip (status : RpcStatus) (send_empty : bool) (payload : option GrpcSlice)
    (wflags : Z) (others : list (string * list byte)) (ctx : BatchContext SC) code text trailing :
  utf8_valid (as_bytes (status_message status)) = true ->
  Forall (fun kv => kv.1 <> BINARY_ERROR_DETAILS_KEY) others ->
  status_start status send_empty payload wflags =
    SendStatusFromServer code text trailing send_empty (GrpcSlice_as_slice <$> payload) wflags ->
  bc_status ctx = code -> bc_status_details ctx = text ->
  md_entries (bc_trailing_metadata ctx) = others ++ from_option md_entries [] trailing ->
  rpc_status ctx = if bool_decide (status_code status = CODE_OK) then RpcStatus_ok else status.
Proof. apply rpc_status_of_start. Qed.

(** C27: the methods of a call that keep their reference of the queue start their batch
    before the native queue is shut down, or return an error. *)
Theorem call_starts_in_time (call : nat) (msg : GrpcSlice) (wflags : Z) (meta : bool)
    (status : RpcStatus) (payload : option GrpcSlice) (w : World SC) r w' :
  cq_open (w_cq w) ->
  start_send_message start_answer call msg wflags meta w = Done (r, w') \/
  start_send_close_client start_answer call w = Done (r, w') \/
  start_recv_message start_answer call w = Done (r, w') \/
  start_server_side start_answer call w = Done (r, w') \/
  start_send_status_from_server start_answer call status meta payload wflags w = Done (r, w') ->
  late w' = late w.
Proof.
  intros Hc [H|[H|[H|[H|H]]]]; by eapply with_cq_ref_not_late.
Qed.
End call_properties.

(** [abort] and [cancel] drop their reference of the queue before they call the core:
    when the queue is shut down in between, the core is called on a queue whose native
    shutdown has begun, and [abort] starts a batch on it. *)
Theorem abort_after_shutdown :
  exists w1 w2, abort any_answer 3 (RpcStatus_new CODE_UNIMPLEMENTED) (world0 [[]; [EvShutdown]])
      = Done (tt, w1) /\ late w1 = 1 /\
      calls w1 = [StartBatch 3 (abort_start (RpcStatus_new CODE_UNIMPLEMENTED))] /\
    cancel 3 (world0 [[]; [EvShutdown]]) = Done (tt, w2) /\ late w2 = 1 /\ calls w2 = [Cancel 3].
Proof. eexists _, _. repeat split; vm_compute; reflexivity. Qed.

(** Turning the enhanced mode off while a message is held back makes the next
    [start_send] panic, although [poll_ready] was ready. *)
Theorem sink_toggle_panics :
  exists st w1, sink_run any_answer raw_ser 7 [OpReady 1; OpSend [x01] WriteFlags_default; OpReady 1]
      (fresh_run false true) (world0 []) = Done (st, w1) /\ sr_ready st = true /\
    let self := sr_sink st in
    let toggled := mkSinkBase (si_batch_f self) (si_send_metadata self) false (si_buffer self)
                     (si_buf_flags self) (si_last_buf_hint self) in
    SinkBase_start_send any_answer 7 [x02] WriteFlags_default raw_ser toggled w1 =
      Panicked "assertion failed: self.batch_f.is_none()".
Proof. eexists _, _. split; [vm_compute; reflexivity|]. split; vm_compute; reflexivity. Qed.

(** ** Witnesses *)

Lemma sink_sends_in_order_witness :
  exists st w' X,
    sink_run any_answer raw_ser 7 demo_ops (fresh_run true false) (world0 demo_sched) = Done (st, w') /\
    sent 7 (calls w') = sent 7 [] ++ X /\ metas_ok true X /\
    payloads X `prefix_of` id <$> (sr_accepted st).*1 /\
    (sr_error st = None -> payloads X ++ buffered (abs (sr_sink st)) = id <$> (sr_accepted st).*1).
Proof.
  apply (sink_sends_in_order (SC:=list_core) any_answer id raw_ser 7 true false demo_ops
           (world0 demo_sched)).
  - exact raw_ser_ok.
  - apply world0_WInv.
  - apply world0_idle.
  - reflexivity.
Defined.

Example demo_in_order :
  match sink_run any_answer raw_ser 7 demo_ops (fresh_run true false) (world0 demo_sched) with
  | Done (st, w') => payloads (sent 7 (calls w')) = payload_x
  | Panicked _ => False
  end.
Proof. vm_compute. reflexivity. Qed.

Definition demo_round : outcome (SinkRun (T:=list byte) * World list_core) :=
  (let* st := sink_run any_answer raw_ser 7 [OpReady 1; OpSend [x01] (mkWriteFlags 1); OpReady 1;
                OpSend [x02] WriteFlags_default] (fresh_run false true) in
   sink_run any_answer raw_ser 7 [OpFlush 1] st) (world0 [[]; []; [EvResolve 0 true ctx_ok]]).

Definition demo_round_end : SinkRun (T:=list byte) * World list_core :=
  match demo_round with
  | Done p => p
  | Panicked _ => (fresh_run false true, world0 [])
  end.

Lemma sink_enhanced_round_witness :
  sent 7 (calls demo_round_end.2) = [([x01], 1%Z, false); ([x02], 0%Z, false)].
Proof.
  apply (sink_enhanced_round (SC:=list_core) any_answer id raw_ser 7
    [OpReady 1; OpSend [x01] (mkWriteFlags 1); OpReady 1; OpSend [x02] WriteFlags_default] 1
    (mkSinkBase None false true GrpcSlice_default None true)
    (world0 [[]; []; [EvResolve 0 true ctx_ok]]) demo_round_end.1 demo_round_end.2).
  - exact raw_ser_ok.
  - split; [apply empty_slice_wf|]. split; [apply world0_WInv|].
    split; [apply only_running_None; apply world0_idle|]. done.
  - reflexivity.
  - reflexivity.
  - reflexivity.
  - reflexivity.
  - reflexivity.
  - vm_compute. reflexivity.
  - vm_compute. reflexivity.
  - vm_compute. reflexivity.
Defined.

Definition demo_reads : list (list (Event list_core)) :=
  [[]; []; [EvResolve 0 true (ctx_msg [x05])]; []; []; [EvResolve 1 true ctx_ok]; []].

Lemma stream_returns_in_order_witness :
  exists got ended err last w',
    stream_run any_answer 7 [1; 1] (StreamingBase_new None) [] (world0 demo_reads) =
      Done ((got, ended, err), w') /\
    received 7 w' = oks got ++ last.
Proof.
  destruct (stream_returns_in_order (SC:=list_core) any_answer 7 None [1; 1] (world0 demo_reads)
    (world0_WInv _) I (world0_idle _ _ _) eq_refl) as (got & ended & err & last & w' & E & Hr & _).
  exists got, ended, err, last, w'. exact (conj E Hr).
Defined.

Example demo_reads_end :
  match stream_run any_answer 7 [1; 1] (StreamingBase_new None) [] (world0 demo_reads) with
  | Done ((got, ended, _), _) => fill_buf <$> got = [[x05]] /\ ended = true
  | Panicked _ => False
  end.
Proof. vm_compute. done. Qed.

Lemma status_round_trip_witness :
  rpc_status (mkBatchContext (SC:=list_core) None 5 (as_bytes "gone")
    (mkMetadata [("k"%string, []); (BINARY_ERROR_DETAILS_KEY, [x01])] 2)) =
  RpcStatus_with_details CODE_NOT_FOUND "gone" [x01].
Proof.
  apply (status_round_trip (SC:=list_core)
    (RpcStatus_with_details CODE_NOT_FOUND "gone" [x01]) true None 0 [("k"%string, [])] _
    5 (as_bytes "gone")
    (Some (MetadataBuilder_build (set_binary_error_details MetadataBuilder_new [x01])))).
  - reflexivity.
  - repeat constructor. discriminate.
  - reflexivity.
  - reflexivity.
  - reflexivity.
  - reflexivity.
Defined.

Lemma call_starts_in_time_witness :
  exists r w', start_recv_message any_answer 7 (world0 [[]; [EvShutdown]]) = Done (r, w') /\ late w' = 0.
Proof.
  eexists _, _. split; [vm_compute; reflexivity|].
  apply (call_starts_in_time (SC:=list_core) any_answer 7 GrpcSlice_default 0 false RpcStatus_ok None
    (world0 [[]; [EvShutdown]]) (Ok 0)).
  - intros _. reflexivity.
  - right. right. left. vm_compute. reflexivity.
Defined.
