(* ===== verification/ClientCall.v ===== *)
(** Calls made by a client: src/src/call/client.rs, with [Channel::create_call] of
    src/src/channel.rs.

    A [ShareCall] behind an [Arc<Mutex<..>>] is shared by a sink and a receiver; the
    methods take it and return it, which is the state under its lock. *)

From S2P Require Import Prelude Status Cq Buf Utf8 Metadata Task Call.

Local Open Scope rust_scope.

(** ** CallOption *)

(** The timeout is a [Duration] in nanoseconds. *)
Record CallOption := mkCallOption {
  co_timeout : option Z;
  co_write_flags : WriteFlags;
  co_call_flags : Z;
  co_headers : option Metadata;
}.

Definition CallOption_default : CallOption :=
  {| co_timeout := None; co_write_flags := WriteFlags_default; co_call_flags := 0; co_headers := None |}.

Definition set_call_flags (self : CallOption) (flag : Z) (set : bool) : CallOption :=
  mkCallOption (co_timeout self) (co_write_flags self) (change_flag (co_call_flags self) flag set)
    (co_headers self).

Definition idempotent (self : CallOption) (is_idempotent : bool) : CallOption :=
  set_call_flags self GRPC_INITIAL_METADATA_IDEMPOTENT_REQUEST is_idempotent.

Definition wait_for_ready (self : CallOption) (wait : bool) : CallOption :=
  set_call_flags self GRPC_INITIAL_METADATA_WAIT_FOR_READY wait.

Definition cacheable (self : CallOption) (is_cacheable : bool) : CallOption :=
  set_call_flags self GRPC_INITIAL_METADATA_CACHEABLE_REQUEST is_cacheable.

Definition write_flags (self : CallOption) (wf : WriteFlags) : CallOption :=
  mkCallOption (co_timeout self) wf (co_call_flags self) (co_headers self).

Definition timeout (self : CallOption) (t : Z) : CallOption :=
  mkCallOption (Some t) (co_write_flags self) (co_call_flags self) (co_headers self).

Definition get_timeout (self : CallOption) : option Z := co_timeout self.

Definition headers (self : CallOption) (meta : Metadata) : CallOption :=
  mkCallOption (co_timeout self) (co_write_flags self) (co_call_flags self) (Some meta).

Definition get_headers (self : CallOption) : option Metadata := co_headers self.

Section client.
Context `{SC : SliceCore}.
Context (start_answer : list CoreCall -> gmap nat (BatchType * nat * Start) ->
                        nat -> Start -> grpc_call_error).
(** [grpcwrap_channel_create_call]: the new call, [None] for a null pointer. *)
Context (create_call_ptr : list CoreCall -> option nat).
Let W := World SC.

(** ** Starting calls *)

(** [Channel::create_call] of a method with the given name. *)
Definition create_call (name : string) (opt : CallOption) : M W (Result Error nat) :=
  let* r := borrow in
  match r with
  | Err e => ret (Err e)
  | Ok _ =>
      do* interfere in
      let* raw_call := gets (fun w => create_call_ptr (calls w)) in
      let* call := unwrap raw_call "assertion failed: !call.is_null()" in
      do* log_call (CreateCall call (Some name) (get_timeout opt)) in
      do* drop_ref in
      ret (Ok call)
  end.

(** [Channel::create_kicker]. *)
Definition create_kicker : M W (Result Error nat) :=
  let* r := borrow in
  match r with
  | Err e => ret (Err e)
  | Ok _ =>
      do* interfere in
      let* raw_call := gets (fun w => create_call_ptr (calls w)) in
      let* call := unwrap raw_call "assertion failed: !call.is_null()" in
      do* log_call (CreateCall call None None) in
      do* drop_ref in
      ret (Ok call)
  end.

Context {Req Resp : Type}.
Context (req_ser : Req -> GrpcSlice -> outcome GrpcSlice).
Context (resp_de : MessageReader SC -> Result Error Resp).

Record ClientUnaryReceiver := mkUnaryReceiver { ur_call : nat; ur_resp_f : BatchFuture }.

Definition unary_async (name : string) (req : Req) (opt : CallOption) :
    M W (Result Error ClientUnaryReceiver) :=
  let* r := create_call name opt in
  match r with
  | Err e => ret (Err e)
  | Ok call =>
      let* payload := run_ser req_ser req GrpcSlice_default in
      let* cq_f := check_run start_answer CheckRead call
        (StartUnary (GrpcSlice_as_slice payload) (flags (co_write_flags opt)) (co_headers opt)
           (co_call_flags opt)) in
      ret (Ok (mkUnaryReceiver call cq_f))
  end.

(** [ClientCStreamReceiver]: its share of the call is passed separately. *)
Record ClientCStreamReceiver := mkCStreamReceiver { cr_finished : bool }.

Record StreamingCallSink := mkCallSink {
  cs_sink_base : SinkBase;
  cs_close_f : option BatchFuture;
}.

Definition StreamingCallSink_new : StreamingCallSink :=
  {| cs_sink_base := SinkBase_new false; cs_close_f := None |}.

Definition client_streaming (name : string) (opt : CallOption) :
    M W (Result Error (ShareCall * StreamingCallSink * ClientCStreamReceiver)) :=
  let* r := create_call name opt in
  match r with
  | Err e => ret (Err e)
  | Ok call =>
      let* cq_f := check_run start_answer CheckRead call
        (StartClientStreaming (co_headers opt) (co_call_flags opt)) in
      ret (Ok (ShareCall_new call cq_f, StreamingCallSink_new, mkCStreamReceiver false))
  end.

Record ResponseStreamImpl := mkResponseStream {
  rs_msg_f : option BatchFuture;
  rs_read_done : bool;
  rs_finished : bool;
}.

Definition ResponseStreamImpl_new : ResponseStreamImpl :=
  {| rs_msg_f := None; rs_read_done := false; rs_finished := false |}.

Definition server_streaming (name : string) (req : Req) (opt : CallOption) :
    M W (Result Error (ShareCall * ResponseStreamImpl)) :=
  let* r := create_call name opt in
  match r with
  | Err e => ret (Err e)
  | Ok call =>
      let* payload := run_ser req_ser req GrpcSlice_default in
      let* cq_f := check_run start_answer Finish call
        (StartServerStreaming (GrpcSlice_as_slice payload) (flags (co_write_flags opt))
           (co_headers opt) (co_call_flags opt)) in
      do* check_run start_answer Finish call RecvInitialMetadata in
      ret (Ok (ShareCall_new call cq_f, ResponseStreamImpl_new))
  end.

Definition duplex_streaming (name : string) (opt : CallOption) :
    M W (Result Error (ShareCall * StreamingCallSink * ResponseStreamImpl)) :=
  let* r := create_call name opt in
  match r with
  | Err e => ret (Err e)
  | Ok call =>
      let* cq_f := check_run start_answer Finish call
        (StartDuplexStreaming (co_headers opt) (co_call_flags opt)) in
      do* check_run start_answer Finish call RecvInitialMetadata in
      ret (Ok (ShareCall_new call cq_f, StreamingCallSink_new, ResponseStreamImpl_new))
  end.

(** ** Receivers of one response *)

Definition ClientUnaryReceiver_cancel (self : ClientUnaryReceiver) : M W unit :=
  cancel (ur_call self).

Definition ClientUnaryReceiver_poll (cx : Waker) (self : ClientUnaryReceiver) :
    M W (Poll (Result Error Resp)) :=
  let* p := poll_future cx (ur_resp_f self) in
  match p with
  | Pending => ret Pending
  | Ready (Err e) => ret (Ready (Err e))
  | Ready (Ok data) =>
      let* data := unwrap data "called `Option::unwrap()` on a `None` value" in
      ret (Ready (resp_de data))
  end.

Definition ClientCStreamReceiver_cancel (share : ShareCall) : M W unit := cancel (sc_call share).

Definition ClientCStreamReceiver_drop (share : ShareCall) (self : ClientCStreamReceiver) : M W unit :=
  if cr_finished self then ret tt else ClientCStreamReceiver_cancel share.

Definition ClientCStreamReceiver_poll (cx : Waker) (share : ShareCall)
    (self : ClientCStreamReceiver) :
    M W (Poll (Result Error Resp) * ShareCall * ClientCStreamReceiver) :=
  let* (p, share) := poll_finish cx share in
  match p with
  | Pending => ret (Pending, share, self)
  | Ready (Err e) => ret (Ready (Err e), share, self)
  | Ready (Ok data) =>
      let* data := unwrap data "called `Option::unwrap()` on a `None` value" in
      match resp_de data with
      | Err e => ret (Ready (Err e), share, self)
      | Ok t => ret (Ready (Ok t), share, mkCStreamReceiver true)
      end
  end.

(** ** StreamingCallSink *)

Definition enhance_batch (flag : bool) (self : StreamingCallSink) : StreamingCallSink :=
  let b := cs_sink_base self in
  mkCallSink (mkSinkBase (si_batch_f b) (si_send_metadata b) flag (si_buffer b) (si_buf_flags b)
                (si_last_buf_hint b)) (cs_close_f self).

Definition StreamingCallSink_cancel (share : ShareCall) : M W unit := cancel (sc_call share).

Definition StreamingCallSink_drop (share : ShareCall) (self : StreamingCallSink) : M W unit :=
  match cs_close_f self with
  | None => StreamingCallSink_cancel share
  | Some _ => ret tt
  end.

Definition StreamingCallSink_poll_ready (cx : Waker) (self : StreamingCallSink) :
    M W (Poll (Result Error unit) * StreamingCallSink) :=
  let* (p, b) := SinkBase_poll_ready cx (cs_sink_base self) in
  ret (p, mkCallSink b (cs_close_f self)).

Definition StreamingCallSink_start_send (share : ShareCall) (msg : Req) (wflags : WriteFlags)
    (self : StreamingCallSink) : M W (Result Error unit * StreamingCallSink) :=
  let* alive := ShareCall_check_alive share in
  match alive with
  | Err e => ret (Err e, self)
  | Ok _ =>
      let* (r, b) := SinkBase_start_send start_answer (sc_call share) msg wflags req_ser
                       (cs_sink_base self) in
      ret (r, mkCallSink b (cs_close_f self))
  end.

Definition StreamingCallSink_poll_flush (cx : Waker) (share : ShareCall)
    (self : StreamingCallSink) : M W (Poll (Result Error unit) * StreamingCallSink) :=
  let* alive := ShareCall_check_alive share in
  match alive with
  | Err e => ret (Ready (Err e), self)
  | Ok _ =>
      let* (r, b) := SinkBase_poll_flush start_answer cx (sc_call share) (cs_sink_base self) in
      ret (r, mkCallSink b (cs_close_f self))
  end.

(** The end of [poll_close], once the close was started as [close_f]. *)
Definition poll_closing (cx : Waker) (share : ShareCall) (close_f : BatchFuture)
    (self : StreamingCallSink) : M W (Poll (Result Error unit) * StreamingCallSink) :=
  let* p := poll_future cx close_f in
  match p with
  | Ready (Err e) => ret (Ready (Err e), self)
  | Ready (Ok _) => ret (Ready (Ok tt), self)
  | Pending =>
      let* alive := ShareCall_check_alive share in
      match alive with
      | Err e => ret (Ready (Err e), self)
      | Ok _ => ret (Pending, self)
      end
  end.

Definition StreamingCallSink_poll_close (cx : Waker) (share : ShareCall)
    (self : StreamingCallSink) : M W (Poll (Result Error unit) * StreamingCallSink) :=
  match cs_close_f self with
  | Some close_f => poll_closing cx share close_f self
  | None =>
      let* (p, b) := SinkBase_poll_ready cx (cs_sink_base self) in
      let self := mkCallSink b (cs_close_f self) in
      match p with
      | Pending => ret (Pending, self)
      | Ready (Err e) => ret (Ready (Err e), self)
      | Ready (Ok _) =>
          let* r := start_send_close_client start_answer (sc_call share) in
          match r with
          | Err e => ret (Ready (Err e), self)
          | Ok close_f =>
              poll_closing cx share close_f (mkCallSink (cs_sink_base self) (Some close_f))
          end
      end
  end.

(** ** ResponseStreamImpl *)

Definition ResponseStreamImpl_cancel (share : ShareCall) : M W unit := cancel (sc_call share).

(** The loop of [poll]; the second round always returns. *)
Fixpoint response_loop (fuel : nat) (cx : Waker) (call : nat) (self : ResponseStreamImpl) :
    M W (Poll (option (Result Error Resp)) * ResponseStreamImpl) :=
  match fuel with
  | 0 => panic "recursion limit"
  | S fuel =>
      let read_done_now (self : ResponseStreamImpl) :
          M W (Poll (option (Result Error Resp)) * ResponseStreamImpl) :=
        ret (if rs_finished self then Ready None else Pending, self) in
      let start_read (bytes : option (MessageReader SC)) (self : ResponseStreamImpl) :
          M W (Poll (option (Result Error Resp)) * ResponseStreamImpl) :=
        let* r := start_recv_message start_answer call in
        match r with
        | Err e => ret (Ready (Some (Err e)), mkResponseStream None (rs_read_done self) (rs_finished self))
        | Ok msg_f =>
            let self := mkResponseStream (Some msg_f) (rs_read_done self) (rs_finished self) in
            match bytes with
            | None => response_loop fuel cx call self
            | Some data => ret (Ready (Some (resp_de data)), self)
            end
        end in
      if rs_read_done self then read_done_now self
      else
        match rs_msg_f self with
        | None => start_read None self
        | Some msg_f =>
            let* p := poll_future cx msg_f in
            match p with
            | Pending => ret (Pending, self)
            | Ready (Err e) => ret (Ready (Some (Err e)), self)
            | Ready (Ok None) =>
                read_done_now (mkResponseStream (rs_msg_f self) true (rs_finished self))
            | Ready (Ok (Some data)) => start_read (Some data) self
            end
        end
  end.

Definition ResponseStreamImpl_poll (cx : Waker) (share : ShareCall) (self : ResponseStreamImpl) :
    M W (Poll (option (Result Error Resp)) * ShareCall * ResponseStreamImpl) :=
  if rs_finished self then
    let* (p, self) := response_loop 2 cx (sc_call share) self in ret (p, share, self)
  else
    let* (p, share) := poll_finish cx share in
    let self := mkResponseStream (rs_msg_f self) (rs_read_done self) (sc_finished share) in
    match p with
    | Ready (Err e) => ret (Ready (Some (Err e)), share, self)
    | _ =>
        let* (p, self) := response_loop 2 cx (sc_call share) self in ret (p, share, self)
    end.

Definition ResponseStreamImpl_on_drop (share : ShareCall) (self : ResponseStreamImpl) : M W unit :=
  if negb (rs_read_done self) || negb (rs_finished self)
  then ResponseStreamImpl_cancel share else ret tt.
End client.

(** ** Lemmas *)

Section client_lemmas.
Context `{SC : SliceCore} start_answer `{CC : !CallCore start_answer}.
Context {Resp : Type} (resp_de : MessageReader SC -> Result Error Resp).
Implicit Types w : World SC.

(** A response stream as a [StreamingBase]: the end of the call is outstanding until the
    stream saw it. *)
Definition to_base (close_f : BatchFuture) (self : ResponseStreamImpl) : StreamingBase :=
  mkStreamingBase (if rs_finished self then None else Some close_f) (rs_msg_f self)
    (rs_read_done self).

Definition of_base (self : ResponseStreamImpl) (b : StreamingBase) : ResponseStreamImpl :=
  mkResponseStream (sb_msg_f b) (sb_read_done b) (rs_finished self).

Definition decode_poll (p : StreamPoll (SC:=SC)) : Poll (option (Result Error Resp)) :=
  match p with
  | Ready (Some (Ok m)) => Ready (Some (resp_de m))
  | Ready (Some (Err e)) => Ready (Some (Err e))
  | Ready None => Ready None
  | Pending => Pending
  end.

(** The loop of a response stream is the one of [StreamingBase], decoding what it returns. *)
Lemma response_loop_is_poll_msgs fuel cx call close_f self w :
  response_loop start_answer resp_de fuel cx call self w =
  match poll_msgs start_answer fuel cx call (to_base close_f self) w with
  | Done ((p, b), w') => Done ((decode_poll p, of_base self b), w')
  | Panicked m => Panicked m
  end.
Proof.
  revert self w. induction fuel as [|fuel IH]; intros self w; [done|].
  destruct self as [msg_f rd fin]. cbn [response_loop poll_msgs to_base rs_read_done rs_msg_f
    rs_finished sb_read_done sb_msg_f sb_close_f].
  destruct rd; [by destruct fin|].
  assert (forall bytes w,
    (let* r := start_recv_message start_answer call in
     match r with
     | Ok msg_f0 =>
         match bytes with
         | Some data => ret (Ready (Some (resp_de data)), mkResponseStream (Some msg_f0) false fin)
         | None => response_loop start_answer resp_de fuel cx call (mkResponseStream (Some msg_f0) false fin)
         end
     | Err e => ret (Ready (Some (Err e)), mkResponseStream None false fin)
     end) w =
    match
      (let* r := start_recv_message start_answer call in
       match r with
       | Ok msg_f0 =>
           match bytes with
           | Some b => ret (Ready (Some (Ok b)),
                            mkStreamingBase (if fin then None else Some close_f) (Some msg_f0) false)
           | None => poll_msgs start_answer fuel cx call
                       (mkStreamingBase (if fin then None else Some close_f) (Some msg_f0) false)
           end
       | Err e => ret (Ready (Some (Err e)),
                       mkStreamingBase (if fin then None else Some close_f) None false)
       end) w
    with
    | Done ((p, b), w') => Done ((decode_poll p, of_base (mkResponseStream msg_f false fin) b), w')
    | Panicked m => Panicked m
    end) as Hstart.
  { intros bytes w0. unfold bind. destruct (start_recv_message start_answer call w0) as [[r w1]|]; [|done].
    destruct r as [f|e]; [|done]. destruct bytes as [m|]; [done|]. rewrite IH. done. }
  destruct msg_f as [f|]; [|apply (Hstart None)].
  unfold bind at 1 3. destruct (poll_future cx f w) as [[p w1]|]; [|done].
  destruct p as [[[m|]|e]|]; [apply (Hstart (Some m))| by destruct fin | done | done].
Qed.

(** The invariant of a response stream that has returned the messages [Y]. *)
Definition RSInv (share : ShareCall) (self : ResponseStreamImpl) (Y : list (MessageReader SC)) w :=
  TInv (sc_call share) (to_base (sc_close_f share) self) Y w.

Lemma response_loop_spec cx share self Y w :
  RSInv share self Y w ->
  exists p self' w', response_loop start_answer resp_de 2 cx (sc_call share) self w =
      Done ((p, self'), w') /\
    match p with
    | Ready (Some r) => (exists m, r = resp_de m /\ RSInv share self' (Y ++ [m]) w') \/
                        (r = Err QueueShutdown /\ behind (sc_call share) Y w')
    | Ready None => RSInv share self' Y w' /\ rs_read_done self' = true /\ rs_finished self' = true
    | Pending => RSInv share self' Y w'
    end.
Proof.
  intros HT. rewrite (response_loop_is_poll_msgs 2 cx _ (sc_close_f share)).
  destruct (poll_msgs_spec start_answer 0 cx (sc_call share) _ Y w HT) as (p & b & w' & E & Hp).
  rewrite E.
  destruct (poll_msgs_close _ _ _ _ _ _ _ _ _ E) as [Hcl Hend]. simpl in Hcl, Hend.
  assert (forall Y', TInv (sc_call share) b Y' w' -> RSInv share (of_base self b) Y' w') as Hof.
  { intros Y' HT'. unfold RSInv, to_base, of_base. simpl. rewrite <-Hcl. by destruct b. }
  eexists _, _, w'. split; [reflexivity|]. destruct p as [[[m|e]|]|]; simpl in *.
  - left. exists m. auto.
  - right. by destruct Hp as [-> Hp].
  - destruct Hp as [Hp1 Hp2]. split; [auto|]. split; [done|].
    by destruct (rs_finished self); [|specialize (Hend eq_refl)].
  - auto.
Qed.

(** One poll of a response stream. *)
Lemma response_poll_spec (cx : Waker) (share : ShareCall) (self : ResponseStreamImpl)
    (Y : list (MessageReader SC)) (w : World SC) :
  RSInv share self Y w ->
  exists p share' self' w',
    ResponseStreamImpl_poll start_answer resp_de cx share self w =
      Done ((p, share', self'), w') /\ sc_call share' = sc_call share /\
    match p with
    | Pending => RSInv share' self' Y w'
    | Ready None => RSInv share' self' Y w' /\ rs_finished self' = true /\
                    received (sc_call share) w' = oks Y ++ [Ok None]
    | Ready (Some r) =>
        (exists m, r = resp_de m /\ RSInv share' self' (Y ++ [m]) w') \/
        (exists e, r = Err e /\ RSInv share' self' Y w' /\ sc_finished share' = true) \/
        (r = Err QueueShutdown /\ behind (sc_call share) Y w')
    end.
Proof.
  intros HT. unfold ResponseStreamImpl_poll.
  assert (forall share self w, RSInv share self Y w ->
    exists p self' w', (let* (p, self) := response_loop start_answer resp_de 2 cx (sc_call share) self in
        ret (p, share, self)) w = Done ((p, share, self'), w') /\
    match p with
    | Pending => RSInv share self' Y w'
    | Ready None => RSInv share self' Y w' /\ rs_finished self' = true /\
                    received (sc_call share) w' = oks Y ++ [Ok None]
    | Ready (Some r) => (exists m, r = resp_de m /\ RSInv share self' (Y ++ [m]) w') \/
                        (r = Err QueueShutdown /\ behind (sc_call share) Y w')
    end) as Hloop.
  { clear share self w HT. intros share self w HT.
    destruct (response_loop_spec cx share self Y w HT) as (p & self' & w' & E & Hp).
    exists p, self', w'. unfold bind. rewrite E. split; [done|].
    destruct p as [[r|]|]; [done| |done]. destruct Hp as (HT' & Hd & Hf). split; [done|].
    split; [done|]. destruct HT' as (_ & _ & _ & HT'). simpl in HT'. rewrite Hd in HT'. apply HT'. }
  destruct (rs_finished self) eqn:Hf.
  - destruct (Hloop share self w HT) as (p & self' & w' & E & Hp).
    exists p, share, self', w'. split; [done|]. split; [done|]. destruct p as [[r|]|]; [|done..].
    destruct Hp; auto.
  - unfold poll_finish. unfold bind at 1.
    destruct (poll_close_future_spec cx (sc_call share) (to_base (sc_close_f share) self)
      (sc_close_f share) Y w HT) as (p & w1 & E & Hp); [simpl; by rewrite Hf|].
    unfold bind at 1. rewrite E. destruct p as [res|].
    + set (share1 := mkShareCall (sc_call share) (sc_close_f share) true _).
      set (self1 := mkResponseStream (rs_msg_f self) (rs_read_done self) true).
      assert (RSInv share1 self1 Y w1) as HT1 by exact Hp.
      destruct res as [v|e]; cbn.
      * destruct (Hloop share1 self1 w1 HT1) as (p & self' & w' & E' & Hp').
        exists p, share1, self', w'. split; [exact E'|]. split; [done|].
        destruct p as [[r|]|]; [|done..]. destruct Hp'; auto.
      * eexists _, share1, self1, w1. split; [reflexivity|]. split; [done|]. right. left. eauto.
    + set (self1 := mkResponseStream (rs_msg_f self) (rs_read_done self) (sc_finished share)).
      cbn. destruct (sc_finished share) eqn:Hsf.
      * assert (RSInv share self1 Y w1) as HT1.
        { destruct Hp as (HW & Hl & Hne & Hr). split; [done|]. split; [done|]. split; [done|]. exact Hr. }
        destruct (Hloop share self1 w1 HT1) as (p & self' & w' & E' & Hp').
        exists p, share, self', w'. split; [exact E'|]. split; [done|].
        destruct p as [[r|]|]; [|done..]. destruct Hp'; auto.
      * assert (RSInv share self1 Y w1) as HT1.
        { unfold RSInv, to_base in *. simpl. by rewrite Hf in Hp. }
        destruct (Hloop share self1 w1 HT1) as (p & self' & w' & E' & Hp').
        exists p, share, self', w'. split; [exact E'|]. split; [done|].
        destruct p as [[r|]|]; [|done..]. destruct Hp'; auto.
Qed.
End client_lemmas.
