(* ===== verification/ServerCall.v ===== *)
(** Calls handled by a server: src/src/call/server.rs.

    The sinks the macros [impl_unary_sink!] and [impl_stream_sink!] make are the same
    for both of their holders of the [ShareCall], which is passed and returned. *)

From S2P Require Import Prelude Status Cq Buf Utf8 Metadata Task Call.

Local Open Scope rust_scope.
Local Open Scope string_scope.

Section server_call.
Context `{SC : SliceCore}.
Context (start_answer : list CoreCall -> gmap nat (BatchType * nat * Start) ->
                        nat -> Start -> grpc_call_error).
(** The derived [Debug] text of an error. *)
Context (debug_error : Error -> string).
Let W := World SC.

(** ** Requests *)

(** [RequestContext]: what the core filled in of an incoming call. *)
Record RequestContext := mkRequestContext {
  rq_call : nat;
  rq_method : list byte;
  rq_host : list byte;
  rq_metadata : Metadata;
}.

(** [RpcContext]: the request; its executor and deadline are not looked at here. *)
Record RpcContext := mkRpcContext { rc_ctx : RequestContext }.

Definition RpcContext_new (ctx : RequestContext) : RpcContext := {| rc_ctx := ctx |}.
Definition RpcContext_call (self : RpcContext) : nat := rq_call (rc_ctx self).
Definition RpcContext_method (self : RpcContext) : list byte := rq_method (rc_ctx self).
Definition RpcContext_host (self : RpcContext) : list byte := rq_host (rc_ctx self).
Definition request_headers (self : RpcContext) : Metadata := rq_metadata (rc_ctx self).

(** ** RequestStream *)

Section request_stream.
Context {P : Type} (de : MessageReader SC -> Result Error P).

Definition RequestStream_new : StreamingBase := StreamingBase_new None.

Definition RequestStream_poll_next (cx : Waker) (share : ShareCall) (self : StreamingBase) :
    M W (Poll (option (Result Error P)) * StreamingBase) :=
  let* alive := ShareCall_check_alive share in
  match alive with
  | Err e => ret (Ready (Some (Err e)), self)
  | Ok _ =>
      let* (p, self) := StreamingBase_poll start_answer cx (sc_call share) false self in
      ret (match p with
           | Pending => Pending
           | Ready (Some (Err e)) => Ready (Some (Err e))
           | Ready None => Ready None
           | Ready (Some (Ok data)) => Ready (Some (de data))
           end, self)
  end.

Definition RequestStream_drop (share : ShareCall) (self : StreamingBase) : M W unit :=
  on_drop (sc_call share) self.
End request_stream.

(** ** Sinks of one response *)

Section sinks.
Context {Q : Type} (ser : Q -> GrpcSlice -> outcome GrpcSlice).

(** [UnarySink] and [ClientStreamingSink]. *)
Record UnarySink := mkUnarySink { us_call : option ShareCall; us_write_flags : Z }.

Definition UnarySink_new (call : ShareCall) : UnarySink :=
  {| us_call := Some call; us_write_flags := 0 |}.

Record UnarySinkResult := mkUnarySinkResult {
  ur_share : ShareCall;
  ur_cq_f : option BatchFuture;
  ur_err : option Error;
}.

Definition complete (self : UnarySink) (status : RpcStatus) (t : option Q) :
    M W UnarySinkResult :=
  let* data := match t with
               | Some t => let* buf := run_ser ser t GrpcSlice_default in ret (Some buf)
               | None => ret None
               end in
  let* share := unwrap (us_call self) "called `Option::unwrap()` on a `None` value" in
  let* res := start_send_status_from_server start_answer (sc_call share) status true data
                (us_write_flags self) in
  ret (match res with
       | Ok f => mkUnarySinkResult share (Some f) None
       | Err e => mkUnarySinkResult share None (Some e)
       end).

Definition success (self : UnarySink) (t : Q) : M W UnarySinkResult :=
  complete self RpcStatus_ok (Some t).

Definition UnarySink_fail (self : UnarySink) (status : RpcStatus) : M W UnarySinkResult :=
  complete self status None.

Definition UnarySink_drop (self : UnarySink) : M W unit :=
  match us_call self with
  | Some share => cancel (sc_call share)
  | None => ret tt
  end.

Definition UnarySinkResult_poll (cx : Waker) (self : UnarySinkResult) :
    M W (Poll (Result Error unit) * UnarySinkResult) :=
  match ur_err self with
  | Some e => ret (Ready (Err e), mkUnarySinkResult (ur_share self) (ur_cq_f self) None)
  | None =>
      let finish (self : UnarySinkResult) : M W (Poll (Result Error unit) * UnarySinkResult) :=
        let* (p, share) := poll_finish cx (ur_share self) in
        let self := mkUnarySinkResult share (ur_cq_f self) None in
        ret (match p with
             | Pending => Pending
             | Ready (Err e) => Ready (Err e)
             | Ready (Ok _) => Ready (Ok tt)
             end, self) in
      match ur_cq_f self with
      | None => finish self
      | Some f =>
          let* p := poll_future cx f in
          match p with
          | Pending => ret (Pending, self)
          | Ready (Err e) => ret (Ready (Err e), self)
          | Ready (Ok _) => finish (mkUnarySinkResult (ur_share self) None None)
          end
      end
  end.

(** ** Sinks of many responses *)

(** [ServerStreamingSink] and [DuplexSink]; [ss_dropped] is [self.call.is_none()]. *)
Record StreamSink := mkStreamSink {
  ss_base : SinkBase;
  ss_flush_f : option BatchFuture;
  ss_status : RpcStatus;
  ss_flushed : bool;
  ss_closed : bool;
}.

Definition StreamSink_new : StreamSink :=
  {| ss_base := SinkBase_new true; ss_flush_f := None; ss_status := RpcStatus_ok;
     ss_flushed := false; ss_closed := false |}.

(** [enhance_batch] of the sinks of a server. *)
Definition enhance_batch_sink (flag : bool) (self : StreamSink) : StreamSink :=
  let b := ss_base self in
  mkStreamSink (mkSinkBase (si_batch_f b) (si_send_metadata b) flag (si_buffer b) (si_buf_flags b)
                  (si_last_buf_hint b))
    (ss_flush_f self) (ss_status self) (ss_flushed self) (ss_closed self).

Definition StreamSink_set_status (status : RpcStatus) (self : StreamSink) : outcome StreamSink :=
  match ss_flush_f self with
  | None => Done (mkStreamSink (ss_base self) None status (ss_flushed self) (ss_closed self))
  | Some _ => Panicked "assertion failed: self.flush_f.is_none()"
  end.

(** [ServerStreamingSinkFailure] and [DuplexSinkFailure]. *)
Record SinkFailure := mkSinkFailure {
  sf_share : ShareCall;
  sf_fail_f : option BatchFuture;
  sf_err : option Error;
}.

Definition StreamSink_fail (share : ShareCall) (status : RpcStatus) (self : StreamSink) :
    M W SinkFailure :=
  do* rassert (bool_decide (ss_flush_f self = None)) "assertion failed: self.flush_f.is_none()" in
  let* res := start_send_status_from_server start_answer (sc_call share) status
                (si_send_metadata (ss_base self)) None 0 in
  ret (match res with
       | Ok f => mkSinkFailure share (Some f) None
       | Err e => mkSinkFailure share None (Some e)
       end).

(** The sink is dropped without [fail]. *)
Definition StreamSink_drop (share : ShareCall) (self : StreamSink) : M W unit :=
  if ss_closed self then ret tt else cancel (sc_call share).

Definition set_base (base : SinkBase) (self : StreamSink) : StreamSink :=
  mkStreamSink base (ss_flush_f self) (ss_status self) (ss_flushed self) (ss_closed self).

(** The check of [poll_ready] and [poll_flush]: has the client gone? *)
Definition remote_stopped (cx : Waker) (share : ShareCall) : M W (option Error * ShareCall) :=
  let* (p, share) := poll_finish cx share in
  ret (match p with
       | Ready (Err e) => Some e
       | Ready (Ok _) => Some RemoteStopped
       | Pending => None
       end, share).

Definition StreamSink_poll_ready (cx : Waker) (share : ShareCall) (self : StreamSink) :
    M W (Poll (Result Error unit) * ShareCall * StreamSink) :=
  let* (e, share) := remote_stopped cx share in
  match e with
  | Some e => ret (Ready (Err e), share, self)
  | None =>
      let* (p, base) := SinkBase_poll_ready cx (ss_base self) in
      ret (p, share, set_base base self)
  end.

Definition StreamSink_start_send (share : ShareCall) (msg : Q) (wflags : WriteFlags)
    (self : StreamSink) : M W (Result Error unit * StreamSink) :=
  let* (r, base) := SinkBase_start_send start_answer (sc_call share) msg wflags ser (ss_base self) in
  ret (r, set_base base self).

Definition StreamSink_poll_flush (cx : Waker) (share : ShareCall) (self : StreamSink) :
    M W (Poll (Result Error unit) * ShareCall * StreamSink) :=
  let* (e, share) := remote_stopped cx share in
  match e with
  | Some e => ret (Ready (Err e), share, self)
  | None =>
      let* (p, base) := SinkBase_poll_flush start_answer cx (sc_call share) (ss_base self) in
      ret (p, share, set_base base self)
  end.

(** The last part of [poll_close]: wait for the end of the call. *)
Definition close_finish (cx : Waker) (share : ShareCall) (self : StreamSink) :
    M W (Poll (Result Error unit) * ShareCall * StreamSink) :=
  let* (p, share) := poll_finish cx share in
  match p with
  | Pending => ret (Pending, share, self)
  | Ready (Err e) => ret (Ready (Err e), share, self)
  | Ready (Ok _) =>
      ret (Ready (Ok tt), share,
           mkStreamSink (ss_base self) (ss_flush_f self) (ss_status self) (ss_flushed self) true)
  end.

(** The middle part of [poll_close]: wait for the status to be sent. *)
Definition close_flush (cx : Waker) (share : ShareCall) (flush_f : BatchFuture) (self : StreamSink) :
    M W (Poll (Result Error unit) * ShareCall * StreamSink) :=
  if ss_flushed self then close_finish cx share self
  else
    let* p := poll_future cx flush_f in
    match p with
    | Pending => ret (Pending, share, self)
    | Ready (Err e) => ret (Ready (Err e), share, self)
    | Ready (Ok _) =>
        close_finish cx share
          (mkStreamSink (ss_base self) (ss_flush_f self) (ss_status self) true (ss_closed self))
    end.

Definition StreamSink_poll_close (cx : Waker) (share : ShareCall) (self : StreamSink) :
    M W (Poll (Result Error unit) * ShareCall * StreamSink) :=
  match ss_flush_f self with
  | Some flush_f => close_flush cx share flush_f self
  | None =>
      let* (p, base) := SinkBase_poll_ready cx (ss_base self) in
      let self := set_base base self in
      match p with
      | Pending => ret (Pending, share, self)
      | Ready (Err e) => ret (Ready (Err e), share, self)
      | Ready (Ok _) =>
          let* r := start_send_status_from_server start_answer (sc_call share) (ss_status self)
                      (si_send_metadata (ss_base self)) None 0 in
          match r with
          | Err e => ret (Ready (Err e), share, self)
          | Ok flush_f =>
              close_flush cx share flush_f
                (mkStreamSink (ss_base self) (Some flush_f) (ss_status self) (ss_flushed self)
                   (ss_closed self))
          end
      end
  end.

Definition SinkFailure_poll (cx : Waker) (self : SinkFailure) :
    M W (Poll (Result Error unit) * SinkFailure) :=
  match sf_err self with
  | Some e => ret (Ready (Err e), mkSinkFailure (sf_share self) (sf_fail_f self) None)
  | None =>
      let* (readiness, share) :=
        if sc_finished (sf_share self) then ret (Ready (Ok None), sf_share self)
        else poll_finish cx (sf_share self) in
      let self := mkSinkFailure share (sf_fail_f self) None in
      let done (self : SinkFailure) (p : Poll (Result Error (option (MessageReader SC)))) :
          M W (Poll (Result Error unit) * SinkFailure) :=
        ret (match p with Ready _ => Ready (Ok tt) | Pending => Pending end, self) in
      match readiness with
      | Ready (Err e) => ret (Ready (Err e), self)
      | _ =>
          match sf_fail_f self with
          | None => done self readiness
          | Some f =>
              let* p := poll_future cx f in
              match p with
              | Pending => ret (Pending, self)
              | Ready (Err e) => ret (Ready (Err e), self)
              | Ready (Ok _) => done (mkSinkFailure share None None) readiness
              end
          end
      end
  end.
End sinks.

(** ** Running handlers *)

Section execute.
Context {P Q : Type} (de : MessageReader SC -> Result Error P).

(** [accept_call!]: [None] when the handler has to return at once. *)
Definition accept_call (call : nat) : M W (option BatchFuture) :=
  let* r := start_server_side start_answer call in
  match r with
  | Err QueueShutdown => do* core_call (CallUnref call) in ret None
  | Err _ => panic "unexpected error when trying to accept request"
  | Ok f => ret (Some f)
  end.

Definition deserialize_failure (e : Error) : RpcStatus :=
  RpcStatus_with_message CODE_INTERNAL
    ("Failed to deserialize response message: " +:+ debug_error e).

Definition execute_unary (ctx : RpcContext) (payload : MessageReader SC)
    (f : RpcContext -> P -> UnarySink -> M W unit) : M W unit :=
  let call := RpcContext_call ctx in
  let* close_f := accept_call call in
  match close_f with
  | None => ret tt
  | Some close_f =>
      match de payload with
      | Err e => abort start_answer call (deserialize_failure e)
      | Ok request => f ctx request (UnarySink_new (ShareCall_new call close_f))
      end
  end.

Definition execute_client_streaming (ctx : RpcContext)
    (f : RpcContext -> ShareCall -> StreamingBase -> UnarySink -> M W unit) : M W unit :=
  let call := RpcContext_call ctx in
  let* close_f := accept_call call in
  match close_f with
  | None => ret tt
  | Some close_f =>
      let share := ShareCall_new call close_f in
      f ctx share RequestStream_new (UnarySink_new share)
  end.

Definition execute_server_streaming (ctx : RpcContext) (payload : MessageReader SC)
    (f : RpcContext -> P -> ShareCall -> StreamSink -> M W unit) : M W unit :=
  let call := RpcContext_call ctx in
  let* close_f := accept_call call in
  match close_f with
  | None => ret tt
  | Some close_f =>
      match de payload with
      | Err e => abort start_answer call (deserialize_failure e)
      | Ok request => f ctx request (ShareCall_new call close_f) StreamSink_new
      end
  end.

Definition execute_duplex_streaming (ctx : RpcContext)
    (f : RpcContext -> ShareCall -> StreamingBase -> StreamSink -> M W unit) : M W unit :=
  let call := RpcContext_call ctx in
  let* close_f := accept_call call in
  match close_f with
  | None => ret tt
  | Some close_f => f ctx (ShareCall_new call close_f) RequestStream_new StreamSink_new
  end.

Definition execute_unimplemented (ctx : RequestContext) : M W unit :=
  let call := rq_call ctx in
  let* close_f := accept_call call in
  match close_f with
  | None => ret tt
  | Some _ => abort start_answer call (RpcStatus_new CODE_UNIMPLEMENTED)
  end.

(** [CheckResult], and a checker of calls. *)
Inductive CheckResult := Continue | Abort (status : RpcStatus).

Definition ServerChecker : Type := RpcContext -> M W CheckResult.

(** [BoxHandler]: the type of the method and the closure that runs it. *)
Record BoxHandler := mkHandler {
  h_method_type : MethodType;
  h_handle : RpcContext -> option (MessageReader SC) -> M W unit;
}.

Fixpoint run_checkers (rpc_ctx : RpcContext) (checkers : list ServerChecker) (rest : M W unit) :
    M W unit :=
  match checkers with
  | [] => rest
  | check :: checkers =>
      let* r := check rpc_ctx in
      match r with
      | Continue => run_checkers rpc_ctx checkers rest
      | Abort status => abort start_answer (RpcContext_call rpc_ctx) status
      end
  end.

Definition execute (ctx : RequestContext) (payload : option (MessageReader SC)) (f : BoxHandler)
    (checkers : list ServerChecker) : M W unit :=
  let rpc_ctx := RpcContext_new ctx in
  run_checkers rpc_ctx checkers (h_handle f rpc_ctx payload).
End execute.
End server_call.

Arguments BoxHandler : clear implicits.
Arguments BoxHandler SC : assert.
