(* ===== verification/Frame.v ===== *)
(** What no operation of the call layer undoes.

    Every method of src/src/call/ touches the world through a few primitives: it lets the
    other threads run, polls a future, borrows and drops the queue, starts a batch.  A
    predicate these keep is kept by every method; a future nobody else polls stays as it
    is.  The components are composed with these facts. *)

From S2P Require Import Prelude Status Cq Buf Utf8 Metadata Task Call ClientCall ServerCall.

Local Open Scope rust_scope.

Section framed.
Context `{SC : SliceCore}.
Implicit Types w : World SC.

(** A predicate kept by the primitives. *)
Class Framed (P : World SC -> Prop) : Prop := {
  #[global] framed_stable :: Stable P;
  framed_set_handle f g w : result g = None -> P w -> P (set_handle f g w);
  framed_set_cq h w : P w -> P (set_cq h w);
  framed_started bt call s h w : P w -> P (started_world bt call s h w);
}.

(** Polling takes the result out of the handle. *)
Lemma CqFuture_poll_takes {R} cx (g g' : NotifyHandle R) p : CqFuture_poll cx g = Done (p, g') -> result g' = None.
Proof.
  unfold CqFuture_poll. destruct (stale g); [done|]. destruct (result g) eqn:Er; [by intros [= <- <-]|].
  repeat case_match; by intros [= <- <-].
Qed.

(** The core and the handles only grow. *)
#[export] Instance Framed_handles n : Framed (fun w => n <= length (handles w)).
Proof.
  split; [split; [|done]|..].
  - intros e w Hn.
    destruct (event_cases e w) as [(-> & _)|(tag & ? & ? & ? & ? & ? & _ & _ & -> & _)]; [done|].
    by rewrite length_insert.
  - intros f g w. simpl. by rewrite length_insert.
  - done.
  - intros. simpl. rewrite length_app. lia.
Qed.

(** What a call received is never taken back. *)
#[export] Instance Framed_received call got : Framed (fun w => got `prefix_of` received call w).
Proof.
  split; [split; [|done]|..]; try done.
  intros e w Hp. destruct (received_event call e w) as [->|(? & ? & ? & r & _ & _ & _ & -> & _)]; [done|].
  by apply prefix_app_r.
Qed.

(** The core completed the batch of a future with a result. *)
Definition reported (f : BatchFuture) (r : Result Error (option (MessageReader SC))) w : Prop :=
  exists c s, (f, c, s, r) ∈ completed w.

#[export] Instance Framed_reported f r : Framed (reported f r).
Proof.
  split; [split; [|done]|..]; try done. intros e w (c & s & Hin). exists c, s.
  destruct (event_cases e w) as [(_ & _ & -> & _)|(? & ? & ? & ? & ? & ? & _ & _ & _ & _ & -> & _)]; [done|set_solver].
Qed.

(** A future has no result but one the core completed its batch with. *)
Definition traced (f : BatchFuture) w : Prop :=
  forall g r, handles w !! f = Some g -> result g = Some r -> reported f r w.

#[export] Instance Framed_traced f : Framed (traced f).
Proof.
  split; [split; [|done]|..].
  - intros e w Ht g r Hg Hr.
    destruct (event_cases e w) as [(Hh & _ & Hc & _)|(tag & ty & c & s & g' & r' & _ & Hg' & Hh & _ & Hc & _)].
    + unfold reported. rewrite Hc. rewrite Hh in Hg. by eapply Ht.
    + rewrite Hh in Hg. destruct (decide (tag = f)) as [->|Hne].
      * rewrite list_lookup_insert_eq in Hg by (by eapply lookup_lt_Some). injection Hg as <-. injection Hr as ->.
        exists c, s. rewrite Hc. set_solver.
      * rewrite list_lookup_insert_ne in Hg by done. apply framed_stable, (Ht g r Hg Hr).
  - intros f' g' w Hn Ht g r Hg Hr. destruct (decide (f' = f)) as [->|Hne].
    + apply list_lookup_insert_Some in Hg as [(_ & <- & _)|[? _]]; [congruence|done].
    + simpl in Hg. rewrite list_lookup_insert_ne in Hg by done. exact (Ht g r Hg Hr).
  - done.
  - intros bt call s h w Ht g r Hg Hr. simpl in Hg. apply lookup_app_Some in Hg as [Hg|[_ Hg]].
    + exact (Ht g r Hg Hr).
    + apply list_lookup_singleton_Some in Hg as [_ <-]. done.
Qed.

Lemma poll_future_reported cx f w r w' : traced f w -> poll_future cx f w = Done (Ready r, w') -> reported f r w'.
Proof.
  intros Ht. unfold poll_future, bind. destruct (interfere_stable (traced f) w _ Ht) as (w1 & -> & H1).
  destruct (handles w1 !! f) as [g|] eqn:Hg; [|done]. unfold CqFuture_poll.
  destruct (stale g); [done|]. destruct (result g) as [r'|] eqn:Hr; [|by repeat case_match].
  intros [= <- <-]. exact (H1 g r' Hg Hr).
Qed.

Context (P : World SC -> Prop) `{!Framed P}.

Lemma interfere_framed : preserves P interfere.
Proof.
  intros w [] w' HP E. destruct (interfere_stable P w _ HP) as (w1 & E1 & H1). congruence.
Qed.
#[local] Hint Resolve interfere_framed : frame.

Lemma poll_future_framed cx f : preserves P (poll_future cx f).
Proof.
  apply preserves_bind; [auto with frame|]. intros [] w p w' HP E.
  destruct (handles w !! f) as [g|]; [|done]. destruct (CqFuture_poll cx g) as [[? ?]|] eqn:Ep; [|done].
  injection E as <- <-. by apply framed_set_handle; [eapply CqFuture_poll_takes|].
Qed.

Lemma check_alive_framed f : preserves P (check_alive_future f).
Proof.
  apply preserves_bind; [auto with frame|]. intros [] w p w' HP E.
  destruct (handles w !! f) as [g|]; [|done]. by injection E as <- <-.
Qed.

Lemma borrow_framed : preserves P borrow.
Proof.
  apply preserves_bind; [auto with frame|]. intros [] w p w' HP E.
  destruct (add_ref (w_cq w)) as [r h]. injection E as <- <-. by apply framed_set_cq.
Qed.

Lemma drop_ref_framed : preserves P drop_ref.
Proof. intros w [] w' HP [= <-]. by apply framed_set_cq. Qed.

Lemma check_run_framed start_answer bt call s : preserves P (check_run start_answer bt call s).
Proof.
  apply preserves_bind; [auto with frame|]. intros [] w p w' HP E.
  destruct (start_answer _ _ _ _); try done. injection E as <- <-.
  apply (framed_started bt call s (w_cq w) w HP).
Qed.

#[local] Hint Resolve poll_future_framed check_alive_framed borrow_framed drop_ref_framed
  check_run_framed : frame.

Lemma with_cq_ref_framed start_answer bt call s : preserves P (with_cq_ref start_answer bt call s).
Proof. unfold with_cq_ref. preserve. Qed.
#[local] Hint Resolve with_cq_ref_framed : frame.

Lemma run_ser_framed {T} (ser : T -> GrpcSlice -> outcome GrpcSlice) t buf :
  preserves P (run_ser ser t buf).
Proof. intros w s w' HP. unfold run_ser. destruct (ser t buf); [|done]. by intros [= <- <-]. Qed.
#[local] Hint Resolve run_ser_framed : frame.

Lemma poll_finish_framed cx share : preserves P (poll_finish cx share).
Proof. unfold poll_finish. preserve. Qed.

Lemma share_check_alive_framed share : preserves P (ShareCall_check_alive share).
Proof. unfold ShareCall_check_alive. preserve. Qed.
#[local] Hint Resolve poll_finish_framed share_check_alive_framed : frame.

(** *** Streams *)

Lemma poll_msgs_framed start_answer fuel cx call self :
  preserves P (poll_msgs start_answer fuel cx call self).
Proof.
  revert self. induction fuel as [|fuel IH]; intros self; cbn [poll_msgs]; [preserve|].
  unfold start_recv_message. preserve.
Qed.
#[local] Hint Resolve poll_msgs_framed : frame.

Lemma stream_poll_framed start_answer cx call skip self :
  preserves P (StreamingBase_poll start_answer cx call skip self).
Proof. unfold StreamingBase_poll, poll_close_f. preserve. Qed.
#[local] Hint Resolve stream_poll_framed : frame.

Lemma request_poll_framed start_answer {T} (de : MessageReader SC -> Result Error T) cx share self :
  preserves P (RequestStream_poll_next start_answer de cx share self).
Proof. unfold RequestStream_poll_next. preserve. Qed.

Lemma response_loop_framed start_answer {T} (de : MessageReader SC -> Result Error T) fuel cx call self :
  preserves P (response_loop start_answer de fuel cx call self).
Proof.
  revert self. induction fuel as [|fuel IH]; intros self; cbn [response_loop]; [preserve|].
  unfold start_recv_message. preserve.
Qed.
#[local] Hint Resolve response_loop_framed : frame.

Lemma response_poll_framed start_answer {T} (de : MessageReader SC -> Result Error T) cx share self :
  preserves P (ResponseStreamImpl_poll start_answer de cx share self).
Proof. unfold ResponseStreamImpl_poll. preserve. Qed.

(** *** Sinks *)

Lemma send_buffer_framed start_answer call hint self :
  preserves P (start_send_buffer_message start_answer call hint self).
Proof. unfold start_send_buffer_message, start_send_message. preserve. Qed.
#[local] Hint Resolve send_buffer_framed : frame.

Lemma sink_ready_framed cx self : preserves P (SinkBase_poll_ready cx self).
Proof. unfold SinkBase_poll_ready. preserve. Qed.
#[local] Hint Resolve sink_ready_framed : frame.

Lemma sink_send_framed start_answer {T} call (t : T) fl ser self :
  preserves P (SinkBase_start_send start_answer call t fl ser self).
Proof. unfold SinkBase_start_send, start_send_rest. preserve. Qed.

Lemma sink_flush_framed start_answer cx call self :
  preserves P (SinkBase_poll_flush start_answer cx call self).
Proof. unfold SinkBase_poll_flush, flush_buffer. preserve. Qed.
End framed.

(** ** Futures nobody else polls *)

Section spared.
Context `{SC : SliceCore}.
Implicit Types w : World SC.

(** [f] is live, and not the future the sink polls. *)
Definition spared (f : BatchFuture) (self : SinkBase) w : Prop := live f w /\ si_batch_f self <> Some f.

Lemma live_lt f w : live f w -> f < length (handles w).
Proof. intros (g & Hg & _). by eapply lookup_lt_Some. Qed.

Lemma interfere_live f : preserves (live f) interfere.
Proof.
  intros w [] w' HP E. destruct (interfere_stable (live f) w _ HP) as (w1 & E1 & H1). congruence.
Qed.

Lemma poll_other_live cx f f' : f' <> f -> preserves (live f) (poll_future cx f').
Proof.
  intros Hne. apply preserves_bind; [apply interfere_live|]. intros [] w p w' HP E.
  destruct (handles w !! f') as [g|]; [|done]. destruct (CqFuture_poll cx g) as [[? ?]|]; [|done].
  injection E as <- <-. by apply set_handle_live.
Qed.

(** The future of a new batch is not one that was there before. *)
Lemma with_cq_ref_fresh start_answer bt call s f :
  hoare (live f) (with_cq_ref start_answer bt call s) (fun r w => live f w /\ r <> Ok f).
Proof.
  apply (hoare_bind _ _ _ (fun _ => live f)).
  - apply preserves_bind; [apply interfere_live|]. intros [] w p w' HP E.
    destruct (add_ref (w_cq w)) as [r h]. by injection E as <- <-.
  - intros [[]|e]; [|by apply hoare_ret].
    apply (hoare_bind _ _ _ (fun g w => live f w /\ g <> f)).
    + apply (hoare_bind _ _ _ (fun _ => live f)); [apply interfere_live|]. intros [] w g w' HP E.
      destruct (start_answer _ _ _ _); try done. injection E as <- <-.
      split; [apply (start_live bt call s w (w_cq w)); by left|].
      apply live_lt in HP. lia.
    + intros g. apply (hoare_bind _ _ _ (fun _ w => live f w /\ g <> f)).
      * by intros w [] w' HP [= <-].
      * intros []. apply hoare_ret. intros w [? ?]. split; [done|]. congruence.
Qed.

(** Used for a method that returns a result and the sink. *)
Definition keeps_spared {R} (f : BatchFuture) (self : SinkBase) (c : M (World SC) (R * SinkBase)) : Prop :=
  hoare (spared f self) c (fun x w => spared f x.2 w).

Lemma keeps_spared_bind {R R'} f self (c : M (World SC) (R * SinkBase))
    (k : R * SinkBase -> M (World SC) (R' * SinkBase)) :
  keeps_spared f self c -> (forall r self', keeps_spared f self' (k (r, self'))) ->
  keeps_spared f self (bind c k).
Proof. intros Hc Hk. eapply hoare_bind; [exact Hc|]. intros [r self']. apply Hk. Qed.

Lemma keeps_spared_ret {R} f self self' (r : R) :
  (si_batch_f self' = si_batch_f self \/ si_batch_f self' = None) -> keeps_spared f self (ret (r, self')).
Proof. intros H. apply hoare_ret. intros w [Hl Hb]. split; [done|]. simpl. destruct H; congruence. Qed.

(** Serializing a message does not touch the world. *)
Lemma keeps_spared_ser {T R} f self (ser : T -> GrpcSlice -> outcome GrpcSlice) t buf
    (k : GrpcSlice -> M (World SC) (R * SinkBase)) :
  (forall b, keeps_spared f self (k b)) -> keeps_spared f self (bind (run_ser ser t buf) k).
Proof.
  intros Hk w r w' HP E. unfold bind, run_ser in E. destruct (ser t buf); [|done].
  by eapply Hk.
Qed.

(** [spared] looks at the future of the sink only. *)
Lemma keeps_spared_same {R} f self self' (c : M (World SC) (R * SinkBase)) :
  si_batch_f self' = si_batch_f self -> keeps_spared f self' c -> keeps_spared f self c.
Proof. intros E H w r w' [? ?]. apply H. split; [done|]. by rewrite E. Qed.

Lemma send_buffer_spared start_answer call hint f self :
  keeps_spared f self (start_send_buffer_message start_answer call hint self).
Proof.
  intros w r w' [Hl Hb] E. unfold start_send_buffer_message, rassert, start_send_message in E.
  case_bool_decide as Hn; [|done]. unfold bind at 1 in E. simpl in E.
  destruct (si_buf_flags self) as [fl|]; [|done]. apply bind_Done in E as (x & w1 & [= <- <-] & E).
  apply bind_Done in E as (x & w1 & E1 & E).
  destruct (with_cq_ref_fresh start_answer _ _ _ f _ _ _ Hl E1) as [Hl1 Hx].
  destruct x as [g|e]; injection E as <- <-; split; simpl; congruence.
Qed.

Lemma sink_ready_spared cx f self : keeps_spared f self (SinkBase_poll_ready cx self).
Proof.
  unfold SinkBase_poll_ready. destruct (si_batch_f self) as [g|] eqn:Eg;
    [|apply keeps_spared_ret; auto].
  intros w r w' [Hl Hb] (p & w1 & E1 & E)%bind_Done.
  assert (live f w1) as Hl1 by (eapply poll_other_live; [|exact Hl|exact E1]; congruence).
  destruct p as [[?|?]|]; injection E as <- <-; split; simpl; congruence.
Qed.

Lemma send_rest_spared start_answer {T} call (t : T) fl ser f self :
  keeps_spared f self (start_send_rest start_answer call t fl ser self).
Proof.
  apply keeps_spared_ser. intros b. cbv beta zeta. case_match; [|by apply keeps_spared_ret; left].
  apply (keeps_spared_same f self
    (set_buffer b (Some fl) (si_last_buf_hint self && get_buffer_hint fl) self) _ eq_refl).
  apply send_buffer_spared.
Qed.

Lemma sink_send_spared start_answer {T} call (t : T) fl ser f self :
  keeps_spared f self (SinkBase_start_send start_answer call t fl ser self).
Proof.
  unfold SinkBase_start_send. destruct (si_send_metadata self); [|case_bool_decide].
  - apply keeps_spared_ser. intros b.
    apply (keeps_spared_same f self (set_buffer b (Some fl) (si_last_buf_hint self) self) _ eq_refl).
    apply keeps_spared_bind; [apply send_buffer_spared|].
    intros [[]|e] self'; by apply keeps_spared_ret; left.
  - apply keeps_spared_bind; [apply send_buffer_spared|].
    intros [[]|e] self'; [apply send_rest_spared | by apply keeps_spared_ret; left].
  - apply send_rest_spared.
Qed.

Lemma flush_buffer_spared start_answer cx call f self :
  keeps_spared f self (flush_buffer start_answer cx call self).
Proof.
  unfold flush_buffer. case_bool_decide; [|by apply keeps_spared_ret; left].
  apply keeps_spared_bind; [apply send_buffer_spared|].
  intros [[]|e] self'; [|by apply keeps_spared_ret; left].
  apply keeps_spared_bind; [apply sink_ready_spared|].
  intros [[[]|e]|] self2; by apply keeps_spared_ret; left.
Qed.

Lemma sink_flush_spared start_answer cx call f self :
  keeps_spared f self (SinkBase_poll_flush start_answer cx call self).
Proof.
  unfold SinkBase_poll_flush. case_bool_decide; [|apply flush_buffer_spared].
  apply keeps_spared_bind; [apply sink_ready_spared|].
  intros [[[]|e]|] self'; first [apply flush_buffer_spared | by apply keeps_spared_ret; left].
Qed.
End spared.
