(* ===== verification/ClientSpec.v ===== *)
(** Properties of the client calls of [ClientCall]: responses, response streams, sinks of
    requests, and call options. *)

From S2P Require Import Prelude Status Cq Buf Utf8 Metadata Task Call CallSpec ClientCall ServerCall Frame.

Local Open Scope rust_scope.

Section client_properties.
Context `{SC : SliceCore} `{SL : !SliceCoreLaws SC}.
Context start_answer `{CC : !CallCore start_answer}.
Context {Req Resp : Type} (req_ser : Req -> GrpcSlice -> outcome GrpcSlice)
  (resp_de : MessageReader SC -> Result Error Resp).

(** ** Response streams *)

(** Poll a response stream for each waker of a list until it ends or finds the queue shut
    down; the items it returned, and whether it ended. *)
Fixpoint response_polls (cxs : list Waker) (share : ShareCall) (self : ResponseStreamImpl)
    (items : list (Result Error Resp)) : M (World SC) (list (Result Error Resp) * bool) :=
  match cxs with
  | [] => ret (items, false)
  | cx :: cxs =>
      let* (p, share, self) := ResponseStreamImpl_poll start_answer resp_de cx share self in
      match p with
      | Pending => response_polls cxs share self items
      | Ready None => ret (items, true)
      | Ready (Some (Err QueueShutdown)) => ret (items ++ [Err QueueShutdown], false)
      | Ready (Some r) => response_polls cxs share self (items ++ [r])
      end
  end.

(** What a result of the batch that ends the call is reported as. *)
Definition failure (res : Result Error (option (MessageReader SC))) : list (Result Error Resp) :=
  match res with Ok _ => [] | Err e => [Err e] end.

(** One poll: it reports how the call failed, once; otherwise it is one round of reading. *)
Lemma response_poll_step cx share self Y w :
  RSInv share self Y w -> traced (sc_close_f share) w -> sc_finished share = rs_finished self ->
  exists p share' self' w', ResponseStreamImpl_poll start_answer resp_de cx share self w = Done ((p, share', self'), w') /\
    sc_call share' = sc_call share /\ sc_close_f share' = sc_close_f share /\ sc_finished share' = rs_finished self' /\
    ((exists e, rs_finished self = false /\ rs_finished self' = true /\ p = Ready (Some (Err e)) /\
        reported (sc_close_f share) (Err e) w' /\ RSInv share' self' Y w') \/
     ((rs_finished self' = rs_finished self \/
       rs_finished self = false /\ rs_finished self' = true /\ exists v, reported (sc_close_f share) (Ok v) w') /\
      match p with
      | Ready (Some r) => (exists m, r = resp_de m /\ RSInv share' self' (Y ++ [m]) w') \/
                          (r = Err QueueShutdown /\ behind (sc_call share) Y w')
      | Ready None => rs_finished self' = true /\ received (sc_call share) w' = oks Y ++ [Ok None]
      | Pending => RSInv share' self' Y w'
      end)).
Proof.
  intros HT Htr Hfin. unfold ResponseStreamImpl_poll.
  assert (forall share1 self1 w1, RSInv share1 self1 Y w1 ->
    exists p self' w', (let* (p, self) := response_loop start_answer resp_de 2 cx (sc_call share1) self1 in
        ret (p, share1, self)) w1 = Done ((p, share1, self'), w') /\ rs_finished self' = rs_finished self1 /\
    (forall r, reported (sc_close_f share) r w1 -> reported (sc_close_f share) r w') /\
    match p with
    | Ready (Some r) => (exists m, r = resp_de m /\ RSInv share1 self' (Y ++ [m]) w') \/
                        (r = Err QueueShutdown /\ behind (sc_call share1) Y w')
    | Ready None => rs_finished self' = true /\ received (sc_call share1) w' = oks Y ++ [Ok None]
    | Pending => RSInv share1 self' Y w'
    end) as Hloop.
  { clear self w HT Htr Hfin. intros share1 self1 w1 HT.
    destruct (response_loop_spec start_answer resp_de cx share1 self1 Y w1 HT) as (p & self' & w' & E & Hp).
    exists p, self', w'. unfold bind. rewrite E. split; [done|]. split; [|split].
    - rewrite (response_loop_is_poll_msgs start_answer resp_de 2 cx _ (sc_close_f share1)) in E.
      destruct (poll_msgs _ _ _ _ _ _) as [[[q b] w2]|]; [|done]. by injection E as <- <- <-.
    - intros r Hr. by eapply (response_loop_framed (reported _ r)).
    - destruct p as [[r|]|]; [done| |done]. destruct Hp as (HT' & Hd & Hf). split; [done|].
      destruct HT' as (_ & _ & _ & HT'). simpl in HT'. rewrite Hd in HT'. apply HT'. }
  destruct (rs_finished self) eqn:Hf.
  - destruct (Hloop share self w HT) as (p & self' & w' & E & Hf' & _ & Hp).
    exists p, share, self', w'. split; [done|]. split; [done|]. split; [done|]. split; [congruence|]. right.
    split; [by left; congruence|done].
  - unfold poll_finish. unfold bind at 1.
    destruct (poll_close_future_spec cx (sc_call share) (to_base (sc_close_f share) self)
      (sc_close_f share) Y w HT) as (p & w1 & E & Hp); [simpl; by rewrite Hf|].
    unfold bind at 1. rewrite E. destruct p as [res|].
    + pose proof (poll_future_reported _ _ _ _ _ Htr E) as Hrep.
      set (share1 := mkShareCall (sc_call share) (sc_close_f share) true _).
      set (self1 := mkResponseStream (rs_msg_f self) (rs_read_done self) true).
      assert (RSInv share1 self1 Y w1) as HT1 by exact Hp. destruct res as [v|e]; cbn.
      * destruct (Hloop share1 self1 w1 HT1) as (p & self' & w' & E' & Hf' & Hk & Hp').
        exists p, share1, self', w'. split; [exact E'|]. split; [done|]. split; [done|]. split; [by rewrite Hf'|]. right.
        split; [|done]. right. split; [done|]. split; [by rewrite Hf'|]. exists v. by apply Hk.
      * eexists _, share1, self1, w1. split; [reflexivity|]. split; [done|]. split; [done|]. split; [done|]. left. by exists e.
    + cbn. rewrite Hfin. assert (RSInv share (mkResponseStream (rs_msg_f self) (rs_read_done self) false) Y w1) as HT1.
      { unfold RSInv, to_base in *. simpl. by rewrite Hf in Hp. }
      destruct (Hloop share _ w1 HT1) as (p & self' & w' & E' & Hf' & _ & Hp').
      exists p, share, self', w'. split; [exact E'|]. split; [done|]. split; [done|]. split; [by rewrite Hf', Hfin|]. right.
      split; [by left; rewrite Hf'|done].
Qed.

(** What a run has returned: the decoded messages, and between them how the call failed. *)
Definition returned (f : BatchFuture) (items : list (Result Error Resp)) (fin : bool)
    (Y : list (MessageReader SC)) (w : World SC) : Prop :=
  exists Y1 Y2 failed, Y = Y1 ++ Y2 /\ items = (resp_de <$> Y1) ++ failed ++ (resp_de <$> Y2) /\
    if fin then exists res, reported f res w /\ failed = failure res else failed = [].

Lemma returned_message f items fin Y m w :
  returned f items fin Y w -> returned f (items ++ [resp_de m]) fin (Y ++ [m]) w.
Proof.
  intros (Y1 & Y2 & failed & -> & -> & H). exists Y1, (Y2 ++ [m]), failed. rewrite fmap_app, <-!app_assoc. done.
Qed.

Lemma returned_grows f items fin Y w w' : (forall res, reported f res w -> reported f res w') ->
  returned f items fin Y w -> returned f items fin Y w'.
Proof.
  intros Hk (Y1 & Y2 & failed & HY & Hi & H). exists Y1, Y2, failed. split; [done|]. split; [done|].
  destruct fin; [|done]. destruct H as (res & Hr & Hf). eauto.
Qed.

Lemma returned_end f items fin Y w v : returned f items false Y w -> reported f v w ->
  (fin = true -> failure v = []) -> returned f items fin Y w.
Proof.
  intros (Y1 & Y2 & failed & -> & -> & ->) Hv Hf. exists Y1, Y2, []. split; [done|]. split; [done|].
  destruct fin; [|done]. exists v. split; [done|]. by rewrite Hf.
Qed.

Lemma returned_failure f items e Y w : returned f items false Y w -> reported f (Err e) w ->
  returned f (items ++ [Err e]) true Y w.
Proof.
  intros (Y1 & Y2 & failed & -> & -> & ->) He. exists (Y1 ++ Y2), [], [Err e]. rewrite app_nil_r. split; [done|].
  split; [by rewrite fmap_app|]. by exists (Err e).
Qed.

Lemma response_polls_spec cxs share self Y items w :
  RSInv share self Y w -> traced (sc_close_f share) w -> sc_finished share = rs_finished self ->
  returned (sc_close_f share) items (rs_finished self) Y w ->
  exists out ended fin Y' tail last w',
    response_polls cxs share self items w = Done ((out ++ tail, ended), w') /\
    returned (sc_close_f share) out fin Y' w' /\ (tail = [] \/ tail = [Err QueueShutdown]) /\
    received (sc_call share) w' = oks Y' ++ last /\ length last <= 1 /\
    (ended = true -> fin = true /\ tail = [] /\ last = [Ok None]).
Proof.
  revert share self Y items w. induction cxs as [|cx cxs IH]; intros share self Y items w HT Htr Hfin Hret;
    cbn [response_polls].
  { destruct (TInv_behind _ _ _ _ HT) as (last & Hr & Hl). exists items, false, (rs_finished self), Y, [], last, w.
    rewrite app_nil_r. split_and!; first [done | by left | by right]. }
  destruct (response_poll_step cx share self Y w HT Htr Hfin) as (p & share' & self' & w' & E & Hc & Hcl & Hfin' & Hp).
  pose proof (response_poll_framed (traced (sc_close_f share)) _ _ _ _ _ _ _ _ Htr E) as Htr'.
  assert (returned (sc_close_f share) items (rs_finished self) Y w') as Hret'.
  { eapply returned_grows; [|exact Hret]. intros res Hr. by eapply (response_poll_framed (reported _ res)). }
  unfold bind. rewrite E. destruct Hp as [(e & Hf & Hf' & -> & Hrep & HT')|[Hf Hp]].
  - rewrite Hf in Hret'. apply (returned_failure _ _ _ _ _ Hret') in Hrep.
    assert (exists out ended fin Y' tail last w'',
      response_polls cxs share' self' (items ++ [Err e]) w' = Done ((out ++ tail, ended), w'') /\
      returned (sc_close_f share) out fin Y' w'' /\ (tail = [] \/ tail = [Err QueueShutdown]) /\
      received (sc_call share) w'' = oks Y' ++ last /\ length last <= 1 /\
      (ended = true -> fin = true /\ tail = [] /\ last = [Ok None])) as Hgo.
    { pose proof (IH share' self' Y (items ++ [Err e]) w' HT') as Hgo. rewrite Hc, Hcl in Hgo. apply Hgo; [done..|].
      by rewrite Hf'. }
    destruct e; try exact Hgo. destruct (TInv_behind _ _ _ _ HT') as (last & Hr & Hl).
    eexists (items ++ [_]), false, true, Y, [], last, w'. rewrite app_nil_r, <-Hc. split_and!; first [done | by left | by right].
  - assert (returned (sc_close_f share) items (rs_finished self') Y w') as Hret2.
    { destruct Hf as [-> |(Hf & -> & v & Hv)]; [done|]. rewrite Hf in Hret'. by eapply returned_end. }
    destruct p as [[r|]|].
    + destruct Hp as [(m & -> & HT')|[-> (last & Hr & Hl)]].
      * assert (exists out ended fin Y' tail last w'',
          response_polls cxs share' self' (items ++ [resp_de m]) w' = Done ((out ++ tail, ended), w'') /\
          returned (sc_close_f share) out fin Y' w'' /\ (tail = [] \/ tail = [Err QueueShutdown]) /\
          received (sc_call share) w'' = oks Y' ++ last /\ length last <= 1 /\
          (ended = true -> fin = true /\ tail = [] /\ last = [Ok None])) as Hgo.
        { pose proof (IH share' self' (Y ++ [m]) (items ++ [resp_de m]) w' HT') as Hgo. rewrite Hc, Hcl in Hgo.
          apply Hgo; [done..|]. by apply returned_message. }
        apply (returned_message _ _ _ _ m) in Hret2. destruct (resp_de m) as [t|e]; [exact Hgo|].
        destruct e; try exact Hgo. destruct (TInv_behind _ _ _ _ HT') as (last & Hr & Hl).
        eexists (items ++ [_]), false, (rs_finished self'), (Y ++ [m]), [], last, w'. rewrite app_nil_r, <-Hc. split_and!; first [done | by left | by right].
      * exists items, false, (rs_finished self'), Y, [Err QueueShutdown], last, w'. split_and!; first [done | by left | by right].
    + destruct Hp as [Hend Hr]. exists items, true, (rs_finished self'), Y, [], [Ok None], w'.
      rewrite app_nil_r. split_and!; first [done | by left | by right].
    + pose proof (IH share' self' Y items w' Hp) as Hgo. rewrite Hc, Hcl in Hgo. by apply Hgo.
Qed.

(** C20: the receiver of a response stream (server streaming or duplex) of a call that was
    started, polled until it ends or finds the queue shut down, never panics.  The items it
    returns are the decoded messages that the core delivered, each once and in order, with
    the failure of the call, which is what the core reported for it, at most once between
    them, and the shutdown of the queue at most at the end; what was delivered and not
    returned is at most one completed read.  When the stream ends, the call has ended and its
    failure, if it failed, was returned, and so was every message. *)
Theorem response_stream_in_order (call : nat) (f : BatchFuture) (cxs : list Waker) (w : World SC) g :
  WInv w -> handles w !! f = Some g -> stale g = false -> result g = None ->
  ~ running call RECV_MESSAGE (inflight w) -> received call w = [] ->
  exists ended Y1 Y2 failed tail last w',
    response_polls cxs (ShareCall_new call f) ResponseStreamImpl_new [] w =
      Done ((((resp_de <$> Y1) ++ failed ++ (resp_de <$> Y2)) ++ tail, ended), w') /\
    (failed = [] \/ exists res, reported f res w' /\ failed = failure res) /\
    (tail = [] \/ tail = [Err QueueShutdown]) /\
    received call w' = oks (Y1 ++ Y2) ++ last /\ length last <= 1 /\
    (ended = true -> tail = [] /\ last = [Ok None] /\ exists res, reported f res w' /\ failed = failure res).
Proof.
  intros HW Hg Hs Hn Hr Hrec.
  destruct (response_polls_spec cxs (ShareCall_new call f) ResponseStreamImpl_new [] [] w) as
    (out & ended & fin & Y' & tail & last & w' & E & (Y1 & Y2 & failed & -> & -> & Hf) & Ht & Hl & Hle & He).
  - split; [done|]. split; [by exists g|]. split; [done|]. split; [by apply only_running_None|done].
  - intros g' r Hg' Hr'. simpl in Hg'. congruence.
  - done.
  - by exists [], [], [].
  - exists ended, Y1, Y2, failed, tail, last, w'. split; [exact E|].
    split; [destruct fin; [by right|by left]|]. split; [done|]. split; [done|]. split; [done|].
    intros Hend. destruct (He Hend) as (-> & -> & ->). done.
Qed.

(** What the receiver of a unary call returns when the core completes the call: the
    failure the server sent, the decoded message of a successful call, and a panic for a
    successful call without a message. *)
Theorem unary_receiver_result (cx : Waker) (self : ClientUnaryReceiver) (w : World SC)
    (ctx : BatchContext SC) g c s rest :
  handles w !! ur_resp_f self = Some g -> stale g = false ->
  inflight w !! ur_resp_f self = Some (CheckRead, c, s) ->
  sched w = [EvResolve (ur_resp_f self) true ctx] :: rest ->
  let poll := ClientUnaryReceiver_poll resp_de cx self w in
  (bc_status ctx <> 0%Z ->
     exists w', poll = Done (Ready (Err (RpcFailure (rpc_status ctx))), w')) /\
  (bc_status ctx = 0%Z -> forall buf reader, bc_recv_message ctx = Some buf ->
     Reader_new buf = Done reader -> exists w', poll = Done (Ready (resp_de reader), w')) /\
  (bc_status ctx = 0%Z -> bc_recv_message ctx = None -> exists m, poll = Panicked m).
Proof.
  intros Hg Hst Hi Hs. simpl. unfold ClientUnaryReceiver_poll, poll_future, interfere, bind.
  rewrite Hs. simpl. unfold resolve_tag, set_sched. simpl. rewrite Hi, Hg. simpl.
  unfold handle_unary_response, rpc_status, recv_message.
  split; [|split].
  - intros Hc. rewrite !(bool_decide_eq_false_2 (mkRpcStatusCode (bc_status ctx) = CODE_OK))
      by (by intros [= ?]). simpl.
    rewrite list_lookup_insert_eq by (by eapply lookup_lt_Some).
    unfold CqFuture_poll. simpl. rewrite Hst. eauto.
  - intros Hc buf reader Hb Hrd. rewrite Hc, Hb, Hrd. simpl.
    rewrite list_lookup_insert_eq by (by eapply lookup_lt_Some).
    unfold CqFuture_poll. simpl. rewrite Hst. eauto.
  - intros Hc Hb. rewrite Hc, Hb. simpl.
    rewrite list_lookup_insert_eq by (by eapply lookup_lt_Some).
    unfold CqFuture_poll. simpl. rewrite Hst. eauto.
Qed.

(** Once a call is finished, or its end has arrived at the library, its sink refuses
    further messages with the status of the call, and hands nothing more to the core. *)
Theorem call_sink_refuses_after_end (share : ShareCall) (msg : Req) (wflags : WriteFlags)
    (self : StreamingCallSink) (w : World SC) :
  (sc_finished share = true ->
     StreamingCallSink_start_send start_answer req_ser share msg wflags self w =
       Done ((Err (RpcFinished (sc_status share)), self), w)) /\
  (forall g r, sc_finished share = false -> sched w = [] ->
     handles w !! sc_close_f share = Some g -> result g = Some r ->
     StreamingCallSink_start_send start_answer req_ser share msg wflags self w =
       Done ((Err (RpcFinished (match r with Err (RpcFailure st) => Some st | _ => None end)), self), w)).
Proof.
  unfold StreamingCallSink_start_send, ShareCall_check_alive. split.
  - intros ->. done.
  - intros g r -> Hs Hg Hr. unfold check_alive_future, interfere, bind. rewrite Hs, Hg.
    unfold check_alive. rewrite Hr. destruct r as [v|e]; [done|]. by destruct e.
Qed.
End client_properties.

(** The flags of a call option are independent: setting one changes its bit only, and
    the value stays a 32-bit word. *)
Theorem call_option_flags (opt : CallOption) (b : bool) :
  (0 <= co_call_flags opt < U32)%Z ->
  (forall i, (0 <= i < 32)%Z ->
     Z.testbit (co_call_flags (idempotent opt b)) i =
       (if bool_decide (i = 4)%Z then b else Z.testbit (co_call_flags opt) i) /\
     Z.testbit (co_call_flags (wait_for_ready opt b)) i =
       (if bool_decide (i = 5)%Z then b else Z.testbit (co_call_flags opt) i) /\
     Z.testbit (co_call_flags (cacheable opt b)) i =
       (if bool_decide (i = 6)%Z then b else Z.testbit (co_call_flags opt) i)) /\
  (0 <= co_call_flags (idempotent opt b) < U32)%Z /\
  (0 <= co_call_flags (wait_for_ready opt b) < U32)%Z /\
  (0 <= co_call_flags (cacheable opt b) < U32)%Z.
Proof.
  intros Hr. split; [|split; [|split]].
  - intros i Hi. split; [|split].
    + apply (change_flag_testbit _ 4); lia.
    + apply (change_flag_testbit _ 5); lia.
    + apply (change_flag_testbit _ 6); lia.
  - apply (change_flag_range _ 4); lia.
  - apply (change_flag_range _ 5); lia.
  - apply (change_flag_range _ 6); lia.
Qed.

(** ** Concrete runs *)

Definition next_call (hist : list CoreCall) : option nat := Some 7.

Definition raw_de (r : MessageReader list_core) : Result Error (list byte) := Ok (fill_buf r).

(** Closing the sink of a call in the enhanced mode without flushing it first reports
    success but never sends the message it held back. *)
Theorem call_sink_close_drops_message :
  exists share sink recv w1,
    duplex_streaming any_answer next_call "/m" CallOption_default (world0 []) =
      Done (Ok (share, sink, recv), w1) /\
    exists sink1 w2,
      StreamingCallSink_start_send any_answer raw_ser share [x01] WriteFlags_default
        (enhance_batch true sink) w1 = Done ((Ok tt, sink1), w2) /\
      exists sink2 w3,
        StreamingCallSink_poll_close any_answer 1 share sink1
          (set_sched [[]; []; [EvResolve 2 true ctx_ok]] w2) = Done ((Ready (Ok tt), sink2), w3) /\
        existsb (started 7 SEND_CLOSE_FROM_CLIENT) (calls w3) = true /\ sent 7 (calls w3) = [].
Proof.
  eexists _, _, _, _. split; [vm_compute; reflexivity|].
  eexists _, _. split; [vm_compute; reflexivity|].
  eexists _, _. split; [vm_compute; reflexivity|].
  split; vm_compute; reflexivity.
Qed.

(** A client call starts its first batch without a reference of the queue: when the
    queue is shut down after the call was created, the batch is started on a queue whose
    native shutdown has begun. *)
Theorem client_start_unprotected :
  exists r w, unary_async any_answer next_call raw_ser "/m" [x01] CallOption_default
      (world0 [[]; []; [EvShutdown]]) = Done (Ok r, w) /\ late w = 1.
Proof. eexists _, _. split; vm_compute; reflexivity. Qed.

(** ** Witnesses *)

(** A duplex call that was just started; a message arrives, the call fails, and the messages
    end. *)
Definition started_duplex (schedule : list (list (Event list_core))) : World list_core :=
  mkWorld [NotifyHandle_new] {[0 := (Finish, 7, StartDuplexStreaming None 0)]}
    CompletionQueueHandle_new [] 0 [] [] schedule.

Definition demo_responses : list (list (Event list_core)) :=
  [[]; []; []; [EvResolve 1 true (ctx_msg [x05])]; []; []; [EvResolve 0 false ctx_ok]; []; [EvResolve 2 true ctx_ok]].

Lemma started_duplex_ready schedule :
  WInv (started_duplex schedule) /\ ~ running 7 RECV_MESSAGE (inflight (started_duplex schedule)).
Proof.
  split.
  - intros t e Ht. simpl in Ht. apply lookup_singleton_Some in Ht as [<- _]. by exists NotifyHandle_new.
  - intros (t & ty & s & Ht & Hop). simpl in Ht. apply lookup_singleton_Some in Ht as [_ E]. injection E as <- <-.
    simpl in Hop. by repeat (apply elem_of_cons in Hop as [?|Hop]; [done|]); apply not_elem_of_nil in Hop.
Qed.

Lemma response_stream_in_order_witness :
  exists ended Y1 Y2 failed tail last w',
    response_polls any_answer raw_de [1; 1; 1; 1] (ShareCall_new 7 0) ResponseStreamImpl_new []
      (started_duplex demo_responses) =
      Done ((((raw_de <$> Y1) ++ failed ++ (raw_de <$> Y2)) ++ tail, ended), w') /\
    received 7 w' = oks (Y1 ++ Y2) ++ last.
Proof.
  destruct (response_stream_in_order (SC:=list_core) any_answer raw_de 7 0 [1; 1; 1; 1]
    (started_duplex demo_responses) NotifyHandle_new (proj1 (started_duplex_ready _)) eq_refl eq_refl eq_refl
    (proj2 (started_duplex_ready _)) eq_refl) as (ended & Y1 & Y2 & failed & tail & last & w' & E & _ & _ & Hr & _).
  exists ended, Y1, Y2, failed, tail, last, w'. exact (conj E Hr).
Defined.

Example demo_responses_returned :
  match response_polls any_answer raw_de [1; 1; 1; 1] (ShareCall_new 7 0) ResponseStreamImpl_new []
          (started_duplex demo_responses) with
  | Done (r, _) => r = ([Ok [x05]; Err RemoteStopped], true)
  | Panicked _ => False
  end.
Proof. vm_compute. reflexivity. Qed.

Definition unary_world (ctx : BatchContext list_core) : World list_core :=
  mkWorld [NotifyHandle_new] {[0 := (CheckRead, 7, StartUnary [x01] 0 None 0)]}
    CompletionQueueHandle_new [] 0 [] [] [[EvResolve 0 true ctx]].

Lemma unary_receiver_result_witness :
  (exists w', ClientUnaryReceiver_poll raw_de 1 (mkUnaryReceiver 7 0) (unary_world (ctx_msg [x05])) =
    Done (Ready (Ok [x05]), w')) /\
  (exists m, ClientUnaryReceiver_poll raw_de 1 (mkUnaryReceiver 7 0) (unary_world ctx_ok) = Panicked m).
Proof.
  split.
  - apply (unary_receiver_result (SC:=list_core) raw_de 1 (mkUnaryReceiver 7 0)
      (unary_world (ctx_msg [x05])) (ctx_msg [x05]) NotifyHandle_new 7 (StartUnary [x01] 0 None 0) [])
      with (buf := ([inline_slice [x05]] : list GrpcSlice))
           (reader := mkReader (C:=list_core) (([] : list GrpcSlice), 1) (inline_slice [x05]) 0 1);
      reflexivity.
  - apply (unary_receiver_result (SC:=list_core) raw_de 1 (mkUnaryReceiver 7 0)
      (unary_world ctx_ok) ctx_ok NotifyHandle_new 7 (StartUnary [x01] 0 None 0) []);
      reflexivity.
Defined.

Lemma call_sink_refuses_after_end_witness :
  StreamingCallSink_start_send any_answer raw_ser
    (mkShareCall 7 0 true (Some (RpcStatus_new CODE_NOT_FOUND))) [x01] WriteFlags_default
    StreamingCallSink_new (world0 []) =
  Done ((Err (RpcFinished (Some (RpcStatus_new CODE_NOT_FOUND))), StreamingCallSink_new), world0 []).
Proof.
  apply (call_sink_refuses_after_end (SC:=list_core) any_answer raw_ser
    (mkShareCall 7 0 true (Some (RpcStatus_new CODE_NOT_FOUND))) [x01] WriteFlags_default
    StreamingCallSink_new (world0 [])). reflexivity.
Defined.

Lemma call_option_flags_witness : co_call_flags (cacheable CallOption_default true) = 64%Z /\
  (0 <= co_call_flags (cacheable CallOption_default true) < U32)%Z.
Proof.
  split; [reflexivity|]. apply (call_option_flags CallOption_default true).
  simpl. unfold U32. lia.
Defined.
