(* ===== verification/Client.v ===== *)
(** The generic client (client.rs): it delegates to the calls of [ClientCall] on its
    channel; creating it makes the call that is used to kick the queue, and the blocking
    unary call polls the receiver until it is ready. *)

From S2P Require Import Prelude Status Cq Executor Buf Utf8 Metadata Task Call CallSpec ClientCall ClientSpec.

Local Open Scope rust_scope.

Section client.
Context `{SC : SliceCore}.
Context (start_answer : list CoreCall -> gmap nat (BatchType * nat * Start) ->
                        nat -> Start -> grpc_call_error).
Context (create_call_ptr : list CoreCall -> option nat).
Context {Req Resp : Type}.
Context (req_ser : Req -> GrpcSlice -> outcome GrpcSlice).
Context (resp_de : MessageReader SC -> Result Error Resp).

(** [Client], known by the call of its kicker. *)
Record Client := mkClient { kicker : nat }.

(** [Client::new]. *)
Definition Client_new : M (World SC) Client :=
  let* k := create_kicker create_call_ptr in
  match k with
  | Ok call => ret (mkClient call)
  | Err _ => panic "called `Result::unwrap()` on an `Err` value"
  end.

Definition unary_call_async (self : Client) (method : string) (req : Req) (opt : CallOption) :
    M (World SC) (Result Error ClientUnaryReceiver) :=
  unary_async start_answer create_call_ptr req_ser method req opt.

(** [block_on] a receiver: it is polled again each time its waker was called, here after
    each entry of the schedule; [None] while it still blocks. *)
Fixpoint block_on (fuel : nat) (f : ClientUnaryReceiver) :
    M (World SC) (option (Result Error Resp)) :=
  match fuel with
  | 0 => ret None
  | S fuel =>
      let* p := ClientUnaryReceiver_poll resp_de 0 f in
      match p with
      | Ready r => ret (Some r)
      | Pending => block_on fuel f
      end
  end.

Definition unary_call (fuel : nat) (self : Client) (method : string) (req : Req)
    (opt : CallOption) : M (World SC) (option (Result Error Resp)) :=
  let* r := unary_call_async self method req opt in
  match r with
  | Err e => ret (Some (Err e))
  | Ok f => block_on fuel f
  end.

Definition Client_client_streaming (self : Client) (method : string) (opt : CallOption) :
    M (World SC) (Result Error (ShareCall * StreamingCallSink * ClientCStreamReceiver)) :=
  client_streaming start_answer create_call_ptr method opt.

Definition Client_server_streaming (self : Client) (method : string) (req : Req) (opt : CallOption) :
    M (World SC) (Result Error (ShareCall * ResponseStreamImpl)) :=
  server_streaming start_answer create_call_ptr req_ser method req opt.

Definition Client_duplex_streaming (self : Client) (method : string) (opt : CallOption) :
    M (World SC) (Result Error (ShareCall * StreamingCallSink * ResponseStreamImpl)) :=
  duplex_streaming start_answer create_call_ptr method opt.

(** [spawn]: the task and its first poll, and the call its wakers kick the queue with. *)
Definition Client_spawn (self : Client) : SpawnTask * epc * nat := (spawn, kicker self).
End client.

(** A blocking call whose response the core delivers while it blocks returns the decoded
    response, and one made on a queue that is shut down returns the error at once. *)
Example client_unary_call_runs :
  (exists w, unary_call any_answer next_call raw_ser raw_de 5
     (mkClient 0) "/m" [x01] CallOption_default
     (world0 [[]; []; []; []; [EvResolve 0 true (ctx_msg [x02; x03])]]) =
     Done (Some (Ok [x02; x03]), w)) /\
  (exists w, unary_call any_answer next_call raw_ser raw_de 5
     (mkClient 0) "/m" [x01] CallOption_default (world0 [[EvShutdown]]) =
     Done (Some (Err QueueShutdown), w)).
Proof. split; eexists; vm_compute; reflexivity. Qed.
