(* ===== verification/Address.v ===== *)
(** Addresses to listen on: [join_host_port] of src/src/server.rs.

    The function depends on the address literals the standard library accepts and on how it
    prints them, so the parser of [std::net] (strict octets: at most three digits and no
    leading zero) and the [Display] implementations of the addresses (those of Rust 1.73 and
    later: only IPv4-mapped addresses are printed with an IPv4 tail) are written out here. *)

From S2P Require Import Prelude.
From Stdlib Require Import Ascii.
From stdpp Require Import strings.

Local Open Scope rust_scope.
Local Open Scope string_scope.

(** ** Digits *)

Definition char_code (c : ascii) : Z := Z.of_N (N_of_ascii c).

Definition between (lo hi x : Z) : bool := Z.leb lo x && Z.leb x hi.

(** [char::to_digit], for a radix of at most 16. *)
Definition to_digit (radix : Z) (c : ascii) : option Z :=
  let n := char_code c in
  let d := if between 48 57 n then Some (n - 48)%Z
           else if between 97 122 n then Some (n - 87)%Z
           else if between 65 90 n then Some (n - 55)%Z
           else None in
  match d with
  | Some d => if Z.ltb d radix then Some d else None
  | None => None
  end.

(** The digit printed for a value below 16. *)
Definition from_digit (d : Z) : ascii :=
  ascii_of_N (Z.to_N (if Z.ltb d 10 then d + 48 else d + 87)%Z).

(** The digits of a number, most significant first, before [acc]; [fuel] digits at most after
    the last one. *)
Fixpoint fmt_digits (fuel : nat) (radix n : Z) (acc : string) : string :=
  let acc := String (from_digit (n mod radix)%Z) acc in
  match fuel with
  | 0 => acc
  | S fuel => if Z.eqb (n / radix)%Z 0 then acc else fmt_digits fuel radix (n / radix)%Z acc
  end.

(** [{}] and [{:x}] of a [u16] or [u8]: five decimal digits are enough. *)
Definition fmt_dec (n : Z) : string := fmt_digits 4 10 n "".
Definition fmt_hex (n : Z) : string := fmt_digits 3 16 n "".

(** ** The parser of std::net *)

(** A step of the parser: what it read and the text left, or nothing ([read_atomically]
    then restores the text). *)
Definition Parser (A : Type) : Type := string -> option (A * string).

Definition read_given_char (target : ascii) : Parser unit := fun s =>
  match s with
  | String c s => if bool_decide (c = target) then Some (tt, s) else None
  | "" => None
  end.

(** [read_separator]. *)
Definition read_separator {A} (sep : ascii) (index : nat) (inner : Parser A) : Parser A := fun s =>
  match index with
  | 0 => inner s
  | S _ => match read_given_char sep s with
           | Some (_, s) => inner s
           | None => None
           end
  end.

(** The loop of [read_number], in a type whose largest value is [max]. *)
Fixpoint read_digits (max radix : Z) (max_digits : nat) (result : Z) (digit_count : nat)
    (s : string) : option (Z * nat * string) :=
  match s with
  | "" => Some (result, digit_count, s)
  | String c s' =>
      match to_digit radix c with
      | None => Some (result, digit_count, s)
      | Some digit =>
          if Z.ltb max (result * radix)%Z then None
          else if Z.ltb max (result * radix + digit)%Z then None
          else if Nat.ltb max_digits (S digit_count) then None
          else read_digits max radix max_digits (result * radix + digit)%Z (S digit_count) s'
      end
  end.

Definition starts_with_zero (s : string) : bool :=
  match s with String "0" _ => true | _ => false end.

Definition read_number (max radix : Z) (max_digits : nat) (allow_zero_prefix : bool) : Parser Z :=
  fun s =>
  match read_digits max radix max_digits 0 0 s with
  | None => None
  | Some (result, digit_count, rest) =>
      if bool_decide (digit_count = 0) then None
      else if negb allow_zero_prefix && starts_with_zero s && Nat.ltb 1 digit_count then None
      else Some (result, rest)
  end.

Record Ipv4Addr := mkIpv4 { octet0 : Z; octet1 : Z; octet2 : Z; octet3 : Z }.

Definition read_octet (i : nat) : Parser Z := read_separator "." i (read_number 255 10 3 false).

Definition read_ipv4_addr : Parser Ipv4Addr := fun s =>
  match read_octet 0 s with
  | None => None
  | Some (a, s) =>
      match read_octet 1 s with
      | None => None
      | Some (b, s) =>
          match read_octet 2 s with
          | None => None
          | Some (c, s) =>
              match read_octet 3 s with
              | None => None
              | Some (d, s) => Some (mkIpv4 a b c d, s)
              end
          end
      end
  end.

(** [read_groups] from index [i] on, [n] groups to fill: the groups read, whether the
    last two are an IPv4 address, and the text left. *)
Fixpoint read_groups (n i : nat) (s : string) : list Z * bool * string :=
  match n with
  | 0 => ([], false, s)
  | S n =>
      let group (s : string) :=
        match read_separator ":" i (read_number 65535 16 4 true) s with
        | Some (g, s) =>
            let '(gs, v4, s) := read_groups n (S i) s in (g :: gs, v4, s)
        | None => ([], false, s)
        end in
      match n with
      | 0 => group s
      | S _ =>
          match read_separator ":" i read_ipv4_addr s with
          | Some (v4, s) =>
              ([(octet0 v4 * 256 + octet1 v4)%Z; (octet2 v4 * 256 + octet3 v4)%Z], true, s)
          | None => group s
          end
      end
  end.

Definition read_ipv6_addr : Parser (list Z) := fun s =>
  let '(head, head_ipv4, s) := read_groups 8 0 s in
  if bool_decide (length head = 8) then Some (head, s)
  else if head_ipv4 then None
  else
    match read_given_char ":" s with
    | None => None
    | Some (_, s) =>
        match read_given_char ":" s with
        | None => None
        | Some (_, s) =>
            let '(tail, _, s) := read_groups (8 - (length head + 1)) 0 s in
            Some ((head ++ replicate (8 - length head - length tail) 0%Z ++ tail)%list, s)
        end
    end.

(** The segments of an IPv6 address, eight of 16 bits. *)
Inductive IpAddr := V4 (a : Ipv4Addr) | V6 (segments : list Z).

Definition read_ip_addr : Parser IpAddr := fun s =>
  match read_ipv4_addr s with
  | Some (a, s) => Some (V4 a, s)
  | None => match read_ipv6_addr s with
            | Some (a, s) => Some (V6 a, s)
            | None => None
            end
  end.

(** [FromStr for IpAddr]: all of the text is used. *)
Definition parse_ip (s : string) : option IpAddr :=
  match read_ip_addr s with
  | Some (a, "") => Some a
  | _ => None
  end.

(** ** Display *)

Definition fmt_ipv4 (a : Ipv4Addr) : string :=
  fmt_dec (octet0 a) +:+ "." +:+ fmt_dec (octet1 a) +:+ "." +:+
  fmt_dec (octet2 a) +:+ "." +:+ fmt_dec (octet3 a).

(** [to_ipv4_mapped]. *)
Definition to_ipv4_mapped (segments : list Z) : option Ipv4Addr :=
  match segments with
  | [0; 0; 0; 0; 0; 65535; x; y]%Z => Some (mkIpv4 (x / 256) (x mod 256) (y / 256) (y mod 256))
  | _ => None
  end.

Record Span := mkSpan { sp_start : nat; sp_len : nat }.

(** The loop that finds the longest run of zero segments. *)
Fixpoint zero_span (segments : list Z) (i : nat) (current longest : Span) : Span :=
  match segments with
  | [] => longest
  | segment :: segments =>
      if Z.eqb segment 0 then
        let current := mkSpan (if bool_decide (sp_len current = 0) then i else sp_start current)
                              (S (sp_len current)) in
        zero_span segments (S i) current
          (if Nat.ltb (sp_len longest) (sp_len current) then current else longest)
      else zero_span segments (S i) (mkSpan 0 0) longest
  end.

Fixpoint fmt_tail (chunk : list Z) : string :=
  match chunk with
  | [] => ""
  | segment :: chunk => ":" +:+ fmt_hex segment +:+ fmt_tail chunk
  end.

Definition fmt_subslice (chunk : list Z) : string :=
  match chunk with
  | [] => ""
  | first :: tail => fmt_hex first +:+ fmt_tail tail
  end.

Definition fmt_ipv6 (segments : list Z) : string :=
  match to_ipv4_mapped segments with
  | Some ipv4 => "::ffff:" +:+ fmt_ipv4 ipv4
  | None =>
      let zeroes := zero_span segments 0 (mkSpan 0 0) (mkSpan 0 0) in
      if Nat.ltb 1 (sp_len zeroes) then
        fmt_subslice (take (sp_start zeroes) segments) +:+ "::" +:+
        fmt_subslice (drop (sp_start zeroes + sp_len zeroes) segments)
      else fmt_subslice segments
  end.

(** [Display for SocketAddr]. *)
Definition fmt_socket_addr (ip : IpAddr) (port : Z) : string :=
  match ip with
  | V4 a => fmt_ipv4 a +:+ ":" +:+ fmt_dec port
  | V6 a => "[" +:+ fmt_ipv6 a +:+ "]:" +:+ fmt_dec port
  end.

(** ** join_host_port *)

Definition NUL : string := String Ascii.zero "".

Definition join_host_port (host : string) (port : Z) : string :=
  if String.prefix "unix:" host || String.prefix "unix-abstract:" host then host +:+ NUL
  else match parse_ip host with
       | Some ip => fmt_socket_addr ip port +:+ NUL
       | None => host +:+ ":" +:+ fmt_dec port +:+ NUL
       end.

(** The table of the test of server.rs. *)
Example join_host_port_table :
  join_host_port "localhost" 0 = "localhost:0" +:+ NUL /\
  join_host_port "127.0.0.1" 100 = "127.0.0.1:100" +:+ NUL /\
  join_host_port "::1" 0 = "[::1]:0" +:+ NUL /\
  join_host_port "fe80::7376:45d5:fb08:61e3" 10028 =
    "[fe80::7376:45d5:fb08:61e3]:10028" +:+ NUL.
Proof. vm_compute. auto. Qed.

Example parse_ip_edge :
  parse_ip "01.2.3.4" = None /\ parse_ip "1.2.3" = None /\ parse_ip "256.0.0.1" = None /\
  parse_ip "::" = Some (V6 [0;0;0;0;0;0;0;0]%Z) /\ parse_ip ":::" = None /\
  parse_ip "1:2:3:4:5:6:7::" = Some (V6 [1;2;3;4;5;6;7;0]%Z) /\
  parse_ip "1:2:3:4:5:6:1.2.3.4" = Some (V6 [1;2;3;4;5;6;258;772]%Z) /\
  parse_ip "1.2.3.4::" = None /\ parse_ip "00001::" = None /\
  parse_ip "::ffff:1.2.3.4" = Some (V6 [0;0;0;0;0;65535;258;772]%Z) /\
  fmt_ipv6 [0;0;0;0;0;65535;258;772]%Z = "::ffff:1.2.3.4" /\
  fmt_ipv6 [1;0;0;2;0;0;0;3]%Z = "1:0:0:2::3" /\ fmt_ipv6 [1;0;2;3;4;5;6;7]%Z = "1:0:2:3:4:5:6:7".
Proof. vm_compute. repeat split. Qed.

(** ** Well-formed addresses *)

Definition octet (x : Z) : Prop := (0 <= x < 256)%Z.
Definition segment (x : Z) : Prop := (0 <= x < 65536)%Z.

Definition ipv4_wf (a : Ipv4Addr) : Prop :=
  octet (octet0 a) /\ octet (octet1 a) /\ octet (octet2 a) /\ octet (octet3 a).

Definition ip_wf (ip : IpAddr) : Prop :=
  match ip with
  | V4 a => ipv4_wf a
  | V6 segments => length segments = 8 /\ Forall segment segments
  end.

(** ** Reading numbers *)

Lemma app_cons c s t : String c s +:+ t = String c (s +:+ t).
Proof. done. Qed.

Lemma app_empty_r s : s +:+ "" = s.
Proof. induction s as [|c s IH]; [done|]. by rewrite app_cons, IH. Qed.

Lemma str_app_assoc s t u : (s +:+ t) +:+ u = s +:+ (t +:+ u).
Proof. induction s as [|c s IH]; [done|]. by rewrite !app_cons, IH. Qed.

(** The text does not go on with a digit. *)
Definition not_digit (radix : Z) (s : string) : Prop :=
  match s with "" => True | String c _ => to_digit radix c = None end.

Lemma read_digits_app max radix k r n s m n' rest :
  read_digits max radix k r n s = Some (m, n', "") -> not_digit radix rest ->
  read_digits max radix k r n (s +:+ rest) = Some (m, n', rest).
Proof.
  revert r n. induction s as [|c s IH]; intros r n; cbn [read_digits].
  - intros [= <- <-]. destruct rest as [|c rest]; [done|].
    change ("" +:+ String c rest) with (String c rest). cbn [not_digit read_digits]. by intros ->.
  - rewrite app_cons. cbn [read_digits]. destruct (to_digit radix c); [|by intros [=]].
    repeat case_match; naive_solver.
Qed.

Lemma read_number_app max radix k z s n rest :
  read_number max radix k z s = Some (n, "") -> not_digit radix rest ->
  read_number max radix k z (s +:+ rest) = Some (n, rest).
Proof.
  intros H Hr. unfold read_number in *.
  destruct (read_digits _ _ _ _ _ s) as [[[m c] t]|] eqn:E; [|done].
  case_bool_decide as H0; [done|].
  destruct s as [|a s]; [cbn in E; by injection E as <- <- <-|].
  assert (starts_with_zero (String a s +:+ rest) = starts_with_zero (String a s)) as Hz.
  { rewrite app_cons. by destruct a as [[] [] [] [] [] [] [] []]. }
  rewrite <-Hz in H. case_match; [done|]. injection H as <- ->.
  rewrite (read_digits_app _ _ _ _ _ _ _ _ _ E Hr), bool_decide_false by done. by rewrite H1.
Qed.

Lemma read_digits_bounds max radix k r n s m n' rest :
  (0 <= r <= max)%Z -> (0 <= radix)%Z ->
  read_digits max radix k r n s = Some (m, n', rest) -> (0 <= m <= max)%Z.
Proof.
  intros Hr Hx. revert r n Hr. induction s as [|c s IH]; intros r n Hr; cbn [read_digits];
    [by intros [= <- _ _]|].
  destruct (to_digit radix c) as [d|] eqn:Ed; [|by intros [= <- _ _]].
  repeat case_match; try done. intros E. apply IH in E; [done|].
  split; [|lia]. unfold to_digit, between in Ed. repeat case_match; simplify_eq; nia.
Qed.

Lemma read_number_bounds max radix k z s n rest :
  (0 <= max)%Z -> (0 <= radix)%Z ->
  read_number max radix k z s = Some (n, rest) -> (0 <= n <= max)%Z.
Proof.
  intros ?? H. unfold read_number in H.
  destruct (read_digits _ _ _ _ _ s) as [[[m c] t]|] eqn:E; [|done].
  repeat case_match; simplify_eq. eapply read_digits_bounds in E; lia.
Qed.

(** What is printed for a number is read back; octets are checked one by one. *)
Fixpoint no_dot (s : string) : bool :=
  match s with "" => true | String c s => negb (bool_decide (c = "."%char)) && no_dot s end.

Fixpoint check_from (P : Z -> bool) (n : nat) (x : Z) : bool :=
  match n with
  | 0 => true
  | S n => P x && check_from P n (Z.succ x)
  end.

Lemma check_from_true P n y : check_from P n y = true ->
  forall x, (y <= x < y + Z.of_nat n)%Z -> P x = true.
Proof.
  revert y. induction n as [|n IH]; intros y; cbn [check_from]; [lia|].
  intros [H Hn]%andb_prop x Hx. destruct (decide (x = y)) as [->|]; [done|].
  apply (IH _ Hn). lia.
Qed.

Definition reads_back (r : option (Z * string)) (n : Z) : bool := bool_decide (r = Some (n, "")).

Lemma octets_read_back :
  check_from (fun k => reads_back (read_number 255 10 3 false (fmt_dec k)) k) 256 0 = true.
Proof. vm_compute. reflexivity. Qed.

Lemma digit_cases (P : Z -> Prop) d :
  (0 <= d < 16)%Z -> Forall P [0; 1; 2; 3; 4; 5; 6; 7; 8; 9; 10; 11; 12; 13; 14; 15]%Z -> P d.
Proof.
  intros Hd HP. rewrite Forall_forall in HP. apply HP. rewrite !elem_of_cons. lia.
Qed.

Lemma hex_digit d :
  (0 <= d < 16)%Z -> to_digit 16 (from_digit d) = Some d /\ from_digit d <> "."%char.
Proof.
  intros Hd. apply (digit_cases (fun d => to_digit 16 (from_digit d) = Some d /\
                                          from_digit d <> "."%char) d Hd).
  by repeat constructor.
Qed.

(** The digits of a number are read back, and then what is printed after them. *)
Lemma read_fmt_digits max k fuel n acc :
  (0 <= n < 16 ^ (1 + Z.of_nat fuel))%Z -> (n <= max)%Z -> fuel < k ->
  exists c, 0 < c <= S fuel /\
    read_digits max 16 k 0 0 (fmt_digits fuel 16 n acc) = read_digits max 16 k n c acc.
Proof.
  revert n acc. induction fuel as [|fuel IH]; intros n acc Hn Hm Hk; cbn [fmt_digits].
  - exists 1. split; [lia|]. cbn [read_digits]. change (16 ^ (1 + Z.of_nat 0))%Z with 16%Z in Hn.
    rewrite (Z.mod_small n) by done. rewrite (proj1 (hex_digit n Hn)). cbn [Z.mul Z.add].
    do 2 (case Z.ltb_spec; intros ?; [lia|]). case Nat.ltb_spec; intros ?; [lia|done].
  - pose proof (Z.mod_pos_bound n 16 ltac:(lia)) as Hd. pose proof (Z.div_mod n 16 ltac:(lia)) as Hdm.
    destruct (Z.eqb_spec (n / 16) 0) as [H0|H0].
    + exists 1. split; [lia|]. cbn [read_digits]. rewrite (proj1 (hex_digit _ Hd)). cbn [Z.mul Z.add].
      replace (n mod 16)%Z with n by lia.
      do 2 (case Z.ltb_spec; intros ?; [lia|]). case Nat.ltb_spec; intros ?; [lia|done].
    + assert (0 <= n / 16 < 16 ^ (1 + Z.of_nat fuel))%Z as Hq.
      { split; [apply Z.div_pos; lia|]. apply Z.div_lt_upper_bound; [lia|].
        rewrite <-Z.pow_succ_r by lia.
        replace (Z.succ (1 + Z.of_nat fuel)) with (1 + Z.of_nat (S fuel))%Z by lia. apply Hn. }
      destruct (IH (n / 16)%Z (String (from_digit (n mod 16)) acc) Hq ltac:(lia) ltac:(lia))
        as (c & Hc & ->).
      exists (S c). split; [lia|]. cbn [read_digits]. rewrite (proj1 (hex_digit _ Hd)).
      replace (n / 16 * 16 + n mod 16)%Z with n by lia.
      do 2 (case Z.ltb_spec; intros ?; [lia|]). case Nat.ltb_spec; intros ?; [lia|done].
Qed.

Lemma no_dot_digits fuel n acc : no_dot acc = true -> no_dot (fmt_digits fuel 16 n acc) = true.
Proof.
  assert (forall m acc, no_dot acc = true -> no_dot (String (from_digit (m mod 16)%Z) acc) = true) as H1.
  { intros m a Ha. cbn [no_dot]. destruct (hex_digit (m mod 16)) as [_ Hd]; [by apply Z.mod_pos_bound|].
    by rewrite bool_decide_false. }
  revert n acc. induction fuel as [|fuel IH]; intros n acc Ha; cbn [fmt_digits]; [by apply H1|].
  case_match; [by apply H1|]. by apply IH, H1.
Qed.

Lemma read_fmt_dec n : octet n -> read_number 255 10 3 false (fmt_dec n) = Some (n, "").
Proof. intros Hn. by apply (bool_decide_eq_true_1 _ (check_from_true _ _ _ octets_read_back n Hn)). Qed.

Lemma read_fmt_hex n : segment n ->
  read_number 65535 16 4 true (fmt_hex n) = Some (n, "") /\ no_dot (fmt_hex n) = true.
Proof.
  intros Hn. split; [|by apply no_dot_digits]. unfold read_number, fmt_hex.
  destruct (read_fmt_digits 65535 4 3 n "") as (c & Hc & ->); [done|unfold segment in Hn; lia|lia|].
  cbn [read_digits negb andb]. by rewrite bool_decide_false by lia.
Qed.

(** ** IPv4 *)

Lemma read_octet_first n rest :
  octet n -> not_digit 10 rest -> read_octet 0 (fmt_dec n +:+ rest) = Some (n, rest).
Proof. intros Hn. apply read_number_app, read_fmt_dec, Hn. Qed.

Lemma read_octet_next i n rest :
  octet n -> not_digit 10 rest ->
  read_octet (S i) ("." +:+ fmt_dec n +:+ rest) = Some (n, rest).
Proof. apply read_octet_first. Qed.

Lemma read_ipv4_fmt a rest :
  ipv4_wf a -> not_digit 10 rest -> read_ipv4_addr (fmt_ipv4 a +:+ rest) = Some (a, rest).
Proof.
  intros (H0 & H1 & H2 & H3) Hr. unfold read_ipv4_addr, fmt_ipv4. rewrite !str_app_assoc.
  rewrite read_octet_first, !read_octet_next by done. by destruct a.
Qed.

Lemma read_ipv4_wf s a rest : read_ipv4_addr s = Some (a, rest) -> ipv4_wf a.
Proof.
  assert (forall i s n rest, read_octet i s = Some (n, rest) -> octet n) as H.
  { intros i t n r. unfold read_octet, read_separator, octet.
    destruct i; repeat case_match; try done; intros E; apply read_number_bounds in E; lia. }
  unfold read_ipv4_addr. repeat case_match; try done. intros [= <- <-].
  repeat split; cbn; eapply H; eassumption.
Qed.

(** After the leading digits the text does not go on with a dot, so it is no IPv4 address. *)
Lemma read_digits_no_dot max radix k r n s rest m n' t :
  no_dot s = true -> (forall u, rest <> String "." u) -> not_digit radix rest ->
  read_digits max radix k r n (s +:+ rest) = Some (m, n', t) -> forall u, t <> String "." u.
Proof.
  intros Hs Hr Hd. revert r n Hs. induction s as [|c s IH]; intros r n Hs.
  - change ("" +:+ rest) with rest. destruct rest as [|d rest]; cbn [read_digits not_digit] in *.
    + by intros [= _ _ <-].
    + rewrite Hd. by intros [= _ _ <-].
  - cbn [no_dot] in Hs. apply andb_prop in Hs as [Hc Hs]. rewrite app_cons. cbn [read_digits].
    destruct (to_digit radix c).
    + repeat case_match; try done. by apply IH.
    + intros [= _ _ <-] u [= -> _]. done.
Qed.

Lemma read_ipv4_none s rest :
  no_dot s = true -> (forall u, rest <> String "." u) -> not_digit 10 rest ->
  read_ipv4_addr (s +:+ rest) = None.
Proof.
  intros Hs Hr Hd. unfold read_ipv4_addr.
  change (read_octet 0) with (read_number 255 10 3 false). unfold read_number at 1.
  destruct (read_digits _ _ _ _ _ _) as [[[m c] t]|] eqn:E; [|done].
  pose proof (read_digits_no_dot _ _ _ _ _ _ _ _ _ _ Hs Hr Hd E) as Ht.
  case_bool_decide; [done|]. destruct (_ && _); [done|].
  unfold read_octet at 1. cbn [read_separator].
  destruct t as [|a t]; [done|]. cbn [read_given_char].
  case_bool_decide; [|done]. subst. by destruct (Ht t).
Qed.

(** ** IPv6 *)

(** A text after a group: its end, or a colon. *)
Definition ends_group (s : string) : Prop := s = "" \/ exists t, s = ":" +:+ t.

Lemma ends_group_facts s :
  ends_group s -> not_digit 10 s /\ not_digit 16 s /\ forall u, s <> String "." u.
Proof. by intros [->|[t ->]]. Qed.

Lemma fmt_tail_ends gs s : ends_group s -> ends_group (fmt_tail gs +:+ s).
Proof. destruct gs; [done|]. right. cbn [fmt_tail]. rewrite !str_app_assoc. by eexists. Qed.

(** A text no group can be read from: its end, or a double colon. *)
Definition no_group (s : string) : Prop := s = "" \/ exists t, s = "::" +:+ t.

Lemma no_group_ends s : no_group s -> ends_group s.
Proof. intros [->|[t ->]]; [by left|]. right. by exists (":" +:+ t). Qed.

Lemma read_groups_none n i s : no_group s -> read_groups n i s = ([], false, s).
Proof. by intros [->|[t ->]]; destruct n as [|[|n]], i. Qed.

Lemma read_group_number g s :
  segment g -> ends_group s ->
  read_ipv4_addr (fmt_hex g +:+ s) = None /\
  read_number 65535 16 4 true (fmt_hex g +:+ s) = Some (g, s).
Proof.
  intros Hg Hs. destruct (ends_group_facts s Hs) as (? & ? & ?).
  destruct (read_fmt_hex g Hg). split; [by apply read_ipv4_none|by apply read_number_app].
Qed.

(** The text of groups from index [i] on. *)
Definition fmt_from (i : nat) (gs : list Z) : string :=
  match i with 0 => fmt_subslice gs | S _ => fmt_tail gs end.

Lemma read_groups_step n i g gs s :
  segment g -> ends_group (fmt_tail gs +:+ s) ->
  read_groups (S n) i (fmt_from i (g :: gs) +:+ s) =
  let '(gs', v4, s') := read_groups n (S i) (fmt_tail gs +:+ s) in (g :: gs', v4, s').
Proof.
  intros Hg Hs. destruct (read_group_number g _ Hg Hs) as [Hv Hn].
  assert (forall A (inner : Parser A),
    read_separator ":" i inner (fmt_from i (g :: gs) +:+ s) =
    inner (fmt_hex g +:+ fmt_tail gs +:+ s)) as Hsep.
  { intros A inner. destruct i; cbn [fmt_from fmt_subslice fmt_tail]; rewrite !str_app_assoc; done. }
  cbn [read_groups]. destruct n; rewrite !Hsep, ?Hv, Hn; done.
Qed.

Lemma read_groups_fmt gs n i s :
  Forall segment gs -> length gs <= n -> no_group s ->
  read_groups n i (fmt_from i gs +:+ s) = (gs, false, s).
Proof.
  intros Hgs. revert n i. induction Hgs as [|g gs Hg Hgs IH]; intros n i Hn Hs.
  - destruct i; by apply read_groups_none.
  - destruct n as [|n]; [cbn in Hn; lia|]. cbn in Hn.
    rewrite read_groups_step by auto using fmt_tail_ends, no_group_ends.
    specialize (IH n (S i) ltac:(lia) Hs). cbn [fmt_from] in IH. by rewrite IH.
Qed.

(** The longest run of zeroes is a run of zeroes. *)
Definition span_in (l : list Z) (sp : Span) : Prop :=
  exists a b, (l = a ++ replicate (sp_len sp) 0%Z ++ b)%list /\
              (0 < sp_len sp -> length a = sp_start sp).

Lemma zero_span_in l pre cur longest :
  (exists a, (pre = a ++ replicate (sp_len cur) 0%Z)%list /\
             (0 < sp_len cur -> length a = sp_start cur)) ->
  span_in pre longest ->
  span_in (pre ++ l) (zero_span l (length pre) cur longest).
Proof.
  revert pre cur longest. induction l as [|x l IH]; intros pre cur longest Hc Hl.
  - cbn. by rewrite app_nil_r.
  - cbn [zero_span]. assert (span_in (pre ++ [x]) longest) as Hl'.
    { destruct Hl as (a & b & -> & ?). exists a, (b ++ [x])%list. by rewrite <-!app_assoc. }
    replace (pre ++ x :: l)%list with ((pre ++ [x]) ++ l)%list by by rewrite <-app_assoc.
    replace (S (length pre)) with (length (pre ++ [x])) by (rewrite length_app; cbn; lia).
    destruct (Z.eqb_spec x 0) as [->|].
    + set (cur' := mkSpan _ _).
      assert (exists a, (pre ++ [0%Z] = a ++ replicate (sp_len cur') 0%Z)%list /\
                        (0 < sp_len cur' -> length a = sp_start cur')) as Hc'.
      { destruct Hc as (a & -> & Ha). exists a. split.
        - cbn [sp_len cur']. rewrite <-app_assoc. f_equal.
          by rewrite <-replicate_cons_app.
        - intros _. cbn [sp_start cur']. case_bool_decide as H0; [|by apply Ha; lia].
          rewrite H0. cbn. by rewrite app_nil_r. }
      apply IH; [done|]. case_match; [|done].
      destruct Hc' as (a & -> & Ha). exists a, []. by rewrite app_nil_r.
    + apply IH; [|done]. exists (pre ++ [x])%list. cbn. rewrite app_nil_r. split; [done|lia].
Qed.

Lemma read_double_colon {A} (k : string -> option A) s :
  match read_given_char ":" ("::" +:+ s) with
  | None => None
  | Some (_, s) => match read_given_char ":" s with None => None | Some (_, s) => k s end
  end = k s.
Proof. done. Qed.

Lemma read_ipv6_fmt l :
  length l = 8 -> Forall segment l -> to_ipv4_mapped l = None ->
  read_ipv6_addr (fmt_ipv6 l) = Some (l, "").
Proof.
  intros Hlen Hl Hm. unfold fmt_ipv6. rewrite Hm.
  pose proof (zero_span_in l [] (mkSpan 0 0) (mkSpan 0 0)) as Hsp.
  destruct Hsp as (a & b & Hab & Ha); [by exists []|by exists [], []|].
  change ([] ++ l)%list with l in Hab. change (length (@nil Z)) with 0 in *.
  set (sp := zero_span l 0 _ _) in *. destruct (Nat.ltb_spec 1 (sp_len sp)) as [H1|H1].
  - specialize (Ha ltac:(lia)). rewrite Hab in Hl |- *. rewrite Hab in Hlen.
    rewrite !Forall_app in Hl. destruct Hl as (Hla & _ & Hlb).
    rewrite !length_app, length_replicate in Hlen.
    replace (take (sp_start sp) _) with a by (by rewrite <-Ha, take_app_length).
    replace (drop (sp_start sp + sp_len sp) _) with b
      by (rewrite <-Ha, app_assoc, drop_app_length' by (by rewrite length_app, length_replicate);
          done).
    unfold read_ipv6_addr. change (fmt_subslice a) with (fmt_from 0 a).
    rewrite read_groups_fmt; [|done|lia|right; eauto].
    rewrite bool_decide_false by lia. rewrite read_double_colon.
    rewrite <-(app_empty_r (fmt_subslice b)). change (fmt_subslice b) with (fmt_from 0 b).
    rewrite read_groups_fmt; [|done|lia|by left].
    by replace (8 - length a - length b) with (sp_len sp) by lia.
  - unfold read_ipv6_addr. rewrite <-(app_empty_r (fmt_subslice l)).
    change (fmt_subslice l) with (fmt_from 0 l).
    rewrite read_groups_fmt; [|done|lia|by left]. by rewrite bool_decide_true.
Qed.

Lemma to_ipv4_mapped_some l a :
  Forall segment l -> to_ipv4_mapped l = Some a ->
  ipv4_wf a /\ l = [0; 0; 0; 0; 0; 65535; octet0 a * 256 + octet1 a; octet2 a * 256 + octet3 a]%Z.
Proof.
  intros Hl. unfold to_ipv4_mapped. repeat case_match; try done. intros [= <-].
  unfold ipv4_wf, octet. cbn [octet0 octet1 octet2 octet3].
  decompose_Forall. unfold segment in *. split.
  - repeat split; try apply Z.mod_pos_bound; try apply Z.div_pos; try apply Z.div_lt_upper_bound; lia.
  - rewrite !(Z.mul_comm _ 256), <-!Z.div_mod by done. done.
Qed.

Lemma read_ipv6_fmt_mapped l a :
  Forall segment l -> to_ipv4_mapped l = Some a -> read_ipv6_addr (fmt_ipv6 l) = Some (l, "").
Proof.
  intros Hl Hm. unfold fmt_ipv6. rewrite Hm.
  destruct (to_ipv4_mapped_some l a Hl Hm) as [Ha ->].
  change ("::ffff:" +:+ fmt_ipv4 a) with ("::" +:+ fmt_from 0 [65535%Z] +:+ ":" +:+ fmt_ipv4 a).
  unfold read_ipv6_addr. rewrite read_groups_none by (right; by eexists).
  rewrite bool_decide_false by done. rewrite read_double_colon.
  change (8 - (length (@nil Z) + 1)) with (S 6).
  rewrite read_groups_step; [|done|right; by eexists].
  change (fmt_tail [] +:+ ":" +:+ fmt_ipv4 a) with (":" +:+ fmt_ipv4 a).
  assert (read_separator ":" 1 read_ipv4_addr (":" +:+ fmt_ipv4 a) = Some (a, "")) as E.
  { change (read_ipv4_addr (fmt_ipv4 a) = Some (a, "")).
    rewrite <-(app_empty_r (fmt_ipv4 a)). by apply read_ipv4_fmt. }
  cbn [read_groups]. by rewrite E.
Qed.

Lemma read_ipv4_colon s : read_ipv4_addr (":" +:+ s) = None.
Proof. done. Qed.

Lemma fmt_ipv6_no_ipv4 l : l <> [] -> Forall segment l -> read_ipv4_addr (fmt_ipv6 l) = None.
Proof.
  assert (forall l s, Forall segment l -> l <> [] -> ends_group s ->
            read_ipv4_addr (fmt_subslice l +:+ s) = None) as H.
  { intros l' s Hl Hn Hs. destruct Hl as [|g gs Hg _]; [done|]. cbn [fmt_subslice].
    rewrite str_app_assoc. apply read_group_number; auto using fmt_tail_ends. }
  intros Hn Hl. unfold fmt_ipv6. case_match; [done|]. case_match.
  - set (sp := zero_span _ _ _ _). destruct (take (sp_start sp) l) as [|g gs] eqn:Ht.
    + done.
    + rewrite <-Ht. apply H; [by apply Forall_take|by rewrite Ht|]. right. by eexists.
  - rewrite <-(app_empty_r (fmt_subslice l)). apply H; [done..|by left].
Qed.

(** ** Accepted IPv4 literals are canonical *)

Lemma to_digit_dec c d : to_digit 10 c = Some d -> c = from_digit d /\ (0 <= d < 10)%Z.
Proof.
  intros H. by destruct c as [[] [] [] [] [] [] [] []]; vm_compute in H; try done;
    injection H as <-; vm_compute.
Qed.

(** The decimal digits of a number below 1000, without leading zeroes. *)
Definition dec_digits (n : Z) : string :=
  if Z.ltb n 10 then String (from_digit n) ""
  else if Z.ltb n 100 then String (from_digit (n / 10)) (String (from_digit (n mod 10)) "")
  else String (from_digit (n / 10 / 10))
         (String (from_digit ((n / 10) mod 10)) (String (from_digit (n mod 10)) "")).

Lemma dec_digits_checked :
  check_from (fun n => bool_decide (fmt_dec n = dec_digits n)) 1000 0 = true.
Proof. vm_compute. reflexivity. Qed.

Lemma fmt_dec_digits n : (0 <= n < 1000)%Z -> fmt_dec n = dec_digits n.
Proof.
  intros Hn. apply (bool_decide_eq_true_1 _ (check_from_true _ _ _ dec_digits_checked n Hn)).
Qed.

(** One turn of the loop on a text that has a digit, and one on a text that has none. *)
Lemma read_digits_cases r n s m n' rest :
  read_digits 255 10 3 r n s = Some (m, n', rest) ->
  (m = r /\ n' = n /\ rest = s) \/
  (exists d s', s = String (from_digit d) s' /\ (0 <= d < 10)%Z /\ n < 3 /\
     read_digits 255 10 3 (r * 10 + d) (S n) s' = Some (m, n', rest)).
Proof.
  destruct s as [|c s]; cbn [read_digits]; [intros [= <- <- <-]; by left|].
  destruct (to_digit 10 c) as [d|] eqn:E; [|intros [= <- <- <-]; by left].
  apply to_digit_dec in E as [-> Hd]. destruct (_ <? _)%Z; [done|]. destruct (_ <? _)%Z; [done|].
  destruct (Nat.ltb_spec 3 (S n)); [done|]. intros H'. right. exists d, s. auto with lia.
Qed.

Lemma read_number_canonical s n rest :
  read_number 255 10 3 false s = Some (n, rest) -> s = fmt_dec n +:+ rest.
Proof.
  intros H. assert (0 <= n <= 255)%Z as Hn by (by eapply read_number_bounds; [..|exact H]; lia).
  rewrite fmt_dec_digits by lia. unfold read_number in H.
  destruct (read_digits _ _ _ _ _ s) as [[[m k] t]|] eqn:E; [|done].
  case_bool_decide as Hk; [done|]. destruct (_ && _ && _) eqn:Hlead; [done|].
  injection H as -> ->.
  apply read_digits_cases in E as [(_ & -> & _)|(d1 & s1 & -> & H1 & _ & E)]; [done|].
  assert (1 < k -> d1 <> 0%Z) as Hd1.
  { intros Hk1 ->. apply Nat.ltb_lt in Hk1. rewrite Hk1 in Hlead. by cbn in Hlead. }
  clear Hlead. apply read_digits_cases in E as [(-> & -> & ->)|(d2 & s2 & -> & H2 & _ & E)].
  { unfold dec_digits. case Z.ltb_spec; intros ?; [done|lia]. }
  apply read_digits_cases in E as [(-> & -> & ->)|(d3 & s3 & -> & H3 & _ & E)].
  { specialize (Hd1 ltac:(lia)). unfold dec_digits.
    do 2 (case Z.ltb_spec; intros ?; try lia).
    replace ((0 * 10 + d1) * 10 + d2)%Z with (d2 + d1 * 10)%Z by lia.
    rewrite Z.div_add, Z.mod_add, Z.div_small, Z.mod_small by lia. done. }
  apply read_digits_cases in E as [(-> & -> & ->)|(d4 & s4 & _ & _ & ? & _)]; [|lia].
  specialize (Hd1 ltac:(lia)). unfold dec_digits.
  do 2 (case Z.ltb_spec; intros ?; try lia).
  replace (((0 * 10 + d1) * 10 + d2) * 10 + d3)%Z with (d3 + (d2 + d1 * 10) * 10)%Z by lia.
  rewrite Z.div_add, Z.mod_add, (Z.div_small d3), (Z.mod_small d3), Z.add_0_l by lia.
  rewrite Z.div_add, Z.mod_add, (Z.div_small d2), (Z.mod_small d2) by lia. done.
Qed.

Lemma read_ipv4_canonical s a rest :
  read_ipv4_addr s = Some (a, rest) -> s = fmt_ipv4 a +:+ rest.
Proof.
  assert (forall i s n rest, read_octet (S i) s = Some (n, rest) -> s = "." +:+ fmt_dec n +:+ rest)
    as Hnext.
  { intros i t n r. unfold read_octet, read_separator, read_given_char. destruct t as [|c t]; [done|].
    case_bool_decide; [|done]. subst c. by intros ->%read_number_canonical. }
  assert (forall s n rest, read_octet 0 s = Some (n, rest) -> s = fmt_dec n +:+ rest) as Hfirst
    by apply read_number_canonical.
  unfold read_ipv4_addr, fmt_ipv4.
  destruct (read_octet 0 s) as [[a0 s0]|] eqn:E0; [|done].
  destruct (read_octet 1 s0) as [[a1 s1]|] eqn:E1; [|done].
  destruct (read_octet 2 s1) as [[a2 s2]|] eqn:E2; [|done].
  destruct (read_octet 3 s2) as [[a3 s3]|] eqn:E3; [|done].
  intros [= <- <-]. apply Hfirst in E0. apply Hnext in E1, E2, E3. subst.
  cbn [octet0 octet1 octet2 octet3]. by rewrite !str_app_assoc.
Qed.

(** ** Parsed addresses are well formed *)

Lemma read_groups_wf n i s gs v4 rest :
  read_groups n i s = (gs, v4, rest) -> length gs <= n /\ Forall segment gs.
Proof.
  revert i s gs v4 rest. induction n as [|n IH]; intros i s gs v4 rest;
    [cbn; intros [= <- <- <-]; by auto|].
  assert (forall s,
    match read_separator ":" i (read_number 65535 16 4 true) s with
    | Some (g, s) => let '(gs, v4, s) := read_groups n (S i) s in (g :: gs, v4, s)
    | None => ([], false, s)
    end = (gs, v4, rest) -> length gs <= S n /\ Forall segment gs) as Hgroup.
  { intros t. destruct (read_separator _ _ _ t) as [[g t']|] eqn:E.
    - destruct (read_groups n (S i) t') as [[gs' v'] t''] eqn:E'. intros [= <- <- <-].
      apply IH in E' as [? ?]. split; [cbn; lia|]. constructor; [|done].
      unfold segment. cut (0 <= g <= 65535)%Z; [lia|].
      unfold read_separator in E. destruct i; repeat case_match; try done;
        (eapply read_number_bounds; [..|exact E]; lia).
    - intros [= <- _ _]. split; [cbn; lia|constructor]. }
  cbn [read_groups]. destruct n as [|n]; [apply Hgroup|].
  destruct (read_separator _ _ read_ipv4_addr s) as [[a t]|] eqn:E; [|apply Hgroup].
  intros [= <- _ _]. split; [cbn; lia|].
  assert (ipv4_wf a) as (? & ? & ? & ?).
  { unfold read_separator in E. destruct i; repeat case_match; try done; by eapply read_ipv4_wf. }
  unfold segment, octet in *. repeat constructor; lia.
Qed.

Lemma read_ipv6_wf s l rest :
  read_ipv6_addr s = Some (l, rest) -> length l = 8 /\ Forall segment l.
Proof.
  unfold read_ipv6_addr. destruct (read_groups 8 0 s) as [[hd v4] t] eqn:E.
  apply read_groups_wf in E as [Hh HF]. case_bool_decide as H8; [by intros [= <- _]|].
  destruct v4; [done|]. destruct (read_given_char _ t) as [[_ t1]|]; [|done].
  destruct (read_given_char _ t1) as [[_ t2]|]; [|done].
  destruct (read_groups _ 0 t2) as [[tl v4] t3] eqn:E.
  apply read_groups_wf in E as [Ht HFt]. intros [= <- _]. split.
  - rewrite !length_app, length_replicate. lia.
  - rewrite !Forall_app. split_and!; [done| |done]. by apply Forall_replicate.
Qed.

Lemma parse_ip_cases s ip :
  parse_ip s = Some ip ->
  match ip with
  | V4 a => read_ipv4_addr s = Some (a, "")
  | V6 l => read_ipv6_addr s = Some (l, "")
  end.
Proof.
  unfold parse_ip, read_ip_addr. destruct (read_ipv4_addr s) as [[a [|??]]|] eqn:E; try done.
  - by intros [= <-].
  - destruct (read_ipv6_addr s) as [[l [|??]]|]; [|done..]. by intros [= <-].
Qed.

(** ** The properties *)

(** An address literal that is accepted denotes an address of the right type, whatever
    the text: four octets of 8 bits, or eight segments of 16 bits. *)
Theorem parse_ip_wf s ip : parse_ip s = Some ip -> ip_wf ip.
Proof.
  intros H%parse_ip_cases. destruct ip; cbn; [by eapply read_ipv4_wf|by eapply read_ipv6_wf].
Qed.

(** What is printed for an address, without a port. *)
Definition fmt_ip (ip : IpAddr) : string :=
  match ip with V4 a => fmt_ipv4 a | V6 l => fmt_ipv6 l end.

Lemma parse_fmt_ip ip : ip_wf ip -> parse_ip (fmt_ip ip) = Some ip.
Proof.
  intros Hwf. unfold parse_ip, read_ip_addr. destruct ip as [a|l]; cbn [fmt_ip].
  - rewrite <-(app_empty_r (fmt_ipv4 a)), read_ipv4_fmt by done. done.
  - destruct Hwf as [H8 HF]. rewrite fmt_ipv6_no_ipv4 by (done || by intros ->).
    destruct (to_ipv4_mapped l) eqn:Hm; [erewrite read_ipv6_fmt_mapped by done
                                        |rewrite read_ipv6_fmt by done]; done.
Qed.

(** C36: the address a server listens on, for every host and port.  A Unix socket is passed
    as it is; an IPv4 literal keeps its text, followed by the port; an IPv6 literal is put
    in brackets, in a form that denotes the same address; any other host keeps its text. *)
Theorem join_host_port_address host port :
  let unix := String.prefix "unix:" host || String.prefix "unix-abstract:" host in
  if unix then join_host_port host port = host +:+ NUL
  else match parse_ip host with
       | Some (V6 l) =>
           exists text, join_host_port host port = "[" +:+ text +:+ "]:" +:+ fmt_dec port +:+ NUL /\
                        parse_ip text = Some (V6 l)
       | _ => join_host_port host port = host +:+ ":" +:+ fmt_dec port +:+ NUL
       end.
Proof.
  cbn zeta. unfold join_host_port. destruct (_ || _); [done|].
  destruct (parse_ip host) as [[a|l]|] eqn:E; [| |done].
  - apply parse_ip_cases, read_ipv4_canonical in E. rewrite app_empty_r in E. subst host.
    cbn [fmt_socket_addr]. by rewrite !str_app_assoc.
  - exists (fmt_ipv6 l). cbn [fmt_socket_addr]. rewrite !str_app_assoc. split; [done|].
    apply (parse_fmt_ip (V6 l)). apply parse_ip_cases in E. by eapply read_ipv6_wf.
Qed.
