(* ===== verification/Server.v ===== *)
(** The server: src/src/server.rs, the request callbacks of src/src/task/callback.rs, the
    tags of src/src/task/mod.rs, and the part of src/src/call/server.rs that dispatches a
    request to its handler.

    The state of a server on one completion queue is the world of the calls on that
    queue, the shutdown flag of the server, and the request tags the core holds. *)

From S2P Require Import Prelude Status Cq Buf Utf8 Metadata Task Call ServerCall.

Local Open Scope rust_scope.
Local Open Scope string_scope.

Definition DEFAULT_REQUEST_SLOTS_PER_CQ : nat := 1024.

(** ** Services and registries *)

Section registry.
Context `{SC : SliceCore}.

Definition Registry : Type := gmap (list byte) (BoxHandler SC).

(** [ServiceBuilder] and [Service]: the handlers by method name. *)
Definition ServiceBuilder_new : Registry := ∅.

Definition add_handler (self : Registry) (name : string) (h : BoxHandler SC) : Registry :=
  <[as_bytes name:=h]> self.

Definition ServiceBuilder_build (self : Registry) : Registry := self.

(** [HashMap::extend]: the handlers of the service replace earlier ones. *)
Definition register_service (handlers service : Registry) : Registry := service ∪ handlers.
End registry.

Section add_handlers.
Context `{SC : SliceCore}.
Context (start_answer : list CoreCall -> gmap nat (BatchType * nat * Start) ->
                        nat -> Start -> grpc_call_error).
Context (debug_error : Error -> string).
Context {Req Resp : Type} (de : MessageReader SC -> Result Error Req).
Let W := World SC.

Definition add_unary_handler (self : Registry) (name : string)
    (handler : RpcContext -> Req -> UnarySink -> M W unit) : Registry :=
  add_handler self name
    (mkHandler Unary (fun ctx payload =>
       let* payload := unwrap payload "called `Option::unwrap()` on a `None` value" in
       execute_unary start_answer debug_error de ctx payload handler)).

Definition add_client_streaming_handler (self : Registry) (name : string)
    (handler : RpcContext -> ShareCall -> StreamingBase -> UnarySink -> M W unit) : Registry :=
  add_handler self name
    (mkHandler ClientStreaming (fun ctx _ => execute_client_streaming start_answer ctx handler)).

Definition add_server_streaming_handler (self : Registry) (name : string)
    (handler : RpcContext -> Req -> ShareCall -> StreamSink -> M W unit) : Registry :=
  add_handler self name
    (mkHandler ServerStreaming (fun ctx payload =>
       let* payload := unwrap payload "called `Option::unwrap()` on a `None` value" in
       execute_server_streaming start_answer debug_error de ctx payload handler)).

Definition add_duplex_streaming_handler (self : Registry) (name : string)
    (handler : RpcContext -> ShareCall -> StreamingBase -> StreamSink -> M W unit) : Registry :=
  add_handler self name
    (mkHandler Duplex (fun ctx _ => execute_duplex_streaming start_answer ctx handler)).
End add_handlers.

(** ** Accepting requests *)

Section requests.
Context `{SC : SliceCore}.
Context (start_answer : list CoreCall -> gmap nat (BatchType * nat * Start) ->
                        nat -> Start -> grpc_call_error).
(** The answer of [grpcwrap_server_request_call]. *)
Context (request_answer : grpc_call_error).
Let W := World SC.

(** A request tag the core holds: waiting for a call, or for the message of a call. *)
Inductive Slot := RequestSlot | UnarySlot (ctx : RequestContext).

Record SWorld := mkSWorld {
  sw_world : W;
  sw_shutdown : bool;
  sw_slots : list Slot;
}.

(** [RequestCallContext], without the server it shares. *)
Record RequestCallContext := mkRequestCallContext {
  rcc_registry : Registry;
  rcc_checkers : list ServerChecker;
}.

(** Run the code of a call on the queue of the server. *)
Definition lift {A : Type} (m : M W A) : M SWorld A := fun s =>
  match m (sw_world s) with
  | Done (a, w) => Done (a, mkSWorld w (sw_shutdown s) (sw_slots s))
  | Panicked msg => Panicked msg
  end.

Definition add_slot (slot : Slot) : M SWorld unit :=
  modify (fun s => mkSWorld (sw_world s) (sw_shutdown s) (sw_slots s ++ [slot])).

Definition get_handler (rc : RequestCallContext) (path : list byte) : option (BoxHandler SC) :=
  rcc_registry rc !! path.

(** [request_call]. *)
Definition request_call : M SWorld unit :=
  let* down := gets sw_shutdown in
  if down then ret tt
  else
    let* r := lift borrow in
    match r with
    | Err _ => ret tt
    | Ok _ =>
        if bool_decide (request_answer = GRPC_CALL_OK)
        then do* add_slot RequestSlot in lift drop_ref
        else panic "failed to request call"
    end.

(** [handle_stream_req]: [Err] gives the request back when its message is to be read. *)
Definition handle_stream_req (ctx : RequestContext) (rc : RequestCallContext) :
    M SWorld (Result RequestContext unit) :=
  match get_handler rc (rq_method ctx) with
  | Some handler =>
      match h_method_type handler with
      | Unary | ServerStreaming => ret (Err ctx)
      | ClientStreaming | Duplex =>
          do* lift (execute start_answer ctx None handler (rcc_checkers rc)) in ret (Ok tt)
      end
  | None => do* lift (execute_unimplemented start_answer ctx) in ret (Ok tt)
  end.

(** [handle_unary_req]: ask for the message of the call. *)
Definition handle_unary_req (ctx : RequestContext) : M SWorld unit :=
  do* lift interfere in
  let* answer := gets (fun s => start_answer (calls (sw_world s)) (inflight (sw_world s))
                                  (rq_call ctx) RecvMessage) in
  match answer with
  | GRPC_CALL_OK =>
      do* lift (log_call (StartBatch (rq_call ctx) RecvMessage)) in add_slot (UnarySlot ctx)
  | _ => panic "try to receive message fail"
  end.

(** [callback::Request::resolve]. *)
Definition Request_resolve (ctx : RequestContext) (rc : RequestCallContext) (ok : bool) :
    M SWorld unit :=
  if negb ok then request_call
  else
    let* r := handle_stream_req ctx rc in
    match r with
    | Ok _ => request_call
    | Err ctx => handle_unary_req ctx
    end.

(** [UnaryRequestContext::handle]. *)
Definition UnaryRequest_handle (ctx : RequestContext) (rc : RequestCallContext)
    (reader : option (MessageReader SC)) : M SWorld unit :=
  let* handler := unwrap (get_handler rc (rq_method ctx))
                    "called `Option::unwrap()` on a `None` value" in
  match reader with
  | Some _ => lift (execute start_answer ctx reader handler (rcc_checkers rc))
  | None =>
      lift (abort start_answer (rq_call ctx) (RpcStatus_with_message CODE_INTERNAL "No payload"))
  end.

(** [callback::UnaryRequest::resolve]. *)
Definition UnaryRequest_resolve (ctx : RequestContext) (rc : RequestCallContext)
    (batch : BatchContext SC) (ok : bool) : M SWorld unit :=
  if negb ok then request_call
  else
    let* reader := fun s => match recv_message batch with
                            | Done r => Done (r, s)
                            | Panicked m => Panicked m
                            end in
    do* UnaryRequest_handle ctx rc reader in
    request_call.

(** ** Tags *)

(** [CallTag]; a request tag carries what the core filled in when it completes, an action
    and a spawned task are known by a number. *)
Inductive CallTag :=
| TagBatch (f : BatchFuture)
| TagRequest (ctx : RequestContext)
| TagUnaryRequest (ctx : RequestContext)
| TagAbort (call : nat)
| TagAction (prom : nat)
| TagSpawn (task : nat).

(** [Action::resolve] and [executor::resolve], which [Task] and [Executor] model, act on
    the calls of the queue only through the code they run. *)
Context (action_resolve spawn_resolve : nat -> bool -> M W unit).

(** [batch_ctx] and [request_ctx]: which tags have such a context. *)
Definition has_batch_ctx (self : CallTag) : bool :=
  match self with TagBatch _ | TagUnaryRequest _ | TagAbort _ => true | _ => false end.

Definition request_ctx (self : CallTag) : option RequestContext :=
  match self with TagRequest ctx | TagUnaryRequest ctx => Some ctx | _ => None end.

(** Remove the first request tag of a kind: the core hands it back. *)
Fixpoint take_slot (want : Slot -> bool) (slots : list Slot) : option (list Slot) :=
  match slots with
  | [] => None
  | s :: slots => if want s then Some slots else (fun l => s :: l) <$> take_slot want slots
  end.

Definition is_request (s : Slot) : bool := match s with RequestSlot => true | _ => false end.
Definition is_unary (ctx : RequestContext) (s : Slot) : bool :=
  match s with UnarySlot c => bool_decide (rq_call c = rq_call ctx) | _ => false end.

(** [CallTag::resolve] on the poll thread, for the tags of this component. *)
Definition CallTag_resolve (rc : RequestCallContext) (tag : CallTag) (batch : BatchContext SC)
    (ok : bool) : M SWorld unit :=
  match tag with
  | TagBatch f => lift (modify (resolve_tag f ok batch))
  | TagRequest ctx => Request_resolve ctx rc ok
  | TagUnaryRequest ctx => UnaryRequest_resolve ctx rc batch ok
  | TagAbort _ => ret tt
  | TagAction prom => lift (action_resolve prom ok)
  | TagSpawn notify => lift (spawn_resolve notify ok)
  end.

(** The core completes a request tag it holds; the poll thread resolves it. *)
Definition complete_tag (rc : RequestCallContext) (tag : CallTag) (batch : BatchContext SC)
    (ok : bool) : M SWorld unit := fun s =>
  match (match tag with
         | TagRequest _ => take_slot is_request (sw_slots s)
         | TagUnaryRequest ctx => take_slot (is_unary ctx) (sw_slots s)
         | _ => Some (sw_slots s)
         end) with
  | None => Done (tt, s)
  | Some slots => CallTag_resolve rc tag batch ok (mkSWorld (sw_world s) (sw_shutdown s) slots)
  end.

(** [Server::start] on one queue: fill its request slots. *)
Fixpoint start_slots (n : nat) : M SWorld unit :=
  match n with
  | 0 => ret tt
  | S n => do* request_call in start_slots n
  end.
End requests.

Arguments SWorld : clear implicits.
Arguments SWorld SC : assert.
Arguments RequestCallContext : clear implicits.
Arguments RequestCallContext SC : assert.

(** ** Lemmas *)

Section server_lemmas.
Context `{SC : SliceCore}.
Context (start_answer : list CoreCall -> gmap nat (BatchType * nat * Start) ->
                        nat -> Start -> grpc_call_error).
Context (request_answer : grpc_call_error).
Implicit Types s : SWorld SC.

(** Code of a call does not change the slots and the flag of the server. *)
Lemma lift_slots {A} (m : M (World SC) A) s a s' :
  lift m s = Done (a, s') -> sw_slots s' = sw_slots s /\ sw_shutdown s' = sw_shutdown s.
Proof.
  unfold lift. destruct (m (sw_world s)) as [[a' w]|]; [|done]. by intros [= <- <-].
Qed.

(** The server or its queue is shutting down. *)
Definition stopping s : Prop :=
  sw_shutdown s = true \/ (ref_cnt (w_cq (sw_world s)) <= 0)%Z.

Lemma request_call_slots s s' :
  request_call request_answer s = Done (tt, s') ->
  length (sw_slots s') = S (length (sw_slots s)) \/ (sw_slots s' = sw_slots s /\ stopping s').
Proof.
  unfold request_call, gets, bind at 1. simpl. destruct (sw_shutdown s) eqn:Hd.
  - intros [= <-]. right. split; [done|]. by left.
  - unfold bind at 1. destruct (lift borrow s) as [[r s1]|] eqn:E; [|done].
    destruct (lift_slots _ _ _ _ E) as [Hs1 Hd1]. destruct r as [u|e].
    + case_bool_decide; [|done]. unfold bind, add_slot, modify, lift, drop_ref, modify. simpl.
      intros [= <-]. left. simpl. rewrite length_app, Hs1. simpl. lia.
    + intros [= <-]. right. split; [done|]. right. unfold lift, borrow, bind in E.
      destruct (interfere (sw_world s)) as [[[] w1]|]; [|done].
      destruct (add_ref (w_cq w1)) as [r h] eqn:Ea. unfold add_ref in Ea. case_bool_decide;
        injection Ea as <- <-; [|done]. injection E as _ <-. done.
Qed.

Lemma take_slot_length want slots slots' :
  take_slot want slots = Some slots' -> length slots = S (length slots').
Proof.
  revert slots'. induction slots as [|x slots IH]; intros slots'; simpl; [done|].
  destruct (want x); [by intros [= <-]|].
  destruct (take_slot want slots) as [l|]; [|done]. intros [= <-]. simpl. by rewrite (IH l).
Qed.

Lemma handle_stream_req_slots rc ctx s r s' :
  handle_stream_req start_answer ctx rc s = Done (r, s') ->
  sw_slots s' = sw_slots s /\ sw_shutdown s' = sw_shutdown s.
Proof.
  unfold handle_stream_req, bind, ret. intros E.
  repeat case_match; simplify_eq; try done; by eapply lift_slots.
Qed.

Lemma handle_unary_req_slots ctx s s' :
  handle_unary_req start_answer ctx s = Done (tt, s') ->
  length (sw_slots s') = S (length (sw_slots s)).
Proof.
  unfold handle_unary_req, bind at 1. destruct (lift interfere s) as [[u s1]|] eqn:E; [|done].
  destruct (lift_slots _ _ _ _ E) as [Hs1 _]. unfold bind, gets.
  destruct (start_answer _ _ _ _); [|done..].
  destruct (lift (log_call _) s1) as [[u' s2]|] eqn:E2; [|done].
  destruct (lift_slots _ _ _ _ E2) as [Hs2 _]. intros [= <-]. simpl.
  rewrite length_app, Hs2, Hs1. simpl. lia.
Qed.

Lemma UnaryRequest_handle_slots ctx rc reader s s' :
  UnaryRequest_handle start_answer ctx rc reader s = Done (tt, s') ->
  sw_slots s' = sw_slots s.
Proof.
  unfold UnaryRequest_handle, bind, unwrap. destruct (get_handler rc (rq_method ctx)); [|done].
  destruct reader; apply lift_slots.
Qed.

Lemma complete_tag_slots action_resolve spawn_resolve rc tag batch ok s s' :
  complete_tag start_answer request_answer action_resolve spawn_resolve rc tag batch ok s =
    Done (tt, s') ->
  length (sw_slots s') = length (sw_slots s) \/
  (S (length (sw_slots s')) = length (sw_slots s) /\ stopping s').
Proof.
  unfold complete_tag.
  assert (forall m, lift (SC:=SC) m (mkSWorld (sw_world s) (sw_shutdown s) (sw_slots s)) = Done (tt, s') ->
    length (sw_slots s') = length (sw_slots s)) as Hl.
  { intros m E. by destruct (lift_slots m _ _ _ E) as [-> _]. }
  destruct tag as [f|ctx|ctx|call|prom|notify]; simpl.
  - intros E. left. by eapply Hl.
  - destruct (take_slot is_request (sw_slots s)) as [slots|] eqn:Et; [|intros [= <-]; by left].
    apply take_slot_length in Et. rewrite Et. unfold Request_resolve. destruct ok; simpl.
    + unfold bind. destruct (handle_stream_req _ _ _ _) as [[r s1]|] eqn:E1; [|done].
      destruct (handle_stream_req_slots _ _ _ _ _ E1) as [Hs1 _]. simpl in Hs1. destruct r as [u|ctx'].
      * intros [H|[H1 H2]]%request_call_slots; [left|right]; rewrite ?H, ?H1, Hs1; auto.
      * intros H%handle_unary_req_slots. left. by rewrite H, Hs1.
    + intros [H|[H1 H2]]%request_call_slots; [left|right]; rewrite ?H, ?H1; auto.
  - destruct (take_slot (is_unary ctx) (sw_slots s)) as [slots|] eqn:Et; [|intros [= <-]; by left].
    apply take_slot_length in Et. rewrite Et. unfold UnaryRequest_resolve. destruct ok; simpl.
    + unfold bind. destruct (recv_message batch) as [r|]; [|done].
      destruct (UnaryRequest_handle _ _ _ _ _) as [[u s1]|] eqn:E1; [|done]. destruct u.
      apply UnaryRequest_handle_slots in E1. simpl in E1.
      intros [H|[H1 H2]]%request_call_slots; [left|right]; rewrite ?H, ?H1, E1; auto.
    + intros [H|[H1 H2]]%request_call_slots; [left|right]; rewrite ?H, ?H1; auto.
  - intros [= <-]. by left.
  - intros E. left. by eapply Hl.
  - intros E. left. by eapply Hl.
Qed.

(** A queue that starts shutting down stays so. *)
Lemma request_call_stopping s s' :
  stopping s -> request_call request_answer s = Done (tt, s') -> stopping s' /\ sw_slots s' = sw_slots s.
Proof.
  intros Hst E. pose proof E as E0. unfold request_call, gets, bind at 1 in E. simpl in E.
  destruct (sw_shutdown s) eqn:Hd; [by injection E as <-|].
  destruct Hst as [?|Hst]; [congruence|]. unfold bind at 1, lift at 1, borrow, bind at 1 in E.
  destruct (interfere_stable (fun w => (ref_cnt (w_cq w) <= 0)%Z) (sw_world s)) as (w1 & Ei & Hc).
  { split; [|done]. intros [tag success ctx|] w Hw; simpl.
    - unfold resolve_tag. by repeat case_match.
    - unfold shutdown. by rewrite bool_decide_eq_true_2. }
  { done. }
  rewrite Ei in E. unfold add_ref in E. rewrite bool_decide_eq_true_2 in E by done.
  injection E as <-. split; [by right|done].
Qed.

Lemma start_slots_spec n s s' :
  start_slots request_answer n s = Done (tt, s') ->
  length (sw_slots s') = n + length (sw_slots s) \/
  (length (sw_slots s') < n + length (sw_slots s) /\ stopping s').
Proof.
  revert s. induction n as [|n IH]; intros s; simpl; [intros [= <-]; by left|].
  unfold bind. destruct (request_call request_answer s) as [[[] s1]|] eqn:E1; [|done]. intros E.
  destruct (request_call_slots _ _ E1) as [H1|[H1 H2]].
  - destruct (IH _ E) as [H|[H ?]]; [left; lia | right; split; [lia|done]].
  - right. rewrite <-H1. clear E1 H1 IH. revert s1 H2 E. induction n as [|n IH]; intros s1 H2; simpl.
    + intros [= <-]. split; [lia|done].
    + unfold bind. destruct (request_call request_answer s1) as [[[] s2]|] eqn:E2; [|done]. intros E.
      destruct (request_call_stopping _ _ H2 E2) as [H3 H4].
      destruct (IH _ H3 E) as [? ?]. rewrite <-H4. split; [lia|done].
Qed.
End server_lemmas.
