(* ===== verification/ServerSpec.v ===== *)
(** Properties of the server: its request slots, the dispatch of requests, its sinks, and
    how it is built. *)

From S2P Require Import Prelude Status Cq Buf Utf8 Metadata Task Call CallSpec ServerCall Server.

Local Open Scope rust_scope.

(** Checkers that all let the call continue, with the worlds before and after. *)
Inductive checks_pass `{SC : SliceCore} (ctx : RpcContext) :
    list ServerChecker -> World SC -> World SC -> Prop :=
| pass_nil w : checks_pass ctx [] w w
| pass_cons check checkers w w1 w2 :
    check ctx w = Done (Continue, w1) -> checks_pass ctx checkers w1 w2 ->
    checks_pass ctx (check :: checkers) w w2.

Section server_properties.
Context `{SC : SliceCore} `{SL : !SliceCoreLaws SC}.
Context start_answer `{CC : !CallCore start_answer}.
Context (request_answer : grpc_call_error) (action_resolve spawn_resolve : nat -> bool -> M (World SC) unit).

(** C16: a server keeps its request slots: starting it fills the asked number of slots of
    a queue, and whatever tag completes and however it is handled, the number of slots
    the core holds stays the same, unless the server or its queue is shutting down. *)
Theorem server_keeps_request_slots (n : nat) (rc : RequestCallContext SC) tag batch ok
    (s s' : SWorld SC) :
  (start_slots request_answer n s = Done (tt, s') -> sw_slots s = [] -> ~ stopping s' ->
   length (sw_slots s') = n) /\
  (complete_tag start_answer request_answer action_resolve spawn_resolve rc tag batch ok s
     = Done (tt, s') ->
   length (sw_slots s') <= length (sw_slots s) /\
   (~ stopping s' -> length (sw_slots s') = length (sw_slots s))).
Proof.
  split.
  - intros E H0 Hn. apply start_slots_spec in E as [E|[_ ?]]; [|done]. rewrite E, H0. simpl. lia.
  - intros E. apply complete_tag_slots in E as [E|[E ?]]; (split; [lia|]); [done|]. intros ?. done.
Qed.

(** C31: the checkers run in the order they were added; the first that aborts ends the call
    with the code and message of its status and neither later checkers nor the handler run;
    if none aborts, the handler runs once with the request. *)
Theorem server_checkers_in_order (ctx : RequestContext) (payload : option (MessageReader SC))
    (f : BoxHandler SC) (pre post : list ServerChecker) check status (w w1 w2 : World SC) :
  checks_pass (RpcContext_new ctx) pre w w1 ->
  execute start_answer ctx payload f pre w = h_handle f (RpcContext_new ctx) payload w1 /\
  (check (RpcContext_new ctx) w1 = Done (Abort status, w2) ->
   execute start_answer ctx payload f (pre ++ check :: post) w =
     abort start_answer (rq_call ctx) status w2).
Proof.
  unfold execute. intros Hp. revert w1 w2 Hp. 
  assert (forall w w1 rest cs, checks_pass (RpcContext_new ctx) pre w w1 ->
    run_checkers start_answer (RpcContext_new ctx) (pre ++ cs) rest w =
    run_checkers start_answer (RpcContext_new ctx) cs rest w1) as Hrun.
  { intros w0 w1 rest cs Hp. induction Hp as [w0|c cs' w0 w1 w2 Hc Hp IH]; [done|].
    simpl. unfold bind. rewrite Hc. exact IH. }
  intros w1 w2 Hp. split.
  - rewrite <-(app_nil_r pre). rewrite (Hrun w w1 _ [] Hp). done.
  - intros Hc. rewrite (Hrun w w1 _ _ Hp). simpl. unfold bind. rewrite Hc. done.
Qed.

(** A request for a method no service registered is accepted and answered with the
    status UNIMPLEMENTED, and its slot is filled again. *)
Theorem server_unknown_method (ctx : RequestContext) (rc : RequestCallContext SC) (s : SWorld SC) :
  get_handler rc (rq_method ctx) = None ->
  request_answer = GRPC_CALL_OK -> sw_shutdown s = false -> sched (sw_world s) = [] ->
  (0 < ref_cnt (w_cq (sw_world s)))%Z -> WInv (sw_world s) ->
  (forall op, existsb (started (rq_call ctx) op) (calls (sw_world s)) = false) ->
  exists s', Request_resolve start_answer request_answer ctx rc true s = Done (tt, s') /\
    calls (sw_world s') = calls (sw_world s) ++
      [StartBatch (rq_call ctx) StartServerside;
       StartBatch (rq_call ctx) (abort_start (RpcStatus_new CODE_UNIMPLEMENTED))] /\
    sw_slots s' = sw_slots s ++ [RequestSlot].
Proof.
  intros Hh Hq Hd Hs Hc HW Hfresh. destruct s as [w dn sl]. simpl in *. subst dn.
  destruct w as [hs fl cq cl lt cm wk sc]. simpl in *. subst sc.
  assert (batch_allowed cl fl (rq_call ctx) StartServerside) as Ha1.
  { intros op Hop. simpl in Hop. apply list_elem_of_singleton in Hop as ->. simpl. apply Hfresh. }
  assert (forall m, batch_allowed (cl ++ [StartBatch (rq_call ctx) StartServerside]) m (rq_call ctx)
     (abort_start (RpcStatus_new CODE_UNIMPLEMENTED))) as Ha2.
  { intros m op Hop. simpl in Hop. rewrite existsb_app, (Hfresh op).
    apply elem_of_cons in Hop as [->|Hop]; [|apply list_elem_of_singleton in Hop as ->]; simpl;
      rewrite bool_decide_eq_true_2 by done; done. }
  unfold Request_resolve, handle_stream_req. rewrite Hh. simpl.
  unfold execute_unimplemented, accept_call, start_server_side, with_cq_ref, borrow, check_run,
    abort, request_call, lift, bind, interfere, drop_ref, modify, gets, log_call, ret. simpl.
  unfold borrow, bind, interfere. simpl.
  rewrite (add_ref_open cq) by lia. simpl.
  rewrite (start_accepted (start_answer:=start_answer)) by exact Ha1. simpl.
  rewrite (unref_add_ref cq) by lia. simpl. unfold borrow, bind, interfere. simpl.
  rewrite (add_ref_open cq) by lia. simpl.
  rewrite (unref_add_ref cq) by lia. simpl.
  rewrite (start_accepted (start_answer:=start_answer)) by apply Ha2. simpl.
  rewrite (add_ref_open cq) by lia. simpl.
  rewrite bool_decide_eq_true_2 by done. simpl.
  eexists. split; [done|]. simpl. by rewrite <-app_assoc.
Qed.

Context {Q : Type} (encode : Q -> list byte) (ser : Q -> GrpcSlice -> outcome GrpcSlice).

(** Completing a unary sink with a status and perhaps a message: one batch with both, or
    nothing when the queue is shut down. *)
Lemma unary_complete_spec (share : ShareCall) (wflags : Z) status (t : option Q) (w : World SC) :
  (forall x buf, t = Some x -> slice_wf buf ->
     exists s, ser x buf = Done s /\ GrpcSlice_as_slice s = encode x /\ slice_wf s) ->
  WInv w -> ~ running (sc_call share) SEND_MESSAGE (inflight w) ->
  existsb (started (sc_call share) SEND_STATUS_FROM_SERVER) (calls w) = false ->
  existsb (started (sc_call share) SEND_INITIAL_METADATA) (calls w) = false ->
  exists b res w', GrpcSlice_as_slice <$> b = encode <$> t /\
    complete start_answer ser (mkUnarySink (Some share) wflags) status t w = Done (res, w') /\
    ur_share res = share /\
    ((exists f, ur_cq_f res = Some f /\ ur_err res = None /\ live f w' /\
        calls w' = calls w ++ [StartBatch (sc_call share) (status_start status true b wflags)]) \/
     (ur_cq_f res = None /\ ur_err res = Some QueueShutdown /\ calls w' = calls w /\ queue_shut w')).
Proof.
  intros Hser HW Hr Hs Hm. unfold complete.
  assert (exists b, (match t with
      | Some t => let* buf := run_ser ser t GrpcSlice_default in ret (Some buf)
      | None => ret None end) w = Done (b, w) /\ GrpcSlice_as_slice <$> b = encode <$> t) as (b & E & Hb).
  { destruct t as [t|]; [|by exists None].
    destruct (run_ser_at ser (encode t) t GrpcSlice_default w) as (b & E & Hb & _);
      [apply Hser; [done|apply empty_slice_wf]|]. exists (Some b). unfold bind. rewrite E. simpl. by rewrite Hb. }
  exists b. unfold bind at 1. rewrite E. simpl.
  destruct (with_cq_ref_spec start_answer
    (fun w1 => only_running (sc_call share) SEND_MESSAGE None w1 /\ calls w1 = calls w) Finish
    (sc_call share) (status_start status true b wflags) w) as (w1 & [Ho1 Hc1] & HW1 & Hcase).
  - apply Stable_and; [apply _|]. apply (Stable_calls (fun l => l = calls w)).
  - by intros h w1 [? ?].
  - done.
  - split; [by apply only_running_None|done].
  - intros w1 [Ho1 Hc1] _ op Hop. simpl in Hop. rewrite Hc1.
    apply elem_of_cons in Hop as [->|Hop]; [exact Hs|].
    apply elem_of_app in Hop as [Hop|Hop].
    + destruct b; [|by apply not_elem_of_nil in Hop].
      apply list_elem_of_singleton in Hop as ->. by apply only_running_None.
    + apply list_elem_of_singleton in Hop as ->. exact Hm.
  - unfold bind, unwrap, ret, start_send_status_from_server. simpl.
    destruct Hcase as [[E' Hq]|E']; rewrite E'; eexists _, _; (split; [done|]); (split; [done|]);
      (split; [done|]).
    + right. done.
    + left. eexists. split; [done|]. split; [done|]. split; [apply start_live; by right|].
      simpl. by rewrite Hc1.
Qed.

(** Completing a unary sink hands exactly one batch to the core: the OK status, the
    encoded response and the initial metadata; or, when the queue is shut down, nothing,
    and the error is kept for the returned future. *)
Theorem unary_sink_success (share : ShareCall) (wflags : Z) (t : Q) (w : World SC) :
  (forall t buf, slice_wf buf ->
     exists s, ser t buf = Done s /\ GrpcSlice_as_slice s = encode t /\ slice_wf s) ->
  WInv w -> ~ running (sc_call share) SEND_MESSAGE (inflight w) ->
  existsb (started (sc_call share) SEND_STATUS_FROM_SERVER) (calls w) = false ->
  existsb (started (sc_call share) SEND_INITIAL_METADATA) (calls w) = false ->
  exists res w', success start_answer ser (mkUnarySink (Some share) wflags) t w = Done (res, w') /\
    ur_share res = share /\
    ((exists f, ur_cq_f res = Some f /\ ur_err res = None /\ live f w' /\
        calls w' = calls w ++ [StartBatch (sc_call share)
          (SendStatusFromServer 0 [] None true (Some (encode t)) wflags)]) \/
     (ur_cq_f res = None /\ ur_err res = Some QueueShutdown /\ calls w' = calls w /\ queue_shut w')).
Proof.
  intros Hser HW Hr Hs Hm.
  destruct (unary_complete_spec share wflags RpcStatus_ok (Some t) w (fun x buf _ => Hser x buf) HW Hr Hs Hm) as
    (b & res & w' & Hb & E & Hsh & Hcase).
  exists res, w'. split; [done|]. split; [done|]. unfold status_start in Hcase. rewrite Hb in Hcase.
  exact Hcase.
Qed.
End server_properties.

(** A world in which the call ends at the first interference. *)
Definition gone_client_world : World list_core :=
  mkWorld [NotifyHandle_new] {[0 := (Finish, 7, StartServerside)]}
    CompletionQueueHandle_new [] 0 [] [] [[EvResolve 0 true ctx_ok]].

(** After a server stream sink has reported that the client is gone, closing it
    panics: the future of the end of the call is polled a second time. *)
Theorem stream_sink_close_panics :
  exists share sink w1, StreamSink_poll_ready 1 (ShareCall_new 7 0) StreamSink_new
      gone_client_world = Done ((Ready (Err RemoteStopped), share, sink), w1) /\
    StreamSink_poll_close any_answer 1 share sink
      (set_sched [[]; []; [EvResolve 1 true ctx_ok]] w1) =
      Panicked "Resolved future is not supposed to be polled again.".
Proof.
  pose (r := StreamSink_poll_ready 1 (ShareCall_new 7 0) StreamSink_new gone_client_world).
  assert (match r with
    | Done ((Ready (Err RemoteStopped), share, sink), w1) =>
        StreamSink_poll_close any_answer 1 share sink
          (set_sched [[]; []; [EvResolve 1 true ctx_ok]] w1) =
        Panicked "Resolved future is not supposed to be polled again."
    | _ => False end) as H by (vm_compute; reflexivity).
  fold r. clearbody r.
  destruct r as [[[[[[u|[]]|] share] sink] w1]|]; try done. exists share, sink, w1. done.
Qed.

(** ** Witnesses *)

Definition demo_sworld : SWorld list_core := mkSWorld (world0 []) false [RequestSlot].

Definition demo_ctx : RequestContext := mkRequestContext 7 (as_bytes "/nope") [] MetadataBuilder_new.

Definition demo_rc : RequestCallContext list_core := mkRequestCallContext ∅ [].

Definition no_resolve : nat -> bool -> M (World list_core) unit := fun _ _ => ret tt.

Lemma server_keeps_request_slots_witness :
  exists s', complete_tag any_answer GRPC_CALL_OK no_resolve no_resolve demo_rc (TagRequest demo_ctx)
    ctx_ok true demo_sworld = Done (tt, s') /\ length (sw_slots s') = 1.
Proof.
  eexists. split; [vm_compute; reflexivity|].
  apply (server_keeps_request_slots (SC:=list_core) any_answer GRPC_CALL_OK no_resolve no_resolve 1
    demo_rc (TagRequest demo_ctx) ctx_ok true demo_sworld).
  - vm_compute. reflexivity.
  - intros [H|H]; [discriminate H | vm_compute in H; congruence].
Defined.

Definition ok_handler : BoxHandler list_core := mkHandler Duplex (fun _ _ => ret tt).

Definition continue_check : ServerChecker (SC:=list_core) := fun _ => ret Continue.
Definition abort_check : ServerChecker (SC:=list_core) :=
  fun _ => ret (Abort (RpcStatus_new CODE_NOT_FOUND)).

Lemma server_checkers_in_order_witness :
  execute any_answer demo_ctx None ok_handler [continue_check; abort_check; continue_check] (world0 [])
  = abort any_answer 7 (RpcStatus_new CODE_NOT_FOUND) (world0 []).
Proof.
  apply (server_checkers_in_order (SC:=list_core) any_answer demo_ctx None ok_handler
    [continue_check] [continue_check] abort_check (RpcStatus_new CODE_NOT_FOUND)
    (world0 []) (world0 []) (world0 [])).
  - econstructor; [reflexivity | constructor].
  - reflexivity.
Defined.

Lemma server_unknown_method_witness :
  exists s', Request_resolve any_answer GRPC_CALL_OK demo_ctx demo_rc true demo_sworld = Done (tt, s') /\
    sw_slots s' = [RequestSlot; RequestSlot].
Proof.
  destruct (server_unknown_method (SC:=list_core) any_answer GRPC_CALL_OK demo_ctx demo_rc demo_sworld)
    as (s' & E & _ & Hs).
  - reflexivity.
  - reflexivity.
  - reflexivity.
  - reflexivity.
  - reflexivity.
  - apply world0_WInv.
  - reflexivity.
  - exists s'. split; [exact E | exact Hs].
Defined.

Lemma unary_sink_success_witness :
  exists res w', success any_answer raw_ser (mkUnarySink (Some (ShareCall_new 7 0)) 0) [x01] (world0 [])
    = Done (res, w') /\ ur_share res = ShareCall_new 7 0.
Proof.
  destruct (unary_sink_success (SC:=list_core) any_answer id raw_ser (ShareCall_new 7 0) 0 [x01]
    (world0 [])) as (res & w' & E & Hs & _).
  - exact raw_ser_ok.
  - apply world0_WInv.
  - apply world0_idle.
  - reflexivity.
  - reflexivity.
  - eauto.
Defined.
