(* ===== verification/EndToEnd.v ===== *)
(** The components composed: what one peer's user puts in is what the other's gets out.

    Two worlds, of the sender and of the receiver, run on their own, each with its own
    schedule of completions; the core between them is what the documentation of a
    transport promises: the messages a receiver's reads are completed with are, as byte
    strings, the first ones of those the sender's batches carried.  The theorems go
    through the serializers, the sinks with their buffering, the streams and the
    deserializers of src/src/call/client.rs and src/src/call/server.rs. *)

From S2P Require Import Prelude Status Cq Buf Utf8 Metadata Task Call CallSpec ClientCall.
From S2P Require Import ClientSpec ServerCall Server ServerSpec Frame.

Local Open Scope rust_scope.

(** ** Marshallers *)

(** [codec::Marshaller]. *)
Record Marshaller `{SC : SliceCore} (T : Type) := mkMarshaller {
  m_ser : T -> GrpcSlice -> outcome GrpcSlice;
  m_de : MessageReader SC -> Result Error T;
}.
Arguments mkMarshaller {SC T} _ _.
Arguments m_ser {SC T} _ _ _.
Arguments m_de {SC T} _ _.

(** [call::Method]. *)
Record Method `{SC : SliceCore} (Req Resp : Type) := mkMethod {
  ty : MethodType;
  name : string;
  req_mar : Marshaller Req;
  resp_mar : Marshaller Resp;
}.
Arguments mkMethod {SC Req Resp} _ _ _ _.
Arguments ty {SC Req Resp} _.
Arguments name {SC Req Resp} _.
Arguments req_mar {SC Req Resp} _.
Arguments resp_mar {SC Req Resp} _.

Definition req_ser `{SC : SliceCore} {Req Resp} (self : Method Req Resp) := m_ser (req_mar self).
Definition req_de `{SC : SliceCore} {Req Resp} (self : Method Req Resp) := m_de (req_mar self).
Definition resp_ser `{SC : SliceCore} {Req Resp} (self : Method Req Resp) := m_ser (resp_mar self).
Definition resp_de `{SC : SliceCore} {Req Resp} (self : Method Req Resp) := m_de (resp_mar self).

(** A buffer and a new reader of a message with the given bytes, whatever its slices are. *)
Definition message_buffer `{SC : SliceCore} (p : list byte) (buf : grpc_byte_buffer) : Prop :=
  Forall slice_wf (buffer_slices buf) /\
  Forall (fun s => GrpcSlice_len s <> 0) (buffer_slices buf) /\ bytes_of (buffer_slices buf) = p.

Definition message_reader `{SC : SliceCore} (p : list byte) (m : MessageReader SC) : Prop :=
  exists buf, message_buffer p buf /\ Reader_new buf = Done m.

(** What the call layer needs of a marshaller: it writes an encoding, and reads it back. *)
Class MarshallerLaws `{SC : SliceCore} {T : Type} (m : Marshaller T) (encode : T -> list byte) :
    Prop := {
  ser_writes t buf : slice_wf buf ->
    exists s, m_ser m t buf = Done s /\ GrpcSlice_as_slice s = encode t /\ slice_wf s;
  de_reads t r : message_reader (encode t) r -> m_de m r = Ok t;
}.

(** The same for one message. *)
Definition marshals `{SC : SliceCore} {T : Type} (m : Marshaller T) (encode : T -> list byte) (t : T) : Prop :=
  (forall buf, slice_wf buf ->
     exists s, m_ser m t buf = Done s /\ GrpcSlice_as_slice s = encode t /\ slice_wf s) /\
  (forall r, message_reader (encode t) r -> m_de m r = Ok t).

Lemma laws_marshal `{SC : SliceCore} {T : Type} (m : Marshaller T) encode `{ML : !MarshallerLaws m encode} t :
  marshals m encode t.
Proof. split; [apply ser_writes | apply de_reads]. Qed.

Section marshallers.
Context `{SC : SliceCore} `{SL : !SliceCoreLaws SC} {T : Type}.
Context (compute_size : T -> nat) (encode : T -> list byte).
Context (Hsize : forall t, length (encode t) = compute_size t).

(** Reading and writing a message with the protobuf crate. *)
Definition pb_marshaller (merge_from : MessageReader SC -> Result string T) : Marshaller T :=
  mkMarshaller (pb_ser compute_size encode) (pb_de merge_from).

(** The same with the prost crate; the fuel is enough for a consistent reader. *)
Definition pr_marshaller (debug : bool) (decode : MessageReader SC -> Result string T) : Marshaller T :=
  mkMarshaller (pr_ser compute_size encode debug)
    (fun r => default (Err (Codec "recursion limit"))
                (pr_de (S (length (Buf.held r))) decode r)).

#[export] Instance pb_laws merge_from :
  (forall t r, message_reader (encode t) r -> merge_from r = Ok t) ->
  MarshallerLaws (pb_marshaller merge_from) encode.
Proof.
  intros Hd. split.
  - intros t buf Hwf. destruct (codec_ser_writes compute_size encode true t buf (Hsize t) Hwf)
      as (s & ? & _ & ?). by exists s.
  - intros t r Hr. simpl. unfold pb_de. by rewrite (Hd t r Hr).
Qed.

(** [decode] is given the reader after [advance(0)], which is at the same bytes. *)
#[export] Instance pr_laws debug decode :
  (forall t r, RInv r -> pending r = encode t -> decode r = Ok t) ->
  MarshallerLaws (pr_marshaller debug decode) encode.
Proof.
  intros Hd. split.
  - intros t buf Hwf. destruct (codec_ser_writes compute_size encode debug t buf (Hsize t) Hwf)
      as (s & _ & ? & ?). by exists s.
  - intros t r (buf & (Hwf & Hne & Hb) & Hr). cbn [pr_marshaller m_de].
    destruct (Reader_new_spec buf Hwf) as (r' & E & HI & _ & Hp & _).
    assert (r' = r) as -> by congruence. unfold pr_de, advance.
    destruct (consume_spec (S (length (Buf.held r))) 0 r HI) as (r1 & -> & HI1 & Hp1 & _); [lia|].
    cbn [default]. by rewrite (Hd t r1 HI1) by (rewrite Hp1, drop_0, Hp; done).
Qed.
End marshallers.

(** ** Sinks of the two sides

    [StreamingCallSink] and the sinks of a server wrap a [SinkBase]: before some of its
    operations they check that the call is alive.  [SinkImpl] is what they have in common,
    [GuardedSink] what they promise, so that the theorems on a [SinkBase] hold of both. *)

Section sinks.
Context `{SC : SliceCore} `{SL : !SliceCoreLaws SC}.
Context start_answer `{CC : !CallCore start_answer}.
Context {T : Type} (m : Marshaller T) (encode : T -> list byte) `{ML : !MarshallerLaws m encode}.
Let W := World SC.
Implicit Types w : World SC.

Record SinkImpl (St : Type) := mkSinkImpl {
  im_base : St -> SinkBase;
  im_ready : Waker -> St -> M W (Poll (Result Error unit) * St);
  im_send : T -> WriteFlags -> St -> M W (Result Error unit * St);
  im_flush : Waker -> St -> M W (Poll (Result Error unit) * St);
}.
Arguments im_base {St} _ _.
Arguments im_ready {St} _ _ _.
Arguments im_send {St} _ _ _ _.
Arguments im_flush {St} _ _ _.

(** One operation: the guard fails before anything is sent, or the operation is that of
    the base in a world where the base is as it was. *)
Definition guarded {St R} (base : St -> SinkBase) (call : nat) (G : St -> W -> Prop) (fail : Error -> R)
    (op : M W (R * St)) (base_op : M W (R * SinkBase)) (st : St) w : Prop :=
  (exists e st' w', op w = Done ((fail e, st'), w') /\ sent call (calls w') = sent call (calls w)) \/
  (exists w1 (put : SinkBase -> St), SInv call (base st) w1 /\ sent call (calls w1) = sent call (calls w) /\
     forall r b w', base_op w1 = Done ((r, b), w') ->
       op w = Done ((r, put b), w') /\ base (put b) = b /\ G (put b) w').

(** [G] is what the sink needs of its own. *)
Class GuardedSink {St} (im : SinkImpl St) (call : nat) (G : St -> W -> Prop) : Prop := {
  guarded_ready cx st w : SInv call (im_base im st) w -> G st w ->
    guarded (im_base im) call G (fun e => Ready (Err e)) (im_ready im cx st)
      (SinkBase_poll_ready cx (im_base im st)) st w;
  guarded_send t fl st w : SInv call (im_base im st) w -> G st w ->
    guarded (im_base im) call G Err (im_send im t fl st)
      (SinkBase_start_send start_answer call t fl (m_ser m) (im_base im st)) st w;
  guarded_flush cx st w : SInv call (im_base im st) w -> G st w ->
    guarded (im_base im) call G (fun e => Ready (Err e)) (im_flush im cx st)
      (SinkBase_poll_flush start_answer cx call (im_base im st)) st w;
}.

(** A use of a sink, as [sink_run] uses its base. *)
Record ImplRun (St : Type) := mkImplRun {
  ir_sink : St;
  ir_ready : bool;
  ir_accepted : list (T * WriteFlags);
  ir_error : option Error;
}.
Arguments mkImplRun {St} _ _ _ _.
Arguments ir_sink {St} _.
Arguments ir_ready {St} _.
Arguments ir_accepted {St} _.
Arguments ir_error {St} _.

(** What a result means for the use: ready for a message, the messages accepted so far,
    the error that ends it. *)
Definition ready_out (acc : list (T * WriteFlags)) (p : Poll (Result Error unit)) :
    bool * list (T * WriteFlags) * option Error :=
  match p with
  | Ready (Ok _) => (true, acc, None)
  | Ready (Err e) => (false, acc, Some e)
  | Pending => (false, acc, None)
  end.

Definition send_out (acc : list (T * WriteFlags)) (t : T) (wflags : WriteFlags)
    (r : Result Error unit) : bool * list (T * WriteFlags) * option Error :=
  match r with
  | Ok _ => (false, acc ++ [(t, wflags)], None)
  | Err e => (false, acc, Some e)
  end.

Definition flush_out (acc : list (T * WriteFlags)) (p : Poll (Result Error unit)) :
    bool * list (T * WriteFlags) * option Error :=
  match p with
  | Ready (Err e) => (false, acc, Some e)
  | _ => (false, acc, None)
  end.

Definition after {St R} (out : R -> bool * list (T * WriteFlags) * option Error)
    (c : M W (R * St)) : M W (ImplRun St) :=
  let* (r, self) := c in
  let '(ready, acc, err) := out r in
  ret (mkImplRun self ready acc err).

Definition impl_op {St} (im : SinkImpl St) (op : SinkOp (T:=T)) (st : ImplRun St) : M W (ImplRun St) :=
  match op with
  | OpReady cx => after (ready_out (ir_accepted st)) (im_ready im cx (ir_sink st))
  | OpSend t wflags =>
      if ir_ready st
      then after (send_out (ir_accepted st) t wflags) (im_send im t wflags (ir_sink st))
      else ret st
  | OpFlush cx => after (flush_out (ir_accepted st)) (im_flush im cx (ir_sink st))
  end.

Fixpoint impl_run {St} (im : SinkImpl St) (ops : list (SinkOp (T:=T))) (st : ImplRun St) : M W (ImplRun St) :=
  match ops with
  | [] => ret st
  | op :: ops =>
      match ir_error st with
      | Some _ => ret st
      | None => let* st := impl_op im op st in impl_run im ops st
      end
  end.

(** *** Every guarded sink is a sink *)

Section guarded_sink.
Context {St : Type} (im : SinkImpl St) (call : nat) (G : St -> W -> Prop) `{GS : !GuardedSink im call G}.

Definition base_run (st : ImplRun St) : SinkRun (T:=T) :=
  mkSinkRun (im_base im (ir_sink st)) (ir_ready st) (ir_accepted st) (ir_error st).

Definition ImplInv (m0 : bool) S0 X (st : ImplRun St) w : Prop :=
  RunInv encode m0 call S0 X (base_run st) w /\ (ir_error st = None -> G (ir_sink st) w).

(** An error that sends nothing ends the use. *)
Lemma ImplInv_fail m0 S0 X st st' e w w' :
  ImplInv m0 S0 X st w -> ir_error st = None -> sent call (calls w') = sent call (calls w) ->
  ImplInv m0 S0 X (mkImplRun st' false (ir_accepted st) (Some e)) w'.
Proof.
  intros [(HS & Hm & H) _] He Hs. split; [|done]. simpl in H. rewrite He in H.
  destruct H as (_ & HA & _). split; [congruence|]. split; [done|]. simpl.
  destruct (AInv_fail encode m0 X _ _ [] true HA) as [Hp _]; [apply prefix_nil|].
  by rewrite app_nil_r in Hp.
Qed.

(** The invariant in the world the base operation runs in. *)
Lemma ImplInv_guard m0 S0 X st w w1 :
  ImplInv m0 S0 X st w -> ir_error st = None ->
  SInv call (im_base im (ir_sink st)) w1 -> sent call (calls w1) = sent call (calls w) ->
  RunInv encode m0 call S0 X (base_run st) w1.
Proof.
  intros [(HS & Hm & H) _] He HI Hs. split; [congruence|]. split; [done|]. simpl in *.
  rewrite He in *. destruct H as (_ & HA & Hr). done.
Qed.

(** A guarded operation keeps the invariant when that of the base does. *)
Lemma guarded_step {R} (fail : Error -> R) op base_op out m0 S0 X st w :
  guarded (im_base im) call G fail op base_op (ir_sink st) w ->
  ImplInv m0 S0 X st w -> ir_error st = None ->
  (forall e, out (fail e) = (false, ir_accepted st, Some e)) ->
  (forall w1, RunInv encode m0 call S0 X (base_run st) w1 ->
     exists r b w' Y, base_op w1 = Done ((r, b), w') /\
       RunInv encode m0 call S0 (X ++ Y) (mkSinkRun b (out r).1.1 (out r).1.2 (out r).2) w') ->
  exists st' w' Y, after out op w = Done (st', w') /\ ImplInv m0 S0 (X ++ Y) st' w'.
Proof.
  intros Hg HI He Hfail Hbase. unfold after, bind.
  destruct Hg as [(e & st' & w' & E & Hs)|(w1 & put & HI1 & Hs1 & Hop)].
  - rewrite E, Hfail. eexists _, w', []. split; [reflexivity|]. rewrite app_nil_r.
    by eapply ImplInv_fail.
  - destruct (Hbase w1) as (r & b & w' & Y & E & HR); [by eapply ImplInv_guard|].
    destruct (Hop r b w' E) as (-> & Hb & HG). destruct (out r) as [[ready acc] err].
    eexists _, w', Y. split; [reflexivity|]. split; [|done]. unfold base_run. simpl. by rewrite Hb.
Qed.

Lemma impl_op_inv m0 S0 X op st w :
  ImplInv m0 S0 X st w -> ir_error st = None ->
  exists st' w' Y, impl_op im op st w = Done (st', w') /\ ImplInv m0 S0 (X ++ Y) st' w'.
Proof.
  intros HI He. pose proof HI as [(_ & _ & H) HG]. specialize (HG He). simpl in H. rewrite He in H.
  destruct H as (HS & _ & _).
  pose proof (fun w1 (HR : RunInv encode m0 call S0 X (base_run st) w1) =>
    sink_op_RunInv start_answer encode (m_ser m) ser_writes m0 call op S0 X (base_run st) w1 HR He)
    as Hbase.
  destruct op as [cx|t fl|cx]; unfold impl_op.
  - eapply guarded_step; [by apply (guarded_ready (GuardedSink:=GS))|done|done|done|].
    intros w1 (st' & w' & Y & E & HR)%Hbase.
    apply bind_Done in E as ([p b] & w2 & E1 & [= <- <-]).
    exists p, b, w2, Y. split; [done|]. by destruct p as [[[]|]|].
  - destruct (ir_ready st) eqn:Er; [|exists st, w, []; by rewrite app_nil_r].
    eapply guarded_step; [by apply (guarded_send (GuardedSink:=GS))|done|done|done|].
    intros w1 (st' & w' & Y & E & HR)%Hbase.
    unfold sink_op in E. cbn [base_run sr_ready] in E. rewrite Er in E.
    apply bind_Done in E as ([p b] & w2 & E1 & [= <- <-]).
    exists p, b, w2, Y. split; [done|]. by destruct p as [[]|].
  - eapply guarded_step; [by apply (guarded_flush (GuardedSink:=GS))|done|done|done|].
    intros w1 (st' & w' & Y & E & HR)%Hbase.
    apply bind_Done in E as ([p b] & w2 & E1 & [= <- <-]).
    exists p, b, w2, Y. split; [done|]. by destruct p as [[[]|]|].
Qed.

Lemma impl_run_inv m0 S0 X ops st w :
  ImplInv m0 S0 X st w ->
  exists st' w' Y, impl_run im ops st w = Done (st', w') /\ ImplInv m0 S0 (X ++ Y) st' w'.
Proof.
  revert X st w. induction ops as [|op ops IH]; intros X st w HR; simpl.
  - exists st, w, []. by rewrite app_nil_r.
  - destruct (ir_error st) as [e|] eqn:He.
    + exists st, w, []. by rewrite app_nil_r.
    + destruct (impl_op_inv m0 S0 X op st w HR He) as (st1 & w1 & Y & E & HR1).
      unfold bind. rewrite E. destruct (IH _ _ _ HR1) as (st' & w' & Y' & E' & HR').
      exists st', w', (Y ++ Y'). by rewrite app_assoc.
Qed.
End guarded_sink.

(** *** The sink of a client's call *)

Definition call_sink_impl (share : ShareCall) : SinkImpl StreamingCallSink :=
  mkSinkImpl _ cs_sink_base StreamingCallSink_poll_ready
    (fun t fl => StreamingCallSink_start_send start_answer (m_ser m) share t fl)
    (fun cx => StreamingCallSink_poll_flush start_answer cx share).

Definition call_sink_ok (share : ShareCall) (self : StreamingCallSink) w : Prop :=
  S (sc_close_f share) <= length (handles w).

(** The check of the call: it reports an error, or nothing has changed for the sink. *)
Lemma check_alive_guard share self w :
  SInv (sc_call share) self w -> S (sc_close_f share) <= length (handles w) ->
  exists r w1, ShareCall_check_alive share w = Done (r, w1) /\
    SInv (sc_call share) self w1 /\ S (sc_close_f share) <= length (handles w1) /\
    sent (sc_call share) (calls w1) = sent (sc_call share) (calls w).
Proof.
  intros HI Hn. unfold ShareCall_check_alive. destruct (sc_finished share); [by eexists _, w|].
  destruct (interfere_stable (fun w1 => SInv (sc_call share) self w1 /\
    S (sc_close_f share) <= length (handles w1) /\
    sent (sc_call share) (calls w1) = sent (sc_call share) (calls w)) w) as (w1 & E & HI1 & Hn1 & Hs1).
  { apply Stable_and; [apply _|]. apply Stable_and; [apply _|].
    apply (Stable_calls (fun l => sent (sc_call share) l = sent (sc_call share) (calls w))). }
  { done. }
  unfold check_alive_future, bind. rewrite E.
  destruct (lookup_lt_is_Some_2 (handles w1) (sc_close_f share)) as [g Hg]; [lia|].
  rewrite Hg. by eexists _, w1.
Qed.

#[export] Instance call_sink_guarded share :
  GuardedSink (call_sink_impl share) (sc_call share) (call_sink_ok share).
Proof.
  split.
  - intros cx st w HI HG. right. exists w, (fun b => mkCallSink b (cs_close_f st)).
    split; [done|]. split; [done|]. intros r b w' E. split; [|split; [done|]].
    + simpl in *. unfold StreamingCallSink_poll_ready, bind. by rewrite E.
    + by eapply (sink_ready_framed (fun w => S (sc_close_f share) <= length (handles w))).
  - intros t fl st w HI HG.
    destruct (check_alive_guard share _ w HI HG) as (r & w1 & E & HI1 & HG1 & Hs1).
    assert (forall e, r = Err e -> im_send (call_sink_impl share) t fl st w =
      Done ((Err e, st), w1)) as Herr.
    { intros e ->. simpl. unfold StreamingCallSink_start_send, bind. by rewrite E. }
    destruct r as [[]|e]; [right|left; by eexists _, _, w1; rewrite (Herr e)].
    exists w1, (fun b => mkCallSink b (cs_close_f st)). split; [done|]. split; [done|].
    intros r b w' E'. simpl in *. unfold StreamingCallSink_start_send, bind. rewrite E, E'.
    split; [done|]. split; [done|].
    by eapply (sink_send_framed (fun w => S (sc_close_f share) <= length (handles w))).
  - intros cx st w HI HG.
    destruct (check_alive_guard share _ w HI HG) as (r & w1 & E & HI1 & HG1 & Hs1).
    assert (forall e, r = Err e -> im_flush (call_sink_impl share) cx st w =
      Done ((Ready (Err e), st), w1)) as Herr.
    { intros e ->. simpl. unfold StreamingCallSink_poll_flush, bind. by rewrite E. }
    destruct r as [[]|e]; [right|left; by eexists _, _, w1; rewrite (Herr e)].
    exists w1, (fun b => mkCallSink b (cs_close_f st)). split; [done|]. split; [done|].
    intros r b w' E'. simpl in *. unfold StreamingCallSink_poll_flush, bind. rewrite E, E'.
    split; [done|]. split; [done|].
    by eapply (sink_flush_framed (fun w => S (sc_close_f share) <= length (handles w))).
Qed.

(** *** The sinks of a server *)

Definition stream_sink_impl : SinkImpl (ShareCall * StreamSink) :=
  mkSinkImpl _ (fun st => ss_base st.2)
    (fun cx st => let* (p, share, self) := StreamSink_poll_ready cx st.1 st.2 in ret (p, (share, self)))
    (fun t fl st =>
       let* (r, self) := StreamSink_start_send start_answer (m_ser m) st.1 t fl st.2 in
       ret (r, (st.1, self)))
    (fun cx st => let* (p, share, self) := StreamSink_poll_flush start_answer cx st.1 st.2 in
                  ret (p, (share, self))).

Definition stream_sink_ok (call : nat) (st : ShareCall * StreamSink) w : Prop :=
  sc_call st.1 = call /\ spared (sc_close_f st.1) (ss_base st.2) w.

(** The client is gone, or nothing has changed for the sink. *)
Lemma remote_stopped_guard cx share self w :
  SInv (sc_call share) self w -> spared (sc_close_f share) self w ->
  exists e share' w1, remote_stopped cx share w = Done ((e, share'), w1) /\
    sent (sc_call share) (calls w1) = sent (sc_call share) (calls w) /\
    (e = None -> share' = share /\ SInv (sc_call share) self w1 /\ spared (sc_close_f share) self w1).
Proof.
  intros HI [Hl Hb].
  destruct (poll_future_spec (fun w1 => SInv (sc_call share) self w1 /\ live (sc_close_f share) w1 /\
      sent (sc_call share) (calls w1) = sent (sc_call share) (calls w)) cx (sc_close_f share) w) as
    (w1 & g & (HI1 & Hl1 & Hs1) & HW1 & Hg & Hst & Hcase).
  { apply Stable_and; [apply _|]. apply Stable_and; [apply _|].
    apply (Stable_calls (fun l => sent (sc_call share) l = sent (sc_call share) (calls w))). }
  { apply HI. }
  { done. }
  { done. }
  unfold remote_stopped, poll_finish, bind.
  destruct Hcase as [(res & Hr & Hni & ->)|(Hr & wk & ->)].
  - destruct res as [v|e]; by eexists _, _, _.
  - eexists _, _, _. split; [reflexivity|]. split; [done|]. intros _. split; [done|].
    destruct HI1 as (Hwf & _ & Ho & Hf & Hm). split.
    + split; [done|]. split; [by apply set_handle_WInv|]. split; [done|].
      split; [|done]. destruct (si_batch_f self); [by apply set_handle_live | done].
    + split; [by apply set_handle_live | done].
Qed.

#[export] Instance stream_sink_guarded call :
  GuardedSink stream_sink_impl call (stream_sink_ok call).
Proof.
  split.
  - intros cx [share st] w HI [<- HG]. cbn [fst snd] in *.
    destruct (remote_stopped_guard cx share _ w HI HG) as (e & share' & w1 & E & Hs1 & Hok).
    destruct e as [e|].
    { left. exists e, (share', st), w1. simpl. unfold StreamSink_poll_ready, bind. by rewrite E. }
    right. destruct Hok as (-> & HI1 & HG1); [done|].
    exists w1, (fun b => (share, set_base b st)). split; [done|]. split; [done|].
    intros r b w' E'. simpl in *. unfold StreamSink_poll_ready, bind. rewrite E, E'.
    split; [done|]. split; [done|]. split; [done|].
    apply (sink_ready_spared cx (sc_close_f share) _ _ _ _ HG1 E').
  - intros t fl [share st] w HI [<- HG]. cbn [fst snd] in *. right.
    exists w, (fun b => (share, set_base b st)). split; [done|]. split; [done|].
    intros r b w' E'. cbn [stream_sink_impl im_base im_send fst snd] in *.
    unfold StreamSink_start_send, bind. rewrite E'.
    split; [done|]. split; [done|]. split; [done|].
    apply (sink_send_spared start_answer _ _ _ _ (sc_close_f share) _ _ _ _ HG E').
  - intros cx [share st] w HI [<- HG]. cbn [fst snd] in *.
    destruct (remote_stopped_guard cx share _ w HI HG) as (e & share' & w1 & E & Hs1 & Hok).
    destruct e as [e|].
    { left. exists e, (share', st), w1. simpl. unfold StreamSink_poll_flush, bind. by rewrite E. }
    right. destruct Hok as (-> & HI1 & HG1); [done|].
    exists w1, (fun b => (share, set_base b st)). split; [done|]. split; [done|].
    intros r b w' E'. simpl in *. unfold StreamSink_poll_flush, bind. rewrite E, E'.
    split; [done|]. split; [done|]. split; [done|].
    apply (sink_flush_spared start_answer cx _ (sc_close_f share) _ _ _ _ HG1 E').
Qed.
End sinks.

Arguments mkSinkImpl {SC T St} _ _ _ _.
Arguments im_base {SC T St} _ _.
Arguments mkImplRun {T St} _ _ _ _.
Arguments ir_sink {T St} _.
Arguments ir_accepted {T St} _.
Arguments ir_error {T St} _.

(** ** Streams of the two sides *)

Section streams.
Context `{SC : SliceCore} `{SL : !SliceCoreLaws SC}.
Context start_answer `{CC : !CallCore start_answer}.
Context {T : Type} (de : MessageReader SC -> Result Error T).
Let W := World SC.
Implicit Types w : World SC.

(** Poll a request stream for each waker of a list, until it ends or fails: the messages,
    whether it ended, the error. *)
Fixpoint request_run (share : ShareCall) (cxs : list Waker) (self : StreamingBase) (got : list T) :
    M W (list T * bool * option Error) :=
  match cxs with
  | [] => ret (got, false, None)
  | cx :: cxs =>
      let* (p, self) := RequestStream_poll_next start_answer de cx share self in
      match p with
      | Ready (Some (Ok t)) => request_run share cxs self (got ++ [t])
      | Ready (Some (Err e)) => ret (got, false, Some e)
      | Ready None => ret (got, true, None)
      | Pending => request_run share cxs self got
      end
  end.

(** The same for a stream of responses. *)
Fixpoint response_run (cxs : list Waker) (share : ShareCall) (self : ResponseStreamImpl) (got : list T) :
    M W (list T * bool * option Error) :=
  match cxs with
  | [] => ret (got, false, None)
  | cx :: cxs =>
      let* (p, share, self) := ResponseStreamImpl_poll start_answer de cx share self in
      match p with
      | Ready (Some (Ok t)) => response_run cxs share self (got ++ [t])
      | Ready (Some (Err e)) => ret (got, false, Some e)
      | Ready None => ret (got, true, None)
      | Pending => response_run cxs share self got
      end
  end.

(** The outcome of such a run: the messages are the decoded first ones received, and all
    of them when the stream ended. *)
Definition stream_result (call : nat) (got : list T) (ended : bool) w : Prop :=
  exists Y, Ok <$> got = de <$> Y /\ oks Y `prefix_of` received call w /\
    (ended = true -> received call w = oks Y ++ [Ok None]).

Lemma TInv_received call self Y w : TInv call self Y w -> oks Y `prefix_of` received call w.
Proof.
  intros (_ & _ & _ & H). destruct (sb_read_done self).
  - destruct H as [_ ->]. by eexists.
  - destruct (sb_msg_f self) as [f|].
    + destruct H as (_ & _ & g & _ & _ & [(_ & -> & _)|(r & _ & ->)]); [done|by eexists].
    + destruct H as [_ ->]. done.
Qed.

(** One poll of a request stream, which also reports the end of the call. *)
Lemma request_poll_spec cx share self Y w :
  TInv (sc_call share) self Y w -> sb_close_f self = None -> S (sc_close_f share) <= length (handles w) ->
  exists p self' w', RequestStream_poll_next start_answer de cx share self w = Done ((p, self'), w') /\
    match p with
    | Pending => TInv (sc_call share) self' Y w' /\ sb_close_f self' = None
    | Ready None => received (sc_call share) w' = oks Y ++ [Ok None]
    | Ready (Some r) =>
        (exists x, r = de x /\ TInv (sc_call share) self' (Y ++ [x]) w' /\ sb_close_f self' = None) \/
        exists e, r = Err e
    end.
Proof.
  intros HT Hcl Hn. unfold RequestStream_poll_next.
  assert (exists r w1, ShareCall_check_alive share w = Done (r, w1) /\ TInv (sc_call share) self Y w1)
    as (r & w1 & E & HT1).
  { unfold ShareCall_check_alive. destruct (sc_finished share); [by eexists _, w|].
    destruct (interfere_stable (fun w1 => TInv (sc_call share) self Y w1 /\
      S (sc_close_f share) <= length (handles w1)) w) as (w1 & E & HT1 & Hn1);
      [apply Stable_and; apply _|done|].
    unfold check_alive_future, bind. rewrite E.
    destruct (lookup_lt_is_Some_2 (handles w1) (sc_close_f share)) as [g Hg]; [lia|].
    rewrite Hg. by eexists _, w1. }
  unfold bind at 1. rewrite E. destruct r as [[]|e];
    [|eexists _, _, _; split; [reflexivity|]; right; by exists e].
  destruct (stream_poll_spec start_answer cx (sc_call share) false self Y w1 HT1) as
    (p & self' & w' & E' & Hp).
  assert (sb_close_f self' = None) as Hcl'.
  { unfold StreamingBase_poll, poll_close_f in E'. rewrite Hcl in E'. unfold bind, ret in E'.
    apply poll_msgs_close in E' as [E' _]. congruence. }
  unfold bind. rewrite E'. eexists _, _, _. split; [reflexivity|].
  destruct p as [[[x|e]|]|]; simpl in Hp.
  - left. by exists x.
  - right. by exists e.
  - destruct Hp as [(_ & _ & _ & Hr) Hd]. rewrite Hd in Hr. apply Hr.
  - done.
Qed.

Lemma request_run_result share cxs self Y got w :
  TInv (sc_call share) self Y w -> sb_close_f self = None -> S (sc_close_f share) <= length (handles w) ->
  Ok <$> got = de <$> Y ->
  exists out ended err w', request_run share cxs self got w = Done ((out, ended, err), w') /\
    stream_result (sc_call share) out ended w'.
Proof.
  revert self Y got w. induction cxs as [|cx cxs IH]; intros self Y got w HT Hcl Hn Hgot; cbn [request_run].
  - eexists got, false, None, w. split; [done|]. exists Y. split; [done|]. split; [|done].
    by eapply TInv_received.
  - destruct (request_poll_spec cx share self Y w HT Hcl Hn) as (p & self' & w' & E & Hp).
    pose proof (request_poll_framed (fun w => S (sc_close_f share) <= length (handles w)) start_answer de
      cx share self w _ w' Hn E) as Hn'.
    pose proof (request_poll_framed (fun w => oks Y `prefix_of` received (sc_call share) w) start_answer
      de cx share self w _ w' (TInv_received _ _ _ _ HT) E) as Hrec.
    unfold bind. rewrite E. destruct p as [[[t|e]|]|].
    + destruct Hp as [(x & Hx & HT' & Hcl')|[e Hx]]; [|done].
      apply (IH _ (Y ++ [x])); [done..|]. rewrite !fmap_app, Hgot. simpl. by rewrite <-Hx.
    + eexists got, false, (Some e), w'. split; [done|]. by exists Y.
    + eexists got, true, None, w'. split; [done|]. exists Y. rewrite Hp. auto using prefix_app_r.
    + destruct Hp as [HT' Hcl']. by apply (IH _ Y).
Qed.

Lemma response_run_result cxs share self Y got w :
  RSInv share self Y w -> Ok <$> got = de <$> Y ->
  exists out ended err w', response_run cxs share self got w = Done ((out, ended, err), w') /\
    stream_result (sc_call share) out ended w'.
Proof.
  revert share self Y got w. induction cxs as [|cx cxs IH]; intros share self Y got w HT Hgot;
    cbn [response_run].
  - eexists got, false, None, w. split; [done|]. exists Y. split; [done|]. split; [|done].
    by eapply TInv_received.
  - destruct (response_poll_spec start_answer de cx share self Y w HT) as
      (p & share' & self' & w' & E & Hsc & Hp).
    pose proof (response_poll_framed (fun w => oks Y `prefix_of` received (sc_call share) w) start_answer
      de cx share self w _ w' (TInv_received _ _ _ _ HT) E) as Hrec.
    unfold bind. rewrite E. rewrite <-Hsc in *. destruct p as [[[t|e]|]|].
    + destruct Hp as [(x & Hx & HT')|[(e & Hx & _)|[Hx _]]]; [|done..].
      apply (IH share' _ (Y ++ [x])); [done|]. rewrite !fmap_app, Hgot. simpl. by rewrite <-Hx.
    + eexists got, false, (Some e), w'. split; [done|]. by exists Y.
    + destruct Hp as (HT' & _ & Hr). eexists got, true, None, w'. split; [done|].
      exists Y. rewrite Hr. auto using prefix_app_r.
    + by apply (IH share' _ Y).
Qed.
End streams.

(** ** The transport *)

Section delivery.
Context `{SC : SliceCore} `{SL : !SliceCoreLaws SC}.

(** What the core promises of the messages of one direction of a call: the reads of the
    receiver complete with the first messages of the sender, each once and in order, and
    then with the end of the messages; all of them when the direction is [complete]. *)
Definition transported (ps : list (list byte)) (rcv : list (Result Error (option (MessageReader SC))))
    (complete : bool) : Prop :=
  exists qs ms tail, qs `prefix_of` ps /\ Forall2 message_reader qs ms /\
    rcv = oks ms ++ tail /\ (tail = [] \/ tail = [Ok None]) /\ (complete = true -> qs = ps).

#[local] Instance Ok_inj {A} : Inj (=) (=) (Ok (E:=Error) (T:=A)).
Proof. by intros ? ? [= ->]. Qed.

#[local] Instance Ok_Some_inj {A} : Inj (=) (=) (fun x : A => Ok (E:=Error) (Some x)).
Proof. by intros ? ? [= ->]. Qed.

Lemma oks_prefix (Y ms : list (MessageReader SC)) tail :
  tail = [] \/ tail = [Ok None] -> oks Y `prefix_of` oks ms ++ tail -> Y `prefix_of` ms.
Proof.
  intros Ht. revert ms. induction Y as [|y Y IH]; intros ms Hp; [apply prefix_nil|].
  destruct ms as [|x ms]; simpl in Hp.
  - destruct Hp as [k Hk]. destruct Ht as [-> | ->]; done.
  - pose proof (prefix_cons_inv_1 _ _ _ _ Hp) as Hx. apply prefix_cons_inv_2 in Hp.
    injection Hx as ->. apply prefix_cons. by apply IH.
Qed.

Lemma oks_end (Y ms : list (MessageReader SC)) tail :
  tail = [] \/ tail = [Ok None] -> oks ms ++ tail = oks Y ++ [Ok None] -> Y = ms.
Proof.
  intros [-> | ->] E.
  - rewrite app_nil_r in E. exfalso. assert (Ok None ∈ oks ms) as H by (rewrite E; set_solver).
    unfold oks in H. by apply list_elem_of_fmap in H as (? & ? & _).
  - apply app_inj_2 in E as [E _]; [|done]. by apply (inj (fmap (fun x => Ok (Some x)))) in E.
Qed.

Lemma prefix_fmap_inv {A B} (f : A -> B) (l : list B) (k : list A) :
  l `prefix_of` f <$> k -> exists k', k' `prefix_of` k /\ l = f <$> k'.
Proof.
  revert l. induction k as [|a k IH]; intros [|b l] Hp.
  - by exists [].
  - by apply prefix_nil_not in Hp.
  - exists []. split; [apply prefix_nil|done].
  - simpl in Hp. pose proof (prefix_cons_inv_1 _ _ _ _ Hp) as ->. apply prefix_cons_inv_2 in Hp.
    destruct (IH _ Hp) as (k' & Hk & ->). exists (a :: k'). split; [by apply prefix_cons|done].
Qed.

Context {T : Type} (m : Marshaller T) (encode : T -> list byte) `{ML : !MarshallerLaws m encode}.

Lemma de_all (us : list T) ms : Forall2 message_reader (encode <$> us) ms -> m_de m <$> ms = Ok <$> us.
Proof.
  revert ms. induction us as [|u us IH]; intros ms H.
  - by apply Forall2_nil_inv_l in H as ->.
  - apply Forall2_cons_inv_l in H as (x & ms' & Hx & H & ->). simpl.
    by rewrite (de_reads u x Hx), IH.
Qed.

(** The values a stream returns are the first of those whose encodings were sent. *)
Lemma delivered_values (vs : list T) ps call got ended complete (w : World SC) :
  stream_result (m_de m) call got ended w -> transported ps (received call w) complete ->
  ps `prefix_of` encode <$> vs ->
  got `prefix_of` vs /\ (complete = true -> ended = true -> ps = encode <$> vs -> got = vs).
Proof.
  intros (Y & Hgot & Hpre & Hend) (qs & ms & tail & Hq & Hall & Hrcv & Ht & Hc) Hps.
  assert (qs `prefix_of` encode <$> vs) as (us & Hus & ->)%prefix_fmap_inv by (by trans ps).
  apply de_all in Hall. rewrite Hrcv in *.
  assert (exists us', us' `prefix_of` us /\ got = us') as (us' & Hu' & ->).
  { apply oks_prefix in Hpre as [Z ->]; [|done]. rewrite fmap_app, <-Hgot in Hall.
    assert (Ok <$> got `prefix_of` Ok (E:=Error) <$> us) as (us' & Hu & E)%prefix_fmap_inv
      by (rewrite <-Hall; by apply prefix_app_r).
    exists us'. split; [done|]. by apply (inj (fmap Ok)) in E. }
  split; [by trans us|]. intros -> -> ->.
  specialize (Hend eq_refl). apply oks_end in Hend as ->; [|done].
  rewrite <-Hgot in Hall. apply (inj (fmap Ok)) in Hall as <-.
  apply prefix_length_eq; [done|]. specialize (Hc eq_refl). apply (f_equal length) in Hc.
  rewrite !length_fmap in Hc. lia.
Qed.
End delivery.

(** ** The two directions of a call *)

Section end_to_end.
Context `{SC : SliceCore} `{SL : !SliceCoreLaws SC}.
(** The cores of the client and of the server. *)
Context client_answer `{CC : !CallCore client_answer} server_answer `{CS : !CallCore server_answer}.
Context {T : Type} (m : Marshaller T) (encode : T -> list byte) `{ML : !MarshallerLaws m encode}.

(** The use of a new sink starts with its invariant. *)
Lemma new_sink_inv {St} (im : SinkImpl St) call (G : St -> World SC -> Prop) st meta (enhance : bool) S0 w :
  sent call (calls w) = S0 -> im_base im st = mkSinkBase None meta enhance GrpcSlice_default None true ->
  WInv w -> ~ running call SEND_MESSAGE (inflight w) ->
  existsb (started call SEND_INITIAL_METADATA) (calls w) = false \/ meta = false -> G st w ->
  ImplInv encode im call G meta S0 [] (mkImplRun st false [] None) w.
Proof.
  intros <- Hb HW Hr Hm HG. split; [|done]. split; [by rewrite app_nil_r|]. split; [done|].
  simpl. rewrite Hb. split; [|split; [|done]].
  - split; [apply empty_slice_wf|]. split; [done|]. split; [by apply only_running_None|].
    split; [done|]. simpl. intros ->. by destruct Hm.
  - split; simpl; [by intros [? ?]|done|done|by destruct meta].
Qed.

(** What a sink sent, and what it accepted. *)
Lemma sink_accounts {St} (im : SinkImpl St) call (G : St -> World SC -> Prop) meta X st w :
  ImplInv encode im call G meta [] X st w ->
  payloads (sent call (calls w)) `prefix_of` encode <$> (ir_accepted st).*1 /\
  (ir_error st = None -> si_buf_flags (im_base im (ir_sink st)) = None ->
   payloads (sent call (calls w)) = encode <$> (ir_accepted st).*1).
Proof.
  intros [(HS & _ & H) _]. rewrite HS. simpl in *. destruct (ir_error st); [by split|].
  destruct H as (_ & HA & _). destruct HA as [_ Hp _ _]. rewrite <-Hp. split; [by eexists|].
  intros _ Hb. unfold buffered, abs. simpl. rewrite Hb. simpl. by rewrite app_nil_r.
Qed.

(** C2: the requests of a call arrive: whatever the two programs do with the sink of the
    client and the request stream of the server, and however their batches complete and
    their queues are shut down, neither side panics, and when the core carries the bytes of
    the messages in order, the values the stream returns are the first of those the sink
    accepted, in order and each once; all of them when the sink is flushed without an error,
    everything was carried and the stream has ended. *)
Theorem requests_delivered (share : ShareCall) (peer : ShareCall) (enhance : bool)
    (ops : list (SinkOp (T:=T))) (cxs : list Waker) (wc ws : World SC) :
  WInv wc -> ~ running (sc_call share) SEND_MESSAGE (inflight wc) ->
  sent (sc_call share) (calls wc) = [] -> sc_close_f share < length (handles wc) ->
  WInv ws -> ~ running (sc_call peer) RECV_MESSAGE (inflight ws) ->
  received (sc_call peer) ws = [] -> sc_close_f peer < length (handles ws) ->
  exists st wc' got ended err ws',
    impl_run (call_sink_impl client_answer m share) ops
      (mkImplRun (enhance_batch enhance StreamingCallSink_new) false [] None) wc = Done (st, wc') /\
    request_run server_answer (m_de m) peer cxs RequestStream_new [] ws = Done ((got, ended, err), ws') /\
    forall complete,
      transported (payloads (sent (sc_call share) (calls wc'))) (received (sc_call peer) ws') complete ->
      got `prefix_of` (ir_accepted st).*1 /\
      (complete = true -> ended = true -> ir_error st = None ->
       si_buf_flags (cs_sink_base (ir_sink st)) = None -> got = (ir_accepted st).*1).
Proof.
  intros HWc Hrc Hsc Hlc HWs Hrs Hss Hls.
  destruct (impl_run_inv client_answer m encode (call_sink_impl client_answer m share) (sc_call share)
    (call_sink_ok share) false [] [] ops
    (mkImplRun (enhance_batch enhance StreamingCallSink_new) false [] None) wc) as (st & wc' & X & E & HI).
  { apply (new_sink_inv _ _ _ _ false enhance); auto. }
  destruct (request_run_result server_answer (m_de m) peer cxs RequestStream_new [] [] ws) as
    (got & ended & err & ws' & E' & HR); [|done|done|done|].
  { split; [done|]. split; [done|]. split; [done|]. split; [by apply only_running_None|done]. }
  exists st, wc', got, ended, err, ws'. split; [done|]. split; [done|]. intros complete Htr.
  destruct (sink_accounts _ _ _ _ _ _ _ HI) as [Hpre Hall].
  destruct (delivered_values m encode _ _ _ _ _ _ _ HR Htr Hpre) as [Hgot Hend].
  split; [done|]. intros Hc He Hn Hb. apply Hend; auto.
Qed.

(** C3: the responses of a call arrive: the same of the sink of a server and the response
    stream of the client. *)
Theorem responses_delivered (share : ShareCall) (peer : ShareCall) (enhance : bool)
    (ops : list (SinkOp (T:=T))) (cxs : list Waker) (ws wc : World SC) :
  WInv ws -> ~ running (sc_call share) SEND_MESSAGE (inflight ws) ->
  existsb (started (sc_call share) SEND_INITIAL_METADATA) (calls ws) = false ->
  sent (sc_call share) (calls ws) = [] -> live (sc_close_f share) ws ->
  WInv wc -> ~ running (sc_call peer) RECV_MESSAGE (inflight wc) ->
  received (sc_call peer) wc = [] -> live (sc_close_f peer) wc ->
  exists st ws' got ended err wc',
    impl_run (stream_sink_impl server_answer m) ops
      (mkImplRun (share, enhance_batch_sink enhance StreamSink_new) false [] None) ws = Done (st, ws') /\
    response_run client_answer (m_de m) cxs peer ResponseStreamImpl_new [] wc =
      Done ((got, ended, err), wc') /\
    forall complete,
      transported (payloads (sent (sc_call share) (calls ws'))) (received (sc_call peer) wc') complete ->
      got `prefix_of` (ir_accepted st).*1 /\
      (complete = true -> ended = true -> ir_error st = None ->
       si_buf_flags (ss_base (ir_sink st).2) = None -> got = (ir_accepted st).*1).
Proof.
  intros HWs Hrs Hms Hss Hls HWc Hrc Hsc Hlc.
  destruct (impl_run_inv server_answer m encode (stream_sink_impl server_answer m) (sc_call share)
    (stream_sink_ok (sc_call share)) true [] [] ops
    (mkImplRun (share, enhance_batch_sink enhance StreamSink_new) false [] None) ws)
    as (st & ws' & X & E & HI).
  { apply (new_sink_inv _ _ _ _ true enhance); auto. split; [done|]. by split. }
  destruct (response_run_result client_answer (m_de m) cxs peer ResponseStreamImpl_new [] [] wc) as
    (got & ended & err & wc' & E' & HR); [|done|].
  { split; [done|]. split; [done|]. split; [done|]. split; [by apply only_running_None|done]. }
  exists st, ws', got, ended, err, wc'. split; [done|]. split; [done|]. intros complete Htr.
  destruct (sink_accounts _ _ _ _ _ _ _ HI) as [Hpre Hall].
  destruct (delivered_values m encode _ _ _ _ _ _ _ HR Htr Hpre) as [Hgot Hend].
  split; [done|]. intros Hc He Hn Hb. apply Hend; auto.
Qed.
End end_to_end.

(** ** Unary calls *)

Section unary.
Context `{SC : SliceCore} `{SL : !SliceCoreLaws SC}.
Context client_answer `{CC : !CallCore client_answer} server_answer `{CS : !CallCore server_answer}.
Context (create_call_ptr : list CoreCall -> option nat) (debug_error : Error -> string).
Context {Req Resp : Type} (mq : Marshaller Req) (mr : Marshaller Resp).
Context (encode_req : Req -> list byte) (encode_resp : Resp -> list byte).
Implicit Types w : World SC.

(** A handler that answers at once with what a function of the request says. *)
Definition answer (h : Req -> Result RpcStatus Resp) (ctx : RpcContext) (req : Req) (sink : UnarySink) :
    M (World SC) unit :=
  match h req with
  | Ok resp => do* success server_answer (m_ser mr) sink resp in ret tt
  | Err status => do* UnarySink_fail server_answer (m_ser mr) sink status in ret tt
  end.

Definition answer_status (r : Result RpcStatus Resp) : RpcStatus :=
  match r with Ok _ => RpcStatus_ok | Err status => status end.

Definition answer_message (r : Result RpcStatus Resp) : option Resp :=
  match r with Ok resp => Some resp | Err _ => None end.

(** What the core carries back of a response: the code, the text and the trailing metadata
    of the status, and the message if there is one. *)
Definition carried (s : Start) (ctx : BatchContext SC) : Prop :=
  match s with
  | SendStatusFromServer code text trailing _ payload _ =>
      bc_status ctx = code /\ bc_status_details ctx = text /\
      (exists others, Forall (fun kv => kv.1 <> BINARY_ERROR_DETAILS_KEY) others /\
         md_entries (bc_trailing_metadata ctx) = others ++ from_option md_entries [] trailing) /\
      match payload with
      | Some p => exists buf, bc_recv_message ctx = Some buf /\ message_buffer p buf
      | None => bc_recv_message ctx = None
      end
  | _ => False
  end.

(** Starting a call leaves its batch with a fresh future. *)
Lemma unary_async_starts name req opt w recv w1 :
  marshals mq encode_req req ->
  unary_async client_answer create_call_ptr (m_ser mq) name req opt w = Done (Ok recv, w1) ->
  last (calls w1) = Some (StartBatch (ur_call recv)
    (StartUnary (encode_req req) (flags (co_write_flags opt)) (co_headers opt) (co_call_flags opt))) /\
  handles w1 !! ur_resp_f recv = Some NotifyHandle_new /\
  exists s, inflight w1 !! ur_resp_f recv = Some (CheckRead, ur_call recv, s).
Proof.
  intros Hm (r & w2 & _ & E)%bind_Done. destruct r as [call|e]; [|done].
  apply bind_Done in E as (b & w3 & Eb & E).
  destruct (run_ser_at (m_ser mq) (encode_req req) req GrpcSlice_default w2) as (b' & Eb' & Hb & _);
    [apply Hm, empty_slice_wf|]. rewrite Eb' in Eb. injection Eb as <- <-.
  apply bind_Done in E as (f & w4 & E & [= <- <-]).
  apply bind_Done in E as ([] & w5 & _ & E). destruct (client_answer _ _ _ _); try done.
  injection E as <- <-. simpl. rewrite last_snoc, Hb. split; [done|].
  split; [by apply list_lookup_middle|]. eexists. apply lookup_insert_eq.
Qed.

(** A served request: the server accepts the call and starts one batch with the answer,
    unless its queue is shut down. *)
Lemma execute_unary_answers h ctx payload req w :
  m_de mq payload = Ok req -> (forall resp, h req = Ok resp -> marshals mr encode_resp resp) -> WInv w ->
  (forall t ty s, inflight w !! t <> Some (ty, RpcContext_call ctx, s)) ->
  (forall op, existsb (started (RpcContext_call ctx) op) (calls w) = false) ->
  exists w' b, execute_unary server_answer debug_error (m_de mq) ctx payload (answer h) w = Done (tt, w') /\
    GrpcSlice_as_slice <$> b = encode_resp <$> answer_message (h req) /\
    ((queue_shut w' /\ (calls w' = calls w ++ [CallUnref (RpcContext_call ctx)] \/
                        calls w' = calls w ++ [StartBatch (RpcContext_call ctx) StartServerside])) \/
     calls w' = calls w ++ [StartBatch (RpcContext_call ctx) StartServerside;
       StartBatch (RpcContext_call ctx) (status_start (answer_status (h req)) true b 0)]).
Proof.
  intros Hde Hmr HW Hidle Hfresh. set (call := RpcContext_call ctx) in *.
  assert (exists r w1, with_cq_ref server_answer Finish call StartServerside w = Done (r, w1) /\
    match r with
    | Ok f => WInv w1 /\ ~ running call SEND_MESSAGE (inflight w1) /\
        calls w1 = calls w ++ [StartBatch call StartServerside]
    | Err e => e = QueueShutdown /\ calls w1 = calls w /\ queue_shut w1
    end) as (r & w1 & E & Hr).
  { destruct (with_cq_ref_spec server_answer
      (fun w1 => only_running call SEND_MESSAGE None w1 /\ calls w1 = calls w) Finish call
      StartServerside w) as (w1 & [Ho1 Hc1] & HW1 & Hcase).
    - apply Stable_and; [apply _|]. apply (Stable_calls (fun l => l = calls w)).
    - by intros h' w1 [? ?].
    - done.
    - split; [|done]. intros t ty s Ht. by destruct (Hidle t ty s).
    - intros w1 [_ Hc1] _ op Hop. simpl in Hop. apply list_elem_of_singleton in Hop as ->.
      simpl. rewrite Hc1. apply Hfresh.
    - destruct Hcase as [[E Hq]|E]; eexists _, _; (split; [exact E|]); [done|].
      split; [by apply start_WInv|]. split; [|simpl; by rewrite Hc1]. apply only_running_None.
      pose proof (start_only_running Finish call StartServerside w1 (unref (w_cq w1)) SEND_MESSAGE None)
        as Hor. rewrite decide_False in Hor by (by intros Hop%list_elem_of_singleton).
      apply Hor; [done|].
      intros Hop. simpl in Hop. by apply list_elem_of_singleton in Hop. }
  unfold execute_unary, accept_call, start_server_side. fold call. unfold bind at 1 2. rewrite E.
  destruct r as [f|e].
  - destruct Hr as (HW1 & Hr1 & Hc1). simpl. rewrite Hde. unfold answer, success, UnarySink_fail.
    assert (forall op, op <> RECV_CLOSE_ON_SERVER -> existsb (started call op) (calls w1) = false) as Hf1.
    { intros op Hop. rewrite Hc1, existsb_app, Hfresh. simpl.
      rewrite (bool_decide_eq_false_2 (op ∈ [RECV_CLOSE_ON_SERVER]))
        by (by intros ?%list_elem_of_singleton).
      by rewrite andb_false_r. }
    destruct (unary_complete_spec server_answer encode_resp (m_ser mr) (ShareCall_new call f) 0
      (answer_status (h req)) (answer_message (h req)) w1) as (b & res & w' & Hb & Ec & _ & Hcase);
      [| done | done | by apply Hf1 | by apply Hf1 |].
    { intros x buf Hx. apply Hmr. by destruct (h req); simplify_eq/=. }
    exists w', b. split; [|split; [done|]].
    + destruct (h req) as [resp|st]; unfold bind; simpl in Ec; unfold UnarySink_new, ShareCall_new in *;
        by rewrite Ec.
    + destruct Hcase as [(g & _ & _ & _ & ->)|(_ & _ & -> & Hq)]; rewrite Hc1; [right|left; by auto].
      by rewrite <-app_assoc.
  - destruct Hr as (-> & Hc1 & Hq). unfold core_call, bind.
    destruct (interfere_stable (fun w2 => queue_shut w2 /\ calls w2 = calls w) w1) as (w2 & E2 & Hq2 & Hc2);
      [apply Stable_and; [apply _|apply (Stable_calls (fun l => l = calls w))] | done |].
    rewrite E2. eexists _, (GrpcSlice_from_slice <$> (encode_resp <$> answer_message (h req))).
    split; [reflexivity|]. split; [|left; split; [exact Hq2|left; simpl; by rewrite Hc2]].
    destruct (h req); simpl; [|done]. f_equal. apply copied_buffer_bytes.
Qed.

(** A unary call of messages that their marshallers write and read back. *)
Lemma unary_call_returns (h : Req -> Result RpcStatus Resp) (name : string) (req : Req)
    (opt : CallOption) (ctx : RpcContext) (payload : MessageReader SC) (wc wc1 ws : World SC)
    recv bytes fl md cf :
  marshals mq encode_req req -> (forall resp, h req = Ok resp -> marshals mr encode_resp resp) ->
  unary_async client_answer create_call_ptr (m_ser mq) name req opt wc = Done (Ok recv, wc1) ->
  last (calls wc1) = Some (StartBatch (ur_call recv) (StartUnary bytes fl md cf)) ->
  message_reader bytes payload ->
  WInv ws -> (forall t ty s, inflight ws !! t <> Some (ty, RpcContext_call ctx, s)) ->
  (forall op, existsb (started (RpcContext_call ctx) op) (calls ws) = false) ->
  match h req with
  | Ok _ => True
  | Err st => status_code st <> CODE_OK /\ utf8_valid (as_bytes (status_message st)) = true
  end ->
  exists ws1, execute_unary server_answer debug_error (m_de mq) ctx payload (answer h) ws = Done (tt, ws1) /\
    (queue_shut ws1 \/ exists s, calls ws1 = calls ws ++
       [StartBatch (RpcContext_call ctx) StartServerside; StartBatch (RpcContext_call ctx) s]) /\
    forall s bctx rest cx,
      calls ws1 = calls ws ++ [StartBatch (RpcContext_call ctx) StartServerside;
                               StartBatch (RpcContext_call ctx) s] ->
      carried s bctx -> sched wc1 = [EvResolve (ur_resp_f recv) true bctx] :: rest ->
      exists wc2, ClientUnaryReceiver_poll (m_de mr) cx recv wc1 =
        Done (Ready (match h req with Ok resp => Ok resp | Err st => Err (RpcFailure st) end), wc2).
Proof.
  intros Hmq Hmr Hstart Hlast Hpay HW Hidle Hfresh Hh.
  destruct (unary_async_starts _ _ _ _ _ _ Hmq Hstart) as (Hlast' & Hg & s0 & Hi).
  rewrite Hlast' in Hlast. injection Hlast as <- _ _ _.
  destruct (execute_unary_answers h ctx payload req ws) as (ws1 & b & E & Hb & Hcalls);
    [by apply Hmq | done..|].
  exists ws1. split; [done|]. split; [by destruct Hcalls as [[? _]|?]; eauto|].
  intros s bctx rest cx Hs Hcar Hsch.
  assert (s = status_start (answer_status (h req)) true b 0) as ->.
  { rewrite Hs in Hcalls. destruct Hcalls as [[_ [H|H]]|H]; apply app_inv_head in H; by simplify_eq. }
  pose proof Hcar as (Hcode & Htext & (others & Hoth & Hmd) & Hmsg). rewrite Hb in Hmsg.
  assert (rpc_status bctx = answer_status (h req) /\
    (rpc_status bctx = RpcStatus_ok \/ status_code (rpc_status bctx) <> CODE_OK)) as [Hst Hcases].
  { rewrite (rpc_status_of_start (answer_status (h req)) true b 0 others bctx _ _ _
      ltac:(destruct (h req); [reflexivity|apply Hh]) Hoth eq_refl Hcode Htext Hmd).
    destruct (h req) as [resp|st]; simpl; [by auto|]. destruct Hh as [Hne _].
    rewrite bool_decide_eq_false_2 by done. auto. }
  unfold ClientUnaryReceiver_poll, poll_future, interfere, bind. rewrite Hsch. simpl.
  unfold resolve_tag, set_sched. simpl. rewrite Hi, Hg. simpl. unfold handle_unary_response.
  rewrite Hst in *. destruct (h req) as [resp|st]; simpl in *.
  - destruct Hmsg as (buf & Hbuf & Hmb).
    destruct (Reader_new_spec buf) as (r & Er & _); [apply Hmb|].
    unfold recv_message. rewrite Hbuf, Er. simpl.
    rewrite list_lookup_insert_eq by (by eapply lookup_lt_Some). simpl.
    rewrite (proj2 (Hmr resp eq_refl) r); [by eexists|]. by exists buf.
  - rewrite bool_decide_eq_false_2 by apply Hh. simpl.
    rewrite list_lookup_insert_eq by (by eapply lookup_lt_Some). simpl. by eexists.
Qed.
Context `{MQ : !MarshallerLaws mq encode_req} `{MR : !MarshallerLaws mr encode_resp}.

(** C1: a unary call computes what its handler computes: the request the client encoded
    reaches the handler as it was, the server answers with one batch unless its queue was
    shut down, and the client's receiver returns the handler's response, or the status it failed with (a status that
    is not OK), when the core carries the request, and back the status and the message. *)
Theorem unary_round_trip (h : Req -> Result RpcStatus Resp) (name : string) (req : Req)
    (opt : CallOption) (ctx : RpcContext) (payload : MessageReader SC) (wc wc1 ws : World SC)
    recv bytes fl md cf :
  unary_async client_answer create_call_ptr (m_ser mq) name req opt wc = Done (Ok recv, wc1) ->
  last (calls wc1) = Some (StartBatch (ur_call recv) (StartUnary bytes fl md cf)) ->
  message_reader bytes payload ->
  WInv ws -> (forall t ty s, inflight ws !! t <> Some (ty, RpcContext_call ctx, s)) ->
  (forall op, existsb (started (RpcContext_call ctx) op) (calls ws) = false) ->
  match h req with
  | Ok _ => True
  | Err st => status_code st <> CODE_OK /\ utf8_valid (as_bytes (status_message st)) = true
  end ->
  exists ws1, execute_unary server_answer debug_error (m_de mq) ctx payload (answer h) ws = Done (tt, ws1) /\
    (queue_shut ws1 \/ exists s, calls ws1 = calls ws ++
       [StartBatch (RpcContext_call ctx) StartServerside; StartBatch (RpcContext_call ctx) s]) /\
    forall s bctx rest cx,
      calls ws1 = calls ws ++ [StartBatch (RpcContext_call ctx) StartServerside;
                               StartBatch (RpcContext_call ctx) s] ->
      carried s bctx -> sched wc1 = [EvResolve (ur_resp_f recv) true bctx] :: rest ->
      exists wc2, ClientUnaryReceiver_poll (m_de mr) cx recv wc1 =
        Done (Ready (match h req with Ok resp => Ok resp | Err st => Err (RpcFailure st) end), wc2).
Proof.
  intros. by eapply (unary_call_returns h name req); eauto using laws_marshal.
Qed.
End unary.

(** ** Concrete runs *)

(** A marshaller of byte strings. *)
Definition raw_marshaller : Marshaller (SC:=list_core) (list byte) :=
  pr_marshaller length id true (fun r => Ok (pending r)).

#[export] Instance raw_marshaller_laws : MarshallerLaws (SC:=list_core) raw_marshaller id.
Proof. apply pr_laws; [done|]. by intros t r _ ->. Qed.

Lemma inline_message_reader bs :
  bs <> [] -> length bs <= INLINED_SIZE ->
  message_reader (SC:=list_core) bs
    (mkReader (C:=list_core) (([] : list GrpcSlice), length bs) (inline_slice bs) 0 (length bs)).
Proof.
  intros Hne Hl. exists ([inline_slice bs] : list GrpcSlice). split; [|cbn; by rewrite Nat.add_0_r].
  split; [|split].
  - apply Forall_singleton. split; [rewrite length_app, length_replicate; lia | done].
  - apply Forall_singleton. simpl. by destruct bs.
  - unfold bytes_of. simpl. rewrite take_app_length. apply app_nil_r.
Qed.

(** A world in which one call has begun, its end outstanding. *)
Definition call_world (call : nat) (s : Start) (sch : list (list (Event list_core))) : World list_core :=
  mkWorld [NotifyHandle_new] {[0 := (Finish, call, s)]} CompletionQueueHandle_new [StartBatch call s]
    0 [] [] sch.

Lemma call_world_WInv call s sch : WInv (call_world call s sch).
Proof.
  intros t e Ht. simpl in Ht. apply lookup_singleton_Some in Ht as [<- _]. by exists NotifyHandle_new.
Qed.

Lemma call_world_idle call s sch op : op ∉ start_ops s -> ~ running call op (inflight (call_world call s sch)).
Proof.
  intros Hop (t & ty & s' & Ht & Ho). simpl in Ht. apply lookup_singleton_Some in Ht as [_ Ht].
  by injection Ht as <- <-.
Qed.

Definition sink_schedule : list (list (Event list_core)) :=
  [[]; []; []; [EvResolve 1 true ctx_ok]; []; []; []; [EvResolve 2 true ctx_ok]; []; []; []; [];
   [EvResolve 3 true ctx_ok]].

Definition request_schedule : list (list (Event list_core)) :=
  [[]; []; []; [EvResolve 1 true (ctx_msg [x01])]; []; []; []; [EvResolve 2 true (ctx_msg [x02])];
   []; []; []; [EvResolve 3 true (ctx_msg [x03])]; []; []; []; [EvResolve 4 true ctx_ok]].

Definition reader_of (bs : list byte) : MessageReader list_core :=
  mkReader (C:=list_core) (([] : list GrpcSlice), length bs) (inline_slice bs) 0 (length bs).

(** The whole of three messages, carried completely. *)
Lemma demo_transported :
  transported payload_x (oks (reader_of <$> payload_x) ++ [Ok None]) true.
Proof.
  exists payload_x, (reader_of <$> payload_x), [Ok None]. split; [done|].
  split; [|by auto]. unfold payload_x, fmap, list_fmap.
  repeat constructor; apply inline_message_reader; try done; unfold INLINED_SIZE; simpl; lia.
Qed.

Lemma requests_delivered_witness :
  exists st wc' got ended err ws',
    impl_run (call_sink_impl any_answer raw_marshaller (ShareCall_new 7 0)) demo_ops
      (mkImplRun (enhance_batch false StreamingCallSink_new) false [] None)
      (call_world 7 (StartDuplexStreaming None 0) sink_schedule) = Done (st, wc') /\
    request_run any_answer (m_de raw_marshaller) (ShareCall_new 9 0) [1; 1; 1; 1] RequestStream_new []
      (call_world 9 StartServerside request_schedule) = Done ((got, ended, err), ws') /\
    got = payload_x.
Proof.
  destruct (requests_delivered (SC:=list_core) any_answer any_answer raw_marshaller id
    (ShareCall_new 7 0) (ShareCall_new 9 0) false demo_ops [1; 1; 1; 1]
    (call_world 7 (StartDuplexStreaming None 0) sink_schedule)
    (call_world 9 StartServerside request_schedule))
    as (st & wc' & got & ended & err & ws' & E & E' & H).
  - apply call_world_WInv.
  - apply call_world_idle. by apply (bool_decide_eq_true_1 (_ ∉ _)).
  - reflexivity.
  - simpl. lia.
  - apply call_world_WInv.
  - apply call_world_idle. by apply (bool_decide_eq_true_1 (_ ∉ _)).
  - reflexivity.
  - simpl. lia.
  - exists st, wc', got, ended, err, ws'. split; [exact E|]. split; [exact E'|].
    pose proof (Done_elim _ _ (fun x => payloads (sent 7 (calls x.2)) = payload_x /\
      (ir_accepted x.1).*1 = payload_x /\ ir_error x.1 = None /\
      si_buf_flags (cs_sink_base (ir_sink x.1)) = None) E) as Hc.
    pose proof (Done_elim _ _ (fun x =>
      received 9 x.2 = oks (reader_of <$> payload_x) ++ [Ok None] /\ x.1.1.2 = true) E') as Hs.
    destruct Hc as (Hp & Ha & He & Hb); [vm_compute; repeat split|].
    destruct Hs as (Hr & Hen); [vm_compute; repeat split|].
    destruct (H true) as [_ Hall].
    + simpl in Hp, Hr |- *. rewrite Hp, Hr. exact demo_transported.
    + simpl in *. rewrite <-Ha. by apply Hall.
Defined.

Definition stream_sink_schedule : list (list (Event list_core)) :=
  [[]; []; []; []; [EvResolve 1 true ctx_ok]; []; []; []; [EvResolve 2 true ctx_ok]; []; []; [];
   [EvResolve 3 true ctx_ok]].

Definition response_schedule : list (list (Event list_core)) :=
  [[]; []; []; [EvResolve 1 true (ctx_msg [x01])]; []; []; []; [EvResolve 2 true (ctx_msg [x02])];
   []; []; []; [EvResolve 3 true (ctx_msg [x03])]; []; []; [EvResolve 0 true ctx_ok];
   [EvResolve 4 true ctx_ok]].

Lemma responses_delivered_witness :
  exists st ws' got ended err wc',
    impl_run (stream_sink_impl any_answer raw_marshaller) demo_ops
      (mkImplRun (ShareCall_new 9 0, enhance_batch_sink false StreamSink_new) false [] None)
      (call_world 9 StartServerside stream_sink_schedule) = Done (st, ws') /\
    response_run any_answer (m_de raw_marshaller) [1; 1; 1; 1] (ShareCall_new 7 0)
      ResponseStreamImpl_new [] (call_world 7 (StartDuplexStreaming None 0) response_schedule) =
      Done ((got, ended, err), wc') /\
    got = payload_x.
Proof.
  destruct (responses_delivered (SC:=list_core) any_answer any_answer raw_marshaller id
    (ShareCall_new 9 0) (ShareCall_new 7 0) false demo_ops [1; 1; 1; 1]
    (call_world 9 StartServerside stream_sink_schedule)
    (call_world 7 (StartDuplexStreaming None 0) response_schedule))
    as (st & ws' & got & ended & err & wc' & E & E' & H).
  - apply call_world_WInv.
  - apply call_world_idle. by apply (bool_decide_eq_true_1 (_ ∉ _)).
  - reflexivity.
  - reflexivity.
  - by exists NotifyHandle_new.
  - apply call_world_WInv.
  - apply call_world_idle. by apply (bool_decide_eq_true_1 (_ ∉ _)).
  - reflexivity.
  - by exists NotifyHandle_new.
  - exists st, ws', got, ended, err, wc'. split; [exact E|]. split; [exact E'|].
    pose proof (Done_elim _ _ (fun x => payloads (sent 9 (calls x.2)) = payload_x /\
      (ir_accepted x.1).*1 = payload_x /\ ir_error x.1 = None /\
      si_buf_flags (ss_base (ir_sink x.1).2) = None) E) as Hc.
    pose proof (Done_elim _ _ (fun x =>
      received 7 x.2 = oks (reader_of <$> payload_x) ++ [Ok None] /\ x.1.1.2 = true) E') as Hs.
    destruct Hc as (Hp & Ha & He & Hb); [vm_compute; repeat split|].
    destruct Hs as (Hr & Hen); [vm_compute; repeat split|].
    destruct (H true) as [_ Hall].
    + simpl in Hp, Hr |- *. rewrite Hp, Hr. exact demo_transported.
    + simpl in *. rewrite <-Ha. by apply Hall.
Defined.

(** A service that reverses its request and refuses the empty one. *)
Definition demo_service (req : list byte) : Result RpcStatus (list byte) :=
  match req with
  | [] => Err (RpcStatus_with_message CODE_NOT_FOUND "empty")
  | _ => Ok (reverse req)
  end.

Definition unary_schedule : list (list (Event list_core)) :=
  [[]; []; []; [EvResolve 0 true (ctx_msg [x02; x01])]].

Definition unary_start : outcome (Result Error ClientUnaryReceiver * World list_core) :=
  unary_async any_answer next_call (m_ser raw_marshaller) "/s/m" [x01; x02] CallOption_default
    (world0 unary_schedule).

Definition unary_started : World list_core :=
  match unary_start with Done (_, w) => w | Panicked _ => world0 [] end.

Lemma unary_round_trip_witness :
  exists wc2, ClientUnaryReceiver_poll (m_de raw_marshaller) 1 (mkUnaryReceiver 7 0) unary_started =
    Done (Ready (Ok [x02; x01]), wc2).
Proof.
  destruct (unary_round_trip (SC:=list_core) any_answer any_answer next_call (fun _ => ""%string)
    raw_marshaller raw_marshaller id id demo_service "/s/m" [x01; x02] CallOption_default
    (RpcContext_new (mkRequestContext 9 (as_bytes "/s/m") [] MetadataBuilder_new))
    (reader_of [x01; x02]) (world0 unary_schedule) unary_started (world0 [])
    (mkUnaryReceiver 7 0) [x01; x02] 0 None 0) as (ws1 & E & _ & H).
  - vm_compute. reflexivity.
  - vm_compute. reflexivity.
  - apply inline_message_reader; [done|]. unfold INLINED_SIZE. simpl. lia.
  - apply world0_WInv.
  - intros t ty s. simpl. by rewrite lookup_empty.
  - reflexivity.
  - exact I.
  - apply (H (SendStatusFromServer 0 [] None true (Some [x02; x01]) 0) (ctx_msg [x02; x01]) []).
    + apply (Done_elim _ _ (fun x => calls x.2 = calls (world0 []) ++
        [StartBatch 9 StartServerside;
         StartBatch 9 (SendStatusFromServer 0 [] None true (Some [x02; x01]) 0)]) E).
      vm_compute. reflexivity.
    + split; [reflexivity|]. split; [reflexivity|]. split; [by exists []|].
      exists ([inline_slice [x02; x01]] : list GrpcSlice). split; [reflexivity|].
      split; [|split]; [repeat constructor; vm_compute; lia..|reflexivity].
    + vm_compute. reflexivity.
Defined.
