(* ===== verification/Memory.v ===== *)
(** The heap, [Vec<u8>] and [CString], as far as src/src/security/credentials.rs depends on
    where their bytes are.

    A block is a list of bytes, [None] where nothing was written yet, with a flag that is
    set when bytes of a private key were copied into it.  Freed blocks are remembered with
    the bytes they had, which is what a reader of freed memory finds.  A vector without
    capacity is a block of no bytes.  Freeing or reading a block that is not live is
    undefined behaviour, modelled as a panic.  Whether the allocator moves a block it
    resizes is a parameter. *)

From S2P Require Import Prelude.

Local Open Scope rust_scope.

Record Block := mkBlock { b_data : list (option byte); b_secret : bool }.

(** [m_log]: the calls of the core, newest last; [m_next] is above every address in use. *)
Record Mem (L : Type) := mkMem {
  m_live : gmap nat Block;
  m_freed : list Block;
  m_next : nat;
  m_log : list L;
}.
Arguments mkMem {L} _ _ _ _.
Arguments m_live {L} _.
Arguments m_freed {L} _.
Arguments m_next {L} _.
Arguments m_log {L} _.

Section memory.
Context {L : Type}.
(** [realloc] of a block to a new size: does it move? *)
Context (realloc_moves : Block -> nat -> bool).
Let W := Mem L.

Definition alloc (b : Block) : M W nat := fun m =>
  Done (m_next m, mkMem (<[m_next m:=b]> (m_live m)) (m_freed m) (S (m_next m)) (m_log m)).

Definition load (a : nat) : M W Block := fun m =>
  match m_live m !! a with
  | Some b => Done (b, m)
  | None => Panicked "undefined behavior: use after free"
  end.

Definition store (a : nat) (b : Block) : M W unit := fun m =>
  match m_live m !! a with
  | Some _ => Done (tt, mkMem (<[a:=b]> (m_live m)) (m_freed m) (m_next m) (m_log m))
  | None => Panicked "undefined behavior: use after free"
  end.

Definition free (a : nat) : M W unit := fun m =>
  match m_live m !! a with
  | Some b => Done (tt, mkMem (delete a (m_live m)) (m_freed m ++ [b]) (m_next m) (m_log m))
  | None => Panicked "undefined behavior: double free"
  end.

(** The bytes of a resized block: what fits is kept. *)
Definition resize_data (n : nat) (d : list (option byte)) : list (option byte) :=
  take n d ++ replicate (n - length d) None.

Definition realloc (a : nat) (n : nat) : M W nat :=
  let* b := load a in
  let b' := mkBlock (resize_data n (b_data b)) (b_secret b) in
  if realloc_moves b n then
    let* a' := alloc b' in
    do* free a in
    ret a'
  else do* store a b' in ret a.

(** ** Vec<u8> *)

Record Vec := mkVec { v_ptr : nat; v_len : nat; v_cap : nat }.

Definition Vec_with_capacity (cap : nat) : M W Vec :=
  let* a := alloc (mkBlock (replicate cap None) false) in
  ret (mkVec a 0 cap).

(** The caller's vector with the given bytes and capacity. *)
Definition Vec_given (bytes : list byte) (cap : nat) (secret : bool) : M W Vec :=
  let* a := alloc (mkBlock ((Some <$> bytes) ++ replicate (cap - length bytes) None) secret) in
  ret (mkVec a (length bytes) cap).

(** The initialised bytes of a vector. *)
Definition Vec_bytes (v : Vec) : M W (list (option byte)) :=
  let* b := load (v_ptr v) in
  ret (take (v_len v) (b_data b)).

(** [reserve_exact]: grow the block when the spare capacity is not enough. *)
Definition Vec_reserve_exact (v : Vec) (additional : nat) : M W Vec :=
  if bool_decide (v_cap v - v_len v < additional) then
    let* a := realloc (v_ptr v) (v_len v + additional) in
    ret (mkVec a (v_len v) (v_len v + additional))
  else ret v.

(** Writing bytes of another block after those of a vector that has room for them. *)
Definition Vec_append (v : Vec) (d : list (option byte)) (secret : bool) : M W Vec :=
  let* b := load (v_ptr v) in
  do* store (v_ptr v) (mkBlock (take (v_len v) (b_data b) ++ d ++
                                drop (v_len v + length d) (b_data b)) (b_secret b || secret)) in
  ret (mkVec (v_ptr v) (v_len v + length d) (v_cap v)).

(** [extend_from_slice] of the bytes of another vector. *)
Definition Vec_extend_from_slice (v src : Vec) : M W Vec :=
  let* s := load (v_ptr src) in
  let* v := Vec_reserve_exact v (v_len src) in
  Vec_append v (take (v_len src) (b_data s)) (b_secret s).

Definition Vec_push (v : Vec) (x : byte) : M W Vec :=
  let* v := Vec_reserve_exact v 1 in
  Vec_append v [Some x] false.

Definition Vec_drop (v : Vec) : M W unit := free (v_ptr v).

(** ** CString *)

(** [Box<[u8]>]. *)
Record CString := mkCString { c_ptr : nat; c_len : nat }.

(** [into_boxed_slice]: shrink the block to the bytes in use. *)
Definition Vec_into_boxed_slice (v : Vec) : M W CString :=
  if bool_decide (v_len v < v_cap v) then
    let* a := realloc (v_ptr v) (v_len v) in
    ret (mkCString a (v_len v))
  else ret (mkCString (v_ptr v) (v_len v)).

(** [CString::new(v).unwrap()] of a vector. *)
Definition CString_new (v : Vec) : M W CString :=
  let* d := Vec_bytes v in
  if bool_decide (Some x00 ∈ d) then panic "called `Result::unwrap()` on an `Err` value: NulError"
  else
    let* v := Vec_reserve_exact v 1 in
    let* v := Vec_push v x00 in
    Vec_into_boxed_slice v.

(** [CString::into_raw] gives up the pointer and forgets the length. *)
Definition CString_into_raw (c : CString) : nat := c_ptr c.

(** [strlen]: the bytes before the first NUL; reading on is undefined. *)
Fixpoint strlen (d : list (option byte)) : option (list byte) :=
  match d with
  | Some x00 :: _ => Some []
  | Some x :: d => cons x <$> strlen d
  | _ => None
  end.

(** The string a pointer points at. *)
Definition CStr_bytes (p : nat) : M W (list byte) :=
  let* b := load p in
  unwrap (strlen (b_data b)) "undefined behavior: no NUL".

Definition CString_from_raw (p : nat) : M W CString :=
  let* s := CStr_bytes p in
  ret (mkCString p (S (length s))).

(** [Drop for CString] overwrites the first byte, then the box is freed. *)
Definition CString_drop (c : CString) : M W unit :=
  let* b := load (c_ptr c) in
  do* store (c_ptr c) (mkBlock (<[0:=Some x00]> (b_data b)) (b_secret b)) in
  free (c_ptr c).

Definition CString_into_bytes_with_nul (c : CString) : Vec := mkVec (c_ptr c) (c_len c) (c_len c).

(** A call of the core. *)
Definition log_native (l : L) : M W unit :=
  modify (fun m => mkMem (m_live m) (m_freed m) (m_next m) (m_log m ++ [l])).
End memory.

(** A freed block is clean when it never held bytes of a key, or holds zeros. *)
Definition clean (b : Block) : Prop :=
  b_secret b = false \/ Forall (fun x => x = Some x00) (b_data b).

(** The block of a C string. *)
Definition cstr_block (s : list byte) (secret : bool) : Block :=
  mkBlock ((Some <$> s) ++ [Some x00]) secret.

Lemma strlen_cstr s d : x00 ∉ s -> strlen ((Some <$> s) ++ Some x00 :: d) = Some s.
Proof.
  induction s as [|x s IH]; [done|]. intros [Hx Hs]%not_elem_of_cons. specialize (IH Hs).
  rewrite fmap_cons. change (strlen (Some x :: ((Some <$> s) ++ Some x00 :: d)) = Some (x :: s)).
  cbn [strlen]. rewrite IH. by destruct x.
Qed.

(** ** Owned blocks *)

Section owned.
Context {L : Type}.
Implicit Types m : Mem L.

(** The heap consists of the blocks [l], which the code at hand owns, and of [base]. *)
Record owns (base : gmap nat Block) (l : list (nat * Block)) m : Prop := {
  own_nodup : NoDup l.*1;
  own_live : m_live m = list_to_map l ∪ base;
  own_disj : list_to_map l ##ₘ base;
  own_next : forall a, is_Some (m_live m !! a) -> a < m_next m;
}.

Lemma owns_perm base l l' m : l ≡ₚ l' -> owns base l m -> owns base l' m.
Proof.
  intros Hp [Hn Hl Hd Hx].
  assert (list_to_map l = list_to_map l' :> gmap nat Block) as E by (by apply list_to_map_proper).
  split; [by rewrite <-Hp | by rewrite <-E | by rewrite <-E | done].
Qed.

(** The same heap, with more freed or logged. *)
Lemma owns_same base l m fr lg : owns base l m -> owns base l (mkMem (m_live m) fr (m_next m) lg).
Proof. by intros []. Qed.

Lemma owns_lookup base l m a b : owns base l m -> (a, b) ∈ l -> m_live m !! a = Some b.
Proof.
  intros [Hn Hl Hd _] Hin. rewrite Hl. apply lookup_union_Some_l.
  by apply elem_of_list_to_map_1.
Qed.

Lemma owns_alloc base l m b fr lg :
  owns base l m ->
  owns base ((m_next m, b) :: l) (mkMem (<[m_next m:=b]> (m_live m)) fr (S (m_next m)) lg).
Proof.
  intros [Hn Hl Hd Hx].
  assert (m_live m !! m_next m = None) as Hf.
  { apply eq_None_not_Some. intros H. apply Hx in H. lia. }
  rewrite Hl in Hf. apply lookup_union_None in Hf as [Hf1 Hf2]. split; simpl.
  - constructor; [|done]. by apply not_elem_of_list_to_map_2 in Hf1.
  - by rewrite Hl, insert_union_l.
  - by apply map_disjoint_insert_l_2.
  - intros a [x Ha]. apply lookup_insert_Some in Ha as [[<- _]|[_ Ha]]; [lia|].
    assert (a < m_next m) by (apply Hx; by exists x). lia.
Qed.

Lemma owns_store base l m a b b' fr lg :
  owns base ((a, b) :: l) m ->
  owns base ((a, b') :: l) (mkMem (<[a:=b']> (m_live m)) fr (m_next m) lg).
Proof.
  intros [Hn Hl Hd Hx]. simpl in *. apply map_disjoint_insert_l in Hd as [Hd1 Hd2]. split; simpl.
  - done.
  - by rewrite Hl, <-!insert_union_l, insert_insert_eq.
  - by apply map_disjoint_insert_l_2.
  - intros x [y Hy]. apply Hx. rewrite Hl, <-insert_union_l.
    apply lookup_insert_Some in Hy as [[<- _]|[Hne Hy]]; [rewrite lookup_insert_eq; by eexists|].
    rewrite Hl, <-insert_union_l, lookup_insert_ne in Hy by done. rewrite lookup_insert_ne by done.
    by eexists.
Qed.

Lemma owns_free base l m a b fr lg :
  owns base ((a, b) :: l) m -> owns base l (mkMem (delete a (m_live m)) fr (m_next m) lg).
Proof.
  intros [Hn Hl Hd Hx]. simpl in *. apply NoDup_cons in Hn as [Hnin Hn].
  apply map_disjoint_insert_l in Hd as [Hd1 Hd2].
  assert (list_to_map l !! a = @None Block) as Hla by (by apply not_elem_of_list_to_map_1).
  split; simpl; [done| |done|].
  - rewrite Hl, <-insert_union_l, delete_insert_id; [done|]. apply lookup_union_None. done.
  - intros x [y Hy]. apply lookup_delete_Some in Hy as [_ Hy]. apply Hx. by eexists.
Qed.
End owned.

(** ** What the operations do to owned blocks *)

Section memory_specs.
Context {L : Type} (realloc_moves : Block -> nat -> bool).
Implicit Types m : Mem L.

(** The blocks owned, that everything freed since [F0] is clean, and the calls made. *)
Definition heap_safe (base : gmap nat Block) (F0 : list Block) (N : list L) (l : list (nat * Block)) m : Prop :=
  owns base l m /\ (exists F, m_freed m = F0 ++ F /\ Forall clean F) /\ m_log m = N.

Context (base : gmap nat Block) (F0 : list Block) (N : list L).
#[local] Abbreviation safe := (heap_safe base F0 N).

Lemma safe_perm l l' m : l ≡ₚ l' -> safe l m -> safe l' m.
Proof. intros Hp [Ho Hs]. split; [by eapply owns_perm | done]. Qed.

Lemma wp_alloc b l m : safe l m -> wp (alloc b) (fun a => safe ((a, b) :: l)) m.
Proof. intros (Ho & Hf & Hn). split; [by apply owns_alloc | done]. Qed.

Lemma wp_load_in a b l m : safe l m -> (a, b) ∈ l -> wp (load a) (fun b' m' => b' = b /\ m' = m) m.
Proof. intros (Ho & _) Hin. unfold wp, load. by rewrite (owns_lookup _ _ _ a b Ho). Qed.

Lemma wp_load a b l m : safe ((a, b) :: l) m -> wp (load a) (fun b' m' => b' = b /\ m' = m) m.
Proof. intros Hs. eapply wp_load_in; [done|]. by left. Qed.

Lemma wp_store a b b' l m :
  safe ((a, b) :: l) m -> wp (store a b') (fun _ => safe ((a, b') :: l)) m.
Proof.
  intros (Ho & Hf & Hn). unfold wp, store. rewrite (owns_lookup _ _ _ a b Ho) by (by left).
  split; [by eapply owns_store | done].
Qed.

Lemma wp_free a b l m : safe ((a, b) :: l) m -> clean b -> wp (free a) (fun _ => safe l) m.
Proof.
  intros (Ho & (F & Hf & HF) & Hn) Hc. unfold wp, free.
  rewrite (owns_lookup _ _ _ a b Ho) by (by left).
  split; [by eapply owns_free|]. split; [|done]. exists (F ++ [b]). simpl. rewrite Hf, app_assoc.
  split; [done|]. by apply Forall_app_2; [|constructor].
Qed.

Lemma wp_realloc a b n l m :
  safe ((a, b) :: l) m -> clean b ->
  wp (realloc realloc_moves a n)
    (fun a' => safe ((a', mkBlock (resize_data n (b_data b)) (b_secret b)) :: l)) m.
Proof.
  intros Hs Hc. wp_step wp_load; [done|]. intros b' m' [-> ->].
  destruct (realloc_moves b n).
  - wp_step wp_alloc; [done|]. intros a' m1 H1.
    wp_step wp_free; [|done|]; [eapply safe_perm; [apply perm_swap|done]|]. intros _ m2 H2. done.
  - wp_step wp_store; [done|]. intros _ m1 H1. done.
Qed.

Lemma wp_Vec_given bytes cap secret l m :
  safe l m ->
  wp (Vec_given bytes cap secret) (fun v m' =>
    v_len v = length bytes /\ v_cap v = cap /\
    safe ((v_ptr v, mkBlock ((Some <$> bytes) ++ replicate (cap - length bytes) None) secret) :: l) m') m.
Proof. intros Hs. wp_step wp_alloc; [done|]. intros a m1 H1. done. Qed.

Lemma wp_Vec_bytes v b l m :
  safe ((v_ptr v, b) :: l) m -> wp (Vec_bytes v) (fun d m' => d = take (v_len v) (b_data b) /\ m' = m) m.
Proof. intros Hs. wp_step wp_load; [done|]. by intros b' m' [-> ->]. Qed.

Lemma wp_Vec_append v b d secret l m :
  safe ((v_ptr v, b) :: l) m ->
  wp (Vec_append v d secret) (fun v' m' => v' = mkVec (v_ptr v) (v_len v + length d) (v_cap v) /\
    safe ((v_ptr v, mkBlock (take (v_len v) (b_data b) ++ d ++ drop (v_len v + length d) (b_data b))
                      (b_secret b || secret)) :: l) m') m.
Proof.
  intros Hs. wp_step wp_load; [done|]. intros b' m' [-> ->].
  wp_step wp_store; [done|]. intros _ m1 H1. done.
Qed.

(** A vector with room for [n] more bytes keeps its block. *)
Lemma Vec_reserve_room v n m :
  n <= v_cap v - v_len v -> Vec_reserve_exact realloc_moves v n m = Done (v, m).
Proof. intros H. unfold Vec_reserve_exact. by rewrite bool_decide_eq_false_2 by lia. Qed.

(** [CString::new] makes the C string of the bytes; a block that is freed on the way held
    no key, or there is none because the vector has room for exactly the NUL. *)
Lemma wp_CString_new v bytes secret l m :
  safe ((v_ptr v, mkBlock ((Some <$> bytes) ++ replicate (v_cap v - v_len v) None) secret) :: l) m ->
  v_len v = length bytes -> v_len v <= v_cap v -> x00 ∉ bytes ->
  secret = false \/ v_cap v = S (v_len v) ->
  wp (CString_new realloc_moves v) (fun c m' => c_len c = S (length bytes) /\
    safe ((c_ptr c, cstr_block bytes secret) :: l) m') m.
Proof.
  intros Hs Hl Hc Hn Hsec. wp_step wp_Vec_bytes; [done|]. intros d m' [-> ->]. cbn [b_data].
  rewrite take_app_le, take_ge by (rewrite length_fmap; lia).
  rewrite bool_decide_eq_false_2 by (by intros (x & [= <-] & Hx)%list_elem_of_fmap).
  assert (forall cap' m1 a, S (length bytes) <= cap' -> (secret = false \/ cap' = S (length bytes)) ->
    safe ((a, mkBlock ((Some <$> bytes) ++ replicate (cap' - length bytes) None) secret) :: l) m1 ->
    wp (let* v := Vec_push realloc_moves (mkVec a (length bytes) cap') x00 in
        Vec_into_boxed_slice realloc_moves v) (fun c m' => c_len c = S (length bytes) /\
      safe ((c_ptr c, cstr_block bytes secret) :: l) m') m1) as Hpush.
  { intros cap' m1 a Hcap Hs1 H1. apply wp_bind. unfold Vec_push. apply wp_bind. unfold wp at 1.
    rewrite Vec_reserve_room by (simpl; lia).
    eapply wp_mono; [by apply (wp_Vec_append (mkVec a (length bytes) cap'))|]. cbv beta.
    intros v' m2 [-> H2]. cbn [v_ptr v_len v_cap b_data b_secret length] in *.
    rewrite orb_false_r, take_app_le, take_ge, drop_app_ge, length_fmap, app_assoc in H2
      by (rewrite length_fmap; lia).
    change (mkBlock (((Some <$> bytes) ++ [Some x00]) ++ ?d) secret) with
      (mkBlock (b_data (cstr_block bytes secret) ++ d) secret) in H2.
    unfold Vec_into_boxed_slice. cbn [v_ptr v_len v_cap]. case_bool_decide as Hlt.
    - destruct Hs1 as [-> |]; [|lia].
      wp_step wp_realloc; [done|by left|]. intros a' m3 H3. split; [cbn [c_len]; lia|].
      cbn [b_data b_secret c_ptr] in *.
      assert (resize_data (length bytes + 1) (b_data (cstr_block bytes false) ++
        drop (length bytes + 1 - length bytes) (replicate (cap' - length bytes) None)) =
        b_data (cstr_block bytes false)) as E.
      { unfold resize_data. rewrite take_app_le, take_ge by (simpl; rewrite length_app, length_fmap; simpl; lia).
        simpl. rewrite !length_app, length_fmap. simpl.
        replace (length bytes + 1 - _) with 0 by lia. by rewrite app_nil_r. }
      rewrite E in H3. exact H3.
    - split; [cbn [c_len]; lia|]. cbn [c_ptr]. rewrite drop_ge, app_nil_r in H2; [exact H2|].
      rewrite length_replicate. lia. }
  unfold Vec_reserve_exact. case_bool_decide as Hlt.
  - assert (v_cap v = v_len v) as Hcl by lia. destruct Hsec as [-> |]; [|lia].
    apply wp_bind. wp_step wp_realloc; [done|by left|]. intros a m1 H1. apply wp_ret.
    replace (v_len v + 1) with (S (length bytes)) in * by lia. rewrite Hl.
    apply Hpush; [lia|by left|]. cbn [b_data b_secret] in H1.
    replace (v_cap v - v_len v) with 0 in H1 by lia. rewrite app_nil_r in H1.
    unfold resize_data in H1. rewrite length_fmap, take_ge in H1 by (rewrite length_fmap; lia).
    exact H1.
  - apply wp_bind, wp_ret. destruct v as [a n cap]. cbn [v_ptr v_len v_cap] in *. subst n.
    apply Hpush; [lia|done|done].
Qed.

Lemma wp_CStr_bytes p s secret l m :
  safe l m -> (p, cstr_block s secret) ∈ l -> x00 ∉ s ->
  wp (CStr_bytes p) (fun s' m' => s' = s /\ m' = m) m.
Proof.
  intros Hs Hin Hn. wp_step wp_load_in; [done..|]. intros b m' [-> ->]. cbn [b_data cstr_block].
  by rewrite strlen_cstr.
Qed.

Lemma wp_CString_from_raw p s secret l m :
  safe l m -> (p, cstr_block s secret) ∈ l -> x00 ∉ s ->
  wp (CString_from_raw p) (fun c m' => c = mkCString p (S (length s)) /\ m' = m) m.
Proof. intros Hs Hin Hn. wp_step wp_CStr_bytes; [done..|]. by intros s' m' [-> ->]. Qed.

(** Dropping the C string of something that is no key. *)
Lemma wp_CString_drop c s l m :
  safe ((c_ptr c, cstr_block s false) :: l) m -> wp (CString_drop c) (fun _ => safe l) m.
Proof.
  intros Hs. wp_step wp_load; [done|]. intros b m' [-> ->].
  wp_step wp_store; [done|]. intros _ m1 H1. eapply wp_free; [done|]. by left.
Qed.

Lemma wp_log_native n l m :
  safe l m -> wp (log_native n) (fun _ => heap_safe base F0 (N ++ [n]) l) m.
Proof. intros (Ho & Hf & Hn). split; [by apply owns_same|]. split; [done|]. simpl. by rewrite Hn. Qed.
End memory_specs.
