(* ===== verification/Security.v ===== *)
(** Credentials: src/src/security/credentials.rs, on the heap of [Memory].

    Keys and certificates are passed to the core as C strings.  The builders own their
    blocks and have to free each once, and to overwrite the bytes of a private key before
    the allocator gets its memory back. *)

From S2P Require Import Prelude Status Memory.

Local Open Scope rust_scope.

(** ** CertificateRequestType *)

Inductive CertificateRequestType :=
| DontRequestClientCertificate
| RequestClientCertificateButDontVerify
| RequestClientCertificateAndVerify
| RequestAndRequireClientCertificateButDontVerify
| RequestAndRequireClientCertificateAndVerify.

(** The native value; the enumeration is declared with the values of the native one. *)
Definition to_native (self : CertificateRequestType) : Z :=
  match self with
  | DontRequestClientCertificate => 0
  | RequestClientCertificateButDontVerify => 1
  | RequestClientCertificateAndVerify => 2
  | RequestAndRequireClientCertificateButDontVerify => 3
  | RequestAndRequireClientCertificateAndVerify => 4
  end.

(** [grpc_ssl_certificate_config_reload_status]. *)
Inductive ReloadStatus := RELOAD_UNCHANGED | RELOAD_NEW | RELOAD_FAIL.

(** What the core is asked, with the strings it reads through the pointers. *)
Inductive Native :=
| ServerCertificateConfigCreate (root : option (list byte)) (pairs : list (list byte * list byte))
| CreateOptionsUsingConfig (request_type : Z) (config : nat)
| CreateWithOptions (options : nat)
| SslCredentialsCreateEx (root : option (list byte)) (pair : option (list byte * list byte))
| ServerCredentialsRelease (creds : nat)
| ChannelCredentialsRelease (creds : nat)
| GrpcInit
| GoogleDefaultCredentialsCreate.

Section credentials.
Context (realloc_moves : Block -> nat -> bool).
(** The pointer a call of the core returns, 0 for null. *)
Context (native : list Native -> Native -> nat).
Let W := Mem Native.

Definition call_native (c : Native) : M W nat :=
  let* r := gets (fun m => native (m_log m) c) in
  do* log_native c in
  ret r.

(** [clear_key_securely] of the [n] bytes at [p]. *)
Definition clear_key_securely (p n : nat) : M W unit :=
  let* b := load p in
  store p (mkBlock (replicate n (Some x00) ++ drop n (b_data b)) (b_secret b)).

(** The copy at the start of [add_cert] and of [cert]: a key whose vector is full is moved to
    one with room for the NUL, and the old bytes are overwritten. *)
Definition with_room (private_key : Vec) : M W Vec :=
  if bool_decide (v_cap private_key = v_len private_key) then
    let* nil_key := Vec_with_capacity (v_len private_key + 1) in
    let* nil_key := Vec_extend_from_slice realloc_moves nil_key private_key in
    do* clear_key_securely (v_ptr private_key) (v_len private_key) in
    do* Vec_drop private_key in
    ret nil_key
  else ret private_key.

(** An [Option<CString>] that goes out of scope. *)
Definition drop_opt (c : option CString) : M W unit :=
  match c with Some c => CString_drop c | None => ret tt end.

(** [CString::from_raw(p).into_bytes_with_nul()] cleared and dropped. *)
Definition drop_key (c : CString) : M W unit :=
  let v := CString_into_bytes_with_nul c in
  do* clear_key_securely (v_ptr v) (v_len v) in
  Vec_drop v.

(** ** ServerCredentialsBuilder *)

(** [key_cert_pairs]: pointers to the private key and to the certificate chain. *)
Record ServerCredentialsBuilder := mkServerBuilder {
  sb_root : option CString;
  sb_key_cert_pairs : list (nat * nat);
  sb_cer_request_type : CertificateRequestType;
}.

Definition ServerCredentialsBuilder_new : ServerCredentialsBuilder :=
  {| sb_root := None; sb_key_cert_pairs := []; sb_cer_request_type := DontRequestClientCertificate |}.

Definition server_root_cert (cert : Vec) (cer_request_type : CertificateRequestType)
    (self : ServerCredentialsBuilder) : M W ServerCredentialsBuilder :=
  let* root := CString_new realloc_moves cert in
  do* drop_opt (sb_root self) in
  ret (mkServerBuilder (Some root) (sb_key_cert_pairs self) cer_request_type).

Definition add_cert (cert private_key : Vec) (self : ServerCredentialsBuilder) :
    M W ServerCredentialsBuilder :=
  let* private_key := with_room private_key in
  let* private_key := CString_new realloc_moves private_key in
  let* cert_chain := CString_new realloc_moves cert in
  ret (mkServerBuilder (sb_root self)
         (sb_key_cert_pairs self ++ [(CString_into_raw private_key, CString_into_raw cert_chain)])
         (sb_cer_request_type self)).

(** The pairs as the core reads them. *)
Fixpoint read_pairs (pairs : list (nat * nat)) : M W (list (list byte * list byte)) :=
  match pairs with
  | [] => ret []
  | (private_key, cert_chain) :: pairs =>
      let* key := CStr_bytes private_key in
      let* cert := CStr_bytes cert_chain in
      let* rest := read_pairs pairs in
      ret ((key, cert) :: rest)
  end.

Definition read_opt (p : option nat) : M W (option (list byte)) :=
  match p with
  | Some p => let* s := CStr_bytes p in ret (Some s)
  | None => ret None
  end.

(** The loop of [Drop for ServerCredentialsBuilder]. *)
Fixpoint drop_pairs (pairs : list (nat * nat)) : M W unit :=
  match pairs with
  | [] => ret tt
  | (private_key, cert_chain) :: pairs =>
      let* cert := CString_from_raw cert_chain in
      do* CString_drop cert in
      let* s := CString_from_raw private_key in
      do* drop_key s in
      drop_pairs pairs
  end.

(** [drop], then the fields. *)
Definition ServerCredentialsBuilder_drop (self : ServerCredentialsBuilder) : M W unit :=
  do* drop_pairs (sb_key_cert_pairs self) in
  drop_opt (sb_root self).

Definition build_config (self : ServerCredentialsBuilder) : M W nat :=
  let root_cert := CString_into_raw <$> sb_root self in
  let* root := read_opt root_cert in
  let* pairs := read_pairs (sb_key_cert_pairs self) in
  let* cfg := call_native (ServerCertificateConfigCreate root pairs) in
  do* match root_cert with
      | Some p => let* c := CString_from_raw p in CString_drop c
      | None => ret tt
      end in
  do* ServerCredentialsBuilder_drop
        (mkServerBuilder None (sb_key_cert_pairs self) (sb_cer_request_type self)) in
  ret cfg.

(** The pointer in a [ServerCredentials]. *)
Definition ServerCredentialsBuilder_build (self : ServerCredentialsBuilder) : M W nat :=
  let request_type := to_native (sb_cer_request_type self) in
  let* config := build_config self in
  let* opt := call_native (CreateOptionsUsingConfig request_type config) in
  call_native (CreateWithOptions opt).

Definition ServerCredentials_drop (creds : nat) : M W unit :=
  do* call_native (ServerCredentialsRelease creds) in ret tt.

(** ** Fetchers *)

(** [server_cert_fetcher_wrapper]: [fetch] is that of the fetcher behind [user_data], [None]
    for null; the result is what [config] was set to, if it was, and the status. *)
Definition server_cert_fetcher_wrapper
    (user_data : option (M W (Result string (option ServerCredentialsBuilder)))) :
    M W (option nat * ReloadStatus) :=
  match user_data with
  | None => panic "fetcher user_data must be set up!"
  | Some fetch =>
      let* result := fetch in
      match result with
      | Ok (Some builder) =>
          let* new_config := build_config builder in
          ret (Some new_config, RELOAD_NEW)
      | Ok None => ret (None, RELOAD_UNCHANGED)
      | Err _ => ret (None, RELOAD_FAIL)
      end
  end.

(** ** ChannelCredentialsBuilder *)

Record ChannelCredentialsBuilder := mkChannelBuilder {
  cb_root : option CString;
  cb_cert_key_pair : option (CString * CString);
}.

Definition ChannelCredentialsBuilder_new : ChannelCredentialsBuilder :=
  {| cb_root := None; cb_cert_key_pair := None |}.

Definition channel_root_cert (cert : Vec) (self : ChannelCredentialsBuilder) :
    M W ChannelCredentialsBuilder :=
  let* root := CString_new realloc_moves cert in
  do* drop_opt (cb_root self) in
  ret (mkChannelBuilder (Some root) (cb_cert_key_pair self)).

(** The pair that was set before, if any, is dropped by the assignment. *)
Definition cert (cert private_key : Vec) (self : ChannelCredentialsBuilder) :
    M W ChannelCredentialsBuilder :=
  let* private_key := with_room private_key in
  let* cert := CString_new realloc_moves cert in
  let* key := CString_new realloc_moves private_key in
  do* match cb_cert_key_pair self with
      | Some (old_cert, old_key) => do* CString_drop old_cert in CString_drop old_key
      | None => ret tt
      end in
  ret (mkChannelBuilder (cb_root self) (Some (cert, key))).

(** [drop], then the fields. *)
Definition ChannelCredentialsBuilder_drop (self : ChannelCredentialsBuilder) : M W unit :=
  do* match cb_cert_key_pair self with
      | Some (cert, key) => do* drop_key key in CString_drop cert
      | None => ret tt
      end in
  drop_opt (cb_root self).

(** [build]; the pointers are null or those of the root and of the pair, and are owned by
    the builder again after the call of the core. *)
Definition ChannelCredentialsBuilder_build (self : ChannelCredentialsBuilder) : M W nat :=
  let root_ptr := CString_into_raw <$> cb_root self in
  let pair_ptr := (fun '(cert, key) => (CString_into_raw cert, CString_into_raw key)) <$>
                  cb_cert_key_pair self in
  let* root := read_opt root_ptr in
  let* kc :=
    match pair_ptr with
    | None => ret None
    | Some (cert_ptr, key_ptr) =>
        let* key := CStr_bytes key_ptr in
        let* cert := CStr_bytes cert_ptr in
        ret (Some (key, cert))
    end in
  let* creds := call_native (SslCredentialsCreateEx root kc) in
  let* root :=
    match root_ptr with
    | Some p => let* c := CString_from_raw p in ret (Some c)
    | None => ret None
    end in
  let* kc :=
    match pair_ptr with
    | Some (cert_ptr, key_ptr) =>
        let* cert := CString_from_raw cert_ptr in
        let* key := CString_from_raw key_ptr in
        ret (Some (cert, key))
    | None => ret None
    end in
  do* ChannelCredentialsBuilder_drop (mkChannelBuilder root kc) in
  ret creds.

Definition google_default_credentials : M W (Result Error nat) :=
  do* call_native GrpcInit in
  let* creds := call_native GoogleDefaultCredentialsCreate in
  ret (if bool_decide (creds = 0) then Err GoogleAuthenticationFailed else Ok creds).

Definition ChannelCredentials_drop (creds : nat) : M W unit :=
  do* call_native (ChannelCredentialsRelease creds) in ret tt.

(** ** Uses of the builders *)

(** The arguments of a call are vectors the caller allocated with the given bytes and
    capacities. *)
Inductive ServerOp :=
| SetRoot (cert : list byte) (cap : nat) (request_type : CertificateRequestType)
| AddCert (cert : list byte) (cap : nat) (key : list byte) (key_cap : nat).

Definition server_op (op : ServerOp) (self : ServerCredentialsBuilder) : M W ServerCredentialsBuilder :=
  match op with
  | SetRoot cert cap ty =>
      let* cert := Vec_given cert cap false in
      server_root_cert cert ty self
  | AddCert cert cap key key_cap =>
      let* cert := Vec_given cert cap false in
      let* key := Vec_given key key_cap true in
      add_cert cert key self
  end.

Fixpoint server_ops (ops : list ServerOp) (self : ServerCredentialsBuilder) : M W ServerCredentialsBuilder :=
  match ops with
  | [] => ret self
  | op :: ops => let* self := server_op op self in server_ops ops self
  end.

Inductive ChannelOp :=
| ChannelRoot (cert : list byte) (cap : nat)
| ChannelCert (cert : list byte) (cap : nat) (key : list byte) (key_cap : nat).

Definition channel_op (op : ChannelOp) (self : ChannelCredentialsBuilder) :
    M W ChannelCredentialsBuilder :=
  match op with
  | ChannelRoot c cap => let* c := Vec_given c cap false in channel_root_cert c self
  | ChannelCert c cap key key_cap =>
      let* c := Vec_given c cap false in
      let* key := Vec_given key key_cap true in
      cert c key self
  end.

Fixpoint channel_ops (ops : list ChannelOp) (self : ChannelCredentialsBuilder) :
    M W ChannelCredentialsBuilder :=
  match ops with
  | [] => ret self
  | op :: ops => let* self := channel_op op self in channel_ops ops self
  end.
End credentials.

(** ** What the builders own *)

Section credentials_specs.
Context (realloc_moves : Block -> nat -> bool) (native : list Native -> Native -> nat).
Context (base : gmap nat Block) (F0 : list Block).
Implicit Types (m : Mem Native) (l : list (nat * Block)) (N : list Native).
#[local] Abbreviation safe := (heap_safe base F0).

Definition root_blocks (c : option CString) (r : option (list byte)) : list (nat * Block) :=
  match c, r with Some c, Some s => [(c_ptr c, cstr_block s false)] | _, _ => [] end.

Definition root_rel (c : option CString) (r : option (list byte)) : Prop :=
  match c, r with
  | Some _, Some s => x00 ∉ s
  | None, None => True
  | _, _ => False
  end.

Fixpoint pair_blocks (ptrs : list (nat * nat)) (ps : list (list byte * list byte)) : list (nat * Block) :=
  match ptrs, ps with
  | (k, c) :: ptrs, (key, crt) :: ps =>
      (k, cstr_block key true) :: (c, cstr_block crt false) :: pair_blocks ptrs ps
  | _, _ => []
  end.

Definition pairs_rel (ptrs : list (nat * nat)) (ps : list (list byte * list byte)) : Prop :=
  Forall2 (fun _ kc => (x00 ∉ kc.1) /\ (x00 ∉ kc.2)) ptrs ps.

Lemma wp_call_native c N l m :
  safe N l m -> wp (call_native native c) (fun r m' => r = native N c /\ safe (N ++ [c]) l m') m.
Proof.
  intros Hs. apply wp_bind, wp_gets. wp_step wp_log_native; [done|].
  intros _ m' H. split; [|done]. by destruct Hs as (_ & _ & ->).
Qed.

Lemma wp_clear p b N l m :
  safe N ((p, b) :: l) m ->
  wp (clear_key_securely p (length (b_data b)))
    (fun _ => safe N ((p, mkBlock (replicate (length (b_data b)) (Some x00)) (b_secret b)) :: l)) m.
Proof.
  intros Hs. wp_step wp_load; [done|]. intros b' m' [-> ->].
  eapply wp_mono; [by eapply wp_store|cbv beta]. intros [] m1. by rewrite drop_ge, app_nil_r by lia.
Qed.

Lemma clean_zeros n secret : clean (mkBlock (replicate n (Some x00)) secret).
Proof. right. simpl. by apply Forall_replicate. Qed.

Lemma cstr_length s secret : length (b_data (cstr_block s secret)) = S (length s).
Proof. simpl. rewrite length_app, length_fmap. simpl. lia. Qed.

(** A key is overwritten before it is freed. *)
Lemma wp_drop_key c s N l m :
  safe N ((c_ptr c, cstr_block s true) :: l) m -> c_len c = S (length s) ->
  wp (drop_key c) (fun _ => safe N l) m.
Proof.
  intros Hs Hl. unfold drop_key. cbn [CString_into_bytes_with_nul v_ptr v_len].
  rewrite Hl, <-(cstr_length s true). wp_step wp_clear; [done|]. intros _ m1 H1.
  eapply wp_free; [done|]. apply clean_zeros.
Qed.

(** A key whose vector is full, or has room for the NUL only, ends up in one with room for
    the NUL, and no copy of it is left behind. *)
Lemma wp_with_room v bytes N l m :
  safe N ((v_ptr v, mkBlock ((Some <$> bytes) ++ replicate (v_cap v - v_len v) None) true) :: l) m ->
  v_len v = length bytes -> v_cap v = v_len v \/ v_cap v = S (v_len v) ->
  wp (with_room realloc_moves v) (fun v' m' => v_len v' = length bytes /\ v_cap v' = S (length bytes) /\
    safe N ((v_ptr v', mkBlock ((Some <$> bytes) ++ replicate (v_cap v' - v_len v') None) true) :: l) m') m.
Proof.
  intros Hs Hl Hc. unfold with_room. case_bool_decide as Hfull.
  2: { apply wp_ret. split; [done|]. split; [lia|done]. }
  replace (v_cap v - v_len v) with 0 in Hs by lia. rewrite app_nil_r in Hs. rewrite Hl.
  apply wp_bind. wp_step wp_alloc; [done|]. intros a m1 H1. apply wp_ret.
  unfold Vec_extend_from_slice. apply wp_bind.
  wp_step wp_load_in; [done|right; by left|]. intros b m' [-> ->].
  apply wp_bind. unfold wp at 1. rewrite Vec_reserve_room by (simpl; lia).
  cbn [b_data b_secret]. rewrite Hl, take_ge by (rewrite length_fmap; lia).
  eapply wp_mono; [by apply (wp_Vec_append base F0 N (mkVec a 0 (length bytes + 1)))|]. cbv beta.
  intros v' m2 [-> H2]. cbn [v_ptr v_len v_cap b_data b_secret] in *.
  rewrite length_fmap, drop_replicate in H2. cbn [take app orb] in H2.
  apply (safe_perm _ _ _ _ _ m2 (perm_swap _ _ _)) in H2.
  pose proof (wp_clear _ _ _ _ _ H2) as Hw. cbn [b_data] in Hw. rewrite length_fmap in Hw.
  apply wp_bind. eapply wp_mono; [exact Hw|]. cbv beta. intros _ m3 H3.
  wp_step wp_free; [exact H3|apply clean_zeros|]. intros _ m4 H4. apply wp_ret.
  cbn [v_ptr v_len v_cap]. rewrite length_fmap. split; [lia|]. split; [lia|]. exact H4.
Qed.

Lemma wp_drop_opt c r N l m :
  safe N (root_blocks c r ++ l) m -> root_rel c r -> wp (drop_opt c) (fun _ => safe N l) m.
Proof. destruct c, r; simpl; intros Hs ?; try done. by eapply wp_CString_drop. Qed.

Lemma wp_read_opt c r N l m :
  safe N (root_blocks c r ++ l) m -> root_rel c r ->
  wp (read_opt (CString_into_raw <$> c)) (fun s m' => s = r /\ m' = m) m.
Proof.
  destruct c as [c|], r as [s|]; simpl; intros Hs Hn; try done.
  wp_step wp_CStr_bytes; [done|by left|done|]. by intros s' m' [-> ->].
Qed.

Lemma wp_read_pairs ptrs ps N l m :
  pairs_rel ptrs ps -> safe N (pair_blocks ptrs ps ++ l) m ->
  wp (read_pairs ptrs) (fun ps' m' => ps' = ps /\ m' = m) m.
Proof.
  intros Hr. revert l. induction Hr as [|[k c] [key crt] ptrs ps [Hk Hc] Hr IH]; intros l Hs; [done|].
  cbn [read_pairs pair_blocks app fst snd] in *.
  wp_step wp_CStr_bytes; [done|by left|done|]. intros s m' [-> ->].
  wp_step wp_CStr_bytes; [done|right; by left|done|]. intros s m' [-> ->].
  wp_step (IH ((k, cstr_block key true) :: (c, cstr_block crt false) :: l)).
  { eapply safe_perm; [|done]. by rewrite !Permutation_middle. }
  by intros ps' m' [-> ->].
Qed.

(** The drop of a builder frees both strings of each pair, the keys overwritten. *)
Lemma wp_drop_pairs ptrs ps N l m :
  pairs_rel ptrs ps -> safe N (pair_blocks ptrs ps ++ l) m -> wp (drop_pairs ptrs) (fun _ => safe N l) m.
Proof.
  intros Hr. revert m. induction Hr as [|[k c] [key crt] ptrs ps [Hk Hc] Hr IH]; intros m Hs; [done|].
  cbn [drop_pairs pair_blocks app fst snd] in *.
  wp_step wp_CString_from_raw; [done|right; by left|done|]. intros cs m' [-> ->].
  wp_step wp_CString_drop; [eapply safe_perm; [apply perm_swap|done]|]. intros _ m1 H1.
  wp_step wp_CString_from_raw; [done|by left|done|]. intros cs m' [-> ->].
  wp_step wp_drop_key; [done|done|]. intros _ m2 H2. by apply IH.
Qed.

(** ** ServerCredentialsBuilder implements a configuration *)

Record ServerConfig := mkServerConfig {
  cfg_root : option (list byte);
  cfg_pairs : list (list byte * list byte);
  cfg_type : CertificateRequestType;
}.

Definition config0 : ServerConfig := mkServerConfig None [] DontRequestClientCertificate.

(** What a call of a builder means: the last root counts, the pairs add up. *)
Definition config_op (op : ServerOp) (g : ServerConfig) : ServerConfig :=
  match op with
  | SetRoot c _ ty => mkServerConfig (Some c) (cfg_pairs g) ty
  | AddCert c _ key _ => mkServerConfig (cfg_root g) (cfg_pairs g ++ [(key, c)]) (cfg_type g)
  end.

(** Strings without NUL, and keys in a vector that is full or has room for the NUL. *)
Definition server_op_ok (op : ServerOp) : Prop :=
  match op with
  | SetRoot c cap _ => (x00 ∉ c) /\ length c <= cap
  | AddCert c cap key key_cap => (x00 ∉ c) /\ length c <= cap /\ (x00 ∉ key) /\
      (key_cap = length key \/ key_cap = S (length key))
  end.

Definition server_blocks (b : ServerCredentialsBuilder) (g : ServerConfig) : list (nat * Block) :=
  root_blocks (sb_root b) (cfg_root g) ++ pair_blocks (sb_key_cert_pairs b) (cfg_pairs g).

Definition server_rel (b : ServerCredentialsBuilder) (g : ServerConfig) : Prop :=
  root_rel (sb_root b) (cfg_root g) /\ pairs_rel (sb_key_cert_pairs b) (cfg_pairs g) /\
  sb_cer_request_type b = cfg_type g.

Lemma pair_blocks_snoc ptrs ps k c key crt :
  pairs_rel ptrs ps ->
  pair_blocks (ptrs ++ [(k, c)]) (ps ++ [(key, crt)]) =
  pair_blocks ptrs ps ++ [(k, cstr_block key true); (c, cstr_block crt false)].
Proof.
  intros Hr. induction Hr as [|[k' c'] [key' crt'] ptrs ps _ Hr IH]; [done|]. simpl. by rewrite IH.
Qed.

Lemma wp_server_op op b g N l m :
  server_op_ok op -> server_rel b g -> safe N (server_blocks b g ++ l) m ->
  wp (server_op realloc_moves op b) (fun b' m' =>
    server_rel b' (config_op op g) /\ safe N (server_blocks b' (config_op op g) ++ l) m') m.
Proof.
  intros Hok (Hroot & Hpairs & Hty) Hs. unfold server_blocks in *.
  destruct op as [c cap ty|c cap key kcap]; cbn [server_op].
  - destruct Hok as [Hn Hcap].
    wp_step wp_Vec_given; [done|]. intros v m1 (Hl & Hc & H1).
    wp_step wp_CString_new; [by rewrite Hc, Hl|done|lia|done|by left|]. intros cs m2 (_ & H2).
    wp_step (wp_drop_opt (sb_root b) (cfg_root g) N ((c_ptr cs, cstr_block c false) ::
      pair_blocks (sb_key_cert_pairs b) (cfg_pairs g) ++ l)); [|done|].
    { eapply safe_perm; [|exact H2]. solve_Permutation. }
    intros _ m3 H3. apply wp_ret. split; [done|]. eapply safe_perm; [|exact H3]. simpl.
    solve_Permutation.
  - destruct Hok as (Hn & Hcap & Hkn & Hkcap).
    wp_step wp_Vec_given; [done|]. intros vc m1 (Hl & Hc & H1).
    wp_step wp_Vec_given; [done|]. intros vk m2 (Hlk & Hck & H2).
    unfold add_cert.
    wp_step (wp_with_room vk key); [by rewrite Hck, Hlk|done|lia|]. intros vk' m3 (Hl3 & Hc3 & H3).
    wp_step (wp_CString_new _ base F0 N vk' key); [done|done|lia|done|right; lia|].
    intros ck m4 (_ & H4).
    wp_step (wp_CString_new _ base F0 N vc c).
    { rewrite Hc, Hl. eapply safe_perm; [apply perm_swap|exact H4]. }
    { done. }
    { lia. }
    { done. }
    { by left. }
    intros cc m5 (_ & H5). apply wp_ret. split.
    + split; [done|]. split; [|done]. apply Forall2_app; [done|]. by repeat constructor.
    + eapply safe_perm; [|exact H5]. simpl. rewrite pair_blocks_snoc by done.
      unfold CString_into_raw. solve_Permutation.
Qed.

Lemma wp_server_ops ops b g N l m :
  Forall server_op_ok ops -> server_rel b g -> safe N (server_blocks b g ++ l) m ->
  wp (server_ops realloc_moves ops b) (fun b' m' =>
    server_rel b' (foldl (fun g op => config_op op g) g ops) /\
    safe N (server_blocks b' (foldl (fun g op => config_op op g) g ops) ++ l) m') m.
Proof.
  intros Hok. revert b g m. induction Hok as [|op ops Hop Hok IH]; intros b g m Hr Hs; [done|].
  cbn [server_ops foldl]. wp_step wp_server_op; [done..|]. intros b' m' [Hr' Hs']. by apply IH.
Qed.

Lemma wp_server_drop b g N l m :
  server_rel b g -> safe N (server_blocks b g ++ l) m ->
  wp (ServerCredentialsBuilder_drop b) (fun _ => safe N l) m.
Proof.
  intros (Hroot & Hpairs & _) Hs. unfold server_blocks in Hs.
  wp_step (wp_drop_pairs _ (cfg_pairs g) N (root_blocks (sb_root b) (cfg_root g) ++ l));
    [done|eapply safe_perm; [|exact Hs]; solve_Permutation|].
  intros _ m1 H1. by eapply wp_drop_opt.
Qed.

(** [build_config] gives the core the root and the pairs, and frees everything. *)
Lemma wp_build_config b g N l m :
  server_rel b g -> safe N (server_blocks b g ++ l) m ->
  let call := ServerCertificateConfigCreate (cfg_root g) (cfg_pairs g) in
  wp (build_config native b) (fun r m' => r = native N call /\ safe (N ++ [call]) l m') m.
Proof.
  intros (Hroot & Hpairs & Hty) Hs. unfold server_blocks in Hs. simpl. unfold build_config.
  wp_step wp_read_opt; [by rewrite <-app_assoc in Hs|done|]. intros r m' [-> ->].
  wp_step (wp_read_pairs _ (cfg_pairs g) N (root_blocks (sb_root b) (cfg_root g) ++ l));
    [done|eapply safe_perm; [|exact Hs]; solve_Permutation|]. intros ps m' [-> ->].
  wp_step wp_call_native; [done|]. intros cfg m1 [-> H1].
  apply (wp_bind (S:=Mem Native)). eapply (wp_mono _ (fun _ m' =>
    safe (N ++ [ServerCertificateConfigCreate (cfg_root g) (cfg_pairs g)])
      (pair_blocks (sb_key_cert_pairs b) (cfg_pairs g) ++ l) m')).
  - rewrite <-app_assoc in H1. destruct (sb_root b) as [c|], (cfg_root g) as [s|]; simpl in *; try done.
    wp_step wp_CString_from_raw; [done|by left|done|]. intros cs m' [-> ->].
    by eapply wp_CString_drop.
  - intros _ m2 H2. wp_step (wp_server_drop _ (mkServerConfig None (cfg_pairs g) (cfg_type g))).
    { by split. }
    { exact H2. }
    intros _ m3 H3. done.
Qed.

Lemma wp_server_build b g N l m :
  server_rel b g -> safe N (server_blocks b g ++ l) m ->
  let c1 := ServerCertificateConfigCreate (cfg_root g) (cfg_pairs g) in
  let c2 := CreateOptionsUsingConfig (to_native (cfg_type g)) (native N c1) in
  let c3 := CreateWithOptions (native (N ++ [c1]) c2) in
  wp (ServerCredentialsBuilder_build native b) (fun r m' =>
    r = native (N ++ [c1; c2]) c3 /\ safe (N ++ [c1; c2; c3]) l m') m.
Proof.
  intros Hr Hs c1 c2 c3. unfold ServerCredentialsBuilder_build.
  assert (sb_cer_request_type b = cfg_type g) as -> by apply Hr.
  wp_step wp_build_config; [done..|]. intros cfg m1 [-> H1].
  wp_step wp_call_native; [done|]. intros opt m2 [-> H2].
  eapply wp_mono; [by eapply wp_call_native|cbv beta]. intros r m3 [-> H3].
  rewrite <-!app_assoc in H3. rewrite <-!app_assoc. split; [done|]. exact H3.
Qed.

(** ** ChannelCredentialsBuilder *)

Record ChannelConfig := mkChannelConfig {
  ch_root : option (list byte);
  ch_pair : option (list byte * list byte);
}.

Definition channel_config_op (op : ChannelOp) (g : ChannelConfig) : ChannelConfig :=
  match op with
  | ChannelRoot c _ => mkChannelConfig (Some c) (ch_pair g)
  | ChannelCert c _ key _ => mkChannelConfig (ch_root g) (Some (key, c))
  end.

(** As for a server; and the pair is set only once. *)
Definition channel_op_ok (op : ChannelOp) (g : ChannelConfig) : Prop :=
  match op with
  | ChannelRoot c cap => (x00 ∉ c) /\ length c <= cap
  | ChannelCert c cap key key_cap => (x00 ∉ c) /\ length c <= cap /\ (x00 ∉ key) /\
      (key_cap = length key \/ key_cap = S (length key)) /\ ch_pair g = None
  end.

Fixpoint channel_ops_ok (ops : list ChannelOp) (g : ChannelConfig) : Prop :=
  match ops with
  | [] => True
  | op :: ops => channel_op_ok op g /\ channel_ops_ok ops (channel_config_op op g)
  end.

Definition kc_blocks (p : option (CString * CString)) (kc : option (list byte * list byte)) :
    list (nat * Block) :=
  match p, kc with
  | Some (c, k), Some (key, crt) => [(c_ptr k, cstr_block key true); (c_ptr c, cstr_block crt false)]
  | _, _ => []
  end.

Definition kc_rel (p : option (CString * CString)) (kc : option (list byte * list byte)) : Prop :=
  match p, kc with
  | Some (_, k), Some (key, crt) => c_len k = S (length key) /\ (x00 ∉ key) /\ (x00 ∉ crt)
  | None, None => True
  | _, _ => False
  end.

Definition channel_blocks (b : ChannelCredentialsBuilder) (g : ChannelConfig) : list (nat * Block) :=
  root_blocks (cb_root b) (ch_root g) ++ kc_blocks (cb_cert_key_pair b) (ch_pair g).

Definition channel_rel (b : ChannelCredentialsBuilder) (g : ChannelConfig) : Prop :=
  root_rel (cb_root b) (ch_root g) /\ kc_rel (cb_cert_key_pair b) (ch_pair g).

Lemma wp_channel_op op b g N l m :
  channel_op_ok op g -> channel_rel b g -> safe N (channel_blocks b g ++ l) m ->
  wp (channel_op realloc_moves op b) (fun b' m' =>
    channel_rel b' (channel_config_op op g) /\
    safe N (channel_blocks b' (channel_config_op op g) ++ l) m') m.
Proof.
  intros Hok (Hroot & Hkc) Hs. unfold channel_blocks in *.
  destruct op as [c cap|c cap key kcap]; cbn [channel_op].
  - destruct Hok as [Hn Hcap].
    wp_step wp_Vec_given; [done|]. intros v m1 (Hl & Hc & H1).
    wp_step wp_CString_new; [by rewrite Hc, Hl|done|lia|done|by left|]. intros cs m2 (_ & H2).
    wp_step (wp_drop_opt (cb_root b) (ch_root g) N ((c_ptr cs, cstr_block c false) ::
      kc_blocks (cb_cert_key_pair b) (ch_pair g) ++ l)); [|done|].
    { eapply safe_perm; [|exact H2]. solve_Permutation. }
    intros _ m3 H3. apply wp_ret. split; [done|]. exact H3.
  - destruct Hok as (Hn & Hcap & Hkn & Hkcap & Hnone). rewrite Hnone in *.
    destruct (cb_cert_key_pair b) as [[? ?]|] eqn:Eb; [done|].
    wp_step wp_Vec_given; [done|]. intros vc m1 (Hl & Hc & H1).
    wp_step wp_Vec_given; [done|]. intros vk m2 (Hlk & Hck & H2).
    unfold cert. wp_step (wp_with_room vk key); [by rewrite Hck, Hlk|done|lia|].
    intros vk' m3 (Hl3 & Hc3 & H3).
    wp_step (wp_CString_new _ base F0 N vc c);
      [rewrite Hc, Hl; eapply safe_perm; [apply perm_swap|exact H3]|done|lia|done|by left|].
    intros cc m4 (_ & H4).
    wp_step (wp_CString_new _ base F0 N vk' key);
      [eapply safe_perm; [apply perm_swap|exact H4]|done|lia|done|right; lia|].
    intros ck m5 (Hlen & H5). rewrite Eb. apply wp_bind, wp_ret, wp_ret. split; [done|].
    eapply safe_perm; [|exact H5]. simpl. rewrite app_nil_r. solve_Permutation.
Qed.

Lemma wp_channel_ops ops b g N l m :
  channel_ops_ok ops g -> channel_rel b g -> safe N (channel_blocks b g ++ l) m ->
  wp (channel_ops realloc_moves ops b) (fun b' m' =>
    channel_rel b' (foldl (fun g op => channel_config_op op g) g ops) /\
    safe N (channel_blocks b' (foldl (fun g op => channel_config_op op g) g ops) ++ l) m') m.
Proof.
  revert b g m. induction ops as [|op ops IH]; intros b g m Hok Hr Hs; [done|].
  destruct Hok as [Hop Hok]. cbn [channel_ops foldl]. wp_step wp_channel_op; [done..|].
  intros b' m' [Hr' Hs']. by apply IH.
Qed.

Lemma wp_channel_drop b g N l m :
  channel_rel b g -> safe N (channel_blocks b g ++ l) m ->
  wp (ChannelCredentialsBuilder_drop b) (fun _ => safe N l) m.
Proof.
  intros (Hroot & Hkc) Hs. unfold channel_blocks in Hs. unfold ChannelCredentialsBuilder_drop.
  apply wp_bind, (wp_mono _ (fun _ => safe N (root_blocks (cb_root b) (ch_root g) ++ l))).
  - destruct (cb_cert_key_pair b) as [[c k]|], (ch_pair g) as [[key crt]|]; simpl in *; try done.
    + destruct Hkc as (Hlen & Hk & Hc).
      wp_step (wp_drop_key k key N ((c_ptr c, cstr_block crt false) ::
        root_blocks (cb_root b) (ch_root g) ++ l)); [|done|].
      { eapply safe_perm; [|exact Hs]. solve_Permutation. }
      intros _ m1 H1. by eapply wp_CString_drop.
    + apply wp_ret. by rewrite app_nil_r in Hs.
  - intros _ m1 H1. by eapply wp_drop_opt.
Qed.

Lemma wp_channel_build b g N l m :
  channel_rel b g -> safe N (channel_blocks b g ++ l) m ->
  let call := SslCredentialsCreateEx (ch_root g) (ch_pair g) in
  wp (ChannelCredentialsBuilder_build native b) (fun r m' => r = native N call /\ safe (N ++ [call]) l m') m.
Proof.
  intros Hr Hs. pose proof Hr as (Hroot & Hkc). unfold channel_blocks in Hs. simpl.
  unfold ChannelCredentialsBuilder_build.
  wp_step wp_read_opt; [by rewrite <-app_assoc in Hs|done|]. intros r m' [-> ->].
  apply wp_bind, (wp_mono _ (fun kc m' => kc = ch_pair g /\ m' = m)).
  { destruct (cb_cert_key_pair b) as [[c k]|], (ch_pair g) as [[key crt]|]; simpl in *; try done.
    destruct Hkc as (_ & Hk & Hc).
    wp_step (wp_CStr_bytes base F0 N _ key true); [done|unfold CString_into_raw; set_solver|done|].
    intros s m' [-> ->].
    wp_step (wp_CStr_bytes base F0 N _ crt false); [done|unfold CString_into_raw; set_solver|done|].
    by intros s' m' [-> ->]. }
  intros kc m' [-> ->]. wp_step wp_call_native; [done|]. intros creds m1 [-> H1].
  apply wp_bind, (wp_mono _ (fun c m' => root_blocks c (ch_root g) = root_blocks (cb_root b) (ch_root g) /\
    root_rel c (ch_root g) /\ m' = m1)).
  { destruct (cb_root b) as [c|], (ch_root g) as [s|]; simpl in *; try done.
    wp_step wp_CString_from_raw; [done|by left|done|]. by intros cs m' [-> ->]. }
  intros c1 m' (Hc1 & Hr1 & ->).
  apply wp_bind, (wp_mono _ (fun p m' => kc_blocks p (ch_pair g) = kc_blocks (cb_cert_key_pair b) (ch_pair g) /\
    kc_rel p (ch_pair g) /\ m' = m1)).
  { destruct (cb_cert_key_pair b) as [[c k]|], (ch_pair g) as [[key crt]|]; simpl in *; try done.
    destruct Hkc as (_ & Hk & Hc).
    wp_step (wp_CString_from_raw base F0 _ _ crt false); [done|unfold CString_into_raw; set_solver|done|].
    intros cs m' [-> ->].
    wp_step (wp_CString_from_raw base F0 _ _ key true); [done|unfold CString_into_raw; set_solver|done|].
    by intros cs' m' [-> ->]. }
  intros p m' (Hp & Hk & ->).
  wp_step (wp_channel_drop (mkChannelBuilder c1 p) g);
    [done|unfold channel_blocks; simpl; rewrite Hc1, Hp; exact H1|].
  intros _ m2 H2. done.
Qed.
End credentials_specs.

(** ** Properties *)

(** Addresses in use are below the next one. *)
Definition heap_wf (m : Mem Native) : Prop := forall a, is_Some (m_live m !! a) -> a < m_next m.

Lemma heap_wf_safe m : heap_wf m -> heap_safe (m_live m) (m_freed m) (m_log m) [] m.
Proof.
  intros Hw. split; [|split; [exists []; by rewrite app_nil_r|done]]. split.
  - constructor.
  - simpl. by rewrite map_empty_union.
  - apply map_disjoint_empty_l.
  - done.
Qed.

Lemma safe_nil_live base F0 N (m : Mem Native) : heap_safe base F0 N [] m -> m_live m = base.
Proof. intros ([_ Hl _ _] & _). rewrite Hl. apply map_empty_union. Qed.

(** The heap is as it was, and what was freed meanwhile is clean. *)
Definition restored (m m' : Mem Native) : Prop :=
  m_live m' = m_live m /\ exists F, m_freed m' = m_freed m ++ F /\ Forall clean F.

Lemma safe_restored m m' N : heap_safe (m_live m) (m_freed m) N [] m' -> restored m m' /\ m_log m' = N.
Proof.
  intros Hs. split; [|apply Hs]. split; [by eapply safe_nil_live|]. apply Hs.
Qed.

Section credentials_properties.
Context (realloc_moves : Block -> nat -> bool) (native : list Native -> Native -> nat).

(** C24: whatever sequence of [root_cert] and [add_cert] a builder of server credentials is
    used with, on strings without NUL and keys whose vector is full or has room for the NUL
    only, it does not panic; building gives the core the last root, the pairs in order and
    the last request type; and whether it is built or dropped, every block is freed exactly
    once and no freed block holds bytes of a private key. *)
Theorem server_credentials_clean (ops : list ServerOp) (m : Mem Native) :
  heap_wf m -> Forall server_op_ok ops ->
  let g := foldl (fun g op => config_op op g) config0 ops in
  let c1 := ServerCertificateConfigCreate (cfg_root g) (cfg_pairs g) in
  let c2 := CreateOptionsUsingConfig (to_native (cfg_type g)) (native (m_log m) c1) in
  let c3 := CreateWithOptions (native (m_log m ++ [c1]) c2) in
  (exists m', (let* b := server_ops realloc_moves ops ServerCredentialsBuilder_new in
               ServerCredentialsBuilder_build native b) m =
      Done (native (m_log m ++ [c1; c2]) c3, m') /\
      restored m m' /\ m_log m' = m_log m ++ [c1; c2; c3]) /\
  (exists m', (let* b := server_ops realloc_moves ops ServerCredentialsBuilder_new in
               ServerCredentialsBuilder_drop b) m = Done (tt, m') /\
      restored m m' /\ m_log m' = m_log m).
Proof.
  intros Hw Hok g c1 c2 c3.
  pose proof (wp_server_ops realloc_moves (m_live m) (m_freed m) ops ServerCredentialsBuilder_new config0
    (m_log m) [] m Hok ltac:(by repeat constructor) (heap_wf_safe m Hw)) as Hops.
  split.
  - assert (wp (let* b := server_ops realloc_moves ops ServerCredentialsBuilder_new in
      ServerCredentialsBuilder_build native b) (fun r m' => r = native (m_log m ++ [c1; c2]) c3 /\
        heap_safe (m_live m) (m_freed m) (m_log m ++ [c1; c2; c3]) [] m') m) as H.
    { wp_step Hops. intros b m1 [Hr Hs]. by eapply wp_server_build. }
    apply wp_Done in H as (r & m' & E & -> & Hs). exists m'. split; [done|]. by apply safe_restored.
  - assert (wp (let* b := server_ops realloc_moves ops ServerCredentialsBuilder_new in
      ServerCredentialsBuilder_drop b) (fun _ => heap_safe (m_live m) (m_freed m) (m_log m) []) m) as H.
    { wp_step Hops. intros b m1 [Hr Hs]. by eapply wp_server_drop. }
    apply wp_Done in H as ([] & m' & E & Hs). exists m'. split; [done|]. by apply safe_restored.
Qed.

(** The same of a builder of channel credentials whose pair is set at most once: the
    core is given the last root and the pair. *)
Theorem channel_credentials_clean (ops : list ChannelOp) (m : Mem Native) :
  heap_wf m -> channel_ops_ok ops (mkChannelConfig None None) ->
  let g := foldl (fun g op => channel_config_op op g) (mkChannelConfig None None) ops in
  let call := SslCredentialsCreateEx (ch_root g) (ch_pair g) in
  (exists m', (let* b := channel_ops realloc_moves ops ChannelCredentialsBuilder_new in
               ChannelCredentialsBuilder_build native b) m = Done (native (m_log m) call, m') /\
      restored m m' /\ m_log m' = m_log m ++ [call]) /\
  (exists m', (let* b := channel_ops realloc_moves ops ChannelCredentialsBuilder_new in
               ChannelCredentialsBuilder_drop b) m = Done (tt, m') /\
      restored m m' /\ m_log m' = m_log m).
Proof.
  intros Hw Hok g call.
  pose proof (wp_channel_ops realloc_moves (m_live m) (m_freed m) ops ChannelCredentialsBuilder_new
    (mkChannelConfig None None) (m_log m) [] m Hok ltac:(done) (heap_wf_safe m Hw)) as Hops.
  split.
  - assert (wp (let* b := channel_ops realloc_moves ops ChannelCredentialsBuilder_new in
      ChannelCredentialsBuilder_build native b) (fun r m' => r = native (m_log m) call /\
        heap_safe (m_live m) (m_freed m) (m_log m ++ [call]) [] m') m) as H.
    { wp_step Hops. intros b m1 [Hr Hs]. by eapply wp_channel_build. }
    apply wp_Done in H as (r & m' & E & -> & Hs). exists m'. split; [done|]. by apply safe_restored.
  - assert (wp (let* b := channel_ops realloc_moves ops ChannelCredentialsBuilder_new in
      ChannelCredentialsBuilder_drop b) (fun _ => heap_safe (m_live m) (m_freed m) (m_log m) []) m) as H.
    { wp_step Hops. intros b m1 [Hr Hs]. by eapply wp_channel_drop. }
    apply wp_Done in H as ([] & m' & E & Hs). exists m'. split; [done|]. by apply safe_restored.
Qed.

(** A fetcher that builds credentials: the wrapper sets the config and reports it new,
    leaving no key behind; without credentials it leaves the config as it was and reports
    it unchanged, on an error it reports the failure; a missing fetcher is a panic. *)
Theorem fetcher_reloads (ops : list ServerOp) (e : string) (m : Mem Native) :
  heap_wf m -> Forall server_op_ok ops ->
  let g := foldl (fun g op => config_op op g) config0 ops in
  let c1 := ServerCertificateConfigCreate (cfg_root g) (cfg_pairs g) in
  let fetch := let* b := server_ops realloc_moves ops ServerCredentialsBuilder_new in ret (Ok (Some b)) in
  (exists m', server_cert_fetcher_wrapper native (Some fetch) m =
     Done ((Some (native (m_log m) c1), RELOAD_NEW), m') /\ restored m m' /\ m_log m' = m_log m ++ [c1]) /\
  server_cert_fetcher_wrapper native (Some (ret (Ok None))) m = Done ((None, RELOAD_UNCHANGED), m) /\
  server_cert_fetcher_wrapper native (Some (ret (Err e))) m = Done ((None, RELOAD_FAIL), m) /\
  exists msg, server_cert_fetcher_wrapper native None m = Panicked msg.
Proof.
  intros Hw Hok g c1 fetch. split; [|split; [done|split; [done|by eexists]]].
  pose proof (wp_server_ops realloc_moves (m_live m) (m_freed m) ops ServerCredentialsBuilder_new config0
    (m_log m) [] m Hok ltac:(by repeat constructor) (heap_wf_safe m Hw)) as Hops.
  assert (wp (server_cert_fetcher_wrapper native (Some fetch)) (fun r m' =>
    r = (Some (native (m_log m) c1), RELOAD_NEW) /\
    heap_safe (m_live m) (m_freed m) (m_log m ++ [c1]) [] m') m) as H.
  { cbn [server_cert_fetcher_wrapper]. apply wp_bind. wp_step Hops. intros b m1 [Hr Hs].
    apply wp_ret. wp_step wp_build_config; [done..|]. by intros r m2 [-> H2]. }
  apply wp_Done in H as (r & m' & E & -> & Hs). exists m'. split; [done|]. by apply safe_restored.
Qed.

(** [google_default_credentials] initialises the core first, and a null pointer is the
    error of the library. *)
Theorem google_default_result (m : Mem Native) :
  exists r m', google_default_credentials native m = Done (r, m') /\
    m_log m' = m_log m ++ [GrpcInit; GoogleDefaultCredentialsCreate] /\
    match r with
    | Ok creds => creds <> 0
    | Err e => e = GoogleAuthenticationFailed /\
        native (m_log m ++ [GrpcInit]) GoogleDefaultCredentialsCreate = 0
    end.
Proof.
  eexists _, _. split; [reflexivity|]. split; [simpl; by rewrite <-app_assoc|].
  simpl. by case_bool_decide.
Qed.
End credentials_properties.

(** ** Concrete runs *)

Definition heap0 : Mem Native := mkMem ∅ [] 0 [].

Definition always_moves (b : Block) (n : nat) : bool := true.

Definition next_ptr (hist : list Native) (c : Native) : nat := S (length hist).

Lemma heap0_wf : heap_wf heap0.
Proof. intros a [b Hb]. simpl in Hb. by rewrite lookup_empty in Hb. Qed.

(** The copy of the key made for its NUL is not enough when the vector of the key has more
    room than that: the conversion to a C string then shrinks the block, and where the
    allocator moves it, the old one is freed with the key in it. *)
Theorem spare_capacity_leaks_key :
  exists r m', (let* b := server_ops always_moves [AddCert [x43] 1 [x4b; x45; x59] 8]
                            ServerCredentialsBuilder_new in
                ServerCredentialsBuilder_build next_ptr b) heap0 = Done (r, m') /\
    exists blk, blk ∈ m_freed m' /\ ~ clean blk /\
      take 3 (b_data blk) = Some <$> [x4b; x45; x59].
Proof.
  eexists _, _. split; [vm_compute; reflexivity|]. simpl.
  eexists. split; [by left|]. split; [|reflexivity].
  intros [H|H]; [done|]. simpl in H. by apply Forall_cons in H as [? _].
Qed.

(** Setting the pair of a channel's builder again drops the first key like any string: only
    its first byte is overwritten before its block is freed. *)
Theorem second_cert_leaks_key :
  exists r m', (let* b := channel_ops always_moves
                  [ChannelCert [x43] 1 [x4b; x45; x59] 3; ChannelCert [x43] 1 [x4b] 1]
                  ChannelCredentialsBuilder_new in
                ChannelCredentialsBuilder_build next_ptr b) heap0 = Done (r, m') /\
    mkBlock [Some x00; Some x45; Some x59; Some x00] true ∈ m_freed m'.
Proof.
  eexists _, _. split; [vm_compute; reflexivity|]. simpl.
  rewrite !elem_of_cons. auto 20.
Qed.

Definition demo_server_ops : list ServerOp :=
  [SetRoot [x52] 1 RequestClientCertificateAndVerify; AddCert [x43] 4 [x4b; x45] 2;
   AddCert [x44] 1 [x4c] 2].

Lemma server_credentials_clean_witness :
  exists m', (let* b := server_ops always_moves demo_server_ops ServerCredentialsBuilder_new in
              ServerCredentialsBuilder_build next_ptr b) heap0 = Done (3, m') /\
    restored heap0 m' /\
    m_log m' = [ServerCertificateConfigCreate (Some [x52]) [([x4b; x45], [x43]); ([x4c], [x44])];
                CreateOptionsUsingConfig 2 1; CreateWithOptions 2].
Proof.
  apply (server_credentials_clean always_moves next_ptr demo_server_ops heap0).
  - exact heap0_wf.
  - repeat constructor; try (by apply (bool_decide_eq_true_1 (_ ∉ _))); simpl; lia.
Defined.

Lemma channel_credentials_clean_witness :
  exists m', (let* b := channel_ops always_moves [ChannelCert [x43] 4 [x4b; x45] 2; ChannelRoot [x52] 1]
                ChannelCredentialsBuilder_new in
              ChannelCredentialsBuilder_build next_ptr b) heap0 = Done (1, m') /\
    restored heap0 m' /\ m_log m' = [SslCredentialsCreateEx (Some [x52]) (Some ([x4b; x45], [x43]))].
Proof.
  apply (channel_credentials_clean always_moves next_ptr
    [ChannelCert [x43] 4 [x4b; x45] 2; ChannelRoot [x52] 1] heap0).
  - exact heap0_wf.
  - repeat split; try (by apply (bool_decide_eq_true_1 (_ ∉ _))); simpl; lia.
Defined.
