(* ===== verification/ServerBuild.v ===== *)
(** Building, starting and stopping a server: [Binder], [ServerBuilder], [ServerCore] and
    [Server] of src/src/server.rs.

    The state is what was asked of the core about the server, in order, the reference
    counts of the completion queues of the environment and, for the native server, whose
    owner is shared, the number of references to it. *)

From S2P Require Import Prelude Status Cq Buf Utf8 Metadata Task Call Memory Security Address.
From S2P Require Import ServerCall Server.

Local Open Scope rust_scope.
Local Open Scope string_scope.

(** What the callee of [addr.as_ptr()] reads: the text before the first NUL. *)
Fixpoint c_str (s : string) : string :=
  match s with
  | "" => ""
  | String c s => if bool_decide (c = Ascii.zero) then "" else String c (c_str s)
  end.

(** The native credentials, fetchers and channel arguments are identified by their pointers;
    [ShutdownNotified k]: the core has ended the [k]-th shutdown it was asked for, and the
    action of that shutdown is resolved. *)
Inductive ServerCall :=
| ServerCreate (args : option nat)
| AddInsecurePort (addr : string)
| AddSecurePort (addr : string) (creds : nat)
| OptionsUsingFetcher (request_type : Z) (fetcher : nat)
| CredentialsCreate (options : nat)
| CredentialsRelease (creds : nat)
| RegisterQueue (cq : nat)
| ServerStart
| AddChannelFromFd (fd : Z)
| ShutdownAndNotify
| ShutdownNotified (k : nat)
| CancelAllCalls
| ServerDestroy
| FetcherFreed (fetcher : nat)
| ArgsDestroy (args : nat).

#[export] Instance ServerCall_eq_dec : EqDecision ServerCall.
Proof. solve_decision. Defined.

Record BWorld := mkBWorld {
  bw_cqs : list CompletionQueueHandle;
  bw_log : list ServerCall;
}.

Section build.
Context `{SC : SliceCore}.
(** The answer of the core to a call: a pointer, or the port bound, 0 on failure. *)
Context (answer : list ServerCall -> ServerCall -> Z).

Definition log_call (c : ServerCall) : M BWorld unit :=
  modify (fun w => mkBWorld (bw_cqs w) (bw_log w ++ [c])).

Definition ask (c : ServerCall) : M BWorld Z :=
  let* r := gets (fun w => answer (bw_log w) c) in
  do* log_call c in
  ret r.

(** ** Binder *)

Record Binder := mkBinder {
  b_host : string;
  b_port : Z;
  b_cred : option nat;
  b_fetcher : option nat;
}.

Definition Binder_new (host : string) (port : Z) : Binder :=
  {| b_host := host; b_port := port; b_cred := None; b_fetcher := None |}.

Definition Binder_with_cred (host : string) (port : Z) (cred : nat) (fetcher : option nat) : Binder :=
  {| b_host := host; b_port := port; b_cred := Some cred; b_fetcher := fetcher |}.

(** [bind]: the credentials are taken, and dropped after the call; [port as u16]. *)
Definition Binder_bind (self : Binder) : M BWorld (Z * Binder) :=
  let addr := c_str (join_host_port (b_host self) (b_port self)) in
  let* port := match b_cred self with
               | None => ask (AddInsecurePort addr)
               | Some cert =>
                   let* port := ask (AddSecurePort addr cert) in
                   do* log_call (CredentialsRelease cert) in
                   ret port
               end in
  ret ((port mod 65536)%Z, mkBinder (b_host self) (b_port self) None (b_fetcher self)).

(** A [Binder] that goes out of scope. *)
Definition Binder_drop (self : Binder) : M BWorld unit :=
  do* match b_cred self with Some c => log_call (CredentialsRelease c) | None => ret tt end in
  match b_fetcher self with Some f => log_call (FetcherFreed f) | None => ret tt end.

Fixpoint drop_binders (binders : list Binder) : M BWorld unit :=
  match binders with
  | [] => ret tt
  | b :: binders => do* Binder_drop b in drop_binders binders
  end.

(** ** ServerBuilder *)

Record ServerBuilder := mkServerBuilder {
  sb_binders : list Binder;
  sb_args : option nat;
  sb_slots_per_cq : nat;
  sb_handlers : Registry (SC:=SC);
  sb_checkers : list (ServerChecker (SC:=SC));
}.

Definition ServerBuilder_new : ServerBuilder :=
  {| sb_binders := []; sb_args := None; sb_slots_per_cq := DEFAULT_REQUEST_SLOTS_PER_CQ;
     sb_handlers := ∅; sb_checkers := [] |}.

Definition push_binder (self : ServerBuilder) (b : Binder) : ServerBuilder :=
  mkServerBuilder (sb_binders self ++ [b]) (sb_args self) (sb_slots_per_cq self)
    (sb_handlers self) (sb_checkers self).

Definition ServerBuilder_bind (self : ServerBuilder) (host : string) (port : Z) : ServerBuilder :=
  push_binder self (Binder_new host port).

(** [channel_args]: the arguments that were set before are dropped. *)
Definition channel_args (self : ServerBuilder) (args : nat) : M BWorld ServerBuilder :=
  do* match sb_args self with Some a => log_call (ArgsDestroy a) | None => ret tt end in
  ret (mkServerBuilder (sb_binders self) (Some args) (sb_slots_per_cq self)
         (sb_handlers self) (sb_checkers self)).

Definition requests_slot_per_cq (self : ServerBuilder) (slots : nat) : ServerBuilder :=
  mkServerBuilder (sb_binders self) (sb_args self) slots (sb_handlers self) (sb_checkers self).

Definition ServerBuilder_register_service (self : ServerBuilder) (service : Registry) : ServerBuilder :=
  mkServerBuilder (sb_binders self) (sb_args self) (sb_slots_per_cq self)
    (register_service (sb_handlers self) service) (sb_checkers self).

Definition add_checker (self : ServerBuilder) (checker : ServerChecker) : ServerBuilder :=
  mkServerBuilder (sb_binders self) (sb_args self) (sb_slots_per_cq self)
    (sb_handlers self) (sb_checkers self ++ [checker]).

Definition bind_with_cred (self : ServerBuilder) (host : string) (port : Z) (c : nat) : ServerBuilder :=
  push_binder self (Binder_with_cred host port c None).

Definition bind_with_fetcher (self : ServerBuilder) (host : string) (port : Z) (fetcher : nat)
    (cer_request_type : CertificateRequestType) : M BWorld ServerBuilder :=
  let* opt := ask (OptionsUsingFetcher (to_native cer_request_type) fetcher) in
  let* sc := ask (CredentialsCreate (Z.to_nat opt)) in
  ret (push_binder self (Binder_with_cred host port (Z.to_nat sc) (Some fetcher))).

(** ** build *)

(** The first loop of [build]; [bound] are the binders it is done with, and the second result
    are all binders after it. *)
Fixpoint bind_all (bound todo : list Binder) : M BWorld (Result Error unit * list Binder) :=
  match todo with
  | [] => ret (Ok tt, bound)
  | b :: todo =>
      let* r := Binder_bind b in
      let '(bind_port, b) := r in
      if bool_decide (bind_port = 0%Z) then
        do* log_call ServerDestroy in
        ret (Err (BindFail (b_host b) (b_port b)), (bound ++ b :: todo)%list)
      else
        bind_all (bound ++ [mkBinder (b_host b) bind_port (b_cred b) (b_fetcher b)])%list todo
  end.

(** [cq.borrow()] of the queue at an index, and the drop of the reference. *)
Definition borrow_queue (i : nat) : M BWorld (Result Error unit) := fun w =>
  match bw_cqs w !! i with
  | None => Panicked "index out of bounds"
  | Some cq => let '(r, cq) := add_ref cq in Done (r, mkBWorld (<[i:=cq]> (bw_cqs w)) (bw_log w))
  end.

Definition drop_queue_ref (i : nat) : M BWorld unit :=
  modify (fun w => mkBWorld (alter unref i (bw_cqs w)) (bw_log w)).

(** The second loop, on the [n] queues from index [i] on. *)
Fixpoint register_all (i n : nat) : M BWorld (Result Error unit) :=
  match n with
  | 0 => ret (Ok tt)
  | S n =>
      let* r := borrow_queue i in
      match r with
      | Err e => ret (Err e)
      | Ok _ => do* log_call (RegisterQueue i) in
                do* drop_queue_ref i in
                register_all (S i) n
      end
  end.

Record ServerCore := mkServerCore {
  core_binders : list Binder;
  core_slots_per_cq : nat;
  core_shutdown : bool;
}.

Record Server := mkServer {
  s_core : ServerCore;
  s_handlers : Registry (SC:=SC);
  s_checkers : list (ServerChecker (SC:=SC));
}.

Definition drop_args (args : option nat) : M BWorld unit :=
  match args with Some a => log_call (ArgsDestroy a) | None => ret tt end.

(** The builder is consumed: what was not moved into the server is dropped. *)
Definition ServerBuilder_build (self : ServerBuilder) : M BWorld (Result Error Server) :=
  do* log_call (ServerCreate (sb_args self)) in
  let* r := bind_all [] (sb_binders self) in
  let '(r, binders) := r in
  let fail (e : Error) : M BWorld (Result Error Server) :=
    do* drop_binders binders in
    do* drop_args (sb_args self) in
    ret (Err e) in
  match r with
  | Err e => fail e
  | Ok _ =>
      let* n := gets (fun w => length (bw_cqs w)) in
      let* r := register_all 0 n in
      match r with
      | Err e => fail e
      | Ok _ =>
          do* drop_args (sb_args self) in
          ret (Ok (mkServer (mkServerCore binders (sb_slots_per_cq self) false)
                     (sb_handlers self) (sb_checkers self)))
      end
  end.

(** ** Server *)

Definition bind_addrs (self : Server) : list (string * Z) :=
  (fun b => (b_host b, b_port b)) <$> core_binders (s_core self).

Definition add_insecure_channel_from_fd (fd : Z) : M BWorld unit := log_call (AddChannelFromFd fd).

Definition set_core_shutdown (self : Server) : Server :=
  mkServer (mkServerCore (core_binders (s_core self)) (core_slots_per_cq (s_core self)) true)
    (s_handlers self) (s_checkers self).

(** The shutdowns that were asked for, and those that ended. *)
Definition asks (l : list ServerCall) : nat :=
  length (omap (fun c => match c with ShutdownAndNotify => Some tt | _ => None end) l).

Definition notified (l : list ServerCall) : list nat :=
  omap (fun c => match c with ShutdownNotified k => Some k | _ => None end) l.

(** [Server::shutdown]: [completion_queues()[0].borrow().unwrap()]; the future waits for the end
    of this shutdown. *)
Definition Server_shutdown (self : Server) : M BWorld (Server * nat) :=
  let* r := borrow_queue 0 in
  match r with
  | Err _ => panic "called `Result::unwrap()` on an `Err` value"
  | Ok _ => let* k := gets (fun w => asks (bw_log w)) in
            do* log_call ShutdownAndNotify in
            do* drop_queue_ref 0 in
            ret (set_core_shutdown self, k)
  end.

Definition cancel_all_calls : M BWorld unit := log_call CancelAllCalls.

(** [ShutdownFuture::poll], on the handle of its action. *)
Definition ShutdownFuture_poll (cx : Waker) (guard : NotifyHandle bool) :
    outcome (Poll (Result Error unit) * NotifyHandle bool) :=
  match CqFuture_poll cx guard with
  | Panicked m => Panicked m
  | Done (Pending, guard) => Done (Pending, guard)
  | Done (Ready (Ok true), guard) => Done (Ready (Ok tt), guard)
  | Done (Ready (Ok false), guard) => Done (Ready (Err ShutdownFailed), guard)
  | Done (Ready (Err _), _) => Panicked "action future should never resolve to error"
  end.

(** [Drop for Server] until it waits, and the future it waits for. *)
Definition Server_drop (self : Server) : M BWorld (Server * option nat) :=
  let* r := if core_shutdown (s_core self) then ret (self, None)
            else let* r := Server_shutdown self in ret (r.1, Some r.2) in
  do* cancel_all_calls in
  ret r.

(** [f.map(futures::executor::block_on)] returns. *)
Definition drop_waited (f : option nat) (l : list ServerCall) : bool :=
  match f with Some k => bool_decide (k ∈ notified l) | None => true end.

(** [Drop for ServerCore], when the last reference is gone: [drop], then the fields. *)
Definition ServerCore_drop (binders : list Binder) : M BWorld unit :=
  do* log_call ServerDestroy in
  drop_binders binders.

(** The context of the requests of a queue, and a replica of the checkers for a request. *)
Definition request_context (self : Server) : RequestCallContext SC :=
  mkRequestCallContext (s_handlers self) (s_checkers self).

(** [Server::start], on the state of every queue of the environment. *)
Fixpoint start_queues (request_answer : grpc_call_error) (slots : nat) (queues : list (SWorld SC)) :
    outcome (list (SWorld SC)) :=
  match queues with
  | [] => Done []
  | q :: queues =>
      match start_slots request_answer slots q with
      | Panicked m => Panicked m
      | Done (_, q) =>
          match start_queues request_answer slots queues with
          | Panicked m => Panicked m
          | Done queues => Done (q :: queues)
          end
      end
  end.

Definition Server_start (request_answer : grpc_call_error) (self : Server)
    (queues : list (SWorld SC)) : M BWorld (list (SWorld SC) * list (RequestCallContext SC)) :=
  do* log_call ServerStart in
  fun w =>
    match start_queues request_answer (core_slots_per_cq (s_core self)) queues with
    | Panicked m => Panicked m
    | Done queues => Done ((queues, (fun _ => request_context self) <$> queues), w)
    end.

Definition get_checker (rc : RequestCallContext SC) : list (ServerChecker (SC:=SC)) := rcc_checkers rc.
End build.

(** ** The life of a built server *)

(** The native server is owned by the [Server] and by the contexts of its requests, by
    counting references; whoever drops the last one runs [ServerCore_drop]. *)
Section life.
Context `{SC : SliceCore}.

(** The [Server] is owned, in its [drop], or gone. *)
Inductive Owner :=
| Owned (s : Server (SC:=SC))
| Dropping (f : option nat)
| Gone.

Definition is_gone (o : Owner) : bool := match o with Gone => true | _ => false end.

(** [l_awaited] only serves the statements: when the drop began, every shutdown that had been
    asked for had ended. *)
Record Life := mkLife {
  l_world : BWorld;
  l_server : Owner;
  l_contexts : nat;
  l_awaited : bool;
}.

(** The drop of one of the references to the native server that has these binders. *)
Definition drop_core (binders : list Binder) (last : bool) (w : BWorld) : outcome BWorld :=
  if last then
    match ServerCore_drop binders w with
    | Done (_, w) => Done w
    | Panicked m => Panicked m
    end
  else Done w.

(** Every shutdown that was asked for has ended. *)
Definition shutdowns_ended (l : list ServerCall) : bool :=
  forallb (fun k => bool_decide (k ∈ notified l)) (seq 0 (asks l)).

Inductive life_step (binders : list Binder) : Life -> Life -> Prop :=
| life_start w s n a w' :
    log_call ServerStart w = Done (tt, w') ->
    life_step binders (mkLife w (Owned s) n a)
      (mkLife w' (Owned s) (n + core_slots_per_cq (s_core s) * length (bw_cqs w)) a)
| life_add_channel w s n a fd w' :
    add_insecure_channel_from_fd fd w = Done (tt, w') ->
    life_step binders (mkLife w (Owned s) n a) (mkLife w' (Owned s) n a)
| life_shutdown w s n a s' k w' :
    Server_shutdown s w = Done ((s', k), w') ->
    life_step binders (mkLife w (Owned s) n a) (mkLife w' (Owned s') n a)
| life_cancel w s n a w' :
    cancel_all_calls w = Done (tt, w') ->
    life_step binders (mkLife w (Owned s) n a) (mkLife w' (Owned s) n a)
| life_queues w o n a cqs :
    length cqs = length (bw_cqs w) ->
    life_step binders (mkLife w o n a) (mkLife (mkBWorld cqs (bw_log w)) o n a)
| life_completed w o n a k :
    k < asks (bw_log w) -> (ServerDestroy ∉ bw_log w) ->
    life_step binders (mkLife w o n a) (mkLife (mkBWorld (bw_cqs w) (bw_log w ++ [ShutdownNotified k])%list) o n a)
| life_clone_context w o n a :
    life_step binders (mkLife w o (S n) a) (mkLife w o (S (S n)) a)
| life_drop_context w o n a w' :
    drop_core binders (is_gone o && bool_decide (n = 0)) w = Done w' ->
    life_step binders (mkLife w o (S n) a) (mkLife w' o n a)
| life_drop_begins w s n a s' f w' :
    Server_drop s w = Done ((s', f), w') ->
    life_step binders (mkLife w (Owned s) n a) (mkLife w' (Dropping f) n (shutdowns_ended (bw_log w)))
| life_drop_ends w f n a w' :
    drop_waited f (bw_log w) = true ->
    drop_core binders (bool_decide (n = 0)) w = Done w' ->
    life_step binders (mkLife w (Dropping f) n a) (mkLife w' Gone n a).
End life.

(** ** What a log says *)

Local Open Scope list_scope.

(** The credentials released, the fetchers freed, and the servers destroyed. *)
Definition releases (t : list ServerCall) : list nat :=
  omap (fun c => match c with CredentialsRelease c => Some c | _ => None end) t.
Definition frees (t : list ServerCall) : list nat :=
  omap (fun c => match c with FetcherFreed f => Some f | _ => None end) t.
Definition destroys (t : list ServerCall) : list unit :=
  omap (fun c => match c with ServerDestroy => Some tt | _ => None end) t.

(** [t] releases, frees and destroys this. *)
Definition effects (t : list ServerCall) (cs fs : list nat) (ds : nat) : Prop :=
  releases t = cs /\ frees t = fs /\ destroys t = replicate ds tt.

Lemma effects_app t1 t2 cs1 cs2 fs1 fs2 d1 d2 :
  effects t1 cs1 fs1 d1 -> effects t2 cs2 fs2 d2 ->
  effects (t1 ++ t2) (cs1 ++ cs2) (fs1 ++ fs2) (d1 + d2).
Proof.
  intros (<- & <- & E1) (<- & <- & E2). unfold effects, releases, frees, destroys in *.
  by rewrite !omap_app, E1, E2, replicate_add.
Qed.

Lemma effects_nil : effects [] [] [] 0.
Proof. done. Qed.

(** [m] leaves the queues as they are and appends a log for which [Q] holds. *)
Definition emits {A} (m : M BWorld A) (Q : A -> list ServerCall -> Prop) (w : BWorld) : Prop :=
  wp m (fun a w' => exists t, w' = mkBWorld (bw_cqs w) (bw_log w ++ t) /\ Q a t) w.

Lemma emits_ret {A} (a : A) Q w : Q a [] -> emits (ret a) Q w.
Proof. intros H. apply wp_ret. exists []. rewrite app_nil_r. by destruct w. Qed.

Lemma emits_log c Q w : Q tt [c] -> emits (log_call c) Q w.
Proof. intros H. by exists [c]. Qed.

Lemma emits_ask answer c (Q : Z -> list ServerCall -> Prop) w :
  (forall l, Q (answer l c) [c]) -> emits (ask answer c) Q w.
Proof. intros H. exists [c]. split; [done|]. apply H. Qed.

Lemma emits_bind {A B} (m : M BWorld A) (k : A -> M BWorld B) P Q w :
  emits m P w ->
  (forall a t w', bw_cqs w' = bw_cqs w -> P a t -> emits (k a) (fun b t' => Q b (t ++ t')) w') ->
  emits (bind m k) Q w.
Proof.
  intros Hm Hk. apply wp_bind. eapply wp_mono; [exact Hm|]. intros a w' (t & -> & HP).
  eapply wp_mono; [by apply (Hk a t (mkBWorld (bw_cqs w) (bw_log w ++ t)))|].
  intros b w'' (t' & -> & HQ). exists (t ++ t')%list. cbn. by rewrite app_assoc.
Qed.

Lemma emits_mono {A} (m : M BWorld A) (P Q : A -> list ServerCall -> Prop) w :
  emits m P w -> (forall a t, P a t -> Q a t) -> emits m Q w.
Proof. intros Hm H. eapply wp_mono; [exact Hm|]. intros a w' (t & ? & ?). eauto. Qed.

Tactic Notation "emit_step" uconstr(H) := eapply emits_bind; [eapply H|cbv beta].

Lemma Binder_drop_emits b w :
  emits (Binder_drop b) (fun _ t => effects t (option_list (b_cred b)) (option_list (b_fetcher b)) 0) w.
Proof.
  unfold Binder_drop. apply (emits_bind _ _ (fun _ t => effects t (option_list (b_cred b)) [] 0)).
  - destruct (b_cred b); [by apply emits_log|by apply emits_ret].
  - intros _ t w' _ Ht.
    apply (emits_mono _ (fun _ t => effects t [] (option_list (b_fetcher b)) 0)).
    + destruct (b_fetcher b); [by apply emits_log|by apply emits_ret].
    + intros _ t' Ht'. pose proof (effects_app _ _ _ _ _ _ _ _ Ht Ht') as H.
      by rewrite app_nil_r in H.
Qed.

Lemma drop_binders_emits bs w :
  emits (drop_binders bs) (fun _ t => effects t (omap b_cred bs) (omap b_fetcher bs) 0) w.
Proof.
  revert w. induction bs as [|b bs IH]; intros w; [by apply emits_ret|].
  cbn [drop_binders]. emit_step Binder_drop_emits. intros _ t w' _ Ht.
  eapply emits_mono; [apply IH|]. intros ? t' Ht'. cbn.
  pose proof (effects_app _ _ _ _ _ _ _ _ Ht Ht') as H.
  by destruct (b_cred b), (b_fetcher b).
Qed.

(** ** Building *)

(** What a binder asks the core. *)
Definition port_call (b : Binder) : ServerCall :=
  let addr := c_str (join_host_port (b_host b) (b_port b)) in
  match b_cred b with
  | None => AddInsecurePort addr
  | Some cert => AddSecurePort addr cert
  end.

(** The binder after it was bound: the port is one the core chose, and the credentials are gone. *)
Definition bound_as (answer : list ServerCall -> ServerCall -> Z) (b b' : Binder) : Prop :=
  b_host b' = b_host b /\ b_cred b' = None /\ b_fetcher b' = b_fetcher b /\
  (0 < b_port b' < 65536)%Z /\ exists l, b_port b' = (answer l (port_call b) mod 65536)%Z.

Section build_lemmas.
Context `{SC : SliceCore}.
Context (answer : list ServerCall -> ServerCall -> Z).

Lemma Binder_bind_emits b w :
  emits (Binder_bind answer b)
    (fun '(port, b') t =>
       effects t (option_list (b_cred b)) [] 0 /\
       b' = mkBinder (b_host b) (b_port b) None (b_fetcher b) /\
       exists l, port = (answer l (port_call b) mod 65536)%Z) w.
Proof.
  unfold Binder_bind, port_call. destruct (b_cred b) as [c|].
  - eapply (emits_bind _ _ (fun port t => (exists l, port = answer l (AddSecurePort
      (c_str (join_host_port (b_host b) (b_port b))) c)) /\ effects t [c] [] 0)).
    + emit_step (emits_ask _ _ (fun port t => (exists l, port = answer l (AddSecurePort
        (c_str (join_host_port (b_host b) (b_port b))) c)) /\ effects t [] [] 0)); [intros l; split; [by exists l|done]|].
      intros port t w1 _ [Hp Ht].
      emit_step (emits_log _ (fun _ t => effects t [c] [] 0)); [done|]. intros _ t' w2 _ Ht'.
      apply emits_ret. split; [done|]. rewrite app_nil_r. apply (effects_app t t' [] [c] [] [] 0 0 Ht Ht').
    + intros port t w1 _ [[l ->] Ht]. apply emits_ret. rewrite app_nil_r. eauto.
  - eapply (emits_bind _ _ (fun port t => (exists l, port = answer l (AddInsecurePort
      (c_str (join_host_port (b_host b) (b_port b))))) /\ effects t [] [] 0)).
    + apply emits_ask. intros l. split; [by exists l|done].
    + intros port t w1 _ [[l ->] Ht]. apply emits_ret. rewrite app_nil_r. eauto.
Qed.

Lemma bind_all_emits todo bound w :
  Forall (fun b => b_cred b = None) bound ->
  emits (bind_all answer bound todo)
    (fun '(r, bs) t =>
       omap b_fetcher bs = omap b_fetcher (bound ++ todo) /\
       match r with
       | Ok _ => exists todo', bs = bound ++ todo' /\ Forall2 (bound_as answer) todo todo' /\
                   effects t (omap b_cred todo) [] 0
       | Err e => exists x cs, x ∈ todo /\ e = BindFail (b_host x) (b_port x) /\
                   (exists l, answer l (port_call x) mod 65536 = 0)%Z /\
                   effects t cs [] 1 /\ cs ++ omap b_cred bs = omap b_cred todo
       end) w.
Proof.
  assert (forall l, Forall (fun b => b_cred b = None) l -> omap b_cred l = []) as Hnone.
  { induction 1 as [|b l Hb _ IH]; [done|]. cbn. by rewrite Hb. }
  revert bound w. induction todo as [|b todo IH]; intros bound w Hbound; cbn [bind_all].
  { apply emits_ret. rewrite app_nil_r. split; [done|]. exists [].
    rewrite app_nil_r. split_and!; [done|constructor|done]. }
  emit_step Binder_bind_emits. intros [port b'] t w1 _ (Ht & -> & [l Hl]).
  case_bool_decide as H0.
  - emit_step (emits_log _ (fun _ t => effects t [] [] 1)); [done|]. intros _ t' w2 _ Ht'.
    apply emits_ret. rewrite app_nil_r. split; [by rewrite !omap_app|].
    exists b, (option_list (b_cred b)). split_and!; [by left|done|..].
    + exists l. by rewrite <-Hl.
    + pose proof (effects_app _ _ _ _ _ _ _ _ Ht Ht') as H. by rewrite app_nil_r in H.
    + rewrite omap_app, (Hnone _ Hbound). cbn. by destruct (b_cred b).
  - set (b' := mkBinder _ port _ _).
    eapply emits_mono; [apply IH; apply Forall_app; split; [done|by repeat constructor]|].
    intros [r bs] t' [Hf Hr]. rewrite <-app_assoc in Hf. split; [rewrite Hf, !omap_app; cbn; by destruct (b_fetcher b)|].
    destruct r as [u|e].
    + destruct Hr as (todo' & -> & HF & He). exists (b' :: todo'). rewrite <-app_assoc.
      split_and!; [done|constructor; [|done]|].
      * split_and!; [done..| | |by eauto]; cbn [b_port b']; rewrite Hl in H0 |- *;
          pose proof (Z.mod_pos_bound (answer l (port_call b)) 65536); lia.
      * pose proof (effects_app _ _ _ _ _ _ _ _ Ht He) as H. cbn. destruct (b_cred b); exact H.
    + destruct Hr as (x & cs & Hx & -> & Hl' & He & Hcs).
      exists x, (option_list (b_cred b) ++ cs). split_and!; [by right|done..| |].
      * apply (effects_app _ _ _ _ _ _ _ _ Ht He).
      * rewrite <-app_assoc, Hcs. cbn. by destruct (b_cred b).
Qed.

Lemma borrow_queue_spec i cq w :
  bw_cqs w !! i = Some cq ->
  ((ref_cnt cq <= 0)%Z /\ borrow_queue i w = Done (Err QueueShutdown, w)) \/
  ((0 < ref_cnt cq)%Z /\
   exists cqs, borrow_queue i w = Done (Ok tt, mkBWorld cqs (bw_log w)) /\
     forall l, drop_queue_ref i (mkBWorld cqs l) = Done (tt, mkBWorld (bw_cqs w) l)).
Proof.
  intros Hi. unfold borrow_queue. rewrite Hi. unfold add_ref. case_bool_decide as Hc.
  - left. split; [done|]. rewrite list_insert_id by done. by destruct w.
  - right. split; [lia|]. eexists. split; [reflexivity|]. intros l. unfold drop_queue_ref, modify.
    cbn [bw_cqs bw_log]. rewrite list_insert_alter, list_alter_alter_eq.
    do 3 f_equal. rewrite (list_alter_ext _ (fun x => x) _ (bw_cqs w) i); [by apply list_alter_id| |done].
    intros x Hx. simplify_eq. by apply unref_add_ref; lia.
Qed.

Lemma register_all_emits n i w :
  i + n = length (bw_cqs w) ->
  emits (register_all i n)
    (fun r t => effects t [] [] 0 /\
       match r with
       | Ok _ => Forall (fun cq => 0 < ref_cnt cq)%Z (drop i (bw_cqs w))
       | Err e => e = QueueShutdown /\ exists cq, cq ∈ bw_cqs w /\ (ref_cnt cq <= 0)%Z
       end) w.
Proof.
  revert i w. induction n as [|n IH]; intros i w Hin; cbn [register_all].
  - apply emits_ret. split; [done|]. rewrite drop_ge by lia. constructor.
  - destruct (lookup_lt_is_Some_2 (bw_cqs w) i ltac:(lia)) as [cq Hi].
    unfold emits, wp, bind. destruct (borrow_queue_spec i cq w Hi) as [[Hc ->]|(Hc & cqs & -> & Hd)].
    + cbn. exists []. rewrite app_nil_r. split; [by destruct w|]. split; [done|]. split; [done|].
      exists cq. split; [by eapply list_elem_of_lookup_2|done].
    + cbn -[register_all drop_queue_ref]. rewrite Hd.
      specialize (IH (S i) (mkBWorld (bw_cqs w) (bw_log w ++ [RegisterQueue i])) ltac:(cbn; lia)).
      unfold emits, wp in IH. destruct (register_all (S i) n _) as [[r w']|]; [|done].
      destruct IH as (t & -> & He & Hr). exists (RegisterQueue i :: t). cbn in *.
      split; [by rewrite <-app_assoc|]. split; [exact He|].
      destruct r; [|done]. rewrite (drop_S _ cq _ Hi). by constructor.
Qed.

Lemma drop_args_emits args w : emits (drop_args args) (fun _ t => effects t [] [] 0) w.
Proof. destruct args; [by apply emits_log|by apply emits_ret]. Qed.

(** What [build] promises of its result and of the calls [t] it makes after the native server
    is created. *)
Definition build_result (b : ServerBuilder) (cqs : list CompletionQueueHandle)
    (r : Result Error (Server (SC:=SC))) (t : list ServerCall) : Prop :=
  match r with
  | Ok s =>
      Forall2 (bound_as answer) (sb_binders b) (core_binders (s_core s)) /\
      Forall (fun cq => 0 < ref_cnt cq)%Z cqs /\
      core_shutdown (s_core s) = false /\ core_slots_per_cq (s_core s) = sb_slots_per_cq b /\
      s_handlers s = sb_handlers b /\ s_checkers s = sb_checkers b /\
      effects t (omap b_cred (sb_binders b)) [] 0
  | Err (BindFail host port) =>
      (exists x l, x ∈ sb_binders b /\ b_host x = host /\ b_port x = port /\
         (answer l (port_call x) mod 65536 = 0)%Z) /\
      effects t (omap b_cred (sb_binders b)) (omap b_fetcher (sb_binders b)) 1
  | Err e =>
      e = QueueShutdown /\ (exists cq, cq ∈ cqs /\ (ref_cnt cq <= 0)%Z) /\
      effects t (omap b_cred (sb_binders b)) (omap b_fetcher (sb_binders b)) 0
  end.

(** The builder that is dropped after an error. *)
Lemma drop_builder_emits (e : Error) binders args w :
  emits (do* drop_binders binders in do* drop_args args in ret (Err e))
    (fun r t => r = Err e /\ effects t (omap b_cred binders) (omap b_fetcher binders) 0)
    w (A := Result Error (Server (SC:=SC))).
Proof.
  emit_step drop_binders_emits. intros _ t w1 _ Ht. emit_step drop_args_emits. intros _ t' w2 _ Ht'.
  apply emits_ret. rewrite app_nil_r. split; [done|].
  pose proof (effects_app _ _ _ _ _ _ _ _ Ht Ht') as H. by rewrite !app_nil_r in H.
Qed.

Lemma build_emits (b : ServerBuilder) w :
  emits (ServerBuilder_build answer b)
    (fun r t => exists t', t = ServerCreate (sb_args b) :: t' /\ build_result b (bw_cqs w) r t') w.
Proof.
  unfold ServerBuilder_build.
  emit_step (emits_log _ (fun _ t => t = [ServerCreate (sb_args b)])); [done|].
  intros _ t w1 Hw1 ->. emit_step bind_all_emits; [constructor|].
  intros [r binders] t w2 Hw2 [Hf Hr]. change ([] ++ sb_binders b) with (sb_binders b) in Hf.
  destruct r as [u|e].
  - destruct Hr as (todo' & -> & HF & Ht). change ([] ++ todo') with todo'.
    apply (emits_bind _ _ (fun n t => n = length (bw_cqs w) /\ t = [])).
    { exists []. rewrite app_nil_r. split; [by destruct w2|by rewrite Hw2, Hw1]. }
    intros n t1 w3 Hw3 [-> ->].
    emit_step register_all_emits; [by rewrite Hw3, Hw2, Hw1|].
    intros r t1 w4 Hw4 [Ht1 Hr]. rewrite Hw3, Hw2, Hw1 in Hr. destruct r as [[]|e].
    + emit_step drop_args_emits. intros _ t2 w5 _ Ht2. apply emits_ret. rewrite app_nil_r.
      eexists. split; [reflexivity|]. cbn. split_and!; [done..|].
      pose proof (effects_app _ _ _ _ _ _ _ _ Ht (effects_app _ _ _ _ _ _ _ _ Ht1 Ht2)) as H.
      by rewrite !app_nil_r in H.
    + destruct Hr as [-> Hc]. eapply emits_mono; [apply drop_builder_emits|].
      intros ? t2 [-> Ht2]. eexists. split; [reflexivity|]. split_and!; [done..|].
      assert (omap b_cred todo' = []) as Hn.
      { clear -HF. induction HF as [|x y l l' Hxy _ IH]; [done|]. cbn.
        by destruct Hxy as (_ & -> & _). }
      pose proof (effects_app _ _ _ _ _ _ _ _ Ht (effects_app _ _ _ _ _ _ _ _ Ht1 Ht2)) as H.
      rewrite Hn, app_nil_r in H. cbn in Hf. by rewrite <-Hf.
  - destruct Hr as (x & cs & Hx & -> & [l Hl] & Ht & Hcs).
    eapply emits_mono; [apply drop_builder_emits|]. intros ? t1 [-> Ht1].
    eexists. split; [reflexivity|]. split; [by exists x, l|].
    pose proof (effects_app _ _ _ _ _ _ _ _ Ht Ht1) as H. by rewrite Hcs, Hf in H.
Qed.

(** C34: building a server never panics, and what it does is decided by the addresses and
    the queues.  It is built when every address can be bound and every queue is open, with
    the ports the core chose; when an address cannot be bound the error names it and the
    native server is destroyed.  In every case each of the credentials given to the builder
    is released exactly once, the references to the queues are given back, and the fetchers
    are freed unless the server, which still calls them, was built. *)
Theorem server_build_outcome (b : ServerBuilder) w :
  exists r w' t,
    ServerBuilder_build answer b w = Done (r, w') /\
    bw_cqs w' = bw_cqs w /\
    bw_log w' = bw_log w ++ ServerCreate (sb_args b) :: t /\
    build_result b (bw_cqs w) r t.
Proof.
  pose proof (build_emits b w) as H. apply wp_Done in H as (r & w' & E & t & -> & t' & -> & H).
  by exists r, (mkBWorld (bw_cqs w) (bw_log w ++ ServerCreate (sb_args b) :: t')), t'.
Qed.
End build_lemmas.

(** ** The end of a server *)

Section life_lemmas.
Context `{SC : SliceCore}.
Context (answer : list ServerCall -> ServerCall -> Z).

(** The binders of a built server have no credentials left. *)
Definition unsecured (bs : list Binder) : Prop := Forall (fun b => b_cred b = None) bs.

Lemma drop_binders_fetchers bs w :
  unsecured bs ->
  drop_binders bs w = Done (tt, mkBWorld (bw_cqs w) (bw_log w ++ (FetcherFreed <$> omap b_fetcher bs))).
Proof.
  intros Hbs. revert w. induction Hbs as [|b bs Hb _ IH]; intros [cqs l]; cbn [drop_binders].
  - cbn. by rewrite app_nil_r.
  - unfold bind, Binder_drop. rewrite Hb. cbn. destruct (b_fetcher b) as [f|]; cbn; rewrite IH; cbn;
      [by rewrite <-app_assoc|done].
Qed.

(** A live server has not been destroyed, and its fetchers are there; once it is gone it was
    shut down before it was destroyed, and destroyed before its fetchers were freed.  A drop
    leaves no shutdown open but the one it waits for, unless one was open before. *)
Definition gone (L : Life (SC:=SC)) : bool :=
  is_gone (l_server L) && bool_decide (l_contexts L = 0).

Definition owner_inv (l0 t : list ServerCall) (a : bool) (o : Owner (SC:=SC)) : Prop :=
  match o with
  | Owned s => core_shutdown (s_core s) = true -> ShutdownAndNotify ∈ t
  | Dropping f => ShutdownAndNotify ∈ t /\
      (a = true -> forall k, k < asks (l0 ++ t) -> k ∈ notified (l0 ++ t) \/ f = Some k)
  | Gone => ShutdownAndNotify ∈ t /\ (a = true -> shutdowns_ended (l0 ++ t) = true)
  end.

Definition life_inv (bs : list Binder) (l0 : list ServerCall) (L : Life) : Prop :=
  exists t, destroys t = [] /\ frees t = [] /\
    bw_log (l_world L) =
      l0 ++ t ++ (if gone L then ServerDestroy :: (FetcherFreed <$> omap b_fetcher bs) else []) /\
    owner_inv l0 t (l_awaited L) (l_server L).

Lemma live_log bs l0 w (o : Owner) n a :
  (o = Gone -> n <> 0) -> life_inv bs l0 (mkLife w o n a) ->
  exists t, destroys t = [] /\ frees t = [] /\ bw_log w = l0 ++ t /\ owner_inv l0 t a o.
Proof.
  intros Ho (t & Hd & Hf & Hl & Hs). exists t. split_and!; [done..| |done]. cbn in Hl. destruct o; cbn in Hl.
  1,2: by rewrite app_nil_r in Hl.
  rewrite bool_decide_false in Hl by auto. by rewrite app_nil_r in Hl.
Qed.

Lemma shutdowns_endedP l : shutdowns_ended l = true <-> forall k, k < asks l -> k ∈ notified l.
Proof.
  unfold shutdowns_ended. rewrite forallb_forall. setoid_rewrite in_seq. split; intros H k Hk.
  - specialize (H k ltac:(lia)). by apply bool_decide_eq_true_1 in H.
  - apply bool_decide_eq_true_2, H. lia.
Qed.

Lemma asks_app l l' : asks (l ++ l') = asks l + asks l'.
Proof. unfold asks. by rewrite omap_app, length_app. Qed.

Lemma notified_app l l' : notified (l ++ l') = notified l ++ notified l'.
Proof. unfold notified. by rewrite omap_app. Qed.

(** More notifications do no harm. *)
Lemma owner_inv_notified l0 t a o k : owner_inv l0 t a o -> owner_inv l0 (t ++ [ShutdownNotified k]) a o.
Proof.
  destruct o as [s|f|]; cbn; [set_solver| |].
  - intros [Hs H]. split; [set_solver|]. intros Ha j. rewrite app_assoc, asks_app, notified_app. cbn. rewrite Nat.add_0_r.
    intros Hj. destruct (H Ha j Hj); set_solver.
  - intros [Hs H]. split; [set_solver|]. intros Ha. apply shutdowns_endedP. specialize (H Ha). rewrite shutdowns_endedP in H.
    intros j. rewrite app_assoc, asks_app, notified_app. cbn. rewrite Nat.add_0_r. intros Hj%H. set_solver.
Qed.

(** The log of a live server grows. *)
Lemma life_inv_grows bs l0 w o n a o' n' a' l :
  (o = Gone -> n <> 0) -> (o' = Gone -> n' <> 0) -> life_inv bs l0 (mkLife w o n a) ->
  destroys l = [] -> frees l = [] ->
  (forall t, bw_log w = l0 ++ t -> owner_inv l0 t a o -> owner_inv l0 (t ++ l) a' o') ->
  forall cqs, life_inv bs l0 (mkLife (mkBWorld cqs (bw_log w ++ l)) o' n' a').
Proof.
  intros Ho Ho' Hinv Hd Hf Hs cqs. apply live_log in Hinv as (t & Hd' & Hf' & Hl & Hs'); [|done].
  exists (t ++ l). unfold destroys, frees in *. rewrite !omap_app, Hd', Hf', Hd, Hf.
  split_and!; [done..| |by apply Hs]. cbn. rewrite Hl. destruct o'; cbn; rewrite ?app_nil_r, <-?app_assoc; try done.
  rewrite bool_decide_false by auto. by rewrite app_nil_r.
Qed.

Lemma Server_shutdown_inv (s s' : Server (SC:=SC)) k w w' :
  Server_shutdown s w = Done ((s', k), w') ->
  s' = set_core_shutdown s /\ k = asks (bw_log w) /\ exists cqs, w' = mkBWorld cqs (bw_log w ++ [ShutdownAndNotify]).
Proof.
  unfold Server_shutdown, bind, borrow_queue. destruct (bw_cqs w !! 0) as [cq|]; [|done].
  destruct (add_ref cq) as [[[]|e] cq']; cbn; [|done]. intros [= <- <- <-]. eauto.
Qed.

(** The drop begins: it asks for a shutdown that it waits for, unless there was one. *)
Lemma Server_drop_inv (s s' : Server (SC:=SC)) f w w' : Server_drop s w = Done ((s', f), w') ->
  exists l cqs, w' = mkBWorld cqs (bw_log w ++ l) /\ destroys l = [] /\ frees l = [] /\ notified l = [] /\
    if core_shutdown (s_core s) then f = None /\ asks l = 0
    else f = Some (asks (bw_log w)) /\ asks l = 1 /\ ShutdownAndNotify ∈ l.
Proof.
  unfold Server_drop, bind. destruct (core_shutdown (s_core s)).
  - intros [= <- <- <-]. exists [CancelAllCalls], (bw_cqs w). by split_and!.
  - destruct (Server_shutdown s w) as [[[s1 k] w1]|] eqn:E; [|done].
    apply Server_shutdown_inv in E as (-> & -> & cqs & ->). intros [= <- <- <-]. cbn.
    exists [ShutdownAndNotify; CancelAllCalls], cqs. rewrite <-app_assoc. split_and!; try done. by left.
Qed.

(** The last reference of a server that was shut down is dropped, or another one. *)
Lemma life_inv_drop bs l0 cqs t n a w' :
  unsecured bs -> destroys t = [] -> frees t = [] -> owner_inv l0 t a Gone ->
  drop_core bs (bool_decide (n = 0)) (mkBWorld cqs (l0 ++ t)) = Done w' ->
  life_inv bs l0 (mkLife w' Gone n a).
Proof.
  intros Hbs Hd Hf Hs. unfold drop_core, life_inv, gone. cbn [l_server l_contexts l_world l_awaited].
  case_bool_decide as Hn.
  - unfold ServerCore_drop, bind. cbn -[drop_binders]. rewrite drop_binders_fetchers by done.
    intros [= <-]. exists t. split; [done|]. split; [done|]. split; [|done]. cbn. by rewrite <-!app_assoc.
  - intros [= <-]. exists t. split; [done|]. split; [done|]. split; [|done]. cbn. by rewrite app_nil_r.
Qed.

Lemma drop_begins_inv l0 t a s f l w : owner_inv l0 t a (Owned s) -> bw_log w = l0 ++ t -> notified l = [] ->
  (if core_shutdown (s_core s) then f = None /\ asks l = 0
   else f = Some (asks (bw_log w)) /\ asks l = 1 /\ ShutdownAndNotify ∈ l) ->
  owner_inv l0 (t ++ l) (shutdowns_ended (bw_log w)) (Dropping (SC:=SC) f).
Proof.
  cbn. intros Hs Hl Hn Hf. rewrite Hl in *.
  assert (forall k, shutdowns_ended (l0 ++ t) = true -> k < asks (l0 ++ t) -> k ∈ notified (l0 ++ t ++ l)) as Hold.
  { intros k Hc Hk. rewrite shutdowns_endedP in Hc. rewrite app_assoc, notified_app. set_solver. }
  destruct (core_shutdown (s_core s)).
  - destruct Hf as [-> Ha]. split; [set_solver|]. intros Hc k Hk. left. apply Hold; [done|].
    rewrite app_assoc, asks_app in Hk. lia.
  - destruct Hf as (-> & Ha & Hin). split; [set_solver|]. intros Hc k Hk. rewrite app_assoc, asks_app in Hk.
    destruct (decide (k = asks (l0 ++ t))) as [->|]; [by right|left]. apply Hold; [done|lia].
Qed.

Lemma drop_ends_inv l0 t a f : drop_waited f (l0 ++ t) = true -> owner_inv l0 t a (Dropping f) -> owner_inv l0 t a Gone.
Proof.
  cbn. intros Hb [Hs H]. split; [done|]. intros Ha. apply shutdowns_endedP. intros k Hk. destruct (H Ha k Hk) as [?| ->]; [done|].
  cbn in Hb. by apply bool_decide_eq_true_1 in Hb.
Qed.

Lemma life_step_inv bs l0 L L' :
  unsecured bs -> life_step bs L L' -> life_inv bs l0 L -> life_inv bs l0 L'.
Proof.
  intros Hbs Hstep Hinv.
  destruct Hstep as [w s n a w' E|w s n a fd w' E|w s n a s' k w' E|w s n a w' E|w o n a cqs|w o n a k Hk Hnd|w o n a|w o n a w' E|
                     w s n a s' f w' E|w f n a w' Hb E].
  - injection E as <-. eapply life_inv_grows; [..|exact Hinv|done|done|]; [done..|]. cbn. set_solver.
  - injection E as <-. eapply life_inv_grows; [..|exact Hinv|done|done|]; [done..|]. cbn. set_solver.
  - apply Server_shutdown_inv in E as (-> & -> & cqs & ->). eapply life_inv_grows; [..|exact Hinv|done|done|]; [done..|].
    cbn. set_solver.
  - injection E as <-. eapply life_inv_grows; [..|exact Hinv|done|done|]; [done..|]. cbn. set_solver.
  - exact Hinv.
  - assert (o = Gone -> n <> 0) as Ho.
    { intros -> ->. destruct Hinv as (t & _ & _ & Hl & _). cbn in Hl. apply Hnd. rewrite Hl. set_solver. }
    eapply life_inv_grows; [exact Ho|exact Ho|exact Hinv|done|done|]. intros t _. apply owner_inv_notified.
  - apply live_log in Hinv as (t & ? & ? & Hl & ?); [|done]. exists t. cbn. destruct o; cbn; rewrite app_nil_r; done.
  - apply live_log in Hinv as (t & Hd & Hf & Hl & Hs); [|done]. destruct o as [s|f|].
    + injection E as <-. exists t. cbn. rewrite app_nil_r. done.
    + injection E as <-. exists t. cbn. rewrite app_nil_r. done.
    + destruct w as [cqs l]. cbn in Hl. subst l. by eapply life_inv_drop.
  - apply Server_drop_inv in E as (l & cqs & -> & Hd & Hf & Hn & Hcase).
    eapply life_inv_grows; [..|exact Hinv|done|done|]; [done..|]. intros t Hl Ho. by eapply (drop_begins_inv l0 t a s).
  - apply live_log in Hinv as (t & Hd & Hf & Hl & Hs); [|done]. destruct w as [cqs l]. cbn in Hl, Hb. subst l.
    eapply life_inv_drop; [done..| |exact E]. by eapply drop_ends_inv.
Qed.

(** C23: the end of a server, whatever it and the contexts of its requests do before, and
    whenever the core ends shutdowns.  While the [Server], its [drop] included, or the context
    of a request is there, the native server is not destroyed and its fetchers are not freed;
    when the last of them is gone it was destroyed, once, after its shutdown was asked for and
    before the fetchers it may call were freed, and nothing else was asked of it afterwards;
    and unless the [Server] was dropped while a shutdown that the program had asked for was
    still under way, every shutdown had ended before the native server was destroyed. *)
Theorem server_lifecycle (b : ServerBuilder) w s w0 L :
  ServerBuilder_build answer b w = Done (Ok s, w0) ->
  rtc (life_step (core_binders (s_core s))) (mkLife w0 (Owned s) 0 false) L ->
  exists t, destroys t = [] /\ frees t = [] /\
    if gone L then
      ShutdownAndNotify ∈ t /\ (l_awaited L = true -> shutdowns_ended (bw_log w0 ++ t) = true) /\
      bw_log (l_world L) = bw_log w0 ++ t ++ ServerDestroy ::
                             (FetcherFreed <$> omap b_fetcher (sb_binders b))
    else bw_log (l_world L) = bw_log w0 ++ t.
Proof.
  intros Hb Hsteps. pose proof (build_emits answer b w) as H. unfold emits, wp in H. rewrite Hb in H.
  destruct H as (_ & _ & t' & _ & HF & _ & Hsh & _).
  assert (unsecured (core_binders (s_core s)) /\
          omap b_fetcher (core_binders (s_core s)) = omap b_fetcher (sb_binders b)) as [Hbs Hfs].
  { clear -HF. induction HF as [|x y l l' (_ & Hc & Hf & _) _ [IH1 IH2]]; [by split; [constructor|]|].
    split; [by constructor|]. cbn. by rewrite Hf, IH2. }
  assert (life_inv (core_binders (s_core s)) (bw_log w0) L) as (t & Hd & Hf & Hl & Hs).
  { assert (life_inv (core_binders (s_core s)) (bw_log w0) (mkLife w0 (Owned s) 0 false)) as H0.
    { exists []. cbn. rewrite app_nil_r, Hsh. by split_and!. }
    induction Hsteps as [|L1 L2 L3 H12 _ IH]; [done|]. eauto using life_step_inv. }
  exists t. rewrite Hfs in Hl. split_and!; [done..|]. destruct (gone L) eqn:Hg.
  - unfold gone in Hg. destruct (l_server L); [done..|]. destruct Hs. by split_and!.
  - by rewrite app_nil_r in Hl.
Qed.
End life_lemmas.

(** When a queue of the environment is already shut down, [build] returns the error but does
    not destroy the native server it created. *)
Theorem server_build_leaks :
  ServerBuilder_build (SC:=list_core) (fun _ _ => 50051%Z)
    (ServerBuilder_bind ServerBuilder_new "h" 50051) (mkBWorld [mkHandle 0 1] []) =
  Done (Err QueueShutdown,
        mkBWorld [mkHandle 0 1] [ServerCreate None; AddInsecurePort "h:50051"]).
Proof. reflexivity. Qed.

(** A host with a NUL loses the port: the core reads the address up to the first NUL. *)
Theorem nul_host_loses_port :
  c_str (join_host_port ("h" +:+ NUL +:+ "x") 50051) = "h".
Proof. reflexivity. Qed.

(** A server on a secure address with a fetcher, started and dropped, and its last request
    context after it. *)
Definition life_world : BWorld := mkBWorld [mkHandle 1 0] [].

Definition life_builder : ServerBuilder (SC:=list_core) :=
  requests_slot_per_cq (push_binder ServerBuilder_new (Binder_with_cred "::1" 443 5 (Some 9))) 1.

Lemma server_lifecycle_witness :
  exists s w0 L, rtc (life_step (core_binders (s_core s))) (mkLife w0 (Owned s) 0 false) L /\ gone L = true /\
    l_awaited L = true /\
    exists t, ShutdownAndNotify ∈ t /\ shutdowns_ended (bw_log w0 ++ t) = true /\
      bw_log (l_world L) = bw_log w0 ++ t ++ [ServerDestroy; FetcherFreed 9].
Proof.
  pose (r := ServerBuilder_build (fun _ _ => 443%Z) life_builder life_world).
  assert (exists s w0, r = Done (Ok s, w0)) as (s & w0 & E) by (vm_compute; eauto).
  pose (w1 := mkBWorld [mkHandle 1 0] (bw_log w0 ++ [ServerStart])).
  pose (w2 := mkBWorld [mkHandle 1 0] (bw_log w1 ++ [ShutdownAndNotify; CancelAllCalls])).
  pose (w3 := mkBWorld [mkHandle 1 0] (bw_log w2 ++ [ShutdownNotified 0])).
  pose (w4 := mkBWorld [mkHandle 1 0] (bw_log w3 ++ [ServerDestroy; FetcherFreed 9])).
  assert (rtc (life_step (core_binders (s_core s))) (mkLife w0 (Owned s) 0 false) (mkLife w4 Gone 0 true)) as Hr.
  { vm_compute in E. injection E as <- <-.
    eapply rtc_l; [by eapply (life_start _ _ _ 0 false w1)|].
    eapply rtc_l; [by eapply (life_drop_begins _ _ _ 1 _ _ (Some 0) w2)|].
    eapply rtc_l; [by apply (life_completed _ w2 _ 1 _ 0); [vm_compute; lia|apply (bool_decide_unpack (_ ∉ _)); vm_compute]|].
    eapply rtc_l; [by eapply (life_drop_ends _ w3 (Some 0) 1 _ w3)|].
    eapply rtc_l; [by eapply (life_drop_context _ w3 _ 0 _ w4)|]. apply rtc_refl. }
  exists s, w0, (mkLife w4 Gone 0 true). split; [exact Hr|]. split; [reflexivity|]. split; [reflexivity|].
  destruct (server_lifecycle (fun _ _ => 443%Z) life_builder life_world s w0 (mkLife w4 Gone 0 true) E Hr)
    as (t & _ & _ & Ht & Hc & Hl). exists t. split; [exact Ht|]. split; [exact (Hc eq_refl)|exact Hl].
Defined.

(** The condition is needed: [drop] does not wait for a shutdown that the program asked for, so
    that a server that is dropped right after [shutdown] is destroyed while it is shut down. *)
Theorem unawaited_shutdown_destroys_early :
  let s := mkServer (SC:=list_core) (mkServerCore [] 0 false) ∅ [] in
  exists L, rtc (life_step []) (mkLife life_world (Owned s) 0 false) L /\
    bw_log (l_world L) = [ShutdownAndNotify; CancelAllCalls; ServerDestroy] /\ shutdowns_ended (bw_log (l_world L)) = false.
Proof.
  cbv zeta.
  pose (w1 := mkBWorld [mkHandle 1 0] [ShutdownAndNotify]).
  pose (w2 := mkBWorld [mkHandle 1 0] [ShutdownAndNotify; CancelAllCalls]).
  pose (w3 := mkBWorld [mkHandle 1 0] [ShutdownAndNotify; CancelAllCalls; ServerDestroy]).
  exists (mkLife w3 Gone 0 false). split; [|done].
  eapply rtc_l; [by eapply (life_shutdown _ _ _ 0 false _ 0 w1)|].
  eapply rtc_l; [by eapply (life_drop_begins _ w1 _ 0 _ _ None w2)|].
  eapply rtc_l; [by eapply (life_drop_ends _ w2 None 0 _ w3)|]. apply rtc_refl.
Qed.
