(* ===== verification/Support.v ===== *)
(** Small services around the core: redirection of its log (src/src/log_util.rs), resource
    quotas (src/src/quota.rs) and authentication contexts (src/src/auth_context.rs). *)

From S2P Require Import Prelude Status Utf8.

Local Open Scope rust_scope.

(** ** Logging *)

Module Log.

Inductive gpr_log_severity := GPR_LOG_SEVERITY_DEBUG | GPR_LOG_SEVERITY_INFO | GPR_LOG_SEVERITY_ERROR.

(** [log::Level] and [log::LevelFilter]. *)
Inductive Level := LError | LWarn | LInfo | LDebug | LTrace.
Inductive LevelFilter := FOff | FError | FWarn | FInfo | FDebug | FTrace.

Definition severity_to_log_level (severity : gpr_log_severity) : Level :=
  match severity with
  | GPR_LOG_SEVERITY_DEBUG => LDebug
  | GPR_LOG_SEVERITY_INFO => LInfo
  | GPR_LOG_SEVERITY_ERROR => LError
  end.

(** [gpr_log_func_args], the strings as the C strings the pointers point at. *)
Record gpr_log_func_args := mkLogArgs {
  la_file : list byte;
  la_line : Z;
  la_severity : gpr_log_severity;
  la_message : list byte;
}.

(** [log::Record], without the module path, which is a constant. *)
Record LogRecord := mkRecord { lr_level : Level; lr_file : string; lr_line : Z; lr_args : string }.

(** [delegate]: the record given to the logger, if any. *)
Definition delegate (log_enabled : Level -> bool) (args : gpr_log_func_args) : outcome (option LogRecord) :=
  let level := severity_to_log_level (la_severity args) in
  if negb (log_enabled level) then Done None
  else if utf8_valid (la_file args) then
    Done (Some {| lr_level := level;
                  lr_file := String.string_of_list_byte (la_file args);
                  lr_line := (la_line args `mod` U32)%Z;
                  lr_args := from_utf8_lossy (la_message args) |})
  else Panicked "called `Result::unwrap()` on an `Err` value".

(** What [redirect_log] asks of the core: the log function ([true] for [delegate]) and the
    verbosity. *)
Record LogSetup := mkLogSetup { set_log_function : bool; set_log_verbosity : option gpr_log_severity }.

Definition redirect_log (max_level : LevelFilter) : LogSetup :=
  let level :=
    match max_level with
    | FOff => None
    | FError | FWarn => Some GPR_LOG_SEVERITY_ERROR
    | FInfo => Some GPR_LOG_SEVERITY_INFO
    | FDebug | FTrace => Some GPR_LOG_SEVERITY_DEBUG
    end in
  match level with
  | None => mkLogSetup false None
  | Some level => mkLogSetup true (Some level)
  end.

(** The order of levels: a filter lets a level through that is at most as verbose. *)
Definition level_num (l : Level) : nat :=
  match l with LError => 1 | LWarn => 2 | LInfo => 3 | LDebug => 4 | LTrace => 5 end.

Definition filter_num (f : LevelFilter) : nat :=
  match f with FOff => 0 | FError => 1 | FWarn => 2 | FInfo => 3 | FDebug => 4 | FTrace => 5 end.

Definition passes (f : LevelFilter) (l : Level) : bool := bool_decide (level_num l <= filter_num f).

(** The core calls the log function for the severities its verbosity does not exclude. *)
Definition severity_num (s : gpr_log_severity) : nat :=
  match s with GPR_LOG_SEVERITY_DEBUG => 0 | GPR_LOG_SEVERITY_INFO => 1 | GPR_LOG_SEVERITY_ERROR => 2 end.

Definition core_logs (setup : LogSetup) (s : gpr_log_severity) : bool :=
  set_log_function setup &&
  match set_log_verbosity setup with
  | Some v => bool_decide (severity_num v <= severity_num s)
  | None => true
  end.

(** The verbosity given to the core filters exactly what the logger's filter would: the
    records the core gives up would not have been logged, and the ones it makes would. *)
Theorem redirect_keeps_filter (f : LevelFilter) (s : gpr_log_severity) :
  core_logs (redirect_log f) s = passes f (severity_to_log_level s).
Proof. by destruct f, s. Qed.

(** A message the core logs arrives at the logger with its level, line and text, whatever
    bytes the message has, when the name of the file is UTF-8. *)
Theorem delegate_logs (f : LevelFilter) (args : gpr_log_func_args) :
  utf8_valid (la_file args) = true -> (0 <= la_line args < U32)%Z ->
  delegate (passes f) args = Done
    (if core_logs (redirect_log f) (la_severity args) then
       Some (mkRecord (severity_to_log_level (la_severity args))
               (String.string_of_list_byte (la_file args)) (la_line args)
               (from_utf8_lossy (la_message args)))
     else None).
Proof.
  intros Hf Hl. rewrite redirect_keeps_filter. unfold delegate. rewrite Hf, Z.mod_small by done.
  by destruct (passes f _).
Qed.
End Log.

(** ** Resource quotas *)

Module Quota.

Inductive QuotaCall :=
| QuotaCreate (name : option string)
| QuotaResize (quota : nat) (new_size : Z)
| QuotaUnref (quota : nat).

Section quota.
(** The pointer [grpc_resource_quota_create] returns. *)
Context (create_ptr : list QuotaCall -> nat).
Let W := list QuotaCall.

Definition log_quota (c : QuotaCall) : M W unit := modify (fun h => h ++ [c]).

(** [CString::new(name).unwrap()] refuses a NUL. *)
Definition ResourceQuota_new (name : option string) : M W nat :=
  match name with
  | Some name_str =>
      if bool_decide (x00 ∈ as_bytes name_str)
      then panic "called `Result::unwrap()` on an `Err` value: NulError"
      else
        let* raw := gets create_ptr in
        do* log_quota (QuotaCreate (Some name_str)) in ret raw
  | None =>
      let* raw := gets create_ptr in
      do* log_quota (QuotaCreate None) in ret raw
  end.

Definition resize_memory (self : nat) (new_size : Z) : M W nat :=
  do* log_quota (QuotaResize self new_size) in ret self.

Definition get_ptr (self : nat) : nat := self.

Definition ResourceQuota_drop (self : nat) : M W unit := log_quota (QuotaUnref self).

(** A quota that is created, resized any number of times and dropped. *)
Fixpoint resize_all (self : nat) (sizes : list Z) : M W nat :=
  match sizes with
  | [] => ret self
  | n :: sizes => let* self := resize_memory self n in resize_all self sizes
  end.

(** Its reference is given back once, after the sizes were set in order; a name with a
    NUL is refused before the core is asked. *)
Theorem quota_lifecycle (name : option string) (sizes : list Z) (h : list QuotaCall) :
  (let* q := ResourceQuota_new name in
   let* q := resize_all q sizes in
   ResourceQuota_drop q) h =
  if bool_decide (x00 ∈ default [] (as_bytes <$> name))
  then Panicked "called `Result::unwrap()` on an `Err` value: NulError"
  else Done (tt, h ++ QuotaCreate name :: (QuotaResize (create_ptr h) <$> sizes) ++
                  [QuotaUnref (create_ptr h)]).
Proof.
  assert (forall q sizes h, resize_all q sizes h = Done (q, h ++ (QuotaResize q <$> sizes))) as Hr.
  { clear. intros q sizes. induction sizes as [|n sizes IH]; intros h; simpl; [by rewrite app_nil_r|].
    unfold bind at 1. simpl. rewrite IH. by rewrite <-app_assoc. }
  unfold bind at 1. destruct name as [s|]; simpl.
  - case_bool_decide; [done|]. unfold bind, gets, ret. simpl. rewrite Hr. unfold ResourceQuota_drop.
    unfold log_quota, modify. by rewrite <-!app_assoc.
  - unfold bind, gets, ret. simpl. rewrite Hr. unfold ResourceQuota_drop, log_quota, modify.
    by rewrite <-!app_assoc.
Qed.
End quota.
End Quota.

(** ** Authentication contexts *)

Module Auth.

(** [grpc_auth_property]: a name and a value. *)
Record AuthProperty := mkAuthProperty { ap_name : list byte; ap_value : list byte }.

(** The functions of the core on a context and on its iterators; null is [None]. *)
Class AuthCore := {
  grpc_auth_context : Type;
  auth_iterator : Type;
  grpc_call_auth_context : nat -> option grpc_auth_context;
  peer_identity_property_name_ptr : grpc_auth_context -> option (list byte);
  peer_is_authenticated_int : grpc_auth_context -> Z;
  property_iterator : grpc_auth_context -> auth_iterator;
  peer_identity_iterator : grpc_auth_context -> auth_iterator;
  iterator_next : auth_iterator -> option (AuthProperty * auth_iterator);

  (** what an iterator has still to return *)
  iterator_rest : auth_iterator -> list AuthProperty;
}.

Class AuthCoreLaws (C : AuthCore) : Prop :=
  iterator_next_rest it :
    match iterator_next it with
    | Some (p, it') => iterator_rest it = p :: iterator_rest it'
    | None => iterator_rest it = []
    end.

Section auth.
Context `{C : AuthCore}.

Definition from_call_ptr (call : nat) : option grpc_auth_context := grpc_call_auth_context call.

(** [CStr::to_str().expect(..)]. *)
Definition expect_str (s : list byte) (m : string) : outcome string :=
  if utf8_valid s then Done (String.string_of_list_byte s) else Panicked m.

Definition peer_identity_property_name (self : grpc_auth_context) : outcome (option string) :=
  match peer_identity_property_name_ptr self with
  | None => Done None
  | Some p => let+ s := expect_str p "valid UTF-8 data" in Done (Some s)
  end.

Definition peer_is_authenticated (self : grpc_auth_context) : bool :=
  negb (bool_decide (peer_is_authenticated_int self = 0%Z)).

Definition peer_identity (self : grpc_auth_context) : auth_iterator := peer_identity_iterator self.

Definition into_iter (self : grpc_auth_context) : auth_iterator := property_iterator self.

Definition AuthPropertyIter_next (iter : auth_iterator) : option (AuthProperty * auth_iterator) :=
  iterator_next iter.

Definition name (self : AuthProperty) : outcome string :=
  expect_str (ap_name self) "Auth property name should be valid UTF-8 data".

Definition value (self : AuthProperty) : list byte := ap_value self.

(** [None] for an [Utf8Error]. *)
Definition value_str (self : AuthProperty) : option string :=
  if utf8_valid (value self) then Some (String.string_of_list_byte (value self)) else None.

(** [Drop for AuthContext], with the contexts that were given back to the core. *)
Definition AuthContext_drop (self : grpc_auth_context) : M (list grpc_auth_context) unit :=
  modify (fun released => released ++ [self]).

(** A [for] loop over an iterator, as far as the fuel goes. *)
Fixpoint collect (fuel : nat) (iter : auth_iterator) : list AuthProperty :=
  match fuel with
  | 0 => []
  | S fuel =>
      match AuthPropertyIter_next iter with
      | None => []
      | Some (p, iter) => p :: collect fuel iter
      end
  end.

Context `{L : !AuthCoreLaws C}.

(** Iterating over a context, or over the identity of its peer, gives each property once
    and in order, and ends. *)
Theorem auth_iteration (iter : auth_iterator) (fuel : nat) :
  length (iterator_rest iter) < fuel -> collect fuel iter = iterator_rest iter.
Proof.
  revert iter. induction fuel as [|fuel IH]; intros iter Hf; [lia|]. simpl.
  pose proof (iterator_next_rest iter) as H. unfold AuthPropertyIter_next.
  destruct (iterator_next iter) as [[p it']|]; [|done]. rewrite H in *. simpl in Hf.
  rewrite IH by lia. done.
Qed.
End auth.

(** A core whose iterators are lists. *)
#[export] Instance list_auth : AuthCore := {|
  grpc_auth_context := list AuthProperty;
  auth_iterator := list AuthProperty;
  grpc_call_auth_context := fun call => if bool_decide (call = 0) then None else Some [];
  peer_identity_property_name_ptr := fun ps => ap_name <$> head ps;
  peer_is_authenticated_int := fun ps => Z.of_nat (length ps);
  property_iterator := id;
  peer_identity_iterator := take 1;
  iterator_next := fun l => match l with [] => None | p :: l => Some (p, l) end;
  iterator_rest := id;
|}.

#[export] Instance list_auth_laws : AuthCoreLaws list_auth.
Proof. by intros [|p l]. Qed.
End Auth.
