(* ===== verification/Env.v ===== *)
(** Environments (env.rs): the loop of a poll thread, the builder that starts the threads,
    the choice of a queue and the shutdown of all queues. *)

From stdpp Require Import pretty.
From S2P Require Import Prelude Status Cq.

Local Open Scope rust_scope.

(** ** The loop of a poll thread *)

Inductive EventType := GRPC_QUEUE_SHUTDOWN | GRPC_QUEUE_TIMEOUT | GRPC_OP_COMPLETE.

(** [grpc_event]. *)
Record grpc_event (Tag : Type) := mkEvent { type_ : EventType; e_tag : Tag; e_success : Z }.
Arguments mkEvent {Tag}.
Arguments type_ {Tag}.
Arguments e_tag {Tag}.
Arguments e_success {Tag}.

(** How a run of the loop ended: it left the loop, it waits for the next event, or the
    bound on the number of work items was too small. *)
Inductive LoopEnd := Stopped | Waiting | OutOfFuel.

(** What the thread works on: the state its tags and work items change, and the queue of
    work items they push to. *)
Record PollState (St Work : Type) := mkPollState { user : St; worker : WorkQueue Work }.
Arguments mkPollState {St Work}.
Arguments user {St Work}.
Arguments worker {St Work}.

Section poll_loop.
Context {St Tag Work : Type}.
(** [CallTag::resolve] and [UnfinishedWork::finish]. *)
Context (resolve_tag : Tag -> bool -> M (PollState St Work) unit).
Context (finish : Work -> M (PollState St Work) unit).

Definition pop : M (PollState St Work) (option Work) := fun s =>
  let '(w, q) := pop_work (worker s) in Done (w, mkPollState (user s) q).

(** [while let Some(work) = cq.worker.pop_work() { work.finish() }]. *)
Fixpoint finish_all (fuel : nat) : M (PollState St Work) bool :=
  match fuel with
  | 0 => ret false
  | S fuel =>
      let* w := pop in
      match w with
      | None => ret true
      | Some work => do* finish work in finish_all fuel
      end
  end.

(** [poll_queue], given the events [cq.next()] returns. *)
Fixpoint poll_queue (fuel : nat) (events : list (grpc_event Tag)) :
    M (PollState St Work) LoopEnd :=
  match events with
  | [] => ret Waiting
  | e :: events =>
      match type_ e with
      | GRPC_QUEUE_SHUTDOWN => ret Stopped
      | GRPC_QUEUE_TIMEOUT => poll_queue fuel events
      | GRPC_OP_COMPLETE =>
          do* resolve_tag (e_tag e) (negb (bool_decide (e_success e = 0)%Z)) in
          let* done_ := finish_all fuel in
          if done_ then poll_queue fuel events else ret OutOfFuel
      end
  end.

(** The body of a poll thread. *)
Definition poll_thread (after_start before_stop : option (M (PollState St Work) unit))
    (fuel : nat) (events : list (grpc_event Tag)) : M (PollState St Work) LoopEnd :=
  do* match after_start with Some f => f | None => ret tt end in
  let* r := poll_queue fuel events in
  match r with
  | Stopped =>
      do* match before_stop with Some f => f | None => ret tt end in ret Stopped
  | _ => ret r
  end.

(** ** The contract of the loop *)

(** The items are finished one at a time, the last pushed first, until none is left. *)
Inductive worked : PollState St Work -> PollState St Work -> Prop :=
| worked_done s s' : pop s = Done (None, s') -> worked s s'
| worked_next s s1 work s2 s' :
    pop s = Done (Some work, s1) -> finish work s1 = Done (tt, s2) -> worked s2 s' ->
    worked s s'.

(** Each tag is resolved, and all work it caused is finished before the next one. *)
Inductive served : list (Tag * bool) -> PollState St Work -> PollState St Work -> Prop :=
| served_nil s : served [] s s
| served_cons tag ok tags s s1 s2 s' :
    resolve_tag tag ok s = Done (tt, s1) -> worked s1 s2 -> served tags s2 s' ->
    served ((tag, ok) :: tags) s s'.

(** The completions among the events before the shutdown. *)
Fixpoint completions (events : list (grpc_event Tag)) : list (Tag * bool) :=
  match events with
  | [] => []
  | e :: events =>
      match type_ e with
      | GRPC_QUEUE_SHUTDOWN => []
      | GRPC_QUEUE_TIMEOUT => completions events
      | GRPC_OP_COMPLETE => (e_tag e, negb (bool_decide (e_success e = 0)%Z)) :: completions events
      end
  end.

Definition shut (events : list (grpc_event Tag)) : bool :=
  existsb (fun e => match type_ e with GRPC_QUEUE_SHUTDOWN => true | _ => false end) events.

Lemma finish_all_mono n m s s' :
  finish_all n s = Done (true, s') -> n <= m -> finish_all m s = Done (true, s').
Proof.
  revert m s. induction n as [|n IH]; intros m s; simpl; [done|].
  destruct m as [|m]; [lia|]. simpl. unfold bind.
  destruct (pop s) as [[[work|] s1]|]; [|done..].
  destruct (finish work s1) as [[[] s2]|]; [|done]. intros H Hle. apply IH; [done|lia].
Qed.

Lemma worked_finish_all s s' : worked s s' -> exists n, finish_all n s = Done (true, s').
Proof.
  induction 1 as [s s' Hp|s s1 work s2 s' Hp Hf _ [n IH]].
  - exists 1. simpl. unfold bind. by rewrite Hp.
  - exists (S n). simpl. unfold bind. by rewrite Hp, Hf.
Qed.

(** A served list of tags is what the loop does with enough fuel. *)
Lemma served_poll_queue events s s' :
  served (completions events) s s' ->
  exists n, forall m, n <= m ->
    poll_queue m events s = Done (if shut events then Stopped else Waiting, s').
Proof.
  revert s. induction events as [|e events IH]; intros s; simpl.
  - inversion 1; subst. by exists 0.
  - destruct (type_ e); simpl.
    + inversion 1; subst. by exists 0.
    + apply IH.
    + inversion 1 as [|tag ok tags ? s1 s2 ? Hr Hw Hs]; subst.
      apply worked_finish_all in Hw as [n1 Hn1]. apply IH in Hs as [n2 Hn2].
      exists (n1 + n2). intros m Hm. unfold bind. rewrite Hr.
      rewrite (finish_all_mono n1 m s1 s2) by (done || lia). apply Hn2. lia.
Qed.

(** Work that terminates: a potential bounds the items that can still be pushed. *)
Section terminating.
Context (potential : St -> nat).
Let measure (s : PollState St Work) : nat :=
  potential (user s) + length (elems (pending_work (worker s))).
Hypothesis resolve_returns : forall tag ok s, exists s', resolve_tag tag ok s = Done (tt, s').
Hypothesis finish_decreases : forall work s,
  exists s', finish work s = Done (tt, s') /\ measure s' <= measure s.

Lemma pop_measure s w s1 : pop s = Done (w, s1) ->
  match w with
  | Some _ => measure s = S (measure s1)
  | None => elems (pending_work (worker s1)) = []
  end.
Proof.
  unfold pop, measure. destruct (pop_work_spec (worker s)) as [Hp _].
  destruct (pop_work (worker s)) as [w' q]. simpl in *. intros [= <- <-]. simpl.
  destruct (elems (pending_work (worker s))) as [|a l] eqn:E.
  - destruct Hp as [-> Hq]. done.
  - destruct Hp as (l' & x & El & -> & Hl). rewrite El, Hl, length_app. simpl. lia.
Qed.

Lemma worked_total s : exists s', worked s s' /\ elems (pending_work (worker s')) = [].
Proof.
  remember (measure s) as n eqn:Hn. revert s Hn.
  induction n as [n IH] using lt_wf_ind. intros s ->.
  destruct (pop s) as [[[work|] s1]|] eqn:Hp; [| |by unfold pop in Hp; destruct (pop_work _)].
  - pose proof (pop_measure _ _ _ Hp) as Hm. simpl in Hm.
    destruct (finish_decreases work s1) as (s2 & Hf & Hle).
    destruct (IH (measure s2) ltac:(lia) s2 eq_refl) as (s' & Hw & He).
    exists s'. split; [by econstructor|done].
  - exists s1. split; [by constructor|]. by apply (pop_measure _ _ _ Hp).
Qed.

Lemma served_total tags s : exists s', served tags s s' /\
  (tags = [] \/ elems (pending_work (worker s')) = []).
Proof.
  revert s. induction tags as [|[tag ok] tags IH]; intros s.
  - exists s. split; [constructor|by left].
  - destruct (resolve_returns tag ok s) as [s1 Hr]. destruct (worked_total s1) as (s2 & Hw & He).
    destruct (IH s2) as (s' & Hs & H). exists s'. split; [by econstructor|]. right.
    destruct H as [->|]; [|done]. by inversion Hs; subst.
Qed.
End terminating.
End poll_loop.

(** ** The environment *)

(** [EnvBuilder]; the functions run by the threads are in [poll_thread]. *)
Record EnvBuilder := mkEnvBuilder { eb_cq_count : nat; eb_name_prefix : option string }.

(** [EnvBuilder::new], given the number of cores. *)
Definition EnvBuilder_new (gpr_cpu_num_cores : nat) : EnvBuilder :=
  {| eb_cq_count := gpr_cpu_num_cores; eb_name_prefix := None |}.

Definition cq_count (self : EnvBuilder) (count : nat) : outcome EnvBuilder :=
  if bool_decide (0 < count)
  then Done {| eb_cq_count := count; eb_name_prefix := eb_name_prefix self |}
  else Panicked "assertion failed: count > 0".

Definition name_prefix (self : EnvBuilder) (prefix : string) : EnvBuilder :=
  {| eb_cq_count := eb_cq_count self; eb_name_prefix := Some prefix |}.

(** [Environment]: the queues by the number of the thread that polls them, the index of
    the next pick, and the names of the threads. *)
Record Environment := mkEnvironment {
  cqs : list nat;
  idx : Z;
  thread_names : list (option string);
}.

(** [EnvBuilder::build]: one thread and queue per index; [arrived] is the order in which
    the threads send their queue back. *)
Definition EnvBuilder_build (self : EnvBuilder) (arrived : list nat) :
    Environment * list CompletionQueueHandle :=
  ({| cqs := take (eb_cq_count self) arrived;
      idx := 0;
      thread_names := (fun i => (fun p => p +:+ "-" +:+ pretty i) <$> eb_name_prefix self)
                      <$> seq 0 (eb_cq_count self) |},
   replicate (eb_cq_count self) CompletionQueueHandle_new).

(** [Environment::new]. *)
Definition Environment_new (cores count : nat) (arrived : list nat) :
    outcome (Environment * list CompletionQueueHandle) :=
  if bool_decide (0 < count) then
    let+ b := cq_count (name_prefix (EnvBuilder_new cores) "grpc-poll") count in
    Done (EnvBuilder_build b arrived)
  else Panicked "assertion failed: cq_count > 0".

(** [Environment::pick_cq]: [fetch_add] wraps around. *)
Definition pick_cq : M Environment nat := fun self =>
  let i := idx self in
  let self' := {| cqs := cqs self; idx := ((i + 1) `mod` U64)%Z; thread_names := thread_names self |} in
  if bool_decide (length (cqs self) = 0)
  then Panicked "attempt to calculate the remainder with a divisor of zero"
  else match cqs self !! Z.to_nat (i `mod` Z.of_nat (length (cqs self))) with
       | Some q => Done (q, self')
       | None => Panicked "index out of bounds"
       end.

(** [Drop for Environment]: shut every queue down. *)
Definition Environment_drop (self : Environment) (heap : list CompletionQueueHandle) :
    list CompletionQueueHandle :=
  foldl (fun h q => alter shutdown q h) heap (cqs self).

(** [n] successive picks. *)
Fixpoint picks (n : nat) : M Environment (list nat) :=
  match n with
  | 0 => ret []
  | S n => let* q := pick_cq in let* l := picks n in ret (q :: l)
  end.

Lemma pick_cq_ok env : cqs env <> [] -> (0 <= idx env)%Z ->
  exists q, cqs env !! Z.to_nat (idx env `mod` Z.of_nat (length (cqs env))) = Some q /\
    pick_cq env = Done (q, mkEnvironment (cqs env) ((idx env + 1) `mod` U64) (thread_names env)).
Proof.
  intros Hne Hi. assert (0 < length (cqs env)) by (destruct (cqs env); simpl; [done|lia]).
  destruct (lookup_lt_is_Some_2 (cqs env) (Z.to_nat (idx env `mod` Z.of_nat (length (cqs env)))))
    as [q Hq].
  { pose proof (Z.mod_pos_bound (idx env) (Z.of_nat (length (cqs env))) ltac:(lia)). lia. }
  exists q. split; [done|]. unfold pick_cq. rewrite bool_decide_eq_false_2 by lia. by rewrite Hq.
Qed.

Lemma picks_app n m env : picks (n + m) env =
  bind (picks n) (fun l => bind (picks m) (fun l' => ret (l ++ l'))) env.
Proof.
  revert env. induction n as [|n IH]; intros env; simpl.
  - unfold bind, ret. by destruct (picks m env) as [[]|].
  - unfold bind at 1 3 4. destruct (pick_cq env) as [[q e1]|]; [|done].
    unfold bind at 1. rewrite IH. unfold bind. destruct (picks n e1) as [[l e2]|]; [|done].
    unfold ret. by destruct (picks m e2) as [[]|].
Qed.

(** A run of picks that does not pass the end of the list. *)
Lemma picks_run k env (j : nat) :
  (0 <= idx env)%Z -> (idx env + Z.of_nat k < U64)%Z ->
  (idx env `mod` Z.of_nat (length (cqs env)))%Z = Z.of_nat j -> j + k <= length (cqs env) ->
  0 < length (cqs env) ->
  picks k env = Done (take k (drop j (cqs env)),
    mkEnvironment (cqs env) (idx env + Z.of_nat k) (thread_names env)).
Proof.
  revert env j. induction k as [|k IH]; intros env j Hi Hu Hj Hk Hlen.
  - rewrite Z.add_0_r. by destruct env.
  - destruct (pick_cq_ok env) as (q & Hq & Hp); [intros E; rewrite E in Hlen; simpl in Hlen; lia|done|].
    rewrite Hj, Nat2Z.id in Hq. simpl. unfold bind. rewrite Hp.
    rewrite Z.mod_small by lia. destruct (decide (k = 0)) as [->|Hk0].
    + simpl. unfold ret. rewrite (drop_S _ _ _ Hq). done.
    + rewrite (IH (mkEnvironment (cqs env) (idx env + 1) (thread_names env)) (S j)); simpl in *; try lia.
      * unfold ret. rewrite (drop_S _ _ _ Hq). simpl. do 3 f_equal. lia.
      * rewrite <-Zplus_mod_idemp_l, Hj, Z.mod_small; lia.
Qed.

(** One round of picks returns every queue once. *)
Lemma picks_round env :
  cqs env <> [] -> (0 <= idx env)%Z -> (idx env + Z.of_nat (length (cqs env)) < U64)%Z ->
  exists l, picks (length (cqs env)) env =
      Done (l, mkEnvironment (cqs env) (idx env + Z.of_nat (length (cqs env))) (thread_names env)) /\
    l ≡ₚ cqs env.
Proof.
  intros Hne Hi Hu. assert (0 < length (cqs env)) as Hlen by (destruct (cqs env); simpl; [done|lia]).
  set (j := Z.to_nat (idx env `mod` Z.of_nat (length (cqs env)))).
  pose proof (Z.mod_pos_bound (idx env) (Z.of_nat (length (cqs env))) ltac:(lia)) as Hb.
  assert ((idx env `mod` Z.of_nat (length (cqs env)))%Z = Z.of_nat j) as Hj by lia.
  exists (drop j (cqs env) ++ take j (cqs env)). split.
  - replace (length (cqs env)) with ((length (cqs env) - j) + j) at 1 by lia.
    rewrite picks_app. unfold bind.
    rewrite (picks_run (length (cqs env) - j) env j) by lia.
    rewrite (picks_run j _ 0); simpl; try lia.
    + unfold ret. rewrite take_ge by (rewrite length_drop; lia). rewrite drop_0. do 3 f_equal. lia.
    + replace (idx env + Z.of_nat (length (cqs env) - j))%Z
        with ((idx env - Z.of_nat j) + 1 * Z.of_nat (length (cqs env)))%Z by lia.
      rewrite Z.mod_add by lia. rewrite <-Hj.
      rewrite (Z.div_mod (idx env) (Z.of_nat (length (cqs env)))) at 1 by lia.
      rewrite Z.add_simpl_r, Z.mul_comm, Z.mod_mul by lia. done.
  - rewrite Permutation_app_comm. by rewrite take_drop.
Qed.

Lemma shutdown_refuses h : fst (add_ref (shutdown h)) = Err QueueShutdown /\
  shutdown (shutdown h) = shutdown h.
Proof.
  destruct h as [c n]. unfold shutdown, add_ref, native_shutdown. simpl.
  repeat (case_bool_decide; simpl in *; try lia; try done).
Qed.

(** What dropping an environment does to the queue [q]. *)
Lemma drop_lookup (qs : list nat) (heap : list CompletionQueueHandle) q h :
  heap !! q = Some h ->
  exists h', foldl (fun h q => alter shutdown q h) heap qs !! q = Some h' /\
    (h' = h \/ h' = shutdown h) /\ (q ∈ qs -> h' = shutdown h).
Proof.
  revert heap h. induction qs as [|q' qs IH]; intros heap h Hh; simpl.
  - exists h. repeat split; [done|by left|]. by intros ?%elem_of_nil.
  - destruct (decide (q = q')) as [->|Hne].
    + destruct (IH (alter shutdown q' heap) (shutdown h)) as (h' & Hl & Hor & Hin).
      { by rewrite list_lookup_alter_eq, Hh. }
      rewrite (proj2 (shutdown_refuses h)) in Hor, Hin.
      exists h'. assert (h' = shutdown h) by (destruct Hor; done). auto.
    + destruct (IH (alter shutdown q' heap) h) as (h' & Hl & Hor & Hin).
      { by rewrite list_lookup_alter_ne by done. }
      exists h'. repeat split; [done|done|]. by intros [->|?]%elem_of_cons; [|apply Hin].
Qed.

Lemma drop_length (qs : list nat) (heap : list CompletionQueueHandle) :
  length (foldl (fun h q => alter shutdown q h) heap qs) = length heap.
Proof.
  revert heap. induction qs as [|q qs IH]; intros heap; simpl; [done|]. by rewrite IH, length_alter.
Qed.

(** ** Properties *)

(** The poll thread serves its queue: when resolving a tag returns and each work item
    pushes only as much new work as a potential allows, the loop resolves the tags of
    the completed operations in the order of the events, up to the shutdown event and
    skipping time-outs, with all work caused by one tag finished before the next
    (the last pushed item first); with enough fuel the run returns, stopped by the
    shutdown or waiting for the next event. *)
Theorem poll_queue_serves {St Tag Work : Type}
    (resolve_tag : Tag -> bool -> M (PollState St Work) unit)
    (finish : Work -> M (PollState St Work) unit) (potential : St -> nat)
    (events : list (grpc_event Tag)) (s : PollState St Work) :
  (forall tag ok s, exists s', resolve_tag tag ok s = Done (tt, s')) ->
  (forall work s, exists s', finish work s = Done (tt, s') /\
     potential (user s') + length (elems (pending_work (worker s'))) <=
     potential (user s) + length (elems (pending_work (worker s)))) ->
  exists s' n,
    (forall m, n <= m -> poll_queue resolve_tag finish m events s =
       Done (if shut events then Stopped else Waiting, s')) /\
    served resolve_tag finish (completions events) s s' /\
    (completions events = [] \/ elems (pending_work (worker s')) = []).
Proof.
  intros Hr Hf. destruct (served_total resolve_tag finish potential Hr Hf (completions events) s)
    as (s' & Hs & He).
  destruct (served_poll_queue _ _ _ _ _ Hs) as [n Hn]. exists s', n. auto.
Qed.

(** C39: picks are spread evenly: [m] rounds of picks return every queue of the
    environment [m] times, from whatever index they start, as long as the counter does
    not wrap around. *)
Theorem env_pick_balanced (m : nat) (env : Environment) :
  cqs env <> [] -> (0 <= idx env)%Z ->
  (idx env + Z.of_nat (m * length (cqs env)) < U64)%Z ->
  exists l, picks (m * length (cqs env)) env =
      Done (l, mkEnvironment (cqs env) (idx env + Z.of_nat (m * length (cqs env))) (thread_names env)) /\
    l ≡ₚ mjoin (replicate m (cqs env)).
Proof.
  revert env. induction m as [|m IH]; intros env Hne Hi Hu; simpl.
  - exists []. rewrite Z.add_0_r. by destruct env.
  - rewrite picks_app. unfold bind. destruct (picks_round env Hne Hi ltac:(lia)) as (l1 & -> & H1).
    destruct (IH (mkEnvironment (cqs env) (idx env + Z.of_nat (length (cqs env))) (thread_names env)))
      as (l2 & E2 & H2); simpl in *; [done|lia|lia|].
    rewrite E2. exists (l1 ++ l2). unfold ret. split; [|by rewrite H1, H2]. do 3 f_equal. lia.
Qed.

(** An environment owns one queue per thread, and dropping it shuts all of them down:
    each refuses further borrows, whatever was done to it before; a second drop, or a
    shutdown of a queue before the drop, changes nothing; and a queue without outstanding
    references is shut down natively once. *)
Theorem env_drop_shuts_down (self : EnvBuilder) (arrived : list nat) heap :
  let env := fst (EnvBuilder_build self arrived) in
  arrived ≡ₚ seq 0 (eb_cq_count self) -> length heap = eb_cq_count self ->
  length (snd (EnvBuilder_build self arrived)) = length heap /\
  Environment_drop env heap = shutdown <$> heap /\
  Forall (fun h => fst (add_ref h) = Err QueueShutdown) (Environment_drop env heap) /\
  Environment_drop env (Environment_drop env heap) = Environment_drop env heap /\
  Environment_drop env (snd (EnvBuilder_build self arrived)) =
    replicate (eb_cq_count self) (mkHandle 0 1).
Proof.
  intros env Ha Hlen.
  assert (forall heap, length heap = eb_cq_count self ->
    Environment_drop env heap = shutdown <$> heap) as Hd.
  { clear heap Hlen. intros heap Hlen. apply list_eq. intros q.
    rewrite list_lookup_fmap. destruct (heap !! q) as [h|] eqn:Hq.
    - destruct (drop_lookup (cqs env) heap q h Hq) as (h' & Hl & _ & Hin).
      unfold Environment_drop. rewrite Hl. simpl. rewrite Hin; [done|].
      unfold env. simpl. rewrite take_ge by (rewrite Ha, length_seq; lia).
      rewrite Ha, elem_of_seq. apply lookup_lt_Some in Hq. lia.
    - apply lookup_ge_None. unfold Environment_drop; rewrite drop_length. by apply lookup_ge_None in Hq. }
  split; [by simpl; rewrite length_replicate|]. split; [by apply Hd|].
  rewrite (Hd heap Hlen). repeat split.
  - apply Forall_fmap, Forall_true. intros h. apply shutdown_refuses.
  - rewrite Hd by (by rewrite length_fmap). rewrite <-list_fmap_compose. apply list_fmap_ext.
    intros i h _. apply shutdown_refuses.
  - simpl. rewrite Hd by apply length_replicate. by rewrite fmap_replicate.
Qed.

(** ** Witnesses *)

Definition demo_env : Environment := fst (EnvBuilder_build (EnvBuilder_new 3) [2; 0; 1]).

Lemma env_pick_balanced_witness :
  exists l env', picks 6 demo_env = Done (l, env') /\ l ≡ₚ [2; 0; 1; 2; 0; 1].
Proof.
  destruct (env_pick_balanced 2 demo_env) as (l & E & Hl).
  - done.
  - done.
  - reflexivity.
  - eexists l, _. split; [exact E | exact Hl].
Defined.

Lemma env_drop_shuts_down_witness :
  Environment_drop demo_env [mkHandle 1 0; mkHandle 3 0; mkHandle 0 1] =
  [mkHandle 0 1; mkHandle (-2) 0; mkHandle 0 1].
Proof.
  apply (env_drop_shuts_down (EnvBuilder_new 3) [2; 0; 1]
    [mkHandle 1 0; mkHandle 3 0; mkHandle 0 1]).
  - apply (bool_decide_unpack _). vm_compute. exact I.
  - reflexivity.
Defined.

(** Tags push work items; a work item pushes itself again while the state allows it. *)
Definition demo_resolve (tag : nat) (ok : bool) : M (PollState nat nat) unit := fun s =>
  Done (tt, mkPollState (user s) (snd (push_work 7 tag (worker s)))).

Definition demo_finish (work : nat) : M (PollState nat nat) unit := fun s =>
  match user s with
  | 0 => Done (tt, s)
  | S n => Done (tt, mkPollState n (snd (push_work 7 work (worker s))))
  end.

Definition demo_poll_state : PollState nat nat := mkPollState 2 (WorkQueue_new 7).

Lemma poll_queue_serves_witness :
  exists s', served demo_resolve demo_finish [(1, true); (2, false)] demo_poll_state s'.
Proof.
  destruct (poll_queue_serves demo_resolve demo_finish id
    [mkEvent GRPC_OP_COMPLETE 1 1; mkEvent GRPC_QUEUE_TIMEOUT 0 0; mkEvent GRPC_OP_COMPLETE 2 0;
     mkEvent GRPC_QUEUE_SHUTDOWN 0 0; mkEvent GRPC_OP_COMPLETE 3 1] demo_poll_state)
    as (s' & n & _ & Hs & _).
  - intros tag ok s. eexists. reflexivity.
  - intros work [[|n] q]; eexists; (split; [reflexivity|]); simpl; [lia|].
    unfold push_work. case_bool_decide; simpl; [rewrite length_app; simpl|]; lia.
  - exists s'. exact Hs.
Defined.
