(* ===== verification/Channel.v ===== *)
(** Channels (channel.rs): the options of the builder and the arguments built from them,
    connecting, and waiting for the state of the connection. *)

From S2P Require Import Prelude Status Cq Utf8 Task Env.

Local Open Scope rust_scope.

(** ** Strings and durations of the standard library *)

(** A C string literal with its terminator. *)
Definition nul_terminated (s : string) : list byte := as_bytes s ++ [x00].

(** [CString::new(..).unwrap()]: a byte 0 inside is refused. *)
Definition CString_new (bytes : list byte) : outcome (list byte) :=
  if bool_decide (x00 ∈ bytes) then Panicked "nul byte found in provided data" else Done bytes.

(** [char::encode_utf8] of a code point. *)
Definition byte_of_Z (x : Z) : byte := default x00 (Byte.of_N (Z.to_N x)).

Definition encode_char (c : Z) : list byte :=
  if bool_decide (c < 128)%Z then [byte_of_Z c]
  else if bool_decide (c < 2048)%Z then
    [byte_of_Z (192 + Z.shiftr c 6); byte_of_Z (128 + Z.land c 63)]
  else if bool_decide (c < 65536)%Z then
    [byte_of_Z (224 + Z.shiftr c 12); byte_of_Z (128 + Z.land (Z.shiftr c 6) 63);
     byte_of_Z (128 + Z.land c 63)]
  else
    [byte_of_Z (240 + Z.shiftr c 18); byte_of_Z (128 + Z.land (Z.shiftr c 12) 63);
     byte_of_Z (128 + Z.land (Z.shiftr c 6) 63); byte_of_Z (128 + Z.land c 63)].

Definition encode_utf8 (s : list Z) : list byte := mjoin (encode_char <$> s).

(** [char::is_whitespace]: the Unicode property White_Space. *)
Definition is_whitespace (c : Z) : bool :=
  (Z.leb 9 c && Z.leb c 13) || Z.eqb c 32 || Z.eqb c 133 || Z.eqb c 160 || Z.eqb c 5760 ||
  (Z.leb 8192 c && Z.leb c 8202) || Z.eqb c 8232 || Z.eqb c 8233 || Z.eqb c 8239 ||
  Z.eqb c 8287 || Z.eqb c 12288.

Fixpoint trim_start (s : list Z) : list Z :=
  match s with
  | [] => []
  | c :: s' => if is_whitespace c then trim_start s' else s
  end.

(** [str::trim]. *)
Definition trim (s : list Z) : list Z := reverse (trim_start (reverse (trim_start s))).

(** [std::time::Duration]. *)
Record Duration := mkDuration { as_secs : Z; subsec_nanos : Z }.

Definition duration_wf (d : Duration) : Prop :=
  (0 <= as_secs d < U64 /\ 0 <= subsec_nanos d < 1000000000)%Z.

(** The version in Cargo.toml. *)
Definition CARGO_PKG_VERSION : string := "0.9.0".

Definition format_user_agent_string (agent : list Z) : outcome (list byte) :=
  let trimed_agent := trim agent in
  let val := if bool_decide (trimed_agent = [])
             then as_bytes ("grpc-rust/" +:+ CARGO_PKG_VERSION)
             else encode_utf8 trimed_agent ++ as_bytes (" grpc-rust/" +:+ CARGO_PKG_VERSION) in
  CString_new val.

(** ** The builder *)

(** Keys of the options, as declared by the bindings. *)
Definition GRPC_ARG_DEFAULT_AUTHORITY : list byte := nul_terminated "grpc.default_authority".
Definition GRPC_ARG_RESOURCE_QUOTA : list byte := nul_terminated "grpc.resource_quota".
Definition GRPC_ARG_MAX_CONCURRENT_STREAMS : list byte := nul_terminated "grpc.max_concurrent_streams".
Definition GRPC_ARG_MAX_RECEIVE_MESSAGE_LENGTH : list byte := nul_terminated "grpc.max_receive_message_length".
Definition GRPC_ARG_MAX_SEND_MESSAGE_LENGTH : list byte := nul_terminated "grpc.max_send_message_length".
Definition GRPC_ARG_MAX_RECONNECT_BACKOFF_MS : list byte := nul_terminated "grpc.max_reconnect_backoff_ms".
Definition GRPC_ARG_INITIAL_RECONNECT_BACKOFF_MS : list byte := nul_terminated "grpc.initial_reconnect_backoff_ms".
Definition GRPC_ARG_HTTP2_INITIAL_SEQUENCE_NUMBER : list byte := nul_terminated "grpc.http2.initial_sequence_number".
Definition GRPC_ARG_HTTP2_STREAM_LOOKAHEAD_BYTES : list byte := nul_terminated "grpc.http2.lookahead_bytes".
Definition GRPC_ARG_PRIMARY_USER_AGENT_STRING : list byte := nul_terminated "grpc.primary_user_agent".
Definition GRPC_ARG_ALLOW_REUSEPORT : list byte := nul_terminated "grpc.so_reuseport".
Definition GRPC_ARG_TCP_READ_CHUNK_SIZE : list byte := nul_terminated "grpc.experimental.tcp_read_chunk_size".
Definition GRPC_ARG_TCP_MIN_READ_CHUNK_SIZE : list byte := nul_terminated "grpc.experimental.tcp_min_read_chunk_size".
Definition GRPC_ARG_TCP_MAX_READ_CHUNK_SIZE : list byte := nul_terminated "grpc.experimental.tcp_max_read_chunk_size".
Definition GRPC_ARG_HTTP2_WRITE_BUFFER_SIZE : list byte := nul_terminated "grpc.http2.write_buffer_size".
Definition GRPC_ARG_HTTP2_MAX_FRAME_SIZE : list byte := nul_terminated "grpc.http2.max_frame_size".
Definition GRPC_ARG_HTTP2_BDP_PROBE : list byte := nul_terminated "grpc.http2.bdp_probe".
Definition GRPC_ARG_HTTP2_MIN_SENT_PING_INTERVAL_WITHOUT_DATA_MS : list byte := nul_terminated "grpc.http2.min_time_between_pings_ms".
Definition GRPC_ARG_HTTP2_MIN_RECV_PING_INTERVAL_WITHOUT_DATA_MS : list byte := nul_terminated "grpc.http2.min_ping_interval_without_data_ms".
Definition GRPC_ARG_HTTP2_MAX_PINGS_WITHOUT_DATA : list byte := nul_terminated "grpc.http2.max_pings_without_data".
Definition GRPC_ARG_HTTP2_MAX_PING_STRIKES : list byte := nul_terminated "grpc.http2.max_ping_strikes".
Definition GRPC_COMPRESSION_CHANNEL_DEFAULT_ALGORITHM : list byte := nul_terminated "grpc.default_compression_algorithm".
Definition GRPC_COMPRESSION_CHANNEL_DEFAULT_LEVEL : list byte := nul_terminated "grpc.default_compression_level".
Definition GRPC_ARG_KEEPALIVE_TIME_MS : list byte := nul_terminated "grpc.keepalive_time_ms".
Definition GRPC_ARG_KEEPALIVE_TIMEOUT_MS : list byte := nul_terminated "grpc.keepalive_timeout_ms".
Definition GRPC_ARG_KEEPALIVE_PERMIT_WITHOUT_CALLS : list byte := nul_terminated "grpc.keepalive_permit_without_calls".
Definition GRPC_ARG_OPTIMIZATION_TARGET : list byte := nul_terminated "grpc.optimization_target".
Definition GRPC_ARG_LB_POLICY_NAME : list byte := nul_terminated "grpc.lb_policy_name".

(** The values of an option; a quota is known by the number of its native object. *)
Inductive Options :=
| OptInteger (val : Z)
| OptString (val : list byte)
| OptPointer (quota : nat).

Inductive OptTarget := Latency | Blend | Throughput.

Inductive LbPolicy := PickFirst | RoundRobin.

Inductive CompressionAlgorithms :=
| GRPC_COMPRESS_NONE | GRPC_COMPRESS_DEFLATE | GRPC_COMPRESS_GZIP | GRPC_COMPRESS_STREAM_GZIP
| GRPC_COMPRESS_ALGORITHMS_COUNT.

Definition algorithm_as_i32 (algo : CompressionAlgorithms) : Z :=
  match algo with
  | GRPC_COMPRESS_NONE => 0 | GRPC_COMPRESS_DEFLATE => 1 | GRPC_COMPRESS_GZIP => 2
  | GRPC_COMPRESS_STREAM_GZIP => 3 | GRPC_COMPRESS_ALGORITHMS_COUNT => 4
  end.

Inductive CompressionLevel :=
| GRPC_COMPRESS_LEVEL_NONE | GRPC_COMPRESS_LEVEL_LOW | GRPC_COMPRESS_LEVEL_MED
| GRPC_COMPRESS_LEVEL_HIGH | GRPC_COMPRESS_LEVEL_COUNT.

Definition level_as_i32 (level : CompressionLevel) : Z :=
  match level with
  | GRPC_COMPRESS_LEVEL_NONE => 0 | GRPC_COMPRESS_LEVEL_LOW => 1 | GRPC_COMPRESS_LEVEL_MED => 2
  | GRPC_COMPRESS_LEVEL_HIGH => 3 | GRPC_COMPRESS_LEVEL_COUNT => 4
  end.

(** [ChannelBuilder]; its environment is an argument of [connect]. *)
Record ChannelBuilder := mkChannelBuilder { options : gmap (list byte) Options }.

Definition ChannelBuilder_new : ChannelBuilder := {| options := ∅ |}.

Definition insert_option (key : list byte) (v : Options) (self : ChannelBuilder) : ChannelBuilder :=
  {| options := <[key := v]> (options self) |}.

Section setters.
(** Whether arithmetic is checked for overflow, as in a debug build. *)
Context (checks : bool).

(** [dur_to_ms]. *)
Definition dur_to_ms (dur : Duration) : outcome Z :=
  let+ secs_ms := checked_u checks U64 (as_secs dur * 1000) in
  let+ millis := checked_u checks U64 (secs_ms + subsec_nanos dur / 1000000) in
  Done (Z.min I32_MAX millis).

Definition default_authority (self : ChannelBuilder) (authority : list byte) : outcome ChannelBuilder :=
  let+ authority := CString_new authority in
  Done (insert_option GRPC_ARG_DEFAULT_AUTHORITY (OptString authority) self).

Definition set_resource_quota (self : ChannelBuilder) (quota : nat) : ChannelBuilder :=
  insert_option GRPC_ARG_RESOURCE_QUOTA (OptPointer quota) self.

Definition max_concurrent_stream (self : ChannelBuilder) (num : Z) : ChannelBuilder :=
  insert_option GRPC_ARG_MAX_CONCURRENT_STREAMS (OptInteger num) self.

Definition max_receive_message_len (self : ChannelBuilder) (len : Z) : ChannelBuilder :=
  insert_option GRPC_ARG_MAX_RECEIVE_MESSAGE_LENGTH (OptInteger len) self.

Definition max_send_message_len (self : ChannelBuilder) (len : Z) : ChannelBuilder :=
  insert_option GRPC_ARG_MAX_SEND_MESSAGE_LENGTH (OptInteger len) self.

Definition max_reconnect_backoff (self : ChannelBuilder) (backoff : Duration) : outcome ChannelBuilder :=
  let+ ms := dur_to_ms backoff in
  Done (insert_option GRPC_ARG_MAX_RECONNECT_BACKOFF_MS (OptInteger ms) self).

Definition initial_reconnect_backoff (self : ChannelBuilder) (backoff : Duration) : outcome ChannelBuilder :=
  let+ ms := dur_to_ms backoff in
  Done (insert_option GRPC_ARG_INITIAL_RECONNECT_BACKOFF_MS (OptInteger ms) self).

Definition https_initial_seq_number (self : ChannelBuilder) (number : Z) : ChannelBuilder :=
  insert_option GRPC_ARG_HTTP2_INITIAL_SEQUENCE_NUMBER (OptInteger number) self.

Definition stream_initial_window_size (self : ChannelBuilder) (window_size : Z) : ChannelBuilder :=
  insert_option GRPC_ARG_HTTP2_STREAM_LOOKAHEAD_BYTES (OptInteger window_size) self.

Definition primary_user_agent (self : ChannelBuilder) (agent : list Z) : outcome ChannelBuilder :=
  let+ agent_string := format_user_agent_string agent in
  Done (insert_option GRPC_ARG_PRIMARY_USER_AGENT_STRING (OptString agent_string) self).

Definition reuse_port (self : ChannelBuilder) (reuse : bool) : ChannelBuilder :=
  let opt := if reuse then 1%Z else 0%Z in
  insert_option GRPC_ARG_ALLOW_REUSEPORT (OptInteger opt) self.

Definition tcp_read_chunk_size (self : ChannelBuilder) (bytes : Z) : ChannelBuilder :=
  insert_option GRPC_ARG_TCP_READ_CHUNK_SIZE (OptInteger bytes) self.

Definition tcp_min_read_chunk_size (self : ChannelBuilder) (bytes : Z) : ChannelBuilder :=
  insert_option GRPC_ARG_TCP_MIN_READ_CHUNK_SIZE (OptInteger bytes) self.

Definition tcp_max_read_chunk_size (self : ChannelBuilder) (bytes : Z) : ChannelBuilder :=
  insert_option GRPC_ARG_TCP_MAX_READ_CHUNK_SIZE (OptInteger bytes) self.

Definition http2_write_buffer_size (self : ChannelBuilder) (size : Z) : ChannelBuilder :=
  insert_option GRPC_ARG_HTTP2_WRITE_BUFFER_SIZE (OptInteger size) self.

Definition http2_max_frame_size (self : ChannelBuilder) (size : Z) : ChannelBuilder :=
  insert_option GRPC_ARG_HTTP2_MAX_FRAME_SIZE (OptInteger size) self.

Definition http2_bdp_probe (self : ChannelBuilder) (enable : bool) : ChannelBuilder :=
  insert_option GRPC_ARG_HTTP2_BDP_PROBE (OptInteger (Z.b2z enable)) self.

Definition http2_min_sent_ping_interval_without_data (self : ChannelBuilder) (interval : Duration) : outcome ChannelBuilder :=
  let+ ms := dur_to_ms interval in
  Done (insert_option GRPC_ARG_HTTP2_MIN_SENT_PING_INTERVAL_WITHOUT_DATA_MS (OptInteger ms) self).

Definition http2_min_recv_ping_interval_without_data (self : ChannelBuilder) (interval : Duration) : outcome ChannelBuilder :=
  let+ ms := dur_to_ms interval in
  Done (insert_option GRPC_ARG_HTTP2_MIN_RECV_PING_INTERVAL_WITHOUT_DATA_MS (OptInteger ms) self).

Definition http2_max_pings_without_data (self : ChannelBuilder) (num : Z) : ChannelBuilder :=
  insert_option GRPC_ARG_HTTP2_MAX_PINGS_WITHOUT_DATA (OptInteger num) self.

Definition http2_max_ping_strikes (self : ChannelBuilder) (num : Z) : ChannelBuilder :=
  insert_option GRPC_ARG_HTTP2_MAX_PING_STRIKES (OptInteger num) self.

Definition default_compression_algorithm (self : ChannelBuilder) (algo : CompressionAlgorithms) : ChannelBuilder :=
  insert_option GRPC_COMPRESSION_CHANNEL_DEFAULT_ALGORITHM (OptInteger (algorithm_as_i32 algo)) self.

Definition default_compression_level (self : ChannelBuilder) (level : CompressionLevel) : ChannelBuilder :=
  insert_option GRPC_COMPRESSION_CHANNEL_DEFAULT_LEVEL (OptInteger (level_as_i32 level)) self.

Definition keepalive_time (self : ChannelBuilder) (timeout : Duration) : outcome ChannelBuilder :=
  let+ ms := dur_to_ms timeout in
  Done (insert_option GRPC_ARG_KEEPALIVE_TIME_MS (OptInteger ms) self).

Definition keepalive_timeout (self : ChannelBuilder) (timeout : Duration) : outcome ChannelBuilder :=
  let+ ms := dur_to_ms timeout in
  Done (insert_option GRPC_ARG_KEEPALIVE_TIMEOUT_MS (OptInteger ms) self).

Definition keepalive_permit_without_calls (self : ChannelBuilder) (allow : bool) : ChannelBuilder :=
  insert_option GRPC_ARG_KEEPALIVE_PERMIT_WITHOUT_CALLS (OptInteger (Z.b2z allow)) self.

Definition optimize_for (self : ChannelBuilder) (target : OptTarget) : outcome ChannelBuilder :=
  let+ val := match target with
              | Latency => CString_new (as_bytes "latency")
              | Blend => CString_new (as_bytes "blend")
              | Throughput => CString_new (as_bytes "throughput")
              end in
  Done (insert_option GRPC_ARG_OPTIMIZATION_TARGET (OptString val) self).

Definition load_balancing_policy (self : ChannelBuilder) (lb_policy : LbPolicy) : outcome ChannelBuilder :=
  let+ val := match lb_policy with
              | PickFirst => CString_new (as_bytes "pick_first")
              | RoundRobin => CString_new (as_bytes "round_robin")
              end in
  Done (insert_option GRPC_ARG_LB_POLICY_NAME (OptString val) self).

(** The keys of the raw setters are C strings. *)
Definition raw_cfg_int (self : ChannelBuilder) (key : list byte) (val : Z) : ChannelBuilder :=
  insert_option (key ++ [x00]) (OptInteger val) self.

Definition raw_cfg_string (self : ChannelBuilder) (key val : list byte) : ChannelBuilder :=
  insert_option (key ++ [x00]) (OptString val) self.

Definition OPT_SSL_TARGET_NAME_OVERRIDE : list byte := nul_terminated "grpc.ssl_target_name_override".

Definition override_ssl_target (self : ChannelBuilder) (target : list byte) :
    outcome ChannelBuilder :=
  let+ target := CString_new target in
  Done (insert_option OPT_SSL_TARGET_NAME_OVERRIDE (OptString target) self).

(** A call of one of the setters. *)
Inductive Setting :=
| Set_default_authority (authority : list byte)
| Set_set_resource_quota (quota : nat)
| Set_max_concurrent_stream (num : Z)
| Set_max_receive_message_len (len : Z)
| Set_max_send_message_len (len : Z)
| Set_max_reconnect_backoff (backoff : Duration)
| Set_initial_reconnect_backoff (backoff : Duration)
| Set_https_initial_seq_number (number : Z)
| Set_stream_initial_window_size (window_size : Z)
| Set_primary_user_agent (agent : list Z)
| Set_reuse_port (reuse : bool)
| Set_tcp_read_chunk_size (bytes : Z)
| Set_tcp_min_read_chunk_size (bytes : Z)
| Set_tcp_max_read_chunk_size (bytes : Z)
| Set_http2_write_buffer_size (size : Z)
| Set_http2_max_frame_size (size : Z)
| Set_http2_bdp_probe (enable : bool)
| Set_http2_min_sent_ping_interval_without_data (interval : Duration)
| Set_http2_min_recv_ping_interval_without_data (interval : Duration)
| Set_http2_max_pings_without_data (num : Z)
| Set_http2_max_ping_strikes (num : Z)
| Set_default_compression_algorithm (algo : CompressionAlgorithms)
| Set_default_compression_level (level : CompressionLevel)
| Set_keepalive_time (timeout : Duration)
| Set_keepalive_timeout (timeout : Duration)
| Set_keepalive_permit_without_calls (allow : bool)
| Set_optimize_for (target : OptTarget)
| Set_load_balancing_policy (lb_policy : LbPolicy)
| Set_override_ssl_target (target : list byte).

Definition apply_setting (s : Setting) (self : ChannelBuilder) : outcome ChannelBuilder :=
  match s with
  | Set_default_authority authority => default_authority self authority
  | Set_set_resource_quota quota => Done (set_resource_quota self quota)
  | Set_max_concurrent_stream num => Done (max_concurrent_stream self num)
  | Set_max_receive_message_len len => Done (max_receive_message_len self len)
  | Set_max_send_message_len len => Done (max_send_message_len self len)
  | Set_max_reconnect_backoff backoff => max_reconnect_backoff self backoff
  | Set_initial_reconnect_backoff backoff => initial_reconnect_backoff self backoff
  | Set_https_initial_seq_number number => Done (https_initial_seq_number self number)
  | Set_stream_initial_window_size window_size => Done (stream_initial_window_size self window_size)
  | Set_primary_user_agent agent => primary_user_agent self agent
  | Set_reuse_port reuse => Done (reuse_port self reuse)
  | Set_tcp_read_chunk_size bytes => Done (tcp_read_chunk_size self bytes)
  | Set_tcp_min_read_chunk_size bytes => Done (tcp_min_read_chunk_size self bytes)
  | Set_tcp_max_read_chunk_size bytes => Done (tcp_max_read_chunk_size self bytes)
  | Set_http2_write_buffer_size size => Done (http2_write_buffer_size self size)
  | Set_http2_max_frame_size size => Done (http2_max_frame_size self size)
  | Set_http2_bdp_probe enable => Done (http2_bdp_probe self enable)
  | Set_http2_min_sent_ping_interval_without_data interval => http2_min_sent_ping_interval_without_data self interval
  | Set_http2_min_recv_ping_interval_without_data interval => http2_min_recv_ping_interval_without_data self interval
  | Set_http2_max_pings_without_data num => Done (http2_max_pings_without_data self num)
  | Set_http2_max_ping_strikes num => Done (http2_max_ping_strikes self num)
  | Set_default_compression_algorithm algo => Done (default_compression_algorithm self algo)
  | Set_default_compression_level level => Done (default_compression_level self level)
  | Set_keepalive_time timeout => keepalive_time self timeout
  | Set_keepalive_timeout timeout => keepalive_timeout self timeout
  | Set_keepalive_permit_without_calls allow => Done (keepalive_permit_without_calls self allow)
  | Set_optimize_for target => optimize_for self target
  | Set_load_balancing_policy lb_policy => load_balancing_policy self lb_policy
  | Set_override_ssl_target target => override_ssl_target self target
  end.

Definition setting_key (s : Setting) : list byte :=
  match s with
  | Set_default_authority _ => GRPC_ARG_DEFAULT_AUTHORITY
  | Set_set_resource_quota _ => GRPC_ARG_RESOURCE_QUOTA
  | Set_max_concurrent_stream _ => GRPC_ARG_MAX_CONCURRENT_STREAMS
  | Set_max_receive_message_len _ => GRPC_ARG_MAX_RECEIVE_MESSAGE_LENGTH
  | Set_max_send_message_len _ => GRPC_ARG_MAX_SEND_MESSAGE_LENGTH
  | Set_max_reconnect_backoff _ => GRPC_ARG_MAX_RECONNECT_BACKOFF_MS
  | Set_initial_reconnect_backoff _ => GRPC_ARG_INITIAL_RECONNECT_BACKOFF_MS
  | Set_https_initial_seq_number _ => GRPC_ARG_HTTP2_INITIAL_SEQUENCE_NUMBER
  | Set_stream_initial_window_size _ => GRPC_ARG_HTTP2_STREAM_LOOKAHEAD_BYTES
  | Set_primary_user_agent _ => GRPC_ARG_PRIMARY_USER_AGENT_STRING
  | Set_reuse_port _ => GRPC_ARG_ALLOW_REUSEPORT
  | Set_tcp_read_chunk_size _ => GRPC_ARG_TCP_READ_CHUNK_SIZE
  | Set_tcp_min_read_chunk_size _ => GRPC_ARG_TCP_MIN_READ_CHUNK_SIZE
  | Set_tcp_max_read_chunk_size _ => GRPC_ARG_TCP_MAX_READ_CHUNK_SIZE
  | Set_http2_write_buffer_size _ => GRPC_ARG_HTTP2_WRITE_BUFFER_SIZE
  | Set_http2_max_frame_size _ => GRPC_ARG_HTTP2_MAX_FRAME_SIZE
  | Set_http2_bdp_probe _ => GRPC_ARG_HTTP2_BDP_PROBE
  | Set_http2_min_sent_ping_interval_without_data _ => GRPC_ARG_HTTP2_MIN_SENT_PING_INTERVAL_WITHOUT_DATA_MS
  | Set_http2_min_recv_ping_interval_without_data _ => GRPC_ARG_HTTP2_MIN_RECV_PING_INTERVAL_WITHOUT_DATA_MS
  | Set_http2_max_pings_without_data _ => GRPC_ARG_HTTP2_MAX_PINGS_WITHOUT_DATA
  | Set_http2_max_ping_strikes _ => GRPC_ARG_HTTP2_MAX_PING_STRIKES
  | Set_default_compression_algorithm _ => GRPC_COMPRESSION_CHANNEL_DEFAULT_ALGORITHM
  | Set_default_compression_level _ => GRPC_COMPRESSION_CHANNEL_DEFAULT_LEVEL
  | Set_keepalive_time _ => GRPC_ARG_KEEPALIVE_TIME_MS
  | Set_keepalive_timeout _ => GRPC_ARG_KEEPALIVE_TIMEOUT_MS
  | Set_keepalive_permit_without_calls _ => GRPC_ARG_KEEPALIVE_PERMIT_WITHOUT_CALLS
  | Set_optimize_for _ => GRPC_ARG_OPTIMIZATION_TARGET
  | Set_load_balancing_policy _ => GRPC_ARG_LB_POLICY_NAME
  | Set_override_ssl_target _ => OPT_SSL_TARGET_NAME_OVERRIDE
  end.
End setters.

Definition setting_name (s : Setting) : string :=
  match s with
  | Set_default_authority _ => "default_authority"
  | Set_set_resource_quota _ => "set_resource_quota"
  | Set_max_concurrent_stream _ => "max_concurrent_stream"
  | Set_max_receive_message_len _ => "max_receive_message_len"
  | Set_max_send_message_len _ => "max_send_message_len"
  | Set_max_reconnect_backoff _ => "max_reconnect_backoff"
  | Set_initial_reconnect_backoff _ => "initial_reconnect_backoff"
  | Set_https_initial_seq_number _ => "https_initial_seq_number"
  | Set_stream_initial_window_size _ => "stream_initial_window_size"
  | Set_primary_user_agent _ => "primary_user_agent"
  | Set_reuse_port _ => "reuse_port"
  | Set_tcp_read_chunk_size _ => "tcp_read_chunk_size"
  | Set_tcp_min_read_chunk_size _ => "tcp_min_read_chunk_size"
  | Set_tcp_max_read_chunk_size _ => "tcp_max_read_chunk_size"
  | Set_http2_write_buffer_size _ => "http2_write_buffer_size"
  | Set_http2_max_frame_size _ => "http2_max_frame_size"
  | Set_http2_bdp_probe _ => "http2_bdp_probe"
  | Set_http2_min_sent_ping_interval_without_data _ => "http2_min_sent_ping_interval_without_data"
  | Set_http2_min_recv_ping_interval_without_data _ => "http2_min_recv_ping_interval_without_data"
  | Set_http2_max_pings_without_data _ => "http2_max_pings_without_data"
  | Set_http2_max_ping_strikes _ => "http2_max_ping_strikes"
  | Set_default_compression_algorithm _ => "default_compression_algorithm"
  | Set_default_compression_level _ => "default_compression_level"
  | Set_keepalive_time _ => "keepalive_time"
  | Set_keepalive_timeout _ => "keepalive_timeout"
  | Set_keepalive_permit_without_calls _ => "keepalive_permit_without_calls"
  | Set_optimize_for _ => "optimize_for"
  | Set_load_balancing_policy _ => "load_balancing_policy"
  | Set_override_ssl_target _ => "override_ssl_target"
  end.

(** ** The arguments given to the core *)

(** An argument as the core sees it: key and value up to their terminators. *)
Record grpc_arg := mkArg { arg_key : list byte; arg_value : Options }.

(** The bytes of a C string: those before the first 0. *)
Fixpoint c_str (bytes : list byte) : list byte :=
  match bytes with
  | [] => []
  | b :: bytes => if bool_decide (b = x00) then [] else b :: c_str bytes
  end.

(** [grpcwrap_channel_args_create] and [grpcwrap_channel_args_set_*]. *)
Definition channel_args_create (num_args : nat) : list (option grpc_arg) := replicate num_args None.

Definition channel_args_set (args : list (option grpc_arg)) (index : nat) (arg : grpc_arg) :
    outcome (list (option grpc_arg)) :=
  if bool_decide (index < length args) then Done (<[index := Some arg]> args)
  else Panicked "assertion failed: index < args->num_args".

(** The loop of [build_args] over the entries in the order the map yields them. *)
Fixpoint build_args_loop (i : nat) (entries : list (list byte * Options))
    (args : list (option grpc_arg)) : outcome (list (option grpc_arg)) :=
  match entries with
  | [] => Done args
  | (k, v) :: entries =>
      let+ args := match v with
        | OptInteger val =>
            if bool_decide (val <= I32_MAX /\ I32_MIN <= val)%Z
            then channel_args_set args i (mkArg (c_str k) (OptInteger val))
            else Panicked "out of range"
        | OptString val => channel_args_set args i (mkArg (c_str k) (OptString (c_str val)))
        | OptPointer quota => channel_args_set args i (mkArg (c_str k) (OptPointer quota))
        end in
      build_args_loop (S i) entries args
  end.

(** [ChannelBuilder::build_args]; [iter] is the order of the hash map. *)
Definition build_args (iter : gmap (list byte) Options -> list (list byte * Options))
    (self : ChannelBuilder) : outcome (list (option grpc_arg)) :=
  build_args_loop 0 (iter (options self)) (channel_args_create (size (options self))).

Definition prepare_connect_args (iter : gmap (list byte) Options -> list (list byte * Options))
    (self : ChannelBuilder) : outcome (list (option grpc_arg) * ChannelBuilder) :=
  let+ self := match options self !! GRPC_ARG_PRIMARY_USER_AGENT_STRING with
               | Some _ => Done self
               | None =>
                   let+ agent := format_user_agent_string [] in
                   Done (insert_option GRPC_ARG_PRIMARY_USER_AGENT_STRING (OptString agent) self)
               end in
  let+ args := build_args iter self in
  Done (args, self).

(** The native constructor used: insecure, taking over a descriptor, or with credentials. *)
Inductive Native := Insecure | FromFd (fd : Z) | Secure (creds : nat).

(** A channel: the queue its calls use and the native channel, known by its constructor,
    target and arguments. *)
Record Channel := mkChannel {
  ch_cq : nat;
  ch_native : Native;
  ch_target : list byte;
  ch_args : list (option grpc_arg);
}.

Section connect.
Context (iter : gmap (list byte) Options -> list (list byte * Options)).

(** What the three ways to connect share. *)
Definition connect_native (native : Native) (self : ChannelBuilder) (addr : list byte) :
    M Environment Channel := fun env =>
  let+ (args, _) := prepare_connect_args iter self in
  let+ addr := CString_new addr in
  let+ (cq, env) := pick_cq env in
  Done (mkChannel cq native addr args, env).

Definition connect (self : ChannelBuilder) (addr : list byte) : M Environment Channel :=
  connect_native Insecure self addr.

Definition connect_from_fd (self : ChannelBuilder) (target : list byte) (fd : Z) :
    M Environment Channel :=
  connect_native (FromFd fd) self target.

Definition secure_connect (self : ChannelBuilder) (addr : list byte) (creds : nat) :
    M Environment Channel :=
  connect_native (Secure creds) self addr.
End connect.

(** ** The state of the connection *)

(** [ConnectivityState]. *)
Inductive ConnectivityState :=
| GRPC_CHANNEL_IDLE | GRPC_CHANNEL_CONNECTING | GRPC_CHANNEL_READY
| GRPC_CHANNEL_TRANSIENT_FAILURE | GRPC_CHANNEL_SHUTDOWN.

#[export] Instance ConnectivityState_eq_dec : EqDecision ConnectivityState.
Proof. solve_decision. Defined.

(** What waiting on a channel uses: the queue, the watches the core holds, the notify
    handles of the actions, and the boxed tags nobody owns any more. *)
Record WatchWorld := mkWatchWorld {
  ww_cq : CompletionQueueHandle;
  ww_watches : list (ConnectivityState * nat);
  ww_actions : list (NotifyHandle bool);
  ww_leaked : list nat;
}.

(** The future returned: [should_wait && cq_f.await.unwrap()]. *)
Record StateChange := mkStateChange { should_wait : bool; cq_f : nat }.

(** [Channel::wait_for_state_change]. *)
Definition wait_for_state_change (last_observed : ConnectivityState) (w : WatchWorld) :
    StateChange * WatchWorld :=
  let tag := length (ww_actions w) in
  let actions := ww_actions w ++ [NotifyHandle_new] in
  let '(r, cq) := add_ref (ww_cq w) in
  match r with
  | Ok _ =>
      (mkStateChange true tag,
       mkWatchWorld (unref cq) (ww_watches w ++ [(last_observed, tag)]) actions (ww_leaked w))
  | Err _ => (mkStateChange false tag, mkWatchWorld cq (ww_watches w) actions (ww_leaked w ++ [tag]))
  end.

(** The core completes a watch. *)
Definition complete_watch (tag : nat) (success : bool) (w : WatchWorld) : WatchWorld :=
  match ww_actions w !! tag with
  | Some g =>
      mkWatchWorld (ww_cq w) (filter (fun x => snd x <> tag) (ww_watches w))
        (<[tag := snd (Action_resolve g success)]> (ww_actions w)) (ww_leaked w)
  | None => w
  end.

(** Polling the future. *)
Definition StateChange_poll (cx : Waker) (self : StateChange) (w : WatchWorld) :
    outcome (Poll bool * WatchWorld) :=
  if should_wait self then
    match ww_actions w !! cq_f self with
    | Some g =>
        match CqFuture_poll cx g with
        | Done (Pending, g) =>
            Done (Pending, mkWatchWorld (ww_cq w) (ww_watches w) (<[cq_f self := g]> (ww_actions w))
                             (ww_leaked w))
        | Done (Ready (Ok b), g) =>
            Done (Ready b, mkWatchWorld (ww_cq w) (ww_watches w) (<[cq_f self := g]> (ww_actions w))
                             (ww_leaked w))
        | Done (Ready (Err _), _) => Panicked "called unwrap on an Err value"
        | Panicked m => Panicked m
        end
    | None => Panicked "no such action"
    end
  else Done (Ready false, w).

(** [Channel::wait_for_connected], given how each wait ends and the state then observed;
    [None] while it still waits. *)
Fixpoint connected_loop (waits : list (bool * ConnectivityState)) : option bool :=
  match waits with
  | [] => None
  | (false, _) :: _ => Some false
  | (true, state) :: waits =>
      match state with
      | GRPC_CHANNEL_READY => Some true
      | GRPC_CHANNEL_SHUTDOWN => Some false
      | _ => connected_loop waits
      end
  end.

Definition wait_for_connected (state : ConnectivityState)
    (waits : list (bool * ConnectivityState)) : option bool :=
  if bool_decide (GRPC_CHANNEL_READY = state) then Some true else connected_loop waits.

(** ** Lemmas *)

(** All setters, with their keys. *)
Definition setter_table : list (string * list byte) :=
  [("default_authority", GRPC_ARG_DEFAULT_AUTHORITY);
   ("set_resource_quota", GRPC_ARG_RESOURCE_QUOTA);
   ("max_concurrent_stream", GRPC_ARG_MAX_CONCURRENT_STREAMS);
   ("max_receive_message_len", GRPC_ARG_MAX_RECEIVE_MESSAGE_LENGTH);
   ("max_send_message_len", GRPC_ARG_MAX_SEND_MESSAGE_LENGTH);
   ("max_reconnect_backoff", GRPC_ARG_MAX_RECONNECT_BACKOFF_MS);
   ("initial_reconnect_backoff", GRPC_ARG_INITIAL_RECONNECT_BACKOFF_MS);
   ("https_initial_seq_number", GRPC_ARG_HTTP2_INITIAL_SEQUENCE_NUMBER);
   ("stream_initial_window_size", GRPC_ARG_HTTP2_STREAM_LOOKAHEAD_BYTES);
   ("primary_user_agent", GRPC_ARG_PRIMARY_USER_AGENT_STRING);
   ("reuse_port", GRPC_ARG_ALLOW_REUSEPORT);
   ("tcp_read_chunk_size", GRPC_ARG_TCP_READ_CHUNK_SIZE);
   ("tcp_min_read_chunk_size", GRPC_ARG_TCP_MIN_READ_CHUNK_SIZE);
   ("tcp_max_read_chunk_size", GRPC_ARG_TCP_MAX_READ_CHUNK_SIZE);
   ("http2_write_buffer_size", GRPC_ARG_HTTP2_WRITE_BUFFER_SIZE);
   ("http2_max_frame_size", GRPC_ARG_HTTP2_MAX_FRAME_SIZE);
   ("http2_bdp_probe", GRPC_ARG_HTTP2_BDP_PROBE);
   ("http2_min_sent_ping_interval_without_data", GRPC_ARG_HTTP2_MIN_SENT_PING_INTERVAL_WITHOUT_DATA_MS);
   ("http2_min_recv_ping_interval_without_data", GRPC_ARG_HTTP2_MIN_RECV_PING_INTERVAL_WITHOUT_DATA_MS);
   ("http2_max_pings_without_data", GRPC_ARG_HTTP2_MAX_PINGS_WITHOUT_DATA);
   ("http2_max_ping_strikes", GRPC_ARG_HTTP2_MAX_PING_STRIKES);
   ("default_compression_algorithm", GRPC_COMPRESSION_CHANNEL_DEFAULT_ALGORITHM);
   ("default_compression_level", GRPC_COMPRESSION_CHANNEL_DEFAULT_LEVEL);
   ("keepalive_time", GRPC_ARG_KEEPALIVE_TIME_MS);
   ("keepalive_timeout", GRPC_ARG_KEEPALIVE_TIMEOUT_MS);
   ("keepalive_permit_without_calls", GRPC_ARG_KEEPALIVE_PERMIT_WITHOUT_CALLS);
   ("optimize_for", GRPC_ARG_OPTIMIZATION_TARGET);
   ("load_balancing_policy", GRPC_ARG_LB_POLICY_NAME);
   ("override_ssl_target", OPT_SSL_TARGET_NAME_OVERRIDE)].

Lemma setting_in_table s : (setting_name s, setting_key s) ∈ setter_table.
Proof. destruct s; apply (bool_decide_unpack _); vm_compute; exact I. Qed.

Lemma setter_table_NoDup : NoDup setter_table.*1 /\ NoDup setter_table.*2.
Proof. split; apply (bool_decide_unpack _); vm_compute; exact I. Qed.

(** Entries of a list of pairs with distinct components. *)
Lemma NoDup_fst_snd {A B} (l : list (A * B)) a b a' b' :
  NoDup l.*1 -> NoDup l.*2 -> (a, b) ∈ l -> (a', b') ∈ l -> (a = a' <-> b = b').
Proof.
  intros H1 H2 H H'. apply list_elem_of_lookup in H as [i Hi]. apply list_elem_of_lookup in H' as [j Hj].
  split; intros ->.
  - assert (i = j) as ->; [|by simplify_eq].
    eapply (NoDup_lookup _ _ _ _ H1); rewrite list_lookup_fmap; [by rewrite Hi|by rewrite Hj].
  - assert (i = j) as ->; [|by simplify_eq].
    eapply (NoDup_lookup _ _ _ _ H2); rewrite list_lookup_fmap; [by rewrite Hi|by rewrite Hj].
Qed.

(** The value a setter stores. *)
Definition setting_value (checks : bool) (s : Setting) : outcome Options :=
  let map T (o : outcome T) f := obind o (fun x => Done (f x)) in
  match s with
  | Set_default_authority authority => map _ (CString_new authority) OptString
  | Set_set_resource_quota quota => Done (OptPointer quota)
  | Set_max_concurrent_stream num => Done (OptInteger num)
  | Set_max_receive_message_len len => Done (OptInteger len)
  | Set_max_send_message_len len => Done (OptInteger len)
  | Set_max_reconnect_backoff backoff => map _ (dur_to_ms checks backoff) OptInteger
  | Set_initial_reconnect_backoff backoff => map _ (dur_to_ms checks backoff) OptInteger
  | Set_https_initial_seq_number number => Done (OptInteger number)
  | Set_stream_initial_window_size window_size => Done (OptInteger window_size)
  | Set_primary_user_agent agent => map _ (format_user_agent_string agent) OptString
  | Set_reuse_port reuse => Done (OptInteger (Z.b2z reuse))
  | Set_tcp_read_chunk_size bytes => Done (OptInteger bytes)
  | Set_tcp_min_read_chunk_size bytes => Done (OptInteger bytes)
  | Set_tcp_max_read_chunk_size bytes => Done (OptInteger bytes)
  | Set_http2_write_buffer_size size => Done (OptInteger size)
  | Set_http2_max_frame_size size => Done (OptInteger size)
  | Set_http2_bdp_probe enable => Done (OptInteger (Z.b2z enable))
  | Set_http2_min_sent_ping_interval_without_data interval => map _ (dur_to_ms checks interval) OptInteger
  | Set_http2_min_recv_ping_interval_without_data interval => map _ (dur_to_ms checks interval) OptInteger
  | Set_http2_max_pings_without_data num => Done (OptInteger num)
  | Set_http2_max_ping_strikes num => Done (OptInteger num)
  | Set_default_compression_algorithm algo => Done (OptInteger (algorithm_as_i32 algo))
  | Set_default_compression_level level => Done (OptInteger (level_as_i32 level))
  | Set_keepalive_time timeout => map _ (dur_to_ms checks timeout) OptInteger
  | Set_keepalive_timeout timeout => map _ (dur_to_ms checks timeout) OptInteger
  | Set_keepalive_permit_without_calls allow => Done (OptInteger (Z.b2z allow))
  | Set_optimize_for target => Done (OptString (as_bytes match target with Latency => "latency" | Blend => "blend"
                             | Throughput => "throughput" end))
  | Set_load_balancing_policy lb_policy => Done (OptString (as_bytes match lb_policy with PickFirst => "pick_first" | RoundRobin => "round_robin" end))
  | Set_override_ssl_target target => map _ (CString_new target) OptString
  end.

(** A setter computes its value without looking at the builder, and stores it at its key. *)
Lemma apply_setting_insert checks s b :
  apply_setting checks s b =
    obind (setting_value checks s) (fun v => Done (insert_option (setting_key s) v b)).
Proof.
  destruct s; cbn [apply_setting setting_value setting_key obind]; try reflexivity;
    try match goal with
        | |- context [dur_to_ms ?c ?d] =>
            unfold max_reconnect_backoff, initial_reconnect_backoff,
              http2_min_sent_ping_interval_without_data, http2_min_recv_ping_interval_without_data,
              keepalive_time, keepalive_timeout;
            by destruct (dur_to_ms c d)
        end.
  - unfold default_authority. by destruct (CString_new authority).
  - unfold primary_user_agent. by destruct (format_user_agent_string agent).
  - by destruct target.
  - by destruct lb_policy.
  - unfold override_ssl_target. by destruct (CString_new target).
Qed.

(** Options as the setters leave them: terminated keys, integers of 32 bits, C strings. *)
Definition option_ok (key : list byte) (v : Options) : Prop :=
  (exists body, key = body ++ [x00] /\ x00 ∉ body) /\
  match v with
  | OptInteger z => (I32_MIN <= z <= I32_MAX)%Z
  | OptString val => x00 ∉ val
  | OptPointer _ => True
  end.

Definition builder_ok (b : ChannelBuilder) : Prop := map_Forall option_ok (options b).

(** The arguments of a setter are of their types. *)
Definition setting_ok (s : Setting) : Prop :=
  match s with
  | Set_max_concurrent_stream z
  | Set_max_receive_message_len z
  | Set_max_send_message_len z
  | Set_https_initial_seq_number z
  | Set_stream_initial_window_size z
  | Set_tcp_read_chunk_size z
  | Set_tcp_min_read_chunk_size z
  | Set_tcp_max_read_chunk_size z
  | Set_http2_write_buffer_size z
  | Set_http2_max_frame_size z
  | Set_http2_max_pings_without_data z
  | Set_http2_max_ping_strikes z => (I32_MIN <= z <= I32_MAX)%Z
  | Set_max_reconnect_backoff d
  | Set_initial_reconnect_backoff d
  | Set_http2_min_sent_ping_interval_without_data d
  | Set_http2_min_recv_ping_interval_without_data d
  | Set_keepalive_time d
  | Set_keepalive_timeout d => duration_wf d
  | _ => True
  end.

Lemma nul_terminated_ok s : x00 ∉ as_bytes s -> exists body, nul_terminated s = body ++ [x00] /\ x00 ∉ body.
Proof. intros H. by exists (as_bytes s). Qed.

Lemma CString_new_ok bytes val : CString_new bytes = Done val -> val = bytes /\ x00 ∉ val.
Proof. unfold CString_new. case_bool_decide; [done|]. by intros [= ->]. Qed.

Lemma dur_to_ms_range checks d ms :
  duration_wf d -> dur_to_ms checks d = Done ms -> (0 <= ms <= I32_MAX)%Z.
Proof.
  intros [Hs Hn] E. unfold dur_to_ms, checked_u, obind in E.
  assert (0 <= subsec_nanos d / 1000000)%Z by (apply Z.div_pos; lia).
  assert (forall x, 0 <= x `mod` U64)%Z by (intros x; apply Z.mod_pos_bound; done).
  assert (forall x, 0 <= x -> 0 <= Z.min I32_MAX x <= I32_MAX)%Z as Hmin by (unfold I32_MAX; lia).
  destruct checks; repeat case_bool_decide; try done; injection E as <-; apply Hmin; [lia|done].
Qed.

Lemma setting_key_terminated s : exists body, setting_key s = body ++ [x00] /\ x00 ∉ body.
Proof.
  destruct s; apply nul_terminated_ok; apply (bool_decide_unpack _); vm_compute; exact I.
Qed.

Lemma setting_value_ok checks s v :
  setting_ok s -> setting_value checks s = Done v -> option_ok (setting_key s) v.
Proof.
  intros Hok E. split; [apply setting_key_terminated|].
  destruct s; cbn [setting_value setting_ok obind] in *; unfold obind in E;
    try match type of E with
        | context [dur_to_ms ?c ?d] =>
            destruct (dur_to_ms c d) as [ms|] eqn:Hd; [|done]; injection E as <-;
            apply dur_to_ms_range in Hd; unfold I32_MIN; [lia|done]
        | context [CString_new ?x] =>
            destruct (CString_new x) as [y|] eqn:Hc; [|done]; injection E as <-;
            by apply CString_new_ok in Hc as [_ ?]
        | context [format_user_agent_string ?x] =>
            destruct (format_user_agent_string x) as [y|] eqn:Hc; [|done]; injection E as <-;
            by apply CString_new_ok in Hc as [_ ?]
        | _ => injection E as <-
        end; try done.
  all: try (by match goal with x : bool |- _ => destruct x end).
  all: try (by match goal with x : CompressionAlgorithms |- _ => destruct x end).
  all: try (by match goal with x : CompressionLevel |- _ => destruct x end).
  all: match goal with |- x00 ∉ as_bytes (match ?t with _ => _ end) => destruct t end;
    apply (bool_decide_unpack _); vm_compute; exact I.
Qed.

(** Setters keep the options well formed. *)
Lemma apply_setting_ok checks s b b' :
  setting_ok s -> builder_ok b -> apply_setting checks s b = Done b' -> builder_ok b'.
Proof.
  intros Hs Hb. rewrite apply_setting_insert.
  destruct (setting_value checks s) as [v|] eqn:E; simpl; [|done]. intros [= <-].
  apply map_Forall_insert_2; [by eapply setting_value_ok|done].
Qed.

Lemma c_str_terminated body rest : x00 ∉ body -> c_str (body ++ x00 :: rest) = body.
Proof.
  induction body as [|b body IH]; simpl; [done|]. intros [Hb H]%not_elem_of_cons.
  rewrite bool_decide_eq_false_2 by done. by rewrite IH.
Qed.

Lemma c_str_no_nul bytes : x00 ∉ bytes -> c_str bytes = bytes.
Proof.
  induction bytes as [|b bytes IH]; simpl; [done|]. intros [Hb H]%not_elem_of_cons.
  rewrite bool_decide_eq_false_2 by done. by rewrite IH.
Qed.

Lemma channel_args_set_next args n (a : grpc_arg) :
  channel_args_set ((Some <$> args) ++ replicate (S n) None) (length args) a =
  Done ((Some <$> (args ++ [a])) ++ replicate n None).
Proof.
  unfold channel_args_set. rewrite length_app, length_fmap, length_replicate.
  rewrite bool_decide_eq_true_2 by lia. f_equal.
  rewrite fmap_app, <-app_assoc. simpl.
  rewrite <-(Nat.add_0_r (length args)), <-(length_fmap Some args) at 1.
  by rewrite insert_app_r.
Qed.

(** The loop fills the array with the entries, in the order it gets them. *)
Lemma build_args_loop_ok entries args :
  Forall (fun kv => option_ok kv.1 kv.2) entries ->
  build_args_loop (length args) entries ((Some <$> args) ++ replicate (length entries) None) =
  Done (Some <$> (args ++ ((fun kv => mkArg (c_str kv.1) kv.2) <$> entries))).
Proof.
  revert args. induction entries as [|[k v] entries IH]; intros args Hok; cbn [length replicate].
  - simpl. by rewrite !app_nil_r.
  - apply Forall_cons in Hok as [[_ Hv] Hok]. cbn [fst snd] in Hv.
    cbn [build_args_loop].
    replace (match v with
      | OptInteger val => if bool_decide (val <= I32_MAX /\ I32_MIN <= val)%Z
          then channel_args_set ((Some <$> args) ++ None :: replicate (length entries) None) (length args)
                 (mkArg (c_str k) (OptInteger val)) else Panicked "out of range"
      | OptString val => channel_args_set ((Some <$> args) ++ None :: replicate (length entries) None)
          (length args) (mkArg (c_str k) (OptString (c_str val)))
      | OptPointer quota => channel_args_set ((Some <$> args) ++ None :: replicate (length entries) None)
          (length args) (mkArg (c_str k) (OptPointer quota))
      end) with (Done ((Some <$> (args ++ [mkArg (c_str k) v])) ++ replicate (length entries) None)).
    + cbn [obind]. specialize (IH (args ++ [mkArg (c_str k) v]) Hok).
      rewrite length_app in IH. cbn [length] in IH. rewrite Nat.add_1_r in IH. rewrite IH.
      by rewrite <-app_assoc.
    + rewrite <-channel_args_set_next. cbn [replicate].
      destruct v as [z|val|q]; cbn beta iota in Hv; [rewrite bool_decide_eq_true_2 by lia|rewrite (c_str_no_nul val) by done|]; done.
Qed.

(** Before connecting, the user agent of the library is added if none was set. *)
Lemma with_user_agent (b : ChannelBuilder) : builder_ok b ->
  exists b',
    match options b !! GRPC_ARG_PRIMARY_USER_AGENT_STRING with
    | Some _ => Done b
    | None => let+ agent := format_user_agent_string [] in
              Done (insert_option GRPC_ARG_PRIMARY_USER_AGENT_STRING (OptString agent) b)
    end = Done b' /\ builder_ok b' /\
    options b' !! GRPC_ARG_PRIMARY_USER_AGENT_STRING =
      Some (default (OptString (as_bytes "grpc-rust/0.9.0"))
              (options b !! GRPC_ARG_PRIMARY_USER_AGENT_STRING)) /\
    (forall k, k <> GRPC_ARG_PRIMARY_USER_AGENT_STRING -> options b' !! k = options b !! k).
Proof.
  intros Hb. destruct (options b !! GRPC_ARG_PRIMARY_USER_AGENT_STRING) as [v|] eqn:E.
  - exists b. rewrite E. done.
  - eexists. split; [reflexivity|]. unfold insert_option, builder_ok. cbn [options].
    split; [|split; [by rewrite lookup_insert_eq | intros k Hk; by rewrite lookup_insert_ne]].
    apply map_Forall_insert_2; [|done].
    apply (setting_value_ok true (Set_primary_user_agent [])); reflexivity || exact I.
Qed.

Lemma trim_start_app_ws ws s : Forall (fun c => is_whitespace c = true) ws ->
  trim_start (ws ++ s) = trim_start s.
Proof. induction 1 as [|c ws Hc _ IH]; simpl; [done|]. by rewrite Hc. Qed.

Lemma trim_start_id s : (forall c, head s = Some c -> is_whitespace c = false) -> trim_start s = s.
Proof. destruct s as [|c s]; simpl; [done|]. intros H. by rewrite (H c eq_refl). Qed.

(** [trim] removes exactly the white space at both ends. *)
Lemma trim_spec l core r :
  Forall (fun c => is_whitespace c = true) l -> Forall (fun c => is_whitespace c = true) r ->
  (forall c, head core = Some c -> is_whitespace c = false) ->
  (forall c, last core = Some c -> is_whitespace c = false) ->
  trim (l ++ core ++ r) = core.
Proof.
  intros Hl Hr Hh Ht. unfold trim. rewrite trim_start_app_ws by done.
  destruct core as [|c core].
  - simpl. rewrite <-(app_nil_r r), trim_start_app_ws by done. done.
  - rewrite (trim_start_id ((c :: core) ++ r)) by (intros c'; apply Hh).
    rewrite reverse_app, trim_start_app_ws by (by rewrite reverse_Permutation).
    rewrite trim_start_id, reverse_involutive; [done|]. intros c'. rewrite head_reverse. apply Ht.
Qed.

Lemma byte_of_Z_zero x : (0 <= x < 256)%Z -> byte_of_Z x = x00 -> x = 0%Z.
Proof.
  intros Hx. unfold byte_of_Z. destruct (Byte.of_N (Z.to_N x)) as [b|] eqn:E; simpl.
  - apply Byte.to_of_N in E. intros ->. simpl in E. lia.
  - apply Byte.of_N_None_iff in E. lia.
Qed.

Lemma land_63 x : (0 <= Z.land x 63 < 64)%Z.
Proof. change 63%Z with (Z.ones 6). rewrite Z.land_ones by lia. apply Z.mod_pos_bound. lia. Qed.

(** A valid character that is not 0 has no byte 0 in its encoding. *)
Lemma encode_char_no_nul c : (0 < c < 1114112)%Z -> x00 ∉ encode_char c.
Proof.
  intros Hc. unfold encode_char. rewrite !Z.shiftr_div_pow2 by lia.
  assert (forall a b, (0 < a)%Z -> (0 <= b)%Z -> (a + b < 256)%Z -> byte_of_Z (a + b) <> x00) as Hz.
  { intros a b Ha Hb Hab E. apply byte_of_Z_zero in E; lia. }
  assert (forall n, (0 <= c / 2 ^ n)%Z) as Hd.
  { intros n. destruct (decide (0 <= n)%Z); [apply Z.div_pos; [lia|by apply Z.pow_pos_nonneg]|].
    rewrite Z.pow_neg_r by lia. by rewrite Z.div_0_r. }
  pose proof (land_63 c). pose proof (land_63 (c / 2 ^ 6)). pose proof (land_63 (c / 2 ^ 12)).
  pose proof (Hd 6%Z). pose proof (Hd 12%Z). pose proof (Hd 18%Z).
  assert (c / 2 ^ 18 < 8)%Z by (apply Z.div_lt_upper_bound; lia).
  repeat case_bool_decide.
  - apply not_elem_of_cons. split; [|apply not_elem_of_nil].
    intros E. symmetry in E. apply byte_of_Z_zero in E; lia.
  - assert (c / 2 ^ 6 < 32)%Z by (apply Z.div_lt_upper_bound; lia).
    rewrite !not_elem_of_cons. repeat split; try apply not_elem_of_nil; apply not_eq_sym, Hz; lia.
  - assert (c / 2 ^ 12 < 16)%Z by (apply Z.div_lt_upper_bound; lia).
    rewrite !not_elem_of_cons. repeat split; try apply not_elem_of_nil; apply not_eq_sym, Hz; lia.
  - rewrite !not_elem_of_cons. repeat split; try apply not_elem_of_nil; apply not_eq_sym, Hz; lia.
Qed.

Lemma encode_utf8_nul s : Forall (fun c => 0 <= c < 1114112)%Z s ->
  (x00 ∈ encode_utf8 s <-> 0%Z ∈ s).
Proof.
  intros Hs. unfold encode_utf8. rewrite list_elem_of_join. split.
  - intros (l & Hl & (c & -> & Hc)%list_elem_of_fmap). rewrite Forall_forall in Hs.
    destruct (decide (c = 0%Z)) as [->|Hne]; [done|]. specialize (Hs c Hc).
    by destruct (encode_char_no_nul c); [lia|].
  - intros H. exists (encode_char 0). split; [by left|]. apply list_elem_of_fmap. by exists 0%Z.
Qed.

(** The arguments of the core are the options the map yields, with the user agent among them. *)
Lemma prepare_args_list iter (b : ChannelBuilder) :
  (forall o, iter o ≡ₚ map_to_list o) -> builder_ok b ->
  exists b', prepare_connect_args iter b =
      Done (Some <$> ((fun kv => mkArg (c_str kv.1) kv.2) <$> iter (options b')), b') /\
    builder_ok b' /\ Forall (fun kv => option_ok kv.1 kv.2) (iter (options b')) /\
    options b' !! GRPC_ARG_PRIMARY_USER_AGENT_STRING =
      Some (default (OptString (as_bytes "grpc-rust/0.9.0"))
              (options b !! GRPC_ARG_PRIMARY_USER_AGENT_STRING)) /\
    (forall k, k <> GRPC_ARG_PRIMARY_USER_AGENT_STRING -> options b' !! k = options b !! k).
Proof.
  intros Hiter Hb. unfold prepare_connect_args.
  destruct (with_user_agent b Hb) as (b' & Hself & Hb' & Hua & Hrest).
  rewrite Hself. cbn [obind]. unfold build_args, channel_args_create.
  assert (Forall (fun kv => option_ok kv.1 kv.2) (iter (options b'))) as HF.
  { rewrite Hiter. eapply Forall_impl; [by apply map_Forall_to_list, Hb'|]. by intros [k v]. }
  pose proof (build_args_loop_ok (iter (options b')) [] HF) as HL.
  assert (length (iter (options b')) = size (options b')) as Hsz.
  { rewrite Hiter. apply length_map_to_list. }
  rewrite Hsz in HL. cbn [length fmap list_fmap app] in HL. rewrite HL. cbn [obind].
  exists b'. done.
Qed.

(** The type the core documents for the value of an argument. *)
Inductive ArgType := TInteger | TString | TPointer.

Definition string_args : list (list byte) :=
  [GRPC_ARG_DEFAULT_AUTHORITY; GRPC_ARG_PRIMARY_USER_AGENT_STRING; GRPC_ARG_OPTIMIZATION_TARGET;
   GRPC_ARG_LB_POLICY_NAME; OPT_SSL_TARGET_NAME_OVERRIDE].

Definition arg_type (key : list byte) : ArgType :=
  if bool_decide (key ∈ string_args) then TString
  else if bool_decide (key = GRPC_ARG_RESOURCE_QUOTA) then TPointer
  else TInteger.

Definition option_type (v : Options) : ArgType :=
  match v with OptInteger _ => TInteger | OptString _ => TString | OptPointer _ => TPointer end.

Definition well_typed (b : ChannelBuilder) : Prop :=
  map_Forall (fun k v => arg_type k = option_type v) (options b).

Lemma setting_value_typed checks s v :
  setting_value checks s = Done v -> arg_type (setting_key s) = option_type v.
Proof.
  destruct s; cbn [setting_value setting_key]; unfold obind; intros E;
    try (destruct (dur_to_ms _ _); [|done]); try (destruct (CString_new _); [|done]);
    try (destruct (format_user_agent_string _); [|done]); injection E as <-;
    cbn [option_type]; vm_compute; reflexivity.
Qed.

(** A chain of setters. *)
Fixpoint apply_settings (checks : bool) (ss : list Setting) (b : ChannelBuilder) :
    outcome ChannelBuilder :=
  match ss with
  | [] => Done b
  | s :: ss => let+ b := apply_setting checks s b in apply_settings checks ss b
  end.

Lemma apply_settings_ok checks ss b b' :
  Forall setting_ok ss -> builder_ok b -> well_typed b ->
  apply_settings checks ss b = Done b' -> builder_ok b' /\ well_typed b'.
Proof.
  intros Hss. revert b. induction Hss as [|s ss Hs _ IH]; intros b Hb Ht; cbn [apply_settings].
  - by intros [= <-].
  - destruct (apply_setting checks s b) as [b1|] eqn:E; [|done]. cbn [obind].
    apply IH; [by eapply apply_setting_ok|]. rewrite apply_setting_insert in E.
    destruct (setting_value checks s) as [v|] eqn:Ev; [|done]. injection E as <-.
    apply map_Forall_insert_2; [by eapply setting_value_typed|done].
Qed.

(** ** Properties *)

(** Every setter of the builder has an option of its own: calls of different setters
    commute, of several calls of the same setter the last one counts, and all of them
    keep the options well formed. *)
Theorem channel_settings_commute (checks : bool) (s t : Setting) (b b1 b2 : ChannelBuilder) :
  apply_setting checks s b = Done b1 -> apply_setting checks t b = Done b2 ->
  (setting_name s <> setting_name t ->
     exists b', apply_setting checks t b1 = Done b' /\ apply_setting checks s b2 = Done b') /\
  (setting_name s = setting_name t -> apply_setting checks t b1 = Done b2) /\
  (setting_ok s -> builder_ok b -> builder_ok b1).
Proof.
  intros E1 E2. split; [|split].
  3: intros Hs Hb; by eapply apply_setting_ok.
  all: rewrite apply_setting_insert in E1, E2;
    destruct (setting_value checks s) as [v|] eqn:Es, (setting_value checks t) as [u|] eqn:Et;
    try done; simpl in E1, E2; injection E1 as <-; injection E2 as <-.
  all: destruct setter_table_NoDup as [H1 H2];
    pose proof (NoDup_fst_snd _ _ _ _ _ H1 H2 (setting_in_table s) (setting_in_table t)) as Hk.
  - intros Hne. eexists. rewrite !apply_setting_insert, Es, Et. simpl. split; [done|].
    unfold insert_option. simpl. do 2 f_equal. apply insert_insert_ne. tauto.
  - intros He. rewrite apply_setting_insert, Et. simpl. unfold insert_option. simpl.
    do 2 f_equal. apply Hk in He as ->. apply insert_insert_eq.
Qed.

(** C30: the arguments given to the core are exactly the options: one filled cell per
    option in whatever order the hash map yields them, with the user agent of the
    library added if none was set. *)
Theorem channel_args_exact iter (b : ChannelBuilder) :
  (forall o, iter o ≡ₚ map_to_list o) -> builder_ok b ->
  exists l b', prepare_connect_args iter b = Done ((Some <$> l), b') /\
    length l = size (options b') /\ NoDup (arg_key <$> l) /\
    (forall k v, mkArg k v ∈ l <-> (x00 ∉ k) /\ options b' !! (k ++ [x00]) = Some v) /\
    options b' !! GRPC_ARG_PRIMARY_USER_AGENT_STRING =
      Some (default (OptString (as_bytes "grpc-rust/0.9.0"))
              (options b !! GRPC_ARG_PRIMARY_USER_AGENT_STRING)) /\
    (forall k, k <> GRPC_ARG_PRIMARY_USER_AGENT_STRING -> options b' !! k = options b !! k).
Proof.
  intros Hiter Hb.
  destruct (prepare_args_list iter b Hiter Hb) as (b' & E & Hb' & HF & Hua & Hrest).
  eexists _, b'. split; [exact E|]. rewrite length_fmap.
  split; [rewrite Hiter; apply length_map_to_list|].
  assert (forall k v, (k, v) ∈ iter (options b') -> exists body, k = body ++ [x00] /\ (x00 ∉ body) /\
    c_str k = body) as Hkey.
  { intros k v Hin. rewrite Forall_forall in HF. destruct (HF (k, v) Hin) as [(body & Hk & Hn) _]. cbn [fst] in Hk. subst k.
    exists body. rewrite c_str_terminated; auto. }
  split; [|split; [|done]].
  - rewrite <-list_fmap_compose. apply NoDup_fmap_2_strong.
    + intros [k v] [k' v'] Hx Hy. simpl. intros Hc.
      destruct (Hkey k v Hx) as (y & -> & _ & Hy1). destruct (Hkey k' v' Hy) as (y' & -> & _ & Hy2).
      rewrite Hy1, Hy2 in Hc. subst y'. rewrite Hiter in Hx, Hy.
      apply elem_of_map_to_list in Hx, Hy. by simplify_eq.
    + rewrite Hiter. apply NoDup_map_to_list.
  - intros k v. rewrite list_elem_of_fmap. split.
    + intros ([k' v'] & [= -> ->] & Hin). destruct (Hkey k' v' Hin) as (y & -> & Hn & Hy). simpl.
      rewrite Hy. split; [done|]. rewrite Hiter in Hin. by apply elem_of_map_to_list in Hin.
    + intros [Hn Hl]. exists (k ++ [x00], v). simpl. rewrite c_str_terminated by done. split; [done|].
      rewrite Hiter. by apply elem_of_map_to_list.
Qed.


(** Durations are given to the core in milliseconds, saturated at the largest [i32],
    as long as the seconds fit in a [u64] of milliseconds; in a build with overflow
    checks a longer one panics. *)
Theorem dur_to_ms_saturates (checks : bool) (d : Duration) :
  duration_wf d ->
  ((as_secs d * 1000 + 999 < U64)%Z ->
   dur_to_ms checks d =
     Done (Z.min I32_MAX ((as_secs d * 1000000000 + subsec_nanos d) / 1000000))) /\
  ((U64 <= as_secs d * 1000)%Z -> exists m, dur_to_ms true d = Panicked m).
Proof.
  intros [Hs Hn]. split.
  - intros Hf. assert (0 <= subsec_nanos d / 1000000 <= 999)%Z as Hd.
    { split; [apply Z.div_pos; lia|]. change 999%Z with (999999999 / 1000000)%Z.
      apply Z.div_le_mono; lia. }
    replace ((as_secs d * 1000000000 + subsec_nanos d) / 1000000)%Z
      with (as_secs d * 1000 + subsec_nanos d / 1000000)%Z.
    2: { replace (as_secs d * 1000000000)%Z with (as_secs d * 1000 * 1000000)%Z by lia.
         rewrite Z.add_comm, <-Z.div_add by lia. f_equal. lia. }
    unfold dur_to_ms, checked_u, obind. destruct checks.
    + rewrite !bool_decide_eq_true_2 by lia. done.
    + rewrite (Z.mod_small (as_secs d * 1000)), Z.mod_small by lia. done.
  - intros Ho. exists "attempt to compute with overflow". unfold dur_to_ms, checked_u, obind.
    by rewrite bool_decide_eq_false_2 by lia.
Qed.

(** Without overflow checks the multiplication wraps around: about 585 million years
    become 384 milliseconds. *)
Theorem dur_to_ms_wraps :
  dur_to_ms false (mkDuration 18446744073709552 0) = Done 384%Z.
Proof. reflexivity. Qed.

(** Waiting for a connection ends, in the order of what is observed: with [true] at the
    first ready state, with [false] at the first wait that times out or the first
    shutdown state; it goes on through all other states. *)
Theorem wait_for_connected_result (state : ConnectivityState)
    (seen : list ConnectivityState) (ok : bool) (last_state : ConnectivityState)
    (later : list (bool * ConnectivityState)) :
  state <> GRPC_CHANNEL_READY ->
  Forall (fun st => st <> GRPC_CHANNEL_READY /\ st <> GRPC_CHANNEL_SHUTDOWN) seen ->
  wait_for_connected state ((fun st => (true, st)) <$> seen) = None /\
  (ok = false \/ last_state = GRPC_CHANNEL_READY \/ last_state = GRPC_CHANNEL_SHUTDOWN ->
   wait_for_connected state (((fun st => (true, st)) <$> seen) ++ (ok, last_state) :: later) =
     Some (ok && bool_decide (last_state = GRPC_CHANNEL_READY))).
Proof.
  intros Hs Hseen. unfold wait_for_connected. rewrite bool_decide_eq_false_2 by done.
  assert (forall rest, connected_loop (((fun st => (true, st)) <$> seen) ++ rest) = connected_loop rest)
    as Hskip.
  { intros rest. induction Hseen as [|st seen [H1 H2] _ IH]; simpl; [done|]. by destruct st. }
  split; [rewrite <-(app_nil_r (_ <$> _)); by rewrite Hskip|].
  rewrite Hskip. destruct ok; [|done]. intros [?|[->| ->]]; done.
Qed.

(** Waiting for a change of state: on an open queue the future is pending until the
    core completes the watch, and returns its outcome; on a queue that is shut down it
    returns [false] at once, and nothing frees the tag made for the watch. *)
Theorem state_change_result (st : ConnectivityState) (cx : Waker) (ok : bool) (w : WatchWorld) :
  let '(f, w1) := wait_for_state_change st w in
  ((0 < ref_cnt (ww_cq w))%Z ->
     ww_cq w1 = ww_cq w /\ (st, cq_f f) ∈ ww_watches w1 /\ ww_leaked w1 = ww_leaked w /\
     (exists w2, StateChange_poll cx f w1 = Done (Pending, w2)) /\
     (exists w2, StateChange_poll cx f (complete_watch (cq_f f) ok w1) = Done (Ready ok, w2))) /\
  ((ref_cnt (ww_cq w) <= 0)%Z ->
     StateChange_poll cx f w1 = Done (Ready false, w1) /\ ww_watches w1 = ww_watches w /\
     ww_leaked w1 = ww_leaked w ++ [cq_f f]).
Proof.
  destruct w as [cq ws acts lk]. unfold wait_for_state_change. simpl.
  destruct (decide (0 < ref_cnt cq)%Z) as [Hc|Hc].
  - rewrite add_ref_open by done. simpl. split; [|lia]. intros _.
    assert ((acts ++ [NotifyHandle_new]) !! length acts = Some (NotifyHandle_new (T:=bool))) as Hl.
    { by rewrite lookup_app_r, Nat.sub_diag. }
    split; [by apply unref_add_ref|]. split; [set_solver|]. split; [done|]. split.
    + eexists. unfold StateChange_poll. simpl. by rewrite Hl.
    + eexists. unfold StateChange_poll, complete_watch. simpl. rewrite Hl. simpl.
      rewrite list_lookup_insert_eq by (rewrite length_app; simpl; lia). reflexivity.
  - unfold add_ref. rewrite bool_decide_eq_true_2 by lia. simpl. split; [lia|]. done.
Qed.

(** The user agent is the given one without the white space around it, followed by the
    name and version of the library; only these when nothing but white space was given;
    and a character 0 in it panics. *)
Theorem user_agent_format (l core r : list Z) :
  Forall (fun c => is_whitespace c = true) l -> Forall (fun c => is_whitespace c = true) r ->
  (forall c, head core = Some c -> is_whitespace c = false) ->
  (forall c, last core = Some c -> is_whitespace c = false) ->
  Forall (fun c => 0 <= c < 1114112)%Z core ->
  format_user_agent_string (l ++ core ++ r) =
    if bool_decide (core = []) then Done (as_bytes "grpc-rust/0.9.0")
    else if bool_decide (0%Z ∈ core) then Panicked "nul byte found in provided data"
    else Done (encode_utf8 core ++ as_bytes " grpc-rust/0.9.0").
Proof.
  intros Hl Hr Hh Ht Hc. unfold format_user_agent_string. rewrite trim_spec by done.
  case_bool_decide as E; [done|]. unfold CString_new.
  match goal with |- (if ?a then _ else _) = (if ?b then _ else _) => assert (a = b) as -> end; [|done].
  apply bool_decide_ext. rewrite elem_of_app, encode_utf8_nul by done.
  assert (x00 ∉ as_bytes (" grpc-rust/" +:+ CARGO_PKG_VERSION)); [|tauto].
  apply (bool_decide_unpack _). vm_compute. exact I.
Qed.

(** ** Witnesses *)

Definition demo_builder : ChannelBuilder :=
  max_send_message_len (reuse_port ChannelBuilder_new true) (-1).

Lemma demo_builder_ok : builder_ok demo_builder.
Proof.
  apply (apply_setting_ok true (Set_max_send_message_len (-1)) (reuse_port ChannelBuilder_new true));
    [by vm_compute| |done].
  apply (apply_setting_ok true (Set_reuse_port true) ChannelBuilder_new); [done| |done].
  apply map_Forall_empty.
Qed.

Lemma channel_settings_commute_witness :
  exists b, apply_setting true (Set_reuse_port false)
      (max_send_message_len ChannelBuilder_new 5) = Done b /\
    apply_setting true (Set_max_send_message_len 5) (reuse_port ChannelBuilder_new false) = Done b.
Proof.
  apply (channel_settings_commute true (Set_max_send_message_len 5) (Set_reuse_port false)
    ChannelBuilder_new (max_send_message_len ChannelBuilder_new 5)
    (reuse_port ChannelBuilder_new false)).
  - reflexivity.
  - reflexivity.
  - discriminate.
Defined.

Lemma channel_args_exact_witness :
  exists l b', prepare_connect_args map_to_list demo_builder = Done ((Some <$> l), b') /\
    length l = size (options b').
Proof.
  destruct (channel_args_exact map_to_list demo_builder) as (l & b' & E & Hl & _).
  - intros o. reflexivity.
  - apply demo_builder_ok.
  - exists l, b'. split; [exact E | exact Hl].
Defined.

Lemma dur_to_ms_saturates_witness :
  dur_to_ms false (mkDuration 1 500000000) = Done (Z.min I32_MAX (1500000000 / 1000000)).
Proof.
  apply (dur_to_ms_saturates false (mkDuration 1 500000000)).
  - split; simpl; unfold U64; lia.
  - vm_compute. reflexivity.
Defined.

Lemma wait_for_connected_result_witness :
  wait_for_connected GRPC_CHANNEL_IDLE
    [(true, GRPC_CHANNEL_CONNECTING); (true, GRPC_CHANNEL_READY)] = Some true.
Proof.
  apply (wait_for_connected_result GRPC_CHANNEL_IDLE [GRPC_CHANNEL_CONNECTING] true
    GRPC_CHANNEL_READY []).
  - discriminate.
  - repeat constructor; discriminate.
  - right. left. reflexivity.
Defined.

Lemma state_change_result_witness :
  exists f w1 w2, wait_for_state_change GRPC_CHANNEL_IDLE
      (mkWatchWorld CompletionQueueHandle_new [] [] []) = (f, w1) /\
    StateChange_poll 1 f (complete_watch (cq_f f) true w1) = Done (Ready true, w2).
Proof.
  destruct (proj1 (state_change_result GRPC_CHANNEL_IDLE 1 true
    (mkWatchWorld CompletionQueueHandle_new [] [] [])) eq_refl) as (_ & _ & _ & _ & w2 & E).
  eexists _, _, w2. split; [reflexivity | exact E].
Defined.

Lemma user_agent_format_witness :
  format_user_agent_string [32; 120; 9]%Z = Done (as_bytes "x grpc-rust/0.9.0").
Proof.
  apply (user_agent_format [32]%Z [120]%Z [9]%Z).
  - repeat constructor.
  - repeat constructor.
  - intros c [= <-]. reflexivity.
  - intros c [= <-]. reflexivity.
  - repeat constructor; lia.
Defined.

