(* ===== verification/Lifetime.v ===== *)
(** How long native objects live: the environment, its completion queues and their poll
    threads, channels, and what refers to them (src/src/env.rs, src/src/cq.rs,
    src/src/channel.rs).

    A [Channel] shares the native channel and the environment with its clones and has a
    clone of one queue; calls have clones of a queue; the environment and each poll thread
    have one too.  The counts of [Arc] are explicit, and what is dropped when one reaches
    zero is dropped here in the order of the fields.  A program is any sequence of
    operations on the values it owns, mixed with poll threads that stop. *)

From S2P Require Import Prelude Count Status Cq.
Local Open Scope rust_scope.

(** The calls of the core that end native objects. *)
Inductive Native :=
| ChannelDestroy (c : nat)
| QueueShutdown (q : nat)
| QueueDestroy (q : nat).

#[export] Instance Native_eq_dec : EqDecision Native.
Proof. solve_decision. Defined.

(** A completion queue: the count of its [Arc], its handle, and whether its thread polls;
    [q_asked], that the program asked for its shutdown, only serves the statements. *)
Record Queue := mkQueue { q_strong : nat; q_handle : CompletionQueueHandle; q_running : bool; q_asked : bool }.

(** [env_strong]: the count of [Arc<Environment>], whose queues are all of [queues];
    [chans]: the counts of [Arc<ChannelInner>]. *)
Record Life := mkLife {
  env_strong : nat;
  chans : list nat;
  queues : list Queue;
  ended : list Native;
}.

Definition native (e : Native) : M Life unit :=
  modify (fun w => mkLife (env_strong w) (chans w) (queues w) (ended w ++ [e])).

Definition set_env (n : nat) : M Life unit :=
  modify (fun w => mkLife n (chans w) (queues w) (ended w)).

Definition set_chan (c n : nat) : M Life unit :=
  modify (fun w => mkLife (env_strong w) (<[c:=n]> (chans w)) (queues w) (ended w)).

Definition set_queue (q : nat) (x : Queue) : M Life unit :=
  modify (fun w => mkLife (env_strong w) (chans w) (<[q:=x]> (queues w)) (ended w)).

(** [Arc::clone] of an object that is there. *)
Definition clone_env : M Life unit :=
  let* n := gets env_strong in
  do* rassert (bool_decide (0 < n)) "use after free" in set_env (S n).

Definition clone_chan (c : nat) : M Life unit :=
  let* o := gets (fun w => chans w !! c) in
  let* n := unwrap o "no such channel" in
  do* rassert (bool_decide (0 < n)) "use after free" in set_chan c (S n).

Definition clone_cq (q : nat) : M Life unit :=
  let* o := gets (fun w => queues w !! q) in
  let* x := unwrap o "no such queue" in
  do* rassert (bool_decide (0 < q_strong x)) "use after free" in
  set_queue q (mkQueue (S (q_strong x)) (q_handle x) (q_running x) (q_asked x)).

(** Dropping a [CompletionQueue]; the last one drops the handle. *)
Definition CompletionQueue_drop (q : nat) : M Life unit :=
  let* o := gets (fun w => queues w !! q) in
  let* x := unwrap o "no such queue" in
  do* rassert (bool_decide (0 < q_strong x)) "use after free" in
  do* set_queue q (mkQueue (q_strong x - 1) (q_handle x) (q_running x) (q_asked x)) in
  if bool_decide (q_strong x = 1) then native (QueueDestroy q) else ret tt.

(** What the handle of queue [q] did to the native queue. *)
Definition shutdowns (q : nat) (h h' : CompletionQueueHandle) : list Native :=
  replicate (native_shutdowns h' - native_shutdowns h) (QueueShutdown q).

(** [for cq in self.completion_queues() { cq.shutdown() }], from queue [q] on. *)
Fixpoint shutdown_queues (q : nat) (xs : list Queue) : list Queue * list Native :=
  match xs with
  | [] => ([], [])
  | x :: xs =>
      let h := shutdown (q_handle x) in
      let '(ys, l) := shutdown_queues (S q) xs in
      (mkQueue (q_strong x) h (q_running x) (q_asked x) :: ys, shutdowns q (q_handle x) h ++ l)
  end.

Fixpoint drop_queues (qs : list nat) : M Life unit :=
  match qs with
  | [] => ret tt
  | q :: qs => do* CompletionQueue_drop q in drop_queues qs
  end.

(** [Environment::drop], and then its field [cqs]. *)
Definition Environment_drop : M Life unit :=
  do* modify (fun w => let '(xs, l) := shutdown_queues 0 (queues w) in
                       mkLife (env_strong w) (chans w) xs (ended w ++ l)) in
  let* n := gets (fun w => length (queues w)) in
  drop_queues (seq 0 n).

(** Dropping an [Arc<Environment>]. *)
Definition drop_env : M Life unit :=
  let* n := gets env_strong in
  do* rassert (bool_decide (0 < n)) "use after free" in
  do* set_env (n - 1) in
  if bool_decide (n = 1) then Environment_drop else ret tt.

(** Dropping an [Arc<ChannelInner>]: [ChannelInner::drop], and then its field [_env]. *)
Definition drop_chan (c : nat) : M Life unit :=
  let* o := gets (fun w => chans w !! c) in
  let* n := unwrap o "no such channel" in
  do* rassert (bool_decide (0 < n)) "use after free" in
  do* set_chan c (n - 1) in
  if bool_decide (n = 1) then do* native (ChannelDestroy c) in drop_env else ret tt.

(** ** Values

    [VRef]: a [CompletionQueueRef] with the queue it borrows, which cannot be dropped
    before it. *)
Inductive Val :=
| VEnv
| VChannel (inner cq : nat)
| VCq (cq : nat)
| VRef (queue : nat).

Inductive LifeOp :=
| OpCloneValue (i : nat)
| OpPickCq (i q : nat)
| OpChannelNew (i q : nat)
| OpCall (i : nat)
| OpBorrow (i : nat)
| OpShutdown (i q : nat)
| OpDropValue (i : nat)
| OpThreadStops (q : nat).

(** [ChannelBuilder::connect] in the end: the channel takes a clone of the environment and
    one of a queue that [pick_cq] chose. *)
Definition Channel_new (q : nat) : M Life Val :=
  do* clone_cq q in
  do* clone_env in
  let* c := gets (fun w => length (chans w)) in
  do* modify (fun w => mkLife (env_strong w) (chans w ++ [1]) (queues w) (ended w)) in
  ret (VChannel c q).

(** [CompletionQueue::borrow]: [None] when the queue is shut down. *)
Definition borrow (q : nat) : M Life bool :=
  let* o := gets (fun w => queues w !! q) in
  let* x := unwrap o "no such queue" in
  do* rassert (bool_decide (0 < q_strong x)) "use after free" in
  let '(r, h) := add_ref (q_handle x) in
  do* set_queue q (mkQueue (q_strong x) h (q_running x) (q_asked x)) in
  ret (match r with Ok _ => true | Err _ => false end).

(** [CompletionQueueRef::drop]. *)
Definition CompletionQueueRef_drop (q : nat) : M Life unit :=
  let* o := gets (fun w => queues w !! q) in
  let* x := unwrap o "no such queue" in
  do* rassert (bool_decide (0 < q_strong x)) "use after free" in
  let h := unref (q_handle x) in
  do* set_queue q (mkQueue (q_strong x) h (q_running x) (q_asked x)) in
  modify (fun w => mkLife (env_strong w) (chans w) (queues w) (ended w ++ shutdowns q (q_handle x) h)).

(** [CompletionQueue::shutdown], which a program can call, too. *)
Definition CompletionQueue_shutdown (q : nat) : M Life unit :=
  let* o := gets (fun w => queues w !! q) in
  let* x := unwrap o "no such queue" in
  do* rassert (bool_decide (0 < q_strong x)) "use after free" in
  let h := shutdown (q_handle x) in
  do* set_queue q (mkQueue (q_strong x) h (q_running x) true) in
  modify (fun w => mkLife (env_strong w) (chans w) (queues w) (ended w ++ shutdowns q (q_handle x) h)).

(** [Channel::create_call]: the queue is borrowed while the core makes the call, which then
    has a clone of it. *)
Definition create_call (q : nat) : M Life bool :=
  let* b := borrow q in
  if b then do* clone_cq q in do* CompletionQueueRef_drop q in ret true else ret false.

Definition drop_value (v : Val) : M Life unit :=
  match v with
  | VEnv => drop_env
  | VChannel c q => do* drop_chan c in CompletionQueue_drop q
  | VCq q => CompletionQueue_drop q
  | VRef q => do* CompletionQueueRef_drop q in CompletionQueue_drop q
  end.

(** The end of [poll_queue]: the core has reported the shutdown of the queue, which it does
    when it was asked, and the thread drops its queue. *)
Definition thread_stops (q : nat) : M Life unit :=
  let* o := gets (fun w => queues w !! q) in
  let* x := unwrap o "no such queue" in
  do* set_queue q (mkQueue (q_strong x) (q_handle x) false (q_asked x)) in
  CompletionQueue_drop q.

(** An operation on a value that is not there or has another type is no program and does
    nothing; neither does a thread that stopped, or whose queue is not shut down.  The
    environment shows its queues, so that they can be shut down through it or through a clone. *)
Definition run_op (op : LifeOp) (vs : list Val) : M Life (list Val) :=
  match op with
  | OpCloneValue i =>
      match vs !! i with
      | Some VEnv => do* clone_env in ret (VEnv :: vs)
      | Some (VChannel c q) => do* clone_chan c in do* clone_cq q in ret (VChannel c q :: vs)
      | Some (VCq q) => do* clone_cq q in ret (VCq q :: vs)
      | _ => ret vs
      end
  | OpPickCq i q =>
      match vs !! i with
      | Some VEnv =>
          let* n := gets (fun w => length (queues w)) in
          if bool_decide (q < n) then do* clone_cq q in ret (VCq q :: vs) else ret vs
      | _ => ret vs
      end
  | OpChannelNew i q =>
      match vs !! i with
      | Some VEnv =>
          let* n := gets (fun w => length (queues w)) in
          if bool_decide (q < n) then let* v := Channel_new q in ret (v :: vs) else ret vs
      | _ => ret vs
      end
  | OpCall i =>
      match vs !! i with
      | Some (VChannel _ q) => let* b := create_call q in ret (if b then VCq q :: vs else vs)
      | _ => ret vs
      end
  | OpBorrow i =>
      match vs !! i with
      | Some (VCq q) =>
          let* b := borrow q in ret (if b then VRef q :: delete i vs else vs)
      | _ => ret vs
      end
  | OpShutdown i q =>
      match vs !! i with
      | Some VEnv =>
          let* n := gets (fun w => length (queues w)) in
          if bool_decide (q < n) then do* CompletionQueue_shutdown q in ret vs else ret vs
      | Some (VCq q) => do* CompletionQueue_shutdown q in ret vs
      | _ => ret vs
      end
  | OpDropValue i =>
      match vs !! i with
      | Some v => do* drop_value v in ret (delete i vs)
      | None => ret vs
      end
  | OpThreadStops q =>
      let* o := gets (fun w => queues w !! q) in
      match o with
      | Some x =>
          if q_running x && bool_decide (0 < native_shutdowns (q_handle x))
          then do* thread_stops q in ret vs else ret vs
      | None => ret vs
      end
  end.

Fixpoint run_program (ops : list LifeOp) (vs : list Val) : M Life (list Val) :=
  match ops with
  | [] => ret vs
  | op :: ops => let* vs := run_op op vs in run_program ops vs
  end.

(** An environment of [n] queues in a new [Arc], its threads polling. *)
Definition new_life (n : nat) : Life :=
  mkLife 1 [] (replicate n (mkQueue 2 CompletionQueueHandle_new true false)) [].

(** ** What refers to what

    The references that values own: to the environment, to channels, to queues, and the
    borrows of queues. *)
Inductive Token := TEnv | TChan (c : nat) | TCq (q : nat) | TRef (q : nat).

#[export] Instance Token_eq_dec : EqDecision Token.
Proof. solve_decision. Defined.

Definition tokens (v : Val) : list Token :=
  match v with
  | VEnv => [TEnv]
  | VChannel c q => [TChan c; TCq q]
  | VCq q => [TCq q]
  | VRef q => [TRef q; TCq q]
  end.

Definition alive (w : Life) : bool := bool_decide (0 < env_strong w).

(** A queue serves while the environment is there and the program has not asked for its
    shutdown. *)
Definition serves (env : bool) (x : Queue) : bool := env && negb (q_asked x).

Definition asked (qs : list Queue) (q : nat) : bool := from_option q_asked false (qs !! q).

(** The handle of a queue with [r] borrows: shut down once it does not serve, and natively when
    then the last borrow is gone. *)
Definition handle_ok (open : bool) (r : nat) (h : CompletionQueueHandle) : Prop :=
  ref_cnt h = (if open then 1 + Z.of_nat r else - Z.of_nat r)%Z /\
  native_shutdowns h = if open then 0 else if decide (r = 0) then 1 else 0.

Record queue_ok (env : bool) (ts : list Token) (q : nat) (x : Queue) : Prop := {
  qo_strong : q_strong x = count (TCq q) ts + Nat.b2n env + Nat.b2n (q_running x);
  qo_handle : handle_ok (serves env x) (count (TRef q) ts) (q_handle x);
  qo_stopped : q_running x = false -> serves env x = false /\ count (TRef q) ts = 0;
}.

(** Native objects end once and in order: a channel before any queue is destroyed, and before
    any is shut down unless the program asked for that; a queue is shut down before it is
    destroyed. *)
Definition in_order (qs : list Queue) (before : list Native) (e : Native) : Prop :=
  match e with
  | ChannelDestroy _ => forall q, (QueueDestroy q ∉ before) /\ (QueueShutdown q ∈ before -> asked qs q = true)
  | QueueShutdown _ => True
  | QueueDestroy q => QueueShutdown q ∈ before
  end.

Definition ordered (qs : list Queue) (l : list Native) : Prop :=
  forall l1 e l2, l = l1 ++ e :: l2 -> in_order qs l1 e.

Record log_ok (w : Life) : Prop := {
  lo_chan c : count (ChannelDestroy c) (ended w) = if decide (chans w !! c = Some 0) then 1 else 0;
  lo_shut q : count (QueueShutdown q) (ended w) = default 0 ((fun x => native_shutdowns (q_handle x)) <$> queues w !! q);
  lo_destroy q : count (QueueDestroy q) (ended w) = if decide (q_strong <$> queues w !! q = Some 0) then 1 else 0;
  lo_order : ordered (queues w) (ended w);
}.

Definition live_chans (w : Life) : nat := length (filter (fun n => 0 < n) (chans w)).

Record Inv (ts : list Token) (w : Life) : Prop := {
  inv_env : env_strong w = count TEnv ts + live_chans w;
  inv_chan c : default 0 (chans w !! c) = count (TChan c) ts;
  inv_queue q x : queues w !! q = Some x -> queue_ok (alive w) ts q x;
  inv_range q : TCq q ∈ ts \/ TRef q ∈ ts -> is_Some (queues w !! q);
  inv_log : log_ok w;
}.

Lemma ordered_asked qs qs' l : (forall q, asked qs q = true -> asked qs' q = true) -> ordered qs l -> ordered qs' l.
Proof.
  intros Hq Hl l1 e l2 E. specialize (Hl l1 e l2 E). destruct e; [|done|done]. intros q. destruct (Hl q) as [H1 H2]. auto.
Qed.

Lemma ordered_snoc qs l e : ordered qs l -> in_order qs l e -> ordered qs (l ++ [e]).
Proof.
  intros Hl He l1 e' l2 E. destruct l2 as [|x l2 _] using rev_ind.
  - apply app_inj_tail in E as [<- <-]. done.
  - rewrite app_comm_cons, app_assoc in E. apply app_inj_tail in E as [-> _]. by eapply Hl.
Qed.

Lemma ordered_app qs l l' : ordered qs l -> Forall (fun e => forall k, in_order qs k e) l' -> ordered qs (l ++ l').
Proof.
  intros Hl Hl'. revert l Hl. induction Hl' as [|e l' He _ IH]; intros l Hl; [by rewrite app_nil_r|].
  rewrite cons_middle, app_assoc. apply IH. by apply ordered_snoc.
Qed.

Lemma live_chans_lookup w c n : chans w !! c = Some n -> 0 < n -> 0 < live_chans w.
Proof.
  intros Hc Hn. unfold live_chans. apply list_elem_of_lookup_2, list_elem_of_split in Hc as (l1 & l2 & ->).
  rewrite filter_app, filter_cons_True by done. rewrite length_app. cbn. lia.
Qed.

Lemma live_chans_insert c n m l : l !! c = Some n ->
  length (filter (fun n => 0 < n) (<[c:=m]> l)) + (if decide (0 < n) then 1 else 0) =
  length (filter (fun n => 0 < n) l) + (if decide (0 < m) then 1 else 0).
Proof.
  intros Hc. rewrite <-(take_drop_middle l c n Hc) at 2. rewrite insert_take_drop by (by eapply lookup_lt_Some).
  rewrite !filter_app, !filter_cons, !length_app. repeat case_decide; cbn; lia.
Qed.

(** ** The operations keep the invariant *)

Local Ltac proj := cbn [q_handle q_strong q_running q_asked env_strong chans queues ended].

Section operations.
Implicit Types (w : Life) (ts : list Token).

#[export] Instance Inv_proper : Proper ((≡ₚ) ==> eq ==> iff) Inv.
Proof.
  assert (forall ts ts' w, ts ≡ₚ ts' -> Inv ts w -> Inv ts' w) as H.
  { intros ts ts' w Hp [H1 H2 H3 H4 H5]. split;
      [by rewrite <-Hp|intros c; rewrite <-Hp; apply H2| |intros q; rewrite <-Hp; apply H4|done].
    intros q x Hx. destruct (H3 q x Hx) as [Q1 Q2 Q3]. by split; rewrite <-?Hp. }
  intros ts ts' Hp w ? <-. split; by apply H.
Qed.

(** Changing one queue: the environment, the channels and the other queues stay. *)
Lemma Inv_queue ts ts' w q x x' l : Inv ts w -> queues w !! q = Some x ->
  (forall t, t <> TCq q -> t <> TRef q -> count t ts' = count t ts) ->
  (queue_ok (alive w) ts q x -> queue_ok (alive w) ts' q x') ->
  log_ok (mkLife (env_strong w) (chans w) (<[q:=x']> (queues w)) (ended w ++ l)) ->
  Inv ts' (mkLife (env_strong w) (chans w) (<[q:=x']> (queues w)) (ended w ++ l)).
Proof.
  intros [H1 H2 H3 H4 H5] Hq Hc Hx Hl. pose proof (lookup_lt_Some _ _ _ Hq) as Hlt.
  assert (forall r, r = q \/ is_Some (queues w !! r) -> is_Some (<[q:=x']> (queues w) !! r)) as Hin.
  { intros r [->|Hr]; rewrite !lookup_lt_is_Some, length_insert in *; done. }
  split; cbn.
  - by rewrite Hc.
  - intros c. by rewrite Hc.
  - intros r y Hy. destruct (decide (q = r)) as [->|Hne].
    + rewrite list_lookup_insert_eq in Hy by done. injection Hy as <-. by apply Hx, H3.
    + rewrite list_lookup_insert_ne in Hy by done. destruct (H3 r y Hy) as [Q1 Q2 Q3].
      by split; rewrite ?Hc by congruence.
  - intros r Hr. apply Hin. destruct (decide (r = q)) as [->|Hne]; [by left|right]. apply H4.
    rewrite !count_elem, !Hc, <-!count_elem in Hr by congruence. done.
  - done.
Qed.

Lemma asked_insert w q x x' r : queues w !! q = Some x -> (q_asked x = true -> q_asked x' = true) ->
  asked (queues w) r = true -> asked (<[q:=x']> (queues w)) r = true.
Proof.
  intros Hq Hx. unfold asked. destruct (decide (q = r)) as [->|Hne]; [|by rewrite list_lookup_insert_ne].
  rewrite list_lookup_insert_eq by (by eapply lookup_lt_Some). rewrite Hq. exact Hx.
Qed.

(** The log when a queue changes its count or its handle. *)
Lemma log_queue w q x x' l : log_ok w -> queues w !! q = Some x ->
  (forall c, count (ChannelDestroy c) l = 0) ->
  (forall r, count (QueueShutdown r) l =
     if decide (q = r) then native_shutdowns (q_handle x') - native_shutdowns (q_handle x) else 0) ->
  native_shutdowns (q_handle x) <= native_shutdowns (q_handle x') ->
  (forall r, count (QueueDestroy r) l = if decide (q = r /\ q_strong x <> 0 /\ q_strong x' = 0) then 1 else 0) ->
  (q_strong x = 0 -> q_strong x' = 0) -> (q_asked x = true -> q_asked x' = true) -> ordered (queues w) (ended w ++ l) ->
  log_ok (mkLife (env_strong w) (chans w) (<[q:=x']> (queues w)) (ended w ++ l)).
Proof.
  intros [L1 L2 L3 L4] Hq C1 C2 C2' C3 Hz Ha Ho. pose proof (lookup_lt_Some _ _ _ Hq) as Hlt.
  split; cbn; [..|eapply ordered_asked; [|exact Ho]; intros r; by eapply asked_insert].
  - intros c. by rewrite count_app, C1, Nat.add_0_r.
  - intros r. rewrite count_app, C2, L2. destruct (decide (q = r)) as [->|Hne].
    + rewrite list_lookup_insert_eq, Hq by done. cbn. lia.
    + rewrite list_lookup_insert_ne by done. lia.
  - intros r. rewrite count_app, C3, L3. destruct (decide (q = r)) as [->|Hne].
    + rewrite list_lookup_insert_eq, Hq by done. cbn.
      repeat case_decide; simplify_eq; try lia; destruct (q_strong x), (q_strong x'); intuition (congruence || lia).
    + rewrite list_lookup_insert_ne by done. rewrite (decide_False (P:=q = r /\ _)) by tauto. lia.
Qed.

(** A method that returns, leaving these references. *)
Definition leaves {A} (c : M Life A) w (post : A -> Life -> Prop) : Prop :=
  exists a w', c w = Done (a, w') /\ post a w'.

Lemma leaves_bind {A B} (c : M Life A) (k : A -> M Life B) w P Q :
  leaves c w P -> (forall a w', P a w' -> leaves (k a) w' Q) -> leaves (bind c k) w Q.
Proof. intros (a & w1 & E & H) Hk. destruct (Hk a w1 H) as (b & w2 & E2 & H2). exists b, w2. unfold bind. by rewrite E. Qed.

Lemma leaves_ret {A} (a : A) w (P : A -> Life -> Prop) : P a w -> leaves (ret a) w P.
Proof. intros H. by exists a, w. Qed.

(** A queue some value or the environment refers to is there. *)
Lemma cq_there ts w q : Inv ts w -> TCq q ∈ ts -> exists x, queues w !! q = Some x /\ 0 < q_strong x.
Proof.
  intros HI Hq. destruct (inv_range _ _ HI q) as [x Hx]; [by left|]. exists x. split; [done|].
  rewrite (qo_strong _ _ _ _ (inv_queue _ _ HI q x Hx)). apply count_elem in Hq. lia.
Qed.

Lemma drop_cq_leaves ts w q : Inv (TCq q :: ts) w -> leaves (CompletionQueue_drop q) w (fun _ => Inv ts).
Proof.
  intros HI. destruct (cq_there _ _ q HI) as (x & Hq & Hs); [by left|].
  pose proof (inv_queue _ _ HI q x Hq) as [Q1 [Q2 Q2'] Q3]. rewrite !count_cons in *.
  rewrite decide_True in Q1 by done. rewrite decide_False in Q2, Q2', Q3 by done.
  set (x' := mkQueue (q_strong x - 1) (q_handle x) (q_running x) (q_asked x)).
  assert (Inv ts (mkLife (env_strong w) (chans w) (<[q:=x']> (queues w))
    (ended w ++ if bool_decide (q_strong x = 1) then [QueueDestroy q] else []))) as HI'.
  { subst x'. eapply (Inv_queue _ _ _ _ x); [exact HI | done | | |].
    - intros t H1 H2. by rewrite count_cons, decide_False.
    - intros _. split; proj; [lia|done|done].
    - assert (forall e, e <> QueueDestroy q -> count e (if bool_decide (q_strong x = 1) then [QueueDestroy q] else []) = 0)
        as Hno by (intros e He; case_bool_decide; [by rewrite count_cons, decide_False|done]).
      eapply log_queue; [apply HI | done | .. | proj; lia | done |].
      + intros c. by apply Hno.
      + intros r. rewrite Hno by done. proj. destruct (decide (q = r)); lia.
      + done.
      + intros r. proj. destruct (decide (q = r)) as [->|Hne].
        * case_bool_decide; [rewrite count_cons, !decide_True by (done || lia)|rewrite decide_False by lia]; done.
        * rewrite Hno, decide_False by (congruence || tauto). done.
      + case_bool_decide as H1; [|rewrite app_nil_r; apply HI]. apply ordered_snoc; [apply HI|]. cbn.
        apply count_elem. rewrite (lo_shut _ (inv_log _ _ HI)), Hq. cbn. rewrite Q2'.
        destruct Q3 as [Ha Hr]; [destruct (q_running x); cbn in Q1; [lia|done]|].
        rewrite Ha, decide_True by done. lia. }
  unfold leaves, CompletionQueue_drop, bind, gets. rewrite Hq. cbn. rewrite bool_decide_eq_true_2 by done. cbn.
  revert HI'. case_bool_decide; cbn; intros HI'; eexists tt, _; (split; [done|]); [done|]. by rewrite app_nil_r in HI'.
Qed.

Lemma clone_cq_leaves ts w q x : Inv ts w -> queues w !! q = Some x -> 0 < q_strong x ->
  leaves (clone_cq q) w (fun _ w' => Inv (TCq q :: ts) w' /\ env_strong w' = env_strong w /\ chans w' = chans w).
Proof.
  intros HI Hq Hs. unfold leaves, clone_cq, bind, gets. rewrite Hq. cbn. rewrite bool_decide_eq_true_2 by done. cbn.
  eexists tt, _. split; [done|]. split; [|done]. cbn. rewrite <-(app_nil_r (ended w)).
  eapply Inv_queue; [exact HI | done | | |].
  - intros t H1 H2. by rewrite count_cons, decide_False.
  - intros [Q1 Q2 Q3]. split; proj; rewrite count_cons; [rewrite decide_True by done; lia|by rewrite decide_False..].
  - eapply log_queue; [apply HI | done | done | .. | proj; lia | done |].
    + intros r. proj. destruct (decide (q = r)); [rewrite Nat.sub_diag|]; done.
    + done.
    + intros r. proj. rewrite decide_False by lia. done.
    + rewrite app_nil_r. apply HI.
Qed.

Lemma drop_queues_leaves qs ts w : Inv ((TCq <$> qs) ++ ts) w -> leaves (drop_queues qs) w (fun _ => Inv ts).
Proof.
  revert w. induction qs as [|q qs IH]; intros w HI; [by apply leaves_ret|].
  eapply leaves_bind; [apply (drop_cq_leaves ((TCq <$> qs) ++ ts)); exact HI|]. intros [] w' H. by apply IH.
Qed.

(** Borrowing: refused exactly when the queue does not serve. *)
Lemma borrow_leaves ts w q x : Inv ts w -> queues w !! q = Some x -> 0 < q_strong x ->
  leaves (borrow q) w (fun b w' => b = serves (alive w) x /\ alive w' = alive w /\ Inv (if b then TRef q :: ts else ts) w').
Proof.
  intros HI Hq Hs. unfold leaves, borrow, bind, gets. rewrite Hq. cbn. rewrite bool_decide_eq_true_2 by done. cbn.
  pose proof (inv_queue _ _ HI q x Hq) as [Q1 [Q2 Q2'] Q3]. unfold add_ref.
  destruct (serves (alive w) x) eqn:Ha; cbn in *.
  - rewrite bool_decide_eq_false_2 by lia. cbn. eexists _, _. split; [done|]. split; [done|]. split; [done|]. cbn.
    rewrite <-(app_nil_r (ended w)). eapply Inv_queue; [exact HI | done | | |].
    + intros t H1 H2. by rewrite count_cons, decide_False.
    + intros _. split; unfold serves in *; proj; rewrite ?Ha, ?count_cons; [by rewrite decide_False|
        rewrite decide_True by done; split; cbn [ref_cnt native_shutdowns]; [lia|done]|intros Hr; by destruct (Q3 Hr)].
    + eapply log_queue; [apply HI | done | done | .. | proj; lia | done |].
      * intros r. proj. destruct (decide (q = r)); [rewrite Nat.sub_diag|]; done.
      * done.
      * intros r. proj. rewrite decide_False by lia. done.
      * rewrite app_nil_r. apply HI.
  - rewrite bool_decide_eq_true_2 by lia. cbn. eexists _, _. split; [done|]. split; [done|]. cbn.
    destruct x as [n h b a]. cbn. rewrite list_insert_id by done. split; [done|]. by destruct w.
Qed.

Lemma unref_ok env r h : handle_ok env (S r) h -> handle_ok env r (unref h) /\ native_shutdowns h <= native_shutdowns (unref h).
Proof.
  intros [Hc Hn]. unfold unref, handle_ok. rewrite Hc. rewrite decide_False in Hn by done. destruct env.
  - rewrite Z.sgn_pos by lia. rewrite bool_decide_eq_false_2 by lia. cbn. split; [split; [lia|done]|lia].
  - rewrite Z.sgn_neg by lia. cbn in Hn. case_bool_decide as Hz; cbn; (destruct (decide (r = 0)); [|]);
      (split; [split|]); lia.
Qed.

Lemma shutdown_ok open r h : handle_ok open r h ->
  handle_ok false r (shutdown h) /\ native_shutdowns h <= native_shutdowns (shutdown h).
Proof.
  intros [Hc Hn]. unfold shutdown, handle_ok. rewrite Hc. destruct open;
    [|rewrite bool_decide_eq_true_2 by lia; split; [split; [lia|done]|done]]. rewrite bool_decide_eq_false_2 by lia. cbn in Hn.
  case_bool_decide as Hz; cbn; (destruct (decide (r = 0)); [|]); (split; [split|]); lia.
Qed.

Lemma ref_drop_leaves ts w q : Inv (TRef q :: ts) w -> TCq q ∈ ts ->
  leaves (CompletionQueueRef_drop q) w (fun _ => Inv ts).
Proof.
  intros HI Hin. destruct (cq_there _ _ q HI) as (x & Hq & Hs); [by right|].
  unfold leaves, CompletionQueueRef_drop, bind, gets. rewrite Hq. cbn. rewrite bool_decide_eq_true_2 by done. cbn.
  eexists tt, _. split; [done|]. proj. pose proof (inv_queue _ _ HI q x Hq) as [Q1 Q2 Q3]. rewrite !count_cons in Q2, Q3.
  rewrite decide_True in Q2, Q3 by done. apply unref_ok in Q2 as [Q2 Hle].
  eapply Inv_queue; [exact HI | done | | |].
  - intros t H1 H2. by rewrite count_cons, decide_False.
  - intros _. rewrite count_cons, decide_False in Q1 by done. split; proj; [done|done|].
    intros Hr. destruct (Q3 Hr) as [_ ?]. lia.
  - eapply log_queue; [apply HI | done | .. | done | done |]; proj; unfold shutdowns.
    + intros c. by rewrite count_replicate, decide_False.
    + intros r. rewrite count_replicate. destruct (decide (q = r)) as [->|]; [by rewrite decide_True|].
      by rewrite decide_False by congruence.
    + done.
    + intros r. rewrite count_replicate. by rewrite !decide_False by (congruence || lia).
    + apply ordered_app; [apply HI|]. by apply Forall_replicate.
Qed.

(** The count of the environment or of a channel changes, not what is alive. *)
Lemma log_counts w n cs : log_ok w -> (forall c, chans w !! c = Some 0 <-> cs !! c = Some 0) ->
  log_ok (mkLife n cs (queues w) (ended w)).
Proof.
  intros [L1 L2 L3 L4] H. split; [|done..]. intros c. proj. rewrite L1. specialize (H c).
  destruct (decide (chans w !! c = Some 0)), (decide (cs !! c = Some 0)); tauto.
Qed.

Lemma Inv_counts ts ts' w n cs : Inv ts w -> (0 < n <-> 0 < env_strong w) ->
  n = count TEnv ts' + length (filter (fun n => 0 < n) cs) ->
  (forall c, default 0 (cs !! c) = count (TChan c) ts') ->
  (forall q, count (TCq q) ts' = count (TCq q) ts /\ count (TRef q) ts' = count (TRef q) ts) ->
  (forall c, chans w !! c = Some 0 <-> cs !! c = Some 0) ->
  Inv ts' (mkLife n cs (queues w) (ended w)).
Proof.
  intros HI Hn Hnt Hc Hq Hz. split; proj; [done|done| | |].
  - intros q x Hx. destruct (inv_queue _ _ HI q x Hx) as [Q1 Q2 Q3].
    assert (alive (mkLife n cs (queues w) (ended w)) = alive w) as -> by (by apply bool_decide_ext).
    destruct (Hq q) as [E1 E2]. split; by rewrite ?E1, ?E2.
  - intros q Hin. apply (inv_range _ _ HI). destruct (Hq q) as [E1 E2].
    by rewrite !count_elem, E1, E2, <-!count_elem in Hin.
  - apply log_counts; [apply HI|done].
Qed.

Lemma clone_env_leaves ts w : Inv ts w -> 0 < env_strong w -> leaves clone_env w (fun _ => Inv (TEnv :: ts)).
Proof.
  intros HI Hn. unfold leaves, clone_env, bind, gets. rewrite bool_decide_eq_true_2 by done. cbn.
  eexists tt, _. split; [done|]. pose proof (inv_env _ _ HI) as He. unfold live_chans in He.
  eapply Inv_counts; [exact HI|lia| | | |done].
  - rewrite count_cons, decide_True by done. lia.
  - intros c. rewrite count_cons, decide_False by done. apply HI.
  - intros q. by rewrite !count_cons, !decide_False.
Qed.

Lemma clone_chan_leaves ts w c : Inv ts w -> TChan c ∈ ts -> leaves (clone_chan c) w (fun _ => Inv (TChan c :: ts)).
Proof.
  intros HI Hc%count_elem. pose proof (inv_chan _ _ HI c) as Hd. pose proof (inv_env _ _ HI) as He. unfold live_chans in He.
  destruct (chans w !! c) as [n|] eqn:En; cbn in Hd; [|lia]. pose proof (lookup_lt_Some _ _ _ En) as Hlt.
  unfold leaves, clone_chan, bind, gets. rewrite En. cbn. rewrite bool_decide_eq_true_2 by lia. cbn.
  eexists tt, _. split; [done|]. eapply Inv_counts; [exact HI|done|..].
  - rewrite count_cons, decide_False by done.
    pose proof (live_chans_insert c n (S n) (chans w) En) as Hl. rewrite !decide_True in Hl by lia. lia.
  - intros c'. rewrite count_cons. destruct (decide (c = c')) as [->|Hne].
    + rewrite list_lookup_insert_eq, decide_True by done. cbn. lia.
    + rewrite list_lookup_insert_ne, decide_False by congruence. apply HI.
  - intros q. by rewrite !count_cons, !decide_False.
  - intros c'. destruct (decide (c = c')) as [->|Hne]; [|by rewrite list_lookup_insert_ne].
    rewrite list_lookup_insert_eq, En by done. split; intros [=]; lia.
Qed.

(** ** The end of the environment *)

Definition shut_queue (x : Queue) : Queue := mkQueue (q_strong x) (shutdown (q_handle x)) (q_running x) (q_asked x).

Lemma shutdown_queues_spec k xs :
  (shutdown_queues k xs).1 = shut_queue <$> xs /\
  let l := (shutdown_queues k xs).2 in
  Forall (fun e => exists q, e = QueueShutdown q) l /\
  (forall q, count (QueueShutdown q) l = if decide (k <= q) then
     default 0 ((fun x => native_shutdowns (shutdown (q_handle x)) - native_shutdowns (q_handle x)) <$> xs !! (q - k))
   else 0).
Proof.
  revert k. induction xs as [|x xs IH]; intros k; cbn [shutdown_queues].
  - split; [done|]. split; [constructor|]. intros q. by case_decide.
  - destruct (IH (S k)) as (E & Hf & Hc). destruct (shutdown_queues (S k) xs) as [ys l]. cbn [fst snd] in *. subst ys.
    split; [done|]. split.
    { apply Forall_app. split; [|done]. apply Forall_replicate. by eexists. }
    intros q. rewrite count_app, Hc. unfold shutdowns. rewrite count_replicate.
    destruct (decide (q = k)) as [->|Hne].
    + rewrite decide_True, decide_False, decide_True, Nat.sub_diag by (done || lia). cbn. lia.
    + rewrite decide_False by congruence. destruct (decide (S k <= q)); [|by rewrite decide_False by lia].
      rewrite decide_True by lia. by replace (q - k) with (S (q - S k)) by lia.
Qed.

Lemma count_seq q k n : count (TCq q) (TCq <$> seq k n) = if decide (k <= q < k + n) then 1 else 0.
Proof.
  revert k. induction n as [|n IH]; intros k; cbn [seq].
  - rewrite decide_False by lia. done.
  - rewrite fmap_cons, count_cons, IH. destruct (decide (TCq q = TCq k)) as [[= ->]|Hne].
    + rewrite decide_False, decide_True by lia. done.
    + assert (q <> k) by congruence. destruct (decide (S k <= q < S k + n)), (decide (k <= q < k + S n)); lia.
Qed.

Lemma count_seq_ne t k n : (forall q, t <> TCq q) -> count t (TCq <$> seq k n) = 0.
Proof. intros H. apply count_zero. intros (q & -> & _)%list_elem_of_fmap. by destruct (H q). Qed.

(** The last reference to the environment goes: its queues are shut down, and its clones of
    them are left to be dropped. *)
Lemma env_ends ts w : Inv (TEnv :: ts) w -> env_strong w = 1 ->
  Inv ((TCq <$> seq 0 (length (queues w))) ++ ts)
    (mkLife 0 (chans w) (shutdown_queues 0 (queues w)).1 (ended w ++ (shutdown_queues 0 (queues w)).2)).
Proof.
  intros HI H1. destruct (shutdown_queues_spec 0 (queues w)) as (-> & Hf & Hc).
  pose proof (inv_env _ _ HI) as He. rewrite count_cons, decide_True in He by done.
  assert (alive w = true) as Ha by (by apply bool_decide_eq_true_2; lia).
  assert (forall t, (forall q, t <> TCq q) -> t <> TEnv ->
    count t ((TCq <$> seq 0 (length (queues w))) ++ ts) = count t (TEnv :: ts)) as Ht.
  { intros t Ht Hne. by rewrite count_app, count_seq_ne, count_cons, decide_False. }
  split; proj.
  - rewrite count_app, count_seq_ne by done. unfold live_chans in *. proj. lia.
  - intros c. rewrite Ht by done. apply HI.
  - intros q y Hy. rewrite list_lookup_fmap in Hy. apply fmap_Some in Hy as (x & Hy & ->).
    destruct (inv_queue _ _ HI q x Hy) as [Q1 Q2 Q3]. rewrite Ha in *.
    change (alive _) with false. unfold shut_queue, serves in *. apply shutdown_ok in Q2 as [Q2 _].
    pose proof (lookup_lt_Some _ _ _ Hy) as Hlt. rewrite count_cons, decide_False in Q1 by done.
    split; proj.
    + rewrite count_app, count_seq, decide_True by lia. cbn in *. lia.
    + by rewrite Ht.
    + intros Hr. destruct (Q3 Hr) as [_ ?]. split; [done|by rewrite Ht].
  - intros q Hin. rewrite list_lookup_fmap. apply fmap_is_Some. destruct (decide (q < length (queues w))) as [Hlt|Hge]; [by apply lookup_lt_is_Some|].
    apply (inv_range _ _ HI). rewrite !count_elem, !(count_cons _ TEnv) in *.
    rewrite !count_app, count_seq, (count_seq_ne (TRef q)), decide_False in Hin by (done || lia). cbn. lia.
  - destruct (inv_log _ _ HI) as [L1 L2 L3 L4].
    assert (forall e, (forall q, e <> QueueShutdown q) -> count e (shutdown_queues 0 (queues w)).2 = 0) as Hno.
    { intros e Hne. apply count_zero. intros Hin. rewrite Forall_forall in Hf. destruct (Hf e Hin) as [q ->].
      by destruct (Hne q). }
    split; proj.
    + intros c. by rewrite count_app, Hno, Nat.add_0_r.
    + intros q. rewrite count_app, Hc, L2, decide_True, Nat.sub_0_r, list_lookup_fmap by lia.
      destruct (queues w !! q) as [x|] eqn:Eq; [|done]. cbn.
      destruct (inv_queue _ _ HI q x Eq) as [_ Q2 _]. apply shutdown_ok in Q2 as [_ Hle]. lia.
    + intros q. rewrite count_app, Hno, Nat.add_0_r, L3, list_lookup_fmap by done. by destruct (queues w !! q).
    + apply ordered_app; [|eapply Forall_impl; [exact Hf|]; by intros e [q ->]].
      eapply ordered_asked; [|exact L4]. intros q. unfold asked. rewrite list_lookup_fmap. by destruct (queues w !! q).
Qed.

Lemma drop_env_leaves ts w : Inv (TEnv :: ts) w -> leaves drop_env w (fun _ => Inv ts).
Proof.
  intros HI. pose proof (inv_env _ _ HI) as He. unfold live_chans in He. rewrite count_cons, decide_True in He by done.
  unfold leaves, drop_env, bind, gets. rewrite bool_decide_eq_true_2 by lia. cbn -[Nat.sub].
  destruct (bool_decide (env_strong w = 1)) eqn:E1.
  - apply bool_decide_eq_true in E1. pose proof (env_ends ts w HI E1) as HI'.
    unfold Environment_drop, bind, gets, modify. rewrite E1. cbn -[seq shutdown_queues].
    pose proof (proj1 (shutdown_queues_spec 0 (queues w))) as Hl.
    destruct (shutdown_queues 0 (queues w)) as [ys l]. cbn -[seq] in *.
    assert (length ys = length (queues w)) as -> by (subst ys; apply length_fmap).
    by apply drop_queues_leaves.
  - apply bool_decide_eq_false in E1. eexists tt, _. split; [done|].
    eapply Inv_counts; [exact HI|lia|lia| | |done].
    + intros c. pose proof (inv_chan _ _ HI c) as Hc. by rewrite count_cons, decide_False in Hc.
    + intros q. by rewrite !count_cons, !decide_False.
Qed.

(** While the environment is there, no queue is destroyed, and no native queue is shut down
    unless that was asked for. *)
Lemma alive_in_order ts w q : Inv ts w -> 0 < env_strong w ->
  (QueueDestroy q ∉ ended w) /\ (QueueShutdown q ∈ ended w -> asked (queues w) q = true).
Proof.
  intros HI Hn. assert (alive w = true) as Ha by (by apply bool_decide_eq_true_2). split.
  - apply count_zero. rewrite (lo_destroy _ (inv_log _ _ HI)). destruct (queues w !! q) as [x|] eqn:Eq; [|done]. cbn.
    rewrite (qo_strong _ _ _ _ (inv_queue _ _ HI q x Eq)), Ha. cbn. rewrite decide_False; [done|]. intros [=]. lia.
  - intros Hin%count_elem. rewrite (lo_shut _ (inv_log _ _ HI)) in Hin. unfold asked.
    destruct (queues w !! q) as [x|] eqn:Eq; cbn in *; [|lia].
    destruct (inv_queue _ _ HI q x Eq) as [_ [_ Q] _]. rewrite Ha in Q. unfold serves in Q.
    destruct (q_asked x); [done|]. cbn in Q. lia.
Qed.

(** The program shuts a queue down. *)
Lemma shutdown_leaves ts w q x : Inv ts w -> queues w !! q = Some x -> 0 < q_strong x ->
  leaves (CompletionQueue_shutdown q) w (fun _ => Inv ts).
Proof.
  intros HI Hq Hs. unfold leaves, CompletionQueue_shutdown, bind, gets. rewrite Hq. cbn -[shutdown].
  rewrite bool_decide_eq_true_2 by done. cbn -[shutdown]. eexists tt, _. split; [done|]. proj.
  pose proof (inv_queue _ _ HI q x Hq) as [Q1 Q2 Q3]. apply shutdown_ok in Q2 as [Q2 Hle].
  eapply Inv_queue; [exact HI | done | done | |].
  - intros _. split; unfold serves; proj; rewrite ?andb_false_r; [done|done|]. intros Hr. by destruct (Q3 Hr).
  - eapply log_queue; [apply HI | done | .. | done | done |]; proj; unfold shutdowns.
    + intros c. by rewrite count_replicate, decide_False.
    + intros r. rewrite count_replicate. destruct (decide (q = r)) as [->|]; [by rewrite decide_True|].
      by rewrite decide_False by congruence.
    + done.
    + intros r. rewrite count_replicate. by rewrite !decide_False by (congruence || lia).
    + apply ordered_app; [apply HI|]. by apply Forall_replicate.
Qed.

(** ** Channels *)

(** The last [Channel] goes: the native channel is destroyed, and a reference to the
    environment is left to be dropped. *)
Lemma chan_ends ts w c : Inv (TChan c :: ts) w -> chans w !! c = Some 1 ->
  Inv (TEnv :: ts) (mkLife (env_strong w) (<[c:=0]> (chans w)) (queues w) (ended w ++ [ChannelDestroy c])).
Proof.
  intros HI Hc. pose proof (lookup_lt_Some _ _ _ Hc) as Hlt.
  pose proof (live_chans_insert c 1 0 (chans w) Hc) as Hl. rewrite decide_True, decide_False in Hl by lia.
  pose proof (live_chans_lookup w c 1 Hc ltac:(lia)) as Hpos.
  pose proof (inv_env _ _ HI) as He. rewrite count_cons, decide_False in He by done. unfold live_chans in *.
  assert (forall t, t <> TEnv -> t <> TChan c -> count t (TEnv :: ts) = count t (TChan c :: ts)) as Ht.
  { intros t H1 H2. by rewrite !count_cons, !decide_False. }
  split; proj.
  - rewrite count_cons, decide_True by done. unfold live_chans. proj. lia.
  - intros c'. pose proof (inv_chan _ _ HI c') as Hc'. destruct (decide (c = c')) as [->|Hne].
    + rewrite list_lookup_insert_eq by done. rewrite Hc, count_cons, decide_True in Hc' by done. cbn in *.
      rewrite count_cons, decide_False by done. lia.
    + by rewrite list_lookup_insert_ne, Ht by congruence.
  - intros q x Hx. destruct (inv_queue _ _ HI q x Hx) as [Q1 Q2 Q3]. split; by rewrite ?Ht.
  - intros q Hin. apply (inv_range _ _ HI). by rewrite !count_elem, !Ht, <-!count_elem in Hin.
  - destruct (inv_log _ _ HI) as [L1 L2 L3 L4]. split; proj.
    + intros c'. rewrite count_app, count_cons, L1. destruct (decide (c = c')) as [->|Hne].
      * rewrite list_lookup_insert_eq, Hc by done. rewrite decide_False, !decide_True by congruence. done.
      * rewrite list_lookup_insert_ne by done. rewrite (decide_False (P:=ChannelDestroy c' = _)) by congruence.
        cbn. by rewrite Nat.add_0_r.
    + intros q. rewrite count_app, L2, count_cons, decide_False, count_nil by done. lia.
    + intros q. rewrite count_app, L3, count_cons, (decide_False (P:=_ = ChannelDestroy c)), count_nil by done. lia.
    + apply ordered_snoc; [done|]. intros q. eapply alive_in_order; [done|lia].
Qed.

Lemma drop_chan_leaves ts w c : Inv (TChan c :: ts) w -> leaves (drop_chan c) w (fun _ => Inv ts).
Proof.
  intros HI. pose proof (inv_chan _ _ HI c) as Hd. rewrite count_cons, decide_True in Hd by done.
  pose proof (inv_env _ _ HI) as He. unfold live_chans in He. rewrite count_cons, decide_False in He by done.
  destruct (chans w !! c) as [n|] eqn:En; cbn in Hd; [|lia]. pose proof (lookup_lt_Some _ _ _ En) as Hlt.
  unfold leaves, drop_chan, bind, gets. rewrite En. cbn -[Nat.sub]. rewrite bool_decide_eq_true_2 by lia. cbn -[Nat.sub].
  destruct (bool_decide (n = 1)) eqn:E1.
  - apply bool_decide_eq_true in E1 as ->. 
    apply (drop_env_leaves ts (mkLife (env_strong w) (<[c:=0]> (chans w)) (queues w) (ended w ++ [ChannelDestroy c]))).
    by apply chan_ends.
  - apply bool_decide_eq_false in E1. eexists tt, _. split; [done|]. eapply Inv_counts; [exact HI|done|..].
    + pose proof (live_chans_insert c n (n - 1) (chans w) En) as Hl. rewrite !decide_True in Hl by lia. lia.
    + intros c'. pose proof (inv_chan _ _ HI c') as Hc'. rewrite count_cons in Hc'. destruct (decide (c = c')) as [->|Hne].
      * rewrite list_lookup_insert_eq by done. cbn -[Nat.sub]. lia.
      * rewrite list_lookup_insert_ne by done. by rewrite decide_False in Hc' by congruence.
    + intros q. by rewrite !count_cons, !decide_False.
    + intros c'. destruct (decide (c = c')) as [->|Hne]; [|by rewrite list_lookup_insert_ne].
      rewrite list_lookup_insert_eq, En by done. split; intros [=]; lia.
Qed.

Lemma Channel_new_leaves ts w q x : Inv ts w -> 0 < env_strong w -> queues w !! q = Some x -> 0 < q_strong x ->
  leaves (Channel_new q) w (fun v => Inv (tokens v ++ ts)).
Proof.
  intros HI Hn Hq Hs. eapply leaves_bind; [by eapply clone_cq_leaves|]. intros [] w1 (HI1 & Hn1 & _).
  eapply leaves_bind; [apply clone_env_leaves; [exact HI1|lia]|]. intros [] w2 HI2.
  unfold leaves, bind, gets, modify, ret. eexists _, _. split; [done|]. cbn [tokens app].
  pose proof (inv_env _ _ HI2) as He. unfold live_chans in He.
  rewrite !count_cons, decide_True, decide_False in He by done. eapply Inv_counts; [exact HI2|done|..].
  - rewrite filter_app, length_app, !count_cons, !decide_False by done. cbn. rewrite decide_True by lia. cbn. lia.
  - intros c. pose proof (inv_chan _ _ HI2 c) as Hc. rewrite !count_cons in *. cbn -[decide] in *.
    rewrite (decide_False (P:=TChan c = TEnv)), (decide_False (P:=TChan c = TCq q)) in * by done.
    destruct (decide (c = length (chans w2))) as [->|Hne].
    + rewrite decide_True by done. rewrite list_lookup_middle by done. rewrite lookup_ge_None_2 in Hc by done. cbn in *. lia.
    + rewrite decide_False by congruence. rewrite !Nat.add_0_l in *. rewrite <-Hc.
      destruct (decide (c < length (chans w2))); [by rewrite lookup_app_l|].
      rewrite !lookup_ge_None_2; [done|..]; rewrite ?length_app; cbn; lia.
  - intros r. by rewrite !count_cons, !(decide_False (P:=_ = TChan _)), !(decide_False (P:=_ = TEnv)).
  - intros c. destruct (decide (c < length (chans w2))); [by rewrite lookup_app_l|].
    rewrite lookup_ge_None_2 by lia. split; [done|]. destruct (decide (c = length (chans w2))) as [->|];
      [by rewrite list_lookup_middle|]. rewrite lookup_ge_None_2; [done|]. rewrite length_app. cbn. lia.
Qed.

(** ** Threads *)

Lemma thread_stops_leaves ts w q x : Inv ts w -> queues w !! q = Some x -> q_running x = true ->
  0 < native_shutdowns (q_handle x) -> leaves (thread_stops q) w (fun _ => Inv ts).
Proof.
  intros HI Hq Hr Hn. unfold leaves, thread_stops, bind at 1 2 3, gets. rewrite Hq. cbn -[CompletionQueue_drop].
  apply drop_cq_leaves. cbn. rewrite <-(app_nil_r (ended w)).
  pose proof (inv_queue _ _ HI q x Hq) as [Q1 [Q2 Q2'] Q3].
  assert (serves (alive w) x = false /\ count (TRef q) ts = 0) as [Ha Hc0].
  { destruct (serves (alive w) x); [lia|]. destruct (decide (count (TRef q) ts = 0)); [done|lia]. }
  eapply Inv_queue; [exact HI | done | | |].
  - intros t H1 H2. by rewrite count_cons, decide_False.
  - intros _. split; proj; rewrite !count_cons.
    + rewrite decide_True by done. rewrite Hr in Q1. cbn in *. lia.
    + rewrite decide_False by done. done.
    + rewrite decide_False by done. done.
  - rewrite Hr in Q1. cbn in Q1. eapply log_queue; [apply HI | done | done | .. | proj; lia | done |].
    + intros r. proj. destruct (decide (q = r)); [rewrite Nat.sub_diag|]; done.
    + done.
    + intros r. proj. rewrite decide_False by lia. done.
    + rewrite app_nil_r. apply HI.
Qed.
End operations.

(** ** Programs *)

Section programs.
Implicit Types (w : Life) (vs : list Val).

Definition consistent vs w : Prop := Inv (vs ≫= tokens) w.

Lemma value_out vs w i v : consistent vs w -> vs !! i = Some v -> Inv (tokens v ++ (delete i vs ≫= tokens)) w.
Proof.
  intros HI Hi. change (tokens v ++ (delete i vs ≫= tokens)) with ((v :: delete i vs) ≫= tokens).
  rewrite <-(delete_Permutation _ _ _ Hi). exact HI.
Qed.

Lemma token_in vs v t : v ∈ vs -> t ∈ tokens v -> t ∈ vs ≫= tokens.
Proof. intros Hv Ht. apply list_elem_of_bind. by exists v. Qed.

Lemma env_there vs w : consistent vs w -> TEnv ∈ vs ≫= tokens -> 0 < env_strong w.
Proof. intros HI Hin%count_elem. rewrite (inv_env _ _ HI). lia. Qed.

Lemma chan_there vs w c : consistent vs w -> TChan c ∈ vs ≫= tokens ->
  0 < env_strong w /\ exists n, chans w !! c = Some (S n).
Proof.
  intros HI Hin%count_elem. pose proof (inv_chan _ _ HI c) as Hc.
  destruct (chans w !! c) as [[|n]|] eqn:E; cbn in Hc; [lia| |lia]. split; [|by exists n].
  rewrite (inv_env _ _ HI). pose proof (live_chans_lookup w c (S n) E). lia.
Qed.

Lemma queue_there vs w q : consistent vs w -> 0 < env_strong w -> q < length (queues w) ->
  exists x, queues w !! q = Some x /\ 0 < q_strong x.
Proof.
  intros HI Hn Hq. apply lookup_lt_is_Some in Hq as [x Hx]. exists x. split; [done|].
  rewrite (qo_strong _ _ _ _ (inv_queue _ _ HI q x Hx)). unfold alive. rewrite bool_decide_eq_true_2 by done. cbn. lia.
Qed.

(** A queue that a value refers to can be cloned and borrowed. *)
Lemma create_call_leaves vs w q : consistent vs w -> TCq q ∈ vs ≫= tokens ->
  leaves (create_call q) w (fun b w' => b = alive w && negb (asked (queues w) q) /\ Inv ((if b then [TCq q] else []) ++ (vs ≫= tokens)) w').
Proof.
  intros HI Hin. destruct (cq_there _ _ q HI Hin) as (x & Hq & Hs).
  eapply leaves_bind; [by eapply borrow_leaves|]. unfold asked. rewrite Hq. cbn [from_option].
  intros b w1 (-> & _ & H1). fold (serves (alive w) x). destruct (serves (alive w) x); [|by apply leaves_ret].
  destruct (cq_there _ _ q H1) as (x1 & Hq1 & Hs1); [by right|].
  eapply leaves_bind; [by eapply clone_cq_leaves|]. intros [] w2 (H2 & _).
  eapply leaves_bind; [apply (ref_drop_leaves (TCq q :: (vs ≫= tokens)))|].
  - by rewrite Permutation_swap.
  - by left.
  - intros [] w3 H3. by apply leaves_ret.
Qed.

Lemma drop_value_leaves v ts w : Inv (tokens v ++ ts) w -> leaves (drop_value v) w (fun _ => Inv ts).
Proof.
  destruct v as [|c q|q|q]; cbn [tokens app drop_value]; intros HI.
  - by apply drop_env_leaves.
  - eapply leaves_bind; [by apply drop_chan_leaves|]. intros [] w' H. by apply drop_cq_leaves.
  - by apply drop_cq_leaves.
  - eapply leaves_bind; [apply ref_drop_leaves; [exact HI|by left]|]. intros [] w' H. by apply drop_cq_leaves.
Qed.

Lemma run_op_leaves op vs w : consistent vs w -> leaves (run_op op vs) w consistent.
Proof.
  intros HI.
  assert (forall i v, vs !! i = Some v -> v ∈ vs) as Hin by (intros; by eapply list_elem_of_lookup_2).
  assert (forall i v q, vs !! i = Some v -> TCq q ∈ tokens v ->
    leaves (clone_cq q) w (fun _ w' => Inv (TCq q :: (vs ≫= tokens)) w')) as Hclone.
  { intros i v q Hi Ht. destruct (cq_there _ _ q HI) as (x & Hq & Hs); [by eapply token_in; eauto|].
    destruct (clone_cq_leaves _ _ _ _ HI Hq Hs) as (a & w' & E & H & _). by exists a, w'. }
  assert (leaves (ret vs) w consistent) as Hsame by (by apply leaves_ret).
  destruct op as [i|i q|i q|i|i|i q|i|q]; cbn [run_op]; try (destruct (vs !! i) as [[|c q'|q'|q']|] eqn:Hi; try exact Hsame).
  - eapply leaves_bind; [apply clone_env_leaves; [exact HI|]|intros [] w' H; by apply leaves_ret].
    eapply env_there; [done|]. eapply token_in; [by eauto|by left].
  - eapply leaves_bind; [apply clone_chan_leaves; [exact HI|by eapply token_in; [eauto|left]]|].
    intros [] w1 H1. destruct (cq_there _ _ q' H1) as (x & Hq & Hs).
    { right. by eapply token_in; [eauto|right; left]. }
    eapply leaves_bind; [by eapply clone_cq_leaves|]. intros [] w2 (H2 & _). apply leaves_ret.
    change (Inv ([TChan c; TCq q'] ++ (vs ≫= tokens)) w2). by rewrite Permutation_swap.
  - eapply leaves_bind; [eapply Hclone; [done|by left]|]. intros [] w' H. by apply leaves_ret.
  - assert (0 < env_strong w) as Hn by (by eapply env_there, token_in; [|eauto|left]).
    unfold leaves, bind at 1, gets. case_bool_decide; [|exact Hsame].
    destruct (queue_there _ _ q HI Hn) as (x & Hq & Hs); [done|].
    eapply leaves_bind; [by eapply clone_cq_leaves|]. intros [] w' (H' & _). by apply leaves_ret.
  - assert (0 < env_strong w) as Hn by (by eapply env_there, token_in; [|eauto|left]).
    unfold leaves, bind at 1, gets. case_bool_decide; [|exact Hsame].
    destruct (queue_there _ _ q HI Hn) as (x & Hq & Hs); [done|].
    eapply leaves_bind; [by eapply Channel_new_leaves|]. intros v w' H'. by apply leaves_ret.
  - eapply leaves_bind; [eapply create_call_leaves; [done|by eapply token_in; [eauto|right; left]]|].
    intros b w' [_ H]. apply leaves_ret. by destruct b.
  - destruct (cq_there _ _ q' HI) as (x & Hq & Hs); [by eapply token_in; [eauto|left]|].
    eapply leaves_bind; [by eapply borrow_leaves|]. intros b w' (_ & _ & H). apply leaves_ret. destruct b; [|exact H].
    change (Inv ([TRef q'; TCq q'] ++ (delete i vs ≫= tokens)) w'). unfold consistent in *.
    change (Inv (TRef q' :: ([TCq q'] ++ (delete i vs ≫= tokens))) w').
    change ([TCq q'] ++ (delete i vs ≫= tokens)) with ((VCq q' :: delete i vs) ≫= tokens).
    by rewrite <-(delete_Permutation _ _ _ Hi).
  - assert (0 < env_strong w) as Hn by (by eapply env_there, token_in; [|eauto|left]).
    unfold leaves, bind at 1, gets. case_bool_decide; [|exact Hsame].
    destruct (queue_there _ _ q HI Hn) as (x & Hq & Hs); [done|].
    eapply leaves_bind; [by eapply shutdown_leaves|]. intros [] w' H'. by apply leaves_ret.
  - destruct (cq_there _ _ q' HI) as (x & Hq & Hs); [by eapply token_in; [eauto|left]|].
    eapply leaves_bind; [by eapply shutdown_leaves|]. intros [] w' H'. by apply leaves_ret.
  - eapply leaves_bind; [apply (drop_value_leaves VEnv); by eapply value_out|]. intros [] w' H. by apply leaves_ret.
  - eapply leaves_bind; [apply (drop_value_leaves (VChannel c q')); by eapply value_out|].
    intros [] w' H. by apply leaves_ret.
  - eapply leaves_bind; [apply (drop_value_leaves (VCq q')); by eapply value_out|]. intros [] w' H. by apply leaves_ret.
  - eapply leaves_bind; [apply (drop_value_leaves (VRef q')); by eapply value_out|]. intros [] w' H. by apply leaves_ret.
  - unfold leaves, bind at 1, gets. destruct (queues w !! q) as [x|] eqn:Hq; [|exact Hsame].
    destruct (q_running x) eqn:Hr; [|exact Hsame]. cbn [andb]. case_bool_decide; [|exact Hsame].
    eapply leaves_bind; [by eapply thread_stops_leaves|]. intros [] w' H'. by apply leaves_ret.
Qed.

Lemma run_program_leaves ops vs w : consistent vs w -> leaves (run_program ops vs) w consistent.
Proof.
  revert vs w. induction ops as [|op ops IH]; intros vs w HI; [by apply leaves_ret|].
  eapply leaves_bind; [by apply run_op_leaves|]. intros vs' w' H. by apply IH.
Qed.

Lemma new_life_consistent n : consistent [VEnv] (new_life n).
Proof.
  split; cbn [new_life env_strong chans queues ended].
  - done.
  - done.
  - intros q x Hx. apply lookup_replicate in Hx as [-> _]. by split.
  - intros q [H|H]; cbn in H; by apply list_elem_of_singleton in H.
  - split; cbn [new_life chans queues ended].
    + done.
    + intros q. destruct (replicate n _ !! q) as [x|] eqn:Hx; [|done]. by apply lookup_replicate in Hx as [-> _].
    + intros q. destruct (replicate n _ !! q) as [x|] eqn:Hx; [|done]. by apply lookup_replicate in Hx as [-> _].
    + by intros [|? ?] e l2.
Qed.

(** Every native object ends at most once. *)
Lemma ended_once ts w e : Inv ts w -> count e (ended w) <= 1.
Proof.
  intros HI. destruct (inv_log _ _ HI) as [L1 L2 L3 _]. destruct e as [c|q|q]; rewrite ?L1, ?L2, ?L3.
  - case_decide; lia.
  - destruct (queues w !! q) as [x|] eqn:Hq; cbn; [|lia]. destruct (inv_queue _ _ HI q x Hq) as [_ [_ ->] _].
    destruct (serves (alive w) x); [lia|]. case_decide; lia.
  - case_decide; lia.
Qed.

(** With no value left, all channels are destroyed, all queues shut down, and those whose
    thread has stopped destroyed. *)
Lemma all_ended w : consistent [] w ->
  (forall c, c < length (chans w) -> ChannelDestroy c ∈ ended w) /\
  (forall q x, queues w !! q = Some x -> QueueShutdown q ∈ ended w /\ (q_running x = false -> QueueDestroy q ∈ ended w)).
Proof.
  intros HI. destruct (inv_log _ _ HI) as [L1 L2 L3 _].
  assert (forall c n, chans w !! c = Some n -> n = 0) as Hz.
  { intros c n Hc. pose proof (inv_chan _ _ HI c) as H. by rewrite Hc in H. }
  assert (live_chans w = 0) as Hl.
  { unfold live_chans. destruct (filter _ (chans w)) as [|n l] eqn:E; [done|].
    assert (n ∈ filter (fun n => 0 < n) (chans w)) as [Hn Hin]%list_elem_of_filter by (rewrite E; by left).
    apply list_elem_of_lookup in Hin as [c Hc]. apply Hz in Hc. lia. }
  assert (alive w = false) as Ha.
  { apply bool_decide_eq_false_2. rewrite (inv_env _ _ HI), Hl. cbn. rewrite count_nil. lia. }
  split.
  - intros c [n Hc]%lookup_lt_is_Some. apply count_elem. rewrite L1. rewrite (Hz c n Hc) in Hc.
    rewrite decide_True by done. lia.
  - intros q x Hq. destruct (inv_queue _ _ HI q x Hq) as [Q1 [_ Q2] Q3]. rewrite Ha in *. split.
    + apply count_elem. rewrite L2, Hq. cbn. rewrite Q2. cbn. rewrite decide_True by done. lia.
    + intros Hr. apply count_elem. rewrite L3, Hq. cbn. rewrite Q1, Hr. rewrite decide_True; [lia|].
      cbn. by rewrite count_nil.
Qed.

(** C8: native objects live as long as they are used: whatever a program does with an
    environment of [n] queues, its channels, calls and borrows, queues that it shuts down
    itself included, and whenever poll threads stop, nothing is used after it was freed; every
    native object ends at most once, a queue is shut down before it is destroyed, and channels
    end before any queue is destroyed, and before any is shut down unless the program asked for
    that; no channel ends while a [Channel] refers to it, and meanwhile all queues serve
    that the program did not shut down, and exactly on these can calls be created; no queue is
    shut down while it is borrowed, or destroyed while anything refers to it; and once all
    values are dropped every channel is destroyed and every queue shut down, and destroyed when
    its thread has stopped. *)
Theorem natives_outlive_users (n : nat) (ops : list LifeOp) :
  exists vs w, run_program ops [VEnv] (new_life n) = Done (vs, w) /\
    (forall e, count e (ended w) <= 1) /\ ordered (queues w) (ended w) /\
    (forall c q, VChannel c q ∈ vs -> (ChannelDestroy c ∉ ended w) /\
       (forall r, (QueueDestroy r ∉ ended w) /\ (QueueShutdown r ∈ ended w -> asked (queues w) r = true)) /\
       exists w', create_call q w = Done (negb (asked (queues w) q), w')) /\
    (forall q, VRef q ∈ vs -> QueueShutdown q ∉ ended w) /\
    (forall v q, v ∈ vs -> TCq q ∈ tokens v -> QueueDestroy q ∉ ended w) /\
    (vs = [] -> (forall c, c < length (chans w) -> ChannelDestroy c ∈ ended w) /\
       forall q x, queues w !! q = Some x ->
         QueueShutdown q ∈ ended w /\ (q_running x = false -> QueueDestroy q ∈ ended w)).
Proof.
  destruct (run_program_leaves ops _ _ (new_life_consistent n)) as (vs & w & E & HI).
  destruct (inv_log _ _ HI) as [L1 L2 L3 L4]. exists vs, w. split; [done|].
  split; [intros e; by eapply ended_once|]. split; [done|]. split; [|split; [|split]].
  - intros c q Hv. destruct (chan_there vs w c HI) as (Hn & m & Hc); [by eapply token_in; [exact Hv|left]|]. split; [|split].
    + apply count_zero. rewrite L1, Hc. by rewrite decide_False.
    + intros r. by eapply alive_in_order.
    + destruct (create_call_leaves vs w q HI) as (b & w' & Ec & -> & _); [by eapply token_in; [exact Hv|right; left]|].
      exists w'. rewrite Ec. unfold alive. by rewrite bool_decide_eq_true_2.
  - intros q Hv. assert (TRef q ∈ vs ≫= tokens) as Hin by (by eapply token_in; [exact Hv|left]). apply count_zero.
    destruct (inv_range _ _ HI q) as [x Hq]; [by right|]. rewrite L2, Hq. cbn. apply count_elem in Hin.
    destruct (inv_queue _ _ HI q x Hq) as [_ [_ ->] _]. destruct (serves (alive w) x); [done|]. by rewrite decide_False by lia.
  - intros v q Hv Ht. destruct (cq_there _ _ q HI) as (x & Hq & Hs); [by eapply token_in|].
    apply count_zero. rewrite L3, Hq. cbn. rewrite decide_False; [done|]. intros [=]. lia.
  - intros ->. by apply all_ended.
Qed.
End programs.

(** ** Runs

    Two channels on two queues, a call that outlives its channel and is still borrowed when
    the environment goes; then everything is dropped and both threads stop. *)
Example demo_life :
  (fun r => (r.1, ended r.2)) <$>
    match run_program [OpChannelNew 0 0; OpChannelNew 1 1; OpCall 1; OpBorrow 0; OpDropValue 3; OpDropValue 2;
                       OpDropValue 1; OpThreadStops 1; OpThreadStops 0; OpDropValue 0; OpThreadStops 0]
            [VEnv] (new_life 2) with Done r => Some r | Panicked _ => None end =
  Some ([], [ChannelDestroy 0; ChannelDestroy 1; QueueShutdown 1; QueueDestroy 1; QueueShutdown 0;
             QueueDestroy 0]).
Proof. vm_compute. reflexivity. Qed.

(** A queue that the program shuts down while a channel is there: the call on it is refused, the
    one on the other queue is not; its thread stops, and it is destroyed with the environment. *)
Example demo_asked :
  (fun r => (r.1, ended r.2)) <$>
    match run_program [OpChannelNew 0 0; OpChannelNew 1 1; OpShutdown 2 0; OpThreadStops 0; OpCall 1; OpCall 0;
                       OpDropValue 3; OpDropValue 2; OpDropValue 1]
            [VEnv] (new_life 2) with Done r => Some r | Panicked _ => None end =
  Some ([VCq 1], [QueueShutdown 0; ChannelDestroy 0; ChannelDestroy 1; QueueShutdown 1; QueueDestroy 0]).
Proof. vm_compute. reflexivity. Qed.
