(* ===== verification/Tags.v ===== *)
(** The memory that goes through the core: boxed tags, native contexts, calls and spawned
    tasks (src/src/task/mod.rs, src/src/task/callback.rs, src/src/task/executor.rs,
    src/src/call/mod.rs, src/src/call/server.rs, src/src/server.rs, src/src/env.rs).

    Starting an operation boxes a [CallTag], gives the raw pointer to the core as the tag
    and lets the core write into a native context that the tag owns; the poll thread makes
    the box again from the tag of the event and resolves it.  Calls and spawned tasks are
    counted.  A program is any sequence of operations on the calls, contexts and wakers that
    it holds, mixed with events of the core.  Undefined behaviour (using or freeing what is
    not there, freeing with another layout) is a panic of the model. *)

From S2P Require Import Prelude Count.
Local Open Scope rust_scope.

(** ** Data *)

(** What a tag or a value refers to: a batch context, a request context the core has not yet
    filled, one that it has, a call, a spawned task, a boxed tag. *)
Inductive Token :=
| B (b : nat)
| R (r : nat)
| F (r : nat)
| K (c : nat)
| T (t : nat)
| X (p : nat).

#[export] Instance Token_eq_dec : EqDecision Token.
Proof. solve_decision. Defined.

(** A tag, with the contexts, the call or the task it owns. *)
Inductive CallTag :=
| Batch (ctx : nat)
| Request (ctx : nat)
| UnaryRequest (request batch : nat)
| Abort (ctx call : nat)
| Action
| Spawn (task : nat).

(** [SpawnTask] in its [Arc]: the count, the call of the kicker, and the calls that the
    future owns until it is ready. *)
Record SpawnTask := mkSpawnTask { t_strong : nat; t_kicker : nat; t_handle : option (list nat) }.

(** The heap: boxed tags; native batch contexts; native request contexts, each with its call;
    the counts of the native calls; tasks; and the tags that the core has, with the contexts
    into which it writes. *)
Record Heap := mkHeap {
  boxes : gmap nat CallTag;
  bctxs : gmap nat unit;
  rctxs : gmap nat (option nat);
  ncalls : gmap nat nat;
  tasks : gmap nat SpawnTask;
  given : gmap nat (list Token);
}.

Definition set_boxes f (w : Heap) := mkHeap (f (boxes w)) (bctxs w) (rctxs w) (ncalls w) (tasks w) (given w).
Definition set_bctxs f (w : Heap) := mkHeap (boxes w) (f (bctxs w)) (rctxs w) (ncalls w) (tasks w) (given w).
Definition set_rctxs f (w : Heap) := mkHeap (boxes w) (bctxs w) (f (rctxs w)) (ncalls w) (tasks w) (given w).
Definition set_ncalls f (w : Heap) := mkHeap (boxes w) (bctxs w) (rctxs w) (f (ncalls w)) (tasks w) (given w).
Definition set_tasks f (w : Heap) := mkHeap (boxes w) (bctxs w) (rctxs w) (ncalls w) (f (tasks w)) (given w).
Definition set_given f (w : Heap) := mkHeap (boxes w) (bctxs w) (rctxs w) (ncalls w) (tasks w) (f (given w)).

(** ** Contexts and calls *)

(** [grpcwrap_batch_context_create] and [grpcwrap_batch_context_destroy]. *)
Definition BatchContext_new : M Heap nat :=
  let* b := gets (fun w => alloc (bctxs w)) in
  do* modify (set_bctxs <[b:=tt]>) in ret b.

Definition BatchContext_drop (b : nat) : M Heap unit :=
  let* o := gets (fun w => bctxs w !! b) in
  let* _ := unwrap o "double free" in
  modify (set_bctxs (delete b)).

(** A call that the core makes: one reference. *)
Definition call_create : M Heap nat :=
  let* c := gets (fun w => alloc (ncalls w)) in
  do* modify (set_ncalls <[c:=1]>) in ret c.

Definition call_ref (c : nat) : M Heap unit :=
  let* o := gets (fun w => ncalls w !! c) in
  let* n := unwrap o "use after free" in
  modify (set_ncalls <[c:=S n]>).

(** [grpc_call_unref]: the last reference frees the call. *)
Definition Call_drop (c : nat) : M Heap unit :=
  let* o := gets (fun w => ncalls w !! c) in
  let* n := unwrap o "use after free" in
  modify (set_ncalls (if bool_decide (n = 1) then delete c else <[c:=n-1]>)).

Fixpoint drop_calls (cs : list nat) : M Heap unit :=
  match cs with
  | [] => ret tt
  | c :: cs => do* Call_drop c in drop_calls cs
  end.

Definition RequestContext_new : M Heap nat :=
  let* r := gets (fun w => alloc (rctxs w)) in
  do* modify (set_rctxs <[r:=None]>) in ret r.

(** [grpcwrap_request_call_context_destroy] *)
Definition RequestContext_drop (r : nat) : M Heap unit :=
  let* o := gets (fun w => rctxs w !! r) in
  let* call := unwrap o "double free" in
  do* match call with Some c => Call_drop c | None => ret tt end in
  modify (set_rctxs (delete r)).

(** [grpcwrap_request_call_context_get_call], of a context that has a call. *)
Definition get_call (r : nat) : M Heap nat :=
  let* o := gets (fun w => rctxs w !! r) in
  let* call := unwrap o "use after free" in
  unwrap call "null call".

Definition RequestContext_call (r : nat) : M Heap nat :=
  let* c := get_call r in
  do* call_ref c in ret c.

(** ** Tasks *)

Definition SpawnTask_new (kicker : nat) (owned : list nat) : M Heap nat :=
  let* t := gets (fun w => alloc (tasks w)) in
  do* modify (set_tasks <[t:=mkSpawnTask 1 kicker (Some owned)]>) in ret t.

Definition task_clone (t : nat) : M Heap unit :=
  let* o := gets (fun w => tasks w !! t) in
  let* x := unwrap o "use after free" in
  modify (set_tasks <[t:=mkSpawnTask (S (t_strong x)) (t_kicker x) (t_handle x)]>).

(** The last [Arc] drops the future, if it is still there, and the kicker. *)
Definition task_drop (t : nat) : M Heap unit :=
  let* o := gets (fun w => tasks w !! t) in
  let* x := unwrap o "use after free" in
  if bool_decide (t_strong x = 1) then
    do* modify (set_tasks (delete t)) in
    do* drop_calls (default [] (t_handle x)) in
    Call_drop (t_kicker x)
  else modify (set_tasks <[t:=mkSpawnTask (t_strong x - 1) (t_kicker x) (t_handle x)]>).

(** ** Tags *)

(** [Box::into_raw(Box::new(tag))] *)
Definition into_raw (tag : CallTag) : M Heap nat :=
  let* p := gets (fun w => alloc (boxes w)) in
  do* modify (set_boxes <[p:=tag]>) in ret p.

(** [Box::from_raw] of a [*mut CallTag], and taking the tag out of the box. *)
Definition from_raw (p : nat) : M Heap CallTag :=
  let* o := gets (fun w => boxes w !! p) in
  let* tag := unwrap o "use after free" in
  do* modify (set_boxes (delete p)) in ret tag.

(** [Box::from_raw] of a [*mut c_void]: the box is freed with the layout of [c_void], and the
    tag in it is not dropped. *)
Definition from_raw_void (p : nat) : M Heap unit :=
  let* o := gets (fun w => boxes w !! p) in
  let* _ := unwrap o "use after free" in
  panic "freed with another layout".

Definition batch_ctx (tag : CallTag) : option nat :=
  match tag with
  | Batch b | UnaryRequest _ b | Abort b _ => Some b
  | _ => None
  end.

Definition request_ctx (tag : CallTag) : option nat :=
  match tag with
  | Request r | UnaryRequest r _ => Some r
  | _ => None
  end.

(** The tags of the operations: [Batch::new], [Request::new], [UnaryRequestContext::new] and
    [Abort::new] make the contexts. *)
Definition batch_pair : M Heap CallTag := let* b := BatchContext_new in ret (Batch b).
Definition request : M Heap CallTag := let* r := RequestContext_new in ret (Request r).
Definition unary_request (r : nat) : M Heap CallTag := let* b := BatchContext_new in ret (UnaryRequest r b).
Definition abort (call : nat) : M Heap CallTag := let* b := BatchContext_new in ret (Abort b call).

(** The core takes a tag, and the contexts it will write. *)
Definition give (p : nat) (ctxs : list Token) : M Heap unit := modify (set_given <[p:=ctxs]>).

(** A batch on a call that is there; [ok]: the core accepts it. *)
Definition start_batch (ok : bool) (call : nat) (ctxs : list Token) (p : nat) : M Heap bool :=
  let* o := gets (fun w => ncalls w !! call) in
  let* _ := unwrap o "use after free" in
  if ok then do* give p ctxs in ret true else ret false.

Definition box_batch_tag (tag : CallTag) : M Heap (nat * nat) :=
  let* b := unwrap (batch_ctx tag) "no batch context" in
  let* p := into_raw tag in ret (b, p).

Definition check_run (ok : bool) (call : nat) : M Heap unit :=
  let* tag := batch_pair in
  let* bp := box_batch_tag tag in
  let* code := start_batch ok call [B bp.1] bp.2 in
  if code then ret tt
  else do* from_raw_void bp.2 in panic "create call fail".

(** A method of [Call] that starts a batch; [open]: the queue can be borrowed. *)
Definition start (open ok : bool) (call : nat) : M Heap bool :=
  if open then do* check_run ok call in ret true else ret false.

(** [Call::abort], which has the call. *)
Definition Call_abort (open ok : bool) (call : nat) : M Heap unit :=
  if open then
    let* tag := abort call in
    let* bp := box_batch_tag tag in
    let* code := start_batch ok call [B bp.1] bp.2 in
    if code then ret tt
    else do* from_raw_void bp.2 in panic "create call fail"
  else Call_drop call.

(** [server::request_call]; [open]: the server is not shut down and the queue can be
    borrowed.  [Box::from(tag)] boxes the pointer and leaves the tag. *)
Definition request_call (open ok : bool) : M Heap unit :=
  if open then
    let* tag := request in
    let* rc := unwrap (request_ctx tag) "no request context" in
    let* p := into_raw tag in
    if ok then give p [R rc] else panic "failed to request call"
  else ret tt.

(** An action of the core with a tag of its own: [Server::shutdown] and
    [Channel::wait_for_state_change] with an open queue. *)
Definition start_action : M Heap unit :=
  let* p := into_raw Action in give p [].

(** Dropping a tag drops what it owns, field by field. *)
Definition CallTag_drop (tag : CallTag) : M Heap unit :=
  match tag with
  | Batch b => BatchContext_drop b
  | Request r => RequestContext_drop r
  | UnaryRequest r b => do* RequestContext_drop r in BatchContext_drop b
  | Abort b c => do* BatchContext_drop b in Call_drop c
  | Action => ret tt
  | Spawn t => task_drop t
  end.

(** ** Values

    A call (of a client, a sink or a stream, or a kicker), the [RpcContext] of a handler, a
    waker of a task, and a task in a work queue. *)
Inductive Val :=
| VCall (call : nat)
| VCtx (ctx : nat)
| VWaker (task : nat)
| VWork (task : nat).

(** ** Serving a request *)

(** What happens to a request that is executed: a checker aborts it; the queue is shut down
    before the call is accepted; the message cannot be read; the handler runs. *)
Inductive Served :=
| CheckerAborts (open : bool)
| NotAccepted
| BadMessage (open : bool)
| Handled.

(** [execute] and the [execute_*] functions. *)
Definition execute (ok : bool) (s : Served) (r : nat) : M Heap (list Val) :=
  match s with
  | CheckerAborts open =>
      let* c := RequestContext_call r in
      do* Call_abort open ok c in
      do* RequestContext_drop r in ret []
  | NotAccepted =>
      let* c := RequestContext_call r in
      do* Call_drop c in
      do* RequestContext_drop r in ret []
  | BadMessage open =>
      let* c := RequestContext_call r in
      do* check_run ok c in
      do* Call_abort open ok c in
      do* RequestContext_drop r in ret []
  | Handled =>
      let* c := RequestContext_call r in
      do* check_run ok c in
      ret [VCall c; VCtx r]
  end.

(** [execute_unimplemented]; [accepted]: the queue was open when the call was accepted. *)
Definition execute_unimplemented (ok accepted open : bool) (r : nat) : M Heap unit :=
  let* c := RequestContext_call r in
  do* (let* b := start accepted ok c in
       if b then Call_abort open ok c else Call_drop c) in
  RequestContext_drop r.

(** What the registry says of the method of a request. *)
Inductive Route :=
| Unknown (accepted open : bool)
| ClientStreams (s : Served)
| ClientUnary.

(** [RequestContext::handle_stream_req]: [None] when the request is a client side unary one. *)
Definition handle_stream_req (ok : bool) (route : Route) (r : nat) : M Heap (option (list Val)) :=
  match route with
  | Unknown accepted open => do* execute_unimplemented ok accepted open r in ret (Some [])
  | ClientStreams s => let* vs := execute ok s r in ret (Some vs)
  | ClientUnary => ret None
  end.

Definition handle_unary_req (ok : bool) (r : nat) : M Heap unit :=
  let* tag := unary_request r in
  let* bc := unwrap (batch_ctx tag) "no batch context" in
  let* rc := unwrap (request_ctx tag) "no request context" in
  let* p := into_raw tag in
  let* c := get_call rc in
  let* code := start_batch ok c [B bc] p in
  if code then ret tt
  else let* tag := from_raw p in
       do* CallTag_drop tag in panic "try to receive message fail".

(** What a resolution meets: the route of a new request; whether a unary request has a message
    and what happens to it; whether the next request can be asked for; and for a task whether
    its future is ready, and how many wakers it took. *)
Record Meets := mkMeets {
  m_route : Route;
  m_message : option Served;
  m_no_payload_open : bool;
  m_again : bool;
  m_ready : bool;
  m_wakers : nat;
}.

(** [Request::resolve] *)
Definition Request_resolve (ok : bool) (m : Meets) (r : nat) (success : bool) : M Heap (list Val) :=
  if success then
    let* h := handle_stream_req ok (m_route m) r in
    match h with
    | Some vs => do* request_call (m_again m) ok in ret vs
    | None => do* handle_unary_req ok r in ret []
    end
  else do* request_call (m_again m) ok in do* RequestContext_drop r in ret [].

(** [UnaryRequestContext::handle] *)
Definition handle (ok : bool) (m : Meets) (r b : nat) : M Heap (list Val) :=
  match m_message m with
  | Some s => let* vs := execute ok s r in do* BatchContext_drop b in ret vs
  | None =>
      let* c := RequestContext_call r in
      do* Call_abort (m_no_payload_open m) ok c in
      do* RequestContext_drop r in
      do* BatchContext_drop b in ret []
  end.

(** [recv_message] and [rpc_status] read the batch context. *)
Definition read_batch (b : nat) : M Heap unit :=
  let* o := gets (fun w => bctxs w !! b) in
  do* unwrap o "use after free" in ret tt.

(** [UnaryRequest::resolve] *)
Definition UnaryRequest_resolve (ok : bool) (m : Meets) (r b : nat) (success : bool) : M Heap (list Val) :=
  if success then
    do* read_batch b in
    let* vs := handle ok m r b in
    do* request_call (m_again m) ok in ret vs
  else
    do* request_call (m_again m) ok in
    do* RequestContext_drop r in
    do* BatchContext_drop b in ret [].

(** [Batch::resolve]: the promise and its context go at the end. *)
Definition Batch_resolve (b : nat) : M Heap unit :=
  do* read_batch b in BatchContext_drop b.

(** ** Running tasks *)

Fixpoint take_wakers (n t : nat) : M Heap (list Val) :=
  match n with
  | 0 => ret []
  | S n => do* task_clone t in let* vs := take_wakers n t in ret (VWaker t :: vs)
  end.

(** [executor::poll], which has an [Arc] of the task: a completed task is left alone; else the
    future runs, may keep wakers, and is dropped when it is ready. *)
Definition poll (m : Meets) (t : nat) : M Heap (list Val) :=
  let* o := gets (fun w => tasks w !! t) in
  let* x := unwrap o "use after free" in
  let* vs := match t_handle x with
             | None => ret []
             | Some owned =>
                 let* vs := take_wakers (m_wakers m) t in
                 if m_ready m then
                   let* o := gets (fun w => tasks w !! t) in
                   let* x := unwrap o "use after free" in
                   do* modify (set_tasks <[t:=mkSpawnTask (t_strong x) (t_kicker x) None]>) in
                   do* drop_calls owned in ret vs
                 else ret vs
             end in
  do* task_drop t in ret vs.

(** [Executor::spawn] *)
Definition spawn (m : Meets) (kicker : nat) (owned : list nat) : M Heap (list Val) :=
  let* t := SpawnTask_new kicker owned in poll m t.

(** [Kicker::kick], of the kicker of task [t]. *)
Definition kick (open ok : bool) (t : nat) (tag : CallTag) : M Heap unit :=
  if open then
    let* o := gets (fun w => tasks w !! t) in
    let* x := unwrap o "use after free" in
    let* p := into_raw tag in
    let* code := start_batch ok (t_kicker x) [] p in
    if code then ret tt else panic "unexpected error when canceling call"
  else CallTag_drop tag.

(** How a task is woken: it was notified already; on the poll thread; elsewhere. *)
Inductive Wake :=
| Notified
| OnQueue
| Elsewhere (open : bool).

(** [SpawnTask::wake_by_ref] *)
Definition wake_by_ref (ok : bool) (how : Wake) (t : nat) : M Heap (list Val) :=
  match how with
  | Notified => ret []
  | OnQueue => do* task_clone t in ret [VWork t]
  | Elsewhere open => do* task_clone t in do* kick open ok t (Spawn t) in ret []
  end.

(** ** Events *)

(** [CallTag::resolve] *)
Definition resolve (ok : bool) (m : Meets) (tag : CallTag) (success : bool) : M Heap (list Val) :=
  match tag with
  | Batch b => do* Batch_resolve b in ret []
  | Request r => Request_resolve ok m r success
  | UnaryRequest r b => UnaryRequest_resolve ok m r b success
  | Abort b c => do* CallTag_drop (Abort b c) in ret []
  | Action => ret []
  | Spawn t => do* rassert success "assertion failed: success" in poll m t
  end.

(** The core ends the operation of tag [p]: it writes the contexts, and a request that
    succeeds gets its call. *)
Definition core_writes (success : bool) (ctx : Token) : M Heap unit :=
  match ctx with
  | B b => read_batch b
  | R r =>
      let* o := gets (fun w => rctxs w !! r) in
      do* unwrap o "use after free" in
      if success then let* c := call_create in modify (set_rctxs <[r:=Some c]>) else ret tt
  | _ => ret tt
  end.

Fixpoint core_writes_all (success : bool) (ctxs : list Token) : M Heap unit :=
  match ctxs with
  | [] => ret tt
  | x :: ctxs => do* core_writes success x in core_writes_all success ctxs
  end.

(** A kick is a batch without operations, which always succeeds. *)
Definition succeeds (tag : CallTag) (success : bool) : bool :=
  match tag with Spawn _ => true | _ => success end.

(** One turn of the loop of [poll_queue], on the event of tag [p]. *)
Definition event (ok : bool) (m : Meets) (p : nat) (ctxs : list Token) (success : bool) : M Heap (list Val) :=
  do* core_writes_all success ctxs in
  do* modify (set_given (delete p)) in
  let* tag := from_raw p in
  resolve ok m tag (succeeds tag success).

(** ** Programs *)

Inductive TagOp :=
| OpCreateCall
| OpCloneKicker (i : nat)
| OpStart (i : nat) (open ok : bool)
| OpRequestCall (open ok : bool)
| OpAction
| OpSpawn (i : nat) (owned : option nat) (m : Meets)
| OpWake (i : nat) (how : Wake) (ok : bool)
| OpFinish (i : nat) (m : Meets)
| OpDrop (i : nat)
| OpEvent (p : nat) (success : bool) (m : Meets) (ok : bool).

(** The core accepts what the operation starts. *)
Definition accepted (op : TagOp) : bool :=
  match op with
  | OpStart _ _ ok | OpRequestCall _ ok | OpWake _ _ ok | OpEvent _ _ _ ok => ok
  | _ => true
  end.

Definition drop_value (v : Val) : M Heap unit :=
  match v with
  | VCall c => Call_drop c
  | VCtx r => RequestContext_drop r
  | VWaker t | VWork t => task_drop t
  end.

(** The call at [j] goes into the future. *)
Definition move_call (j : option nat) (vs : list Val) : list nat * list Val :=
  match j with
  | Some j => match vs !! j with Some (VCall c) => ([c], delete j vs) | _ => ([], vs) end
  | None => ([], vs)
  end.

(** An operation on a value that is not there or has another type is no program and does
    nothing, as does an event of a tag that the core has not. *)
Definition run_op (op : TagOp) (vs : list Val) : M Heap (list Val) :=
  match op with
  | OpCreateCall => let* c := call_create in ret (VCall c :: vs)
  | OpCloneKicker i =>
      match vs !! i with
      | Some (VCall c) => do* call_ref c in ret (VCall c :: vs)
      | _ => ret vs
      end
  | OpStart i open ok =>
      match vs !! i with
      | Some (VCall c) => do* start open ok c in ret vs
      | _ => ret vs
      end
  | OpRequestCall open ok => do* request_call open ok in ret vs
  | OpAction => do* start_action in ret vs
  | OpSpawn i j m =>
      match vs !! i with
      | Some (VCall c) =>
          do* call_ref c in
          let '(owned, vs) := move_call j vs in
          let* l := spawn m c owned in ret (l ++ vs)
      | Some (VCtx r) =>
          let* c := RequestContext_call r in
          let '(owned, vs) := move_call j vs in
          let* l := spawn m c owned in ret (l ++ vs)
      | _ => ret vs
      end
  | OpWake i how ok =>
      match vs !! i with
      | Some (VWaker t) => let* l := wake_by_ref ok how t in ret (l ++ vs)
      | _ => ret vs
      end
  | OpFinish i m =>
      match vs !! i with
      | Some (VWork t) => let* l := poll m t in ret (l ++ delete i vs)
      | _ => ret vs
      end
  | OpDrop i =>
      match vs !! i with
      | Some v => do* drop_value v in ret (delete i vs)
      | None => ret vs
      end
  | OpEvent p success m ok =>
      let* o := gets (fun w => given w !! p) in
      match o with
      | Some ctxs => let* l := event ok m p ctxs success in ret (l ++ vs)
      | None => ret vs
      end
  end.

Fixpoint run_program (ops : list TagOp) (vs : list Val) : M Heap (list Val) :=
  match ops with
  | [] => ret vs
  | op :: ops => let* vs := run_op op vs in run_program ops vs
  end.

Definition empty_heap : Heap := mkHeap ∅ ∅ ∅ ∅ ∅ ∅.

(** ** What refers to what *)

Definition tokens (v : Val) : list Token :=
  match v with
  | VCall c => [K c]
  | VCtx r => [F r]
  | VWaker t | VWork t => [T t]
  end.

Definition tag_tokens (tag : CallTag) : list Token :=
  match tag with
  | Batch b => [B b]
  | Request r => [R r]
  | UnaryRequest r b => [F r; B b]
  | Abort b c => [B b; K c]
  | Action => []
  | Spawn t => [T t]
  end.

(** The contexts of a tag into which the core writes. *)
Definition uses (tag : CallTag) : list Token :=
  match tag with
  | Batch b | UnaryRequest _ b | Abort b _ => [B b]
  | Request r => [R r]
  | Action | Spawn _ => []
  end.

Definition task_tokens (x : SpawnTask) : list Token := K (t_kicker x) :: (K <$> default [] (t_handle x)).

Definition ctx_tokens (o : option nat) : list Token := match o with Some c => [K c] | None => [] end.

Definition held (w : Heap) : list Token :=
  owns (fun _ => tag_tokens) (boxes w) ++ owns (fun _ => ctx_tokens) (rctxs w) ++
  owns (fun _ => task_tokens) (tasks w) ++ owns (fun p _ => [X p]) (given w).

(** How many references the heap says there are. *)
Definition unfilled (o : option nat) : nat := match o with Some _ => 0 | None => 1 end.
Definition filled (o : option nat) : nat := match o with Some _ => 1 | None => 0 end.

Definition amount (w : Heap) (t : Token) : nat :=
  match t with
  | B b => measure one (bctxs w) b
  | R r => measure unfilled (rctxs w) r
  | F r => measure filled (rctxs w) r
  | K c => measure id (ncalls w) c
  | T t => measure t_strong (tasks w) t
  | X p => measure one (boxes w) p
  end.

(** [ts]: the references of values and of methods that are running. *)
Record Inv (ts : list Token) (w : Heap) : Prop := {
  inv_count t : count t ts + count t (held w) = amount w t;
  inv_calls c n : ncalls w !! c = Some n -> 0 < n;
  inv_tasks t x : tasks w !! t = Some x -> 0 < t_strong x;
  inv_given p ctxs : given w !! p = Some ctxs -> uses <$> boxes w !! p = Some ctxs;
}.

Local Ltac heap := cbn [set_boxes set_bctxs set_rctxs set_ncalls set_tasks set_given boxes bctxs rctxs ncalls tasks given].

(** The invariant after a change of the heap: for each token, what is held and what is counted
    change alike. *)
Local Ltac by_count HI :=
  let t := fresh "t" in
  intros t; pose proof (inv_count _ _ HI t); unfold held in *; heap; count_norm; count_owned t;
  destruct t; cbn [amount] in *; heap; measure_norm; known_lookups;
  unfold task_tokens, id in *; cbn [tag_tokens ctx_tokens t_kicker t_handle from_option] in *; count_norm;
  decide_equalities; known_measures; unfold one, id in *; cbn [unfilled filled t_strong] in *; try lia.

Section operations.
Implicit Types (w : Heap) (ts : list Token).

#[export] Instance Inv_proper : Proper ((≡ₚ) ==> eq ==> iff) Inv.
Proof.
  assert (forall ts ts' w, ts ≡ₚ ts' -> Inv ts w -> Inv ts' w) as H
    by (intros ts ts' w Hp [H1 H2 H3 H4]; split; [intros t; rewrite <-Hp; apply H1|done..]).
  intros ts ts' Hp w ? <-. split; by apply H.
Qed.

(** What a method refers to is there. *)
Lemma there ts w t : Inv ts w -> t ∈ ts -> 0 < amount w t.
Proof. intros HI Hin%count_elem. rewrite <-(inv_count _ _ HI t). lia. Qed.

Lemma BatchContext_new_leaves ts w : Inv ts w -> wp BatchContext_new (fun b => Inv (B b :: ts)) w.
Proof.
  intros HI. pose proof (alloc_fresh (bctxs w)). unfold wp, BatchContext_new, bind, gets, modify, ret. split; [by_count HI|apply HI..].
Qed.

Lemma BatchContext_drop_leaves ts w b : Inv (B b :: ts) w -> wp (BatchContext_drop b) (fun _ => Inv ts) w.
Proof.
  intros HI. destruct (measure_pos one (bctxs w) b) as (x & Hb & _); [apply (there _ _ (B b) HI); by left|].
  unfold wp, BatchContext_drop, bind, gets. rewrite Hb. cbn. split; [by_count HI|apply HI..].
Qed.

Lemma call_create_leaves ts w : Inv ts w -> wp call_create (fun c => Inv (K c :: ts)) w.
Proof.
  intros HI. pose proof (alloc_fresh (ncalls w)). unfold wp, call_create, bind, gets, modify, ret.
  split; [by_count HI| |apply HI..]. heap. intros c n [[<- <-]|[_ Hc]]%lookup_insert_Some; [lia|by eapply HI].
Qed.

(** A call that something refers to. *)
Lemma call_there w c : 0 < amount w (K c) -> exists n, ncalls w !! c = Some n /\ 0 < n.
Proof. intros Hn. destruct (measure_pos id (ncalls w) c Hn) as (n & Hc & E). exists n. cbn in Hn. unfold id in *. split; [done|lia]. Qed.

Lemma call_ref_leaves ts w c : Inv ts w -> 0 < amount w (K c) -> wp (call_ref c) (fun _ => Inv (K c :: ts)) w.
Proof.
  intros HI (n & Hc & Hn)%call_there. unfold wp, call_ref, bind, gets. rewrite Hc. cbn.
  split; [by_count HI| |apply HI..]. heap. intros c' n' [[<- <-]|[_ Hc']]%lookup_insert_Some; [lia|by eapply HI].
Qed.

Lemma Call_drop_leaves ts w c : Inv (K c :: ts) w -> wp (Call_drop c) (fun _ => Inv ts) w.
Proof.
  intros HI. destruct (call_there w c) as (n & Hc & Hn); [apply (there _ _ _ HI); by left|].
  unfold wp, Call_drop, bind, gets. rewrite Hc. cbn. case_bool_decide.
  - split; [by_count HI| |apply HI..]. heap. intros c' n' [_ Hc']%lookup_delete_Some. by eapply HI.
  - split; [by_count HI| |apply HI..]. heap. intros c' n' [[<- <-]|[_ Hc']]%lookup_insert_Some; [lia|by eapply HI].
Qed.

Lemma drop_calls_leaves cs ts w : Inv ((K <$> cs) ++ ts) w -> wp (drop_calls cs) (fun _ => Inv ts) w.
Proof.
  revert w. induction cs as [|c cs IH]; intros w HI; [by apply wp_ret|].
  wp_step Call_drop_leaves; [exact HI|]. intros [] w' H. by apply IH.
Qed.

Lemma RequestContext_new_leaves ts w : Inv ts w -> wp RequestContext_new (fun r => Inv (R r :: ts)) w.
Proof.
  intros HI. pose proof (alloc_fresh (rctxs w)). unfold wp, RequestContext_new, bind, gets, modify, ret.
  split; [by_count HI|apply HI..].
Qed.

(** A context goes after its call: the two do not depend on each other. *)
Lemma Call_drop_then c g w Q :
  wp (Call_drop c) Q (set_rctxs g w) -> wp (do* Call_drop c in modify (set_rctxs g)) Q w.
Proof. unfold wp, Call_drop, bind, gets. cbn [set_rctxs ncalls]. by destruct (ncalls w !! c). Qed.

Lemma unfilled_there ts w r : Inv ts w -> R r ∈ ts -> rctxs w !! r = Some None.
Proof.
  intros HI Hr. pose proof (there _ _ _ HI Hr) as Hn. destruct (measure_pos _ _ _ Hn) as ([c|] & Hx & E); [|done].
  cbn in *. lia.
Qed.

Lemma filled_there ts w r : Inv ts w -> F r ∈ ts -> exists c, rctxs w !! r = Some (Some c).
Proof.
  intros HI Hr. pose proof (there _ _ _ HI Hr) as Hn. destruct (measure_pos _ _ _ Hn) as ([c|] & Hx & E); [by exists c|].
  cbn in *. lia.
Qed.

Lemma RequestContext_drop_leaves ts w r : Inv (R r :: ts) w \/ Inv (F r :: ts) w ->
  wp (RequestContext_drop r) (fun _ => Inv ts) w.
Proof.
  intros [HI|HI]; unfold RequestContext_drop; apply wp_bind, wp_gets.
  - rewrite (unfilled_there _ _ r HI) by (by left).
    pose proof (unfilled_there _ _ r HI (list_elem_of_here _ _)) as Hr. cbn. split; [by_count HI|apply HI..].
  - destruct (filled_there _ _ r HI) as [c Hr]; [by left|]. rewrite Hr. cbn [unwrap].
    apply wp_bind, wp_ret. apply Call_drop_then, Call_drop_leaves. split; [by_count HI|apply HI..].
Qed.

Lemma get_call_leaves ts w r : Inv ts w -> F r ∈ ts ->
  wp (get_call r) (fun c w' => w' = w /\ 0 < amount w (K c)) w.
Proof.
  intros HI Hin. destruct (filled_there _ _ r HI Hin) as [c Hr]. unfold wp, get_call, bind, gets. rewrite Hr. cbn [unwrap].
  split; [done|]. rewrite <-(inv_count _ _ HI (K c)). unfold held. rewrite !count_app.
  pose proof (count_owns_lookup (fun _ => ctx_tokens) (rctxs w) r (Some c) (K c) Hr) as H. cbn [ctx_tokens] in H.
  rewrite count_cons, decide_True in H by done. lia.
Qed.

Lemma RequestContext_call_leaves ts w r : Inv ts w -> F r ∈ ts ->
  wp (RequestContext_call r) (fun c => Inv (K c :: ts)) w.
Proof.
  intros HI Hin. wp_step get_call_leaves; [exact HI|exact Hin|]. intros c w' [-> Hc].
  wp_step call_ref_leaves; [exact HI|exact Hc|]. intros [] w' H. by apply wp_ret.
Qed.

Lemma task_there ts w t : Inv ts w -> T t ∈ ts -> exists x, tasks w !! t = Some x /\ 0 < t_strong x.
Proof.
  intros HI Hin. destruct (measure_pos t_strong (tasks w) t) as (x & Hx & _); [by apply (there _ _ (T t) HI)|].
  exists x. split; [done|]. by eapply (inv_tasks _ _ HI).
Qed.

(** A task changes its count, or loses its future. *)
Lemma tasks_pos w t x : (forall t x, tasks w !! t = Some x -> 0 < t_strong x) -> 0 < t_strong x ->
  forall t' x', <[t:=x]> (tasks w) !! t' = Some x' -> 0 < t_strong x'.
Proof. intros H Hx t' x' [[<- <-]|[_ Ht]]%lookup_insert_Some; [done|by eapply H]. Qed.

Lemma SpawnTask_new_leaves ts w c owned : Inv (K c :: (K <$> owned) ++ ts) w ->
  wp (SpawnTask_new c owned) (fun t => Inv (T t :: ts)) w.
Proof.
  intros HI. pose proof (alloc_fresh (tasks w)). unfold wp, SpawnTask_new, bind, gets, modify, ret.
  split; [by_count HI|apply HI| |apply HI]. apply tasks_pos; [apply HI|cbn; lia].
Qed.

Lemma task_clone_leaves ts w t : Inv ts w -> T t ∈ ts -> wp (task_clone t) (fun _ => Inv (T t :: ts)) w.
Proof.
  intros HI Hin. destruct (task_there _ _ _ HI Hin) as (x & Ht & Hn). unfold wp, task_clone, bind, gets. rewrite Ht. cbn [unwrap ret modify].
  split; [by_count HI|apply HI| |apply HI]. apply tasks_pos; [apply HI|cbn; lia].
Qed.

Lemma task_drop_leaves ts w t : Inv (T t :: ts) w -> wp (task_drop t) (fun _ => Inv ts) w.
Proof.
  intros HI. destruct (task_there _ _ t HI) as (x & Ht & Hn); [by left|].
  unfold task_drop. apply wp_bind, wp_gets. rewrite Ht. apply wp_bind, wp_ret. case_bool_decide as H1.
  - apply wp_bind, wp_modify. wp_step drop_calls_leaves.
    + instantiate (1 := K (t_kicker x) :: ts). rewrite Permutation_app_comm. cbn [app].
      assert (Inv (K (t_kicker x) :: ts ++ (K <$> default [] (t_handle x))) (set_tasks (delete t) w)) as H; [|exact H].
      split; [by_count HI|apply HI| |apply HI]. heap. intros t' x' [_ Ht']%lookup_delete_Some. by eapply (inv_tasks _ _ HI).
    + intros [] w' H. by apply Call_drop_leaves.
  - unfold wp, modify. split; [by_count HI|apply HI| |apply HI]. apply tasks_pos; [apply HI|cbn; lia].
Qed.

(** The future of a task goes; what it owned is left to be dropped. *)
Lemma task_finish_leaves ts w t x owned : Inv ts w -> tasks w !! t = Some x -> t_handle x = Some owned ->
  Inv ((K <$> owned) ++ ts) (set_tasks <[t:=mkSpawnTask (t_strong x) (t_kicker x) None]> w).
Proof.
  intros HI Ht Ho. destruct x as [n c h]. cbn in Ho. subst h. cbn [t_strong t_kicker].
  split; [by_count HI|apply HI| |apply HI]. apply tasks_pos; [apply HI|]. by eapply (inv_tasks _ _ HI) in Ht.
Qed.

Lemma take_wakers_leaves n ts w t : Inv ts w -> T t ∈ ts ->
  wp (take_wakers n t) (fun vs w' => Inv ((vs ≫= tokens) ++ ts) w' /\
    t_handle <$> tasks w' !! t = t_handle <$> tasks w !! t) w.
Proof.
  revert ts w. induction n as [|n IH]; intros ts w HI Hin; [by apply wp_ret|].
  assert (wp (task_clone t) (fun _ w' => Inv (T t :: ts) w' /\ t_handle <$> tasks w' !! t = t_handle <$> tasks w !! t) w) as H.
  { pose proof (task_clone_leaves _ _ _ HI Hin) as H. destruct (task_there _ _ _ HI Hin) as (x & Ht & _).
    revert H. unfold wp, task_clone, bind, gets. rewrite Ht. cbn [unwrap ret modify]. heap.
    by rewrite lookup_insert_eq. }
  wp_step H. intros [] w1 [H1 E1]. wp_step (IH (T t :: ts)); [exact H1|by left|]. intros vs w2 [H2 E2].
  apply wp_ret. split; [|congruence]. cbn [tokens mbind list_bind app]. by rewrite <-Permutation_middle in H2.
Qed.

(** Running a task uses up an [Arc] of it. *)
Lemma poll_leaves m ts w t : Inv (T t :: ts) w -> wp (poll m t) (fun vs => Inv ((vs ≫= tokens) ++ ts)) w.
Proof.
  intros HI. destruct (task_there _ _ t HI) as (x & Ht & Hn); [by left|].
  unfold poll. apply wp_bind, wp_gets. rewrite Ht. apply wp_bind, wp_ret. apply wp_bind.
  apply (wp_mono _ (fun vs => Inv (T t :: (vs ≫= tokens) ++ ts))).
  - destruct (t_handle x) as [owned|] eqn:Ho; [|by apply wp_ret].
    wp_step (take_wakers_leaves (m_wakers m) (T t :: ts)); [exact HI|by left|]. intros vs w1 [H1 E1].
    rewrite <-Permutation_middle in H1. destruct (m_ready m); [|by apply wp_ret].
    destruct (task_there _ _ t H1) as (x1 & Ht1 & _); [by left|]. apply wp_bind, wp_gets. rewrite Ht1. apply wp_bind, wp_ret.
    rewrite Ht1, Ht in E1. cbn in E1. injection E1 as E1.
    apply wp_bind, wp_modify. wp_step (drop_calls_leaves owned (T t :: (vs ≫= tokens) ++ ts)).
    + apply task_finish_leaves; [done..|]. congruence.
    + intros [] w2 H2. by apply wp_ret.
  - intros vs w1 H1. wp_step task_drop_leaves; [exact H1|]. intros [] w2 H2. by apply wp_ret.
Qed.

(** ** Tags *)

Lemma into_raw_leaves tag ts w : Inv (tag_tokens tag ++ ts) w ->
  wp (into_raw tag) (fun p w' => Inv (X p :: ts) w' /\ boxes w' !! p = Some tag /\ ncalls w' = ncalls w) w.
Proof.
  intros HI. pose proof (alloc_fresh (boxes w)) as Hp. unfold wp, into_raw, bind, gets, modify, ret. heap.
  rewrite lookup_insert_eq. split; [|done]. split; [by_count HI|apply HI..|]. heap.
  intros p ctxs Hg. apply (inv_given _ _ HI) in Hg. rewrite lookup_insert_ne by (intros <-; by rewrite Hp in Hg). done.
Qed.

(** The core has no tag that a method still has. *)
Lemma mine_not_given ts w p : Inv (X p :: ts) w -> given w !! p = None.
Proof.
  intros HI. destruct (given w !! p) as [ctxs|] eqn:Hg; [|done]. pose proof (inv_count _ _ HI (X p)) as H.
  pose proof (count_owns_lookup (fun p _ => [X p]) (given w) p ctxs (X p) Hg) as Hl.
  unfold held in H. rewrite !count_app, count_cons in H. cbv beta in Hl. rewrite count_cons in Hl. rewrite decide_True in H, Hl by done.
  cbn [amount] in H. apply (inv_given _ _ HI), fmap_Some in Hg as (tag & Hb & _).
  rewrite (measure_lookup one _ _ _ Hb) in H. unfold one in H. lia.
Qed.

Lemma give_leaves ts w p tag : Inv (X p :: ts) w -> boxes w !! p = Some tag ->
  Inv ts (set_given <[p:=uses tag]> w).
Proof.
  intros HI Hb. pose proof (mine_not_given _ _ _ HI) as Hg. split; [by_count HI|apply HI..|]. heap.
  intros p' ctxs [[<- <-]|[_ H]]%lookup_insert_Some; [by rewrite Hb|by apply HI].
Qed.

Lemma take_back ts w p ctxs : Inv ts w -> given w !! p = Some ctxs -> Inv (X p :: ts) (set_given (delete p) w).
Proof.
  intros HI Hg. split; [by_count HI|apply HI..|]. heap. intros p' ctxs' [_ H]%lookup_delete_Some. by apply HI.
Qed.

Lemma from_raw_leaves ts w p tag : Inv (X p :: ts) w -> boxes w !! p = Some tag ->
  wp (from_raw p) (fun tag' w' => tag' = tag /\ Inv (tag_tokens tag ++ ts) w' /\ given w' = given w) w.
Proof.
  intros HI Hb. pose proof (mine_not_given _ _ _ HI) as Hg. unfold wp, from_raw, bind, gets. rewrite Hb. cbn [unwrap ret modify].
  split; [done|]. split; [|done]. split; [destruct tag; by_count HI|apply HI..|]. heap.
  intros p' ctxs H. rewrite lookup_delete_ne by (intros <-; by rewrite Hg in H). by apply HI.
Qed.

Lemma start_batch_leaves ts w c p tag : Inv (X p :: ts) w -> boxes w !! p = Some tag -> 0 < measure id (ncalls w) c ->
  wp (start_batch true c (uses tag) p) (fun b w' => b = true /\ Inv ts w') w.
Proof.
  intros HI Hb (n & Hc & _)%call_there. unfold wp, start_batch, bind, gets. rewrite Hc. cbn [unwrap ret].
  split; [done|]. by apply give_leaves.
Qed.

Lemma CallTag_drop_leaves tag ts w : Inv (tag_tokens tag ++ ts) w -> wp (CallTag_drop tag) (fun _ => Inv ts) w.
Proof.
  destruct tag as [b|r|r b|b c| |t]; cbn [tag_tokens app CallTag_drop]; intros HI.
  - by apply BatchContext_drop_leaves.
  - by apply RequestContext_drop_leaves; left.
  - wp_step RequestContext_drop_leaves; [by right|]. intros [] w' H. by apply BatchContext_drop_leaves.
  - wp_step BatchContext_drop_leaves; [exact HI|]. intros [] w' H. by apply Call_drop_leaves.
  - by apply wp_ret.
  - by apply task_drop_leaves.
Qed.

(** ** Starting operations *)

(** A batch of a tag that holds a new batch context. *)
Lemma box_batch_tag_leaves tag b ts w : batch_ctx tag = Some b -> Inv (tag_tokens tag ++ ts) w ->
  wp (box_batch_tag tag) (fun bp w' => bp.1 = b /\ Inv (X bp.2 :: ts) w' /\ boxes w' !! bp.2 = Some tag /\ ncalls w' = ncalls w) w.
Proof.
  intros Hb HI. unfold box_batch_tag. rewrite Hb. apply wp_bind, wp_ret. wp_step into_raw_leaves; [exact HI|].
  intros p w' H. by apply wp_ret.
Qed.

(** A tag with a new batch context; no call changes. *)
Lemma new_batch_leaves (f : nat -> CallTag) ts w : Inv ts w ->
  wp (let* b := BatchContext_new in ret (f b)) (fun tag w' => exists b, tag = f b /\ Inv (B b :: ts) w' /\ ncalls w' = ncalls w) w.
Proof.
  intros HI. assert (wp BatchContext_new (fun b w' => Inv (B b :: ts) w' /\ ncalls w' = ncalls w) w) as H
    by (split; [apply (BatchContext_new_leaves ts w HI)|done]).
  wp_step H. intros b w' H'. apply wp_ret. by exists b.
Qed.

Lemma check_run_leaves ts w c : Inv ts w -> 0 < amount w (K c) -> wp (check_run true c) (fun _ => Inv ts) w.
Proof.
  intros HI Hc. wp_step new_batch_leaves; [exact HI|]. intros ? w1 (b & -> & H1 & E1).
  wp_step (box_batch_tag_leaves (Batch b)); [done|exact H1|]. intros [b' p] w2 (Eb & H2 & Hb & E2). cbn in Eb. subst b'.
  wp_step (start_batch_leaves ts w2 c p (Batch b)); [exact H2|exact Hb|by rewrite E2, E1|]. intros ? w3 [-> H3].
  by apply wp_ret.
Qed.

Lemma start_leaves open ts w c : Inv ts w -> 0 < amount w (K c) -> wp (start open true c) (fun b w' => b = open /\ Inv ts w') w.
Proof.
  intros HI Hc. destruct open; [|by apply wp_ret]. wp_step check_run_leaves; [exact HI|exact Hc|].
  intros [] w' H. by apply wp_ret.
Qed.

Lemma Call_abort_leaves open ts w c : Inv (K c :: ts) w -> wp (Call_abort open true c) (fun _ => Inv ts) w.
Proof.
  intros HI. destruct open; [|by apply Call_drop_leaves].
  wp_step new_batch_leaves; [exact HI|]. intros ? w1 (b & -> & H1 & E1).
  wp_step (box_batch_tag_leaves (Abort b c)); [done|exact H1|]. intros [b' p] w2 (Eb & H2 & Hb & E2). cbn in Eb. subst b'.
  wp_step (start_batch_leaves ts w2 c p (Abort b c)); [exact H2|exact Hb| |].
  - rewrite E2, E1. apply (there _ _ (K c) HI). by left.
  - intros ? w3 [-> H3]. by apply wp_ret.
Qed.

Lemma request_call_leaves open ts w : Inv ts w -> wp (request_call open true) (fun _ => Inv ts) w.
Proof.
  intros HI. destruct open; [|by apply wp_ret]. apply wp_bind. wp_step RequestContext_new_leaves; [exact HI|]. intros r w1 H1.
  apply wp_ret. apply wp_bind, wp_ret. wp_step (into_raw_leaves (Request r)); [exact H1|]. intros p w2 (H2 & Hb & _).
  apply wp_modify. by apply (give_leaves _ _ _ (Request r)).
Qed.

Lemma start_action_leaves ts w : Inv ts w -> wp start_action (fun _ => Inv ts) w.
Proof.
  intros HI. wp_step (into_raw_leaves Action); [exact HI|]. intros p w2 (H2 & Hb & _).
  apply wp_modify. by apply (give_leaves _ _ _ Action).
Qed.

(** ** Serving *)

Lemma execute_leaves s ts w r : Inv (F r :: ts) w -> wp (execute true s r) (fun vs => Inv ((vs ≫= tokens) ++ ts)) w.
Proof.
  intros HI.
  assert (forall w1, Inv (F r :: ts) w1 -> wp (do* RequestContext_drop r in ret ([] : list Val)) (fun vs => Inv ((vs ≫= tokens) ++ ts)) w1) as Hend.
  { intros w1 H1. wp_step RequestContext_drop_leaves; [by right|]. intros [] w2 H2. by apply wp_ret. }
  destruct s; (wp_step RequestContext_call_leaves; [exact HI|by left|]); intros c w1 H1;
    pose proof (there _ _ (K c) H1 (list_elem_of_here _ _)) as Hc.
  - wp_step Call_abort_leaves; [exact H1|]. intros [] w2. apply Hend.
  - wp_step Call_drop_leaves; [exact H1|]. intros [] w2. apply Hend.
  - wp_step check_run_leaves; [exact H1|done|]. intros [] w2 H2. wp_step Call_abort_leaves; [exact H2|]. intros [] w3. apply Hend.
  - wp_step check_run_leaves; [exact H1|done|]. intros [] w2 H2. by apply wp_ret.
Qed.

Lemma execute_unimplemented_leaves a o ts w r : Inv (F r :: ts) w -> wp (execute_unimplemented true a o r) (fun _ => Inv ts) w.
Proof.
  intros HI. wp_step RequestContext_call_leaves; [exact HI|by left|]. intros c w1 H1.
  pose proof (there _ _ (K c) H1 (list_elem_of_here _ _)) as Hc. apply wp_bind.
  apply (wp_mono _ (fun _ => Inv (F r :: ts))); [|intros [] w2 H2; by apply RequestContext_drop_leaves; right].
  wp_step start_leaves; [exact H1|done|]. intros b w2 [-> H2]. destruct a; [by apply Call_abort_leaves|by apply Call_drop_leaves].
Qed.

Lemma handle_unary_req_leaves ts w r : Inv (F r :: ts) w -> wp (handle_unary_req true r) (fun _ => Inv ts) w.
Proof.
  intros HI. wp_step new_batch_leaves; [exact HI|]. intros ? w1 (b & -> & H1 & _).
  apply wp_bind, wp_ret. apply wp_bind, wp_ret.
  pose proof (get_call_leaves _ _ r H1 ltac:(by right; left)) as Hg. rewrite Permutation_swap in H1.
  assert (wp (into_raw (UnaryRequest r b)) (fun p w' => (Inv (X p :: ts) w' /\ boxes w' !! p = Some (UnaryRequest r b)) /\
    wp (get_call r) (fun c w'' => w'' = w' /\ 0 < amount w' (K c)) w') w1) as Hp.
  { pose proof (into_raw_leaves (UnaryRequest r b) _ _ H1) as Hi. revert Hi Hg.
    unfold wp, into_raw, get_call, bind, gets, modify, ret. heap. intros (? & ? & ?) Hg. split; [done|].
    destruct (rctxs w1 !! r) as [[c|]|]; cbn [unwrap] in *; [|done..]. destruct Hg as [_ Hg]. split; [done|exact Hg]. }
  wp_step Hp. intros p w2 [[H2 Hb] Hg2]. wp_step Hg2. intros c w3 [-> Hc].
  wp_step (start_batch_leaves ts w2 c p (UnaryRequest r b)); [done..|]. intros ? w3 [-> H3]. by apply wp_ret.
Qed.

(** ** Resolving *)

Lemma Request_resolve_leaves m success ts w r : Inv ((if success : bool then F r else R r) :: ts) w ->
  wp (Request_resolve true m r success) (fun vs => Inv ((vs ≫= tokens) ++ ts)) w.
Proof.
  intros HI. unfold Request_resolve. destruct success.
  - assert (forall vs w1, Inv ((vs ≫= tokens) ++ ts) w1 ->
      wp (do* request_call (m_again m) true in ret vs) (fun vs => Inv ((vs ≫= tokens) ++ ts)) w1) as Hend.
    { intros vs w1 H1. wp_step request_call_leaves; [exact H1|]. intros [] w2 H2. by apply wp_ret. }
    destruct (m_route m) as [a o|s|]; cbn [handle_stream_req]; apply wp_bind.
    + wp_step execute_unimplemented_leaves; [exact HI|]. intros [] w1 H1. apply wp_ret. by apply Hend.
    + wp_step execute_leaves; [exact HI|]. intros vs w1 H1. apply wp_ret. by apply Hend.
    + apply wp_ret. wp_step handle_unary_req_leaves; [exact HI|]. intros [] w1 H1. by apply wp_ret.
  - wp_step request_call_leaves; [exact HI|]. intros [] w1 H1. wp_step RequestContext_drop_leaves; [by left|].
    intros [] w2 H2. by apply wp_ret.
Qed.

Lemma read_batch_leaves ts w b : Inv ts w -> B b ∈ ts -> wp (read_batch b) (fun _ => Inv ts) w.
Proof.
  intros HI Hin. destruct (measure_pos one (bctxs w) b) as (x & Hb & _); [by apply (there _ _ (B b) HI)|].
  unfold wp, read_batch, bind, gets. by rewrite Hb.
Qed.

Lemma handle_leaves m ts w r b : Inv (F r :: B b :: ts) w ->
  wp (handle true m r b) (fun vs => Inv ((vs ≫= tokens) ++ ts)) w.
Proof.
  intros HI. unfold handle. destruct (m_message m) as [s|].
  - wp_step (execute_leaves s (B b :: ts)); [exact HI|]. intros vs w1 H1. rewrite <-Permutation_middle in H1.
    wp_step BatchContext_drop_leaves; [exact H1|]. intros [] w2 H2. by apply wp_ret.
  - wp_step RequestContext_call_leaves; [exact HI|by left|]. intros c w1 H1.
    wp_step Call_abort_leaves; [exact H1|]. intros [] w2 H2.
    wp_step RequestContext_drop_leaves; [right; exact H2|]. intros [] w3 H3.
    wp_step BatchContext_drop_leaves; [exact H3|]. intros [] w4 H4. by apply wp_ret.
Qed.

Lemma UnaryRequest_resolve_leaves m success ts w r b : Inv (F r :: B b :: ts) w ->
  wp (UnaryRequest_resolve true m r b success) (fun vs => Inv ((vs ≫= tokens) ++ ts)) w.
Proof.
  intros HI. unfold UnaryRequest_resolve. destruct success.
  - wp_step read_batch_leaves; [exact HI|by right; left|]. intros [] w1 H1. wp_step handle_leaves; [exact H1|].
    intros vs w2 H2. wp_step request_call_leaves; [exact H2|]. intros [] w3 H3. by apply wp_ret.
  - wp_step request_call_leaves; [exact HI|]. intros [] w1 H1.
    wp_step RequestContext_drop_leaves; [right; exact H1|]. intros [] w2 H2.
    wp_step BatchContext_drop_leaves; [exact H2|]. intros [] w3 H3. by apply wp_ret.
Qed.

(** What the core leaves of a tag: a request that succeeded has its call. *)
Definition completed (tag : CallTag) (success : bool) : list Token :=
  match tag with
  | Request r => [if success then F r else R r]
  | _ => tag_tokens tag
  end.

Lemma resolve_leaves m tag success ts w : Inv (completed tag success ++ ts) w ->
  wp (resolve true m tag (succeeds tag success)) (fun vs => Inv ((vs ≫= tokens) ++ ts)) w.
Proof.
  destruct tag as [b|r|r b|b c| |t]; cbn [completed tag_tokens app succeeds]; intros HI.
  - unfold resolve, Batch_resolve. apply wp_bind. wp_step read_batch_leaves; [exact HI|by left|]. intros [] w1 H1.
    eapply wp_mono; [by apply BatchContext_drop_leaves|]. intros [] w2 H2. by apply wp_ret.
  - by apply Request_resolve_leaves.
  - by apply UnaryRequest_resolve_leaves.
  - wp_step (CallTag_drop_leaves (Abort b c)); [exact HI|]. intros [] w1 H1. by apply wp_ret.
  - by apply wp_ret.
  - apply wp_bind, wp_ret. by apply poll_leaves.
Qed.

(** The core fills a request context with a new call. *)
Lemma fills ts w r : Inv (R r :: ts) w ->
  Inv (F r :: ts) (set_rctxs <[r:=Some (alloc (ncalls w))]> (set_ncalls <[alloc (ncalls w):=1]> w)).
Proof.
  intros HI. pose proof (alloc_fresh (ncalls w)). pose proof (unfilled_there _ _ r HI (list_elem_of_here _ _)).
  split; [by_count HI| |apply HI..]. heap. intros c n [[<- <-]|[_ Hc]]%lookup_insert_Some; [lia|by eapply (inv_calls _ _ HI)].
Qed.

Lemma core_writes_leaves ts w p ctxs success : Inv ts w -> given w !! p = Some ctxs ->
  wp (core_writes_all success ctxs) (fun _ w' => exists tag, boxes w' !! p = Some tag /\
    Inv (completed tag success ++ ts) (set_boxes (delete p) (set_given (delete p) w'))) w.
Proof.
  intros HI Hg. pose proof (inv_given _ _ HI _ _ Hg) as Hb. apply fmap_Some in Hb as (tag & Hb & ->).
  pose proof (from_raw_leaves _ _ p tag (take_back _ _ _ _ HI Hg) Hb) as H.
  unfold wp, from_raw, bind, gets in H. cbn [set_given boxes] in H. rewrite Hb in H. cbn [unwrap ret modify] in H.
  destruct H as (_ & H & _).
  assert (forall b, B b ∈ tag_tokens tag ++ ts -> is_Some (bctxs w !! b)) as Hbatch.
  { intros b Hin. pose proof (there _ _ _ H Hin) as Hn. apply (measure_pos one) in Hn as (x & Hx & _). by exists x. }
  destruct tag as [b|r|r b|b c| |t]; cbn [uses core_writes_all core_writes].
  - destruct (Hbatch b) as [x Hx]; [by left|]. unfold wp, read_batch, bind, gets. rewrite Hx. by eexists.
  - pose proof (unfilled_there _ _ r H ltac:(by left)) as Hr. cbn [set_boxes set_given rctxs] in Hr.
    unfold wp, bind, gets. rewrite Hr. cbn [unwrap ret]. destruct success; [|by eexists].
    exists (Request r). split; [done|]. apply (fills ts _ r H).
  - destruct (Hbatch b) as [x Hx]; [by right; left|]. unfold wp, read_batch, bind, gets. rewrite Hx. by eexists.
  - destruct (Hbatch b) as [x Hx]; [by left|]. unfold wp, read_batch, bind, gets. rewrite Hx. by eexists.
  - by eexists.
  - by eexists.
Qed.

Lemma event_leaves m ts w p ctxs success : Inv ts w -> given w !! p = Some ctxs ->
  wp (event true m p ctxs success) (fun vs => Inv ((vs ≫= tokens) ++ ts)) w.
Proof.
  intros HI Hg. wp_step core_writes_leaves; [exact HI|exact Hg|]. intros [] w1 (tag & Hb & H1).
  apply wp_bind, wp_modify. unfold from_raw. apply wp_bind. apply wp_bind, wp_gets. heap. rewrite Hb.
  apply wp_bind, wp_ret. apply wp_bind, wp_modify. apply wp_ret. by apply resolve_leaves.
Qed.

(** ** Tasks *)

Lemma spawn_leaves m ts w c owned : Inv (K c :: (K <$> owned) ++ ts) w ->
  wp (spawn m c owned) (fun vs => Inv ((vs ≫= tokens) ++ ts)) w.
Proof. intros HI. wp_step SpawnTask_new_leaves; [exact HI|]. intros t w1 H1. by apply poll_leaves. Qed.

Lemma kick_leaves open ts w t : Inv (T t :: ts) w -> T t ∈ ts -> wp (kick open true t (Spawn t)) (fun _ => Inv ts) w.
Proof.
  intros HI Hin. destruct open; [|by apply task_drop_leaves].
  destruct (task_there _ _ t HI) as (x & Ht & _); [by left|]. apply wp_bind, wp_gets. rewrite Ht. apply wp_bind, wp_ret.
  wp_step (into_raw_leaves (Spawn t)); [exact HI|]. intros p w1 (H1 & Hb & Ec).
  wp_step (start_batch_leaves ts w1 (t_kicker x) p (Spawn t)); [done|done| |].
  - rewrite Ec. change (0 < amount w (K (t_kicker x))). rewrite <-(inv_count _ _ HI). unfold held. rewrite !count_app.
    pose proof (count_owns_lookup (fun _ => task_tokens) (tasks w) t x (K (t_kicker x)) Ht) as H. cbv beta in H.
    unfold task_tokens in H at 1. rewrite count_cons, decide_True in H by done. lia.
  - intros ? w2 [-> H2]. by apply wp_ret.
Qed.

Lemma wake_by_ref_leaves how ts w t : Inv ts w -> T t ∈ ts ->
  wp (wake_by_ref true how t) (fun vs => Inv ((vs ≫= tokens) ++ ts)) w.
Proof.
  intros HI Hin. destruct how as [| |open]; [by apply wp_ret| |]; (wp_step task_clone_leaves; [exact HI|exact Hin|]);
    intros [] w1 H1; [by apply wp_ret|]. wp_step kick_leaves; [exact H1|done|]. intros [] w2 H2. by apply wp_ret.
Qed.
End operations.

(** ** Any program *)

Section programs.
Implicit Types (w : Heap) (vs : list Val).

Lemma take_value vs w i v : Inv (vs ≫= tokens) w -> vs !! i = Some v -> Inv (tokens v ++ (delete i vs ≫= tokens)) w.
Proof.
  intros HI Hi. change (tokens v ++ (delete i vs ≫= tokens)) with ((v :: delete i vs) ≫= tokens).
  rewrite <-(delete_Permutation _ _ _ Hi). exact HI.
Qed.

Lemma refers vs i v t : vs !! i = Some v -> t ∈ tokens v -> t ∈ vs ≫= tokens.
Proof. intros Hv%list_elem_of_lookup_2 Ht. apply list_elem_of_bind. by exists v. Qed.

Lemma drop_held_leaves v ts w : Inv (tokens v ++ ts) w -> wp (drop_value v) (fun _ => Inv ts) w.
Proof.
  destruct v; cbn [tokens app drop_value]; intros HI;
    [by apply Call_drop_leaves|by apply RequestContext_drop_leaves; right|by apply task_drop_leaves..].
Qed.

(** The call that moves into a future is no longer with the values. *)
Lemma move_call_leaves j vs w c : Inv (K c :: (vs ≫= tokens)) w ->
  Inv (K c :: (K <$> (move_call j vs).1) ++ ((move_call j vs).2 ≫= tokens)) w.
Proof.
  intros HI. destruct j as [j|]; [|done]. cbn [move_call]. destruct (vs !! j) as [[c'| | |]|] eqn:Hj; try done.
  cbn [fst snd fmap list_fmap app].
  change (Inv (K c :: ((VCall c' :: delete j vs) ≫= tokens)) w). by rewrite <-(delete_Permutation _ _ _ Hj).
Qed.

Lemma new_values_leaves vs w (c : M Heap (list Val)) :
  wp c (fun l => Inv ((l ≫= tokens) ++ (vs ≫= tokens))) w ->
  wp (let* l := c in ret (l ++ vs)) (fun vs' => Inv (vs' ≫= tokens)) w.
Proof. intros H. apply wp_bind. eapply wp_mono; [exact H|]. intros l w' H'. apply wp_ret. by rewrite bind_app. Qed.

Lemma tag_op_leaves op vs w : accepted op -> Inv (vs ≫= tokens) w -> wp (run_op op vs) (fun vs' => Inv (vs' ≫= tokens)) w.
Proof.
  intros Hok HI. assert (wp (ret vs) (fun vs' => Inv (vs' ≫= tokens)) w) as Hsame by (by apply wp_ret).
  assert (forall i v t, vs !! i = Some v -> t ∈ tokens v -> 0 < amount w t) as Hthere.
  { intros i v t Hi Ht. apply (there _ _ _ HI). by eapply refers. }
  destruct op as [|i|i open ok|open ok| |i j m|i how ok|i m|i|p success m ok]; cbn [run_op];
    try (cbn in Hok; apply Is_true_true in Hok as ->);
    try (destruct (vs !! i) as [[c|r|t|t]|] eqn:Hi; try exact Hsame).
  - wp_step call_create_leaves; [exact HI|]. intros c w' H. by apply wp_ret.
  - wp_step call_ref_leaves; [exact HI|eapply Hthere; [done|by left]|]. intros [] w' H. by apply wp_ret.
  - wp_step start_leaves; [exact HI|eapply Hthere; [done|by left]|]. intros b w' [_ H]. by apply wp_ret.
  - wp_step request_call_leaves; [exact HI|]. intros [] w' H. by apply wp_ret.
  - wp_step start_action_leaves; [exact HI|]. intros [] w' H. by apply wp_ret.
  - wp_step call_ref_leaves; [exact HI|eapply Hthere; [done|by left]|]. intros [] w1 H1.
    apply (move_call_leaves j) in H1. destruct (move_call j vs) as [owned vs']. by apply new_values_leaves, spawn_leaves.
  - wp_step RequestContext_call_leaves; [exact HI|eapply refers; [done|by left]|]. intros c w1 H1.
    apply (move_call_leaves j) in H1. destruct (move_call j vs) as [owned vs']. by apply new_values_leaves, spawn_leaves.
  - apply new_values_leaves, wake_by_ref_leaves; [exact HI|eapply refers; [done|by left]].
  - apply new_values_leaves, poll_leaves. exact (take_value _ _ _ _ HI Hi).
  - wp_step (drop_held_leaves (VCall c)); [by apply take_value|]. intros [] w' H. by apply wp_ret.
  - wp_step (drop_held_leaves (VCtx r)); [by apply take_value|]. intros [] w' H. by apply wp_ret.
  - wp_step (drop_held_leaves (VWaker t)); [by apply take_value|]. intros [] w' H. by apply wp_ret.
  - wp_step (drop_held_leaves (VWork t)); [by apply take_value|]. intros [] w' H. by apply wp_ret.
  - apply wp_bind, wp_gets. destruct (given w !! p) as [ctxs|] eqn:Hg; [|exact Hsame].
    by apply new_values_leaves, event_leaves.
Qed.

Lemma tag_program_leaves ops vs w : Forall accepted ops -> Inv (vs ≫= tokens) w ->
  wp (run_program ops vs) (fun vs' => Inv (vs' ≫= tokens)) w.
Proof.
  intros Hops. revert vs w. induction Hops as [|op ops Hop _ IH]; intros vs w HI; [by apply wp_ret|].
  wp_step tag_op_leaves; [exact Hop|exact HI|]. intros vs' w' H. by apply IH.
Qed.

Lemma empty_heap_ok : Inv [] empty_heap.
Proof. split; [by intros []|intros ? ? H; by destruct (lookup_empty_Some _ _ H)..]. Qed.

(** Which tokens a part of the heap can hold. *)
Lemma elem_of_held w t : t ∈ held w <->
  (exists p tag, boxes w !! p = Some tag /\ t ∈ tag_tokens tag) \/
  (exists r o, rctxs w !! r = Some o /\ t ∈ ctx_tokens o) \/
  (exists i x, tasks w !! i = Some x /\ t ∈ task_tokens x) \/
  (exists p ctxs, given w !! p = Some ctxs /\ t = X p).
Proof.
  unfold held. rewrite !elem_of_app, !elem_of_owns. by setoid_rewrite list_elem_of_singleton.
Qed.

Local Ltac by_elem :=
  unfold task_tokens in *; cbn [ctx_tokens] in *;
  repeat rewrite ?list_elem_of_singleton, ?elem_of_cons, ?list_elem_of_fmap, ?elem_of_nil in *;
  repeat match goal with
  | H : _ \/ _ |- _ => destruct H
  | H : _ /\ _ |- _ => destruct H
  | H : exists _, _ |- _ => destruct H
  end; simplify_eq; solve [done | auto | match goal with H : forall c, K _ <> K c |- _ => by destruct (H _ eq_refl) end].

Lemma X_not_owned p w : (forall vs, X p ∉ vs ≫= tokens) /\ (X p ∈ held w -> is_Some (given w !! p)).
Proof.
  split.
  - intros vs ([] & H & _)%list_elem_of_bind; cbn in H; by apply list_elem_of_singleton in H.
  - rewrite elem_of_held. intros [(? & tag & _ & H)|[(? & o & _ & H)|[(? & x & _ & H)|(q & ctxs & Hg & [= ->])]]].
    + destruct tag; cbn in H; by_elem.
    + destruct o; cbn in H; by_elem.
    + by_elem.
    + by eexists.
Qed.

(** The core has every boxed tag. *)
Lemma box_given vs w p tag : Inv (vs ≫= tokens) w -> boxes w !! p = Some tag -> given w !! p = Some (uses tag).
Proof.
  intros HI Hb. pose proof (inv_count _ _ HI (X p)) as H. cbn [amount] in H. rewrite (measure_lookup one _ _ _ Hb) in H.
  destruct (X_not_owned p w) as [Hv%(fun f => f vs) Hh]. apply count_zero in Hv. rewrite Hv in H.
  destruct Hh as [ctxs Hg]; [apply count_elem; unfold one in H; lia|]. rewrite Hg.
  apply (inv_given _ _ HI) in Hg. rewrite Hb in Hg. cbn in Hg. congruence.
Qed.

Lemma written_there vs w p ctxs x : Inv (vs ≫= tokens) w -> given w !! p = Some ctxs -> x ∈ ctxs -> 0 < amount w x.
Proof.
  intros HI Hg Hx. apply (inv_given _ _ HI), fmap_Some in Hg as (tag & Hb & ->).
  rewrite <-(inv_count _ _ HI x). apply Nat.add_pos_r, count_elem. apply elem_of_held. left. exists p, tag. split; [done|].
  destruct tag; cbn in *; by_elem.
Qed.

(** Without values, and with all operations ended, nothing is left on the heap. *)
Lemma all_freed w : Inv [] w -> given w = ∅ -> w = empty_heap.
Proof.
  intros HI Hg. assert (boxes w = ∅) as Hb.
  { apply map_eq. intros p. rewrite lookup_empty. destruct (boxes w !! p) as [tag|] eqn:Hp; [|done].
    pose proof (box_given [] w p tag HI Hp) as H. by rewrite Hg in H. }
  assert (forall t, t ∈ held w -> (exists r o, rctxs w !! r = Some o /\ t ∈ ctx_tokens o) \/
    (exists i x, tasks w !! i = Some x /\ t ∈ task_tokens x)) as Hheld.
  { intros t. rewrite elem_of_held, Hb, Hg. intros [(? & ? & [=] & _)|[?|[?|(? & ? & [=] & _)]]]; auto. }
  assert (forall t, (forall c, t <> K c) -> amount w t = 0) as Hno.
  { intros t Ht. rewrite <-(inv_count _ _ HI), count_nil. apply count_zero.
    intros [(r & [c|] & _ & Hin)|(i & x & _ & Hin)]%Hheld; by_elem. }
  assert (tasks w = ∅) as Ht by (apply (nothing_held t_strong); [apply HI|intros t; by apply (Hno (T t))]).
  assert (rctxs w = ∅) as Hr.
  { apply (nothing_held one); [intros; unfold one; lia|]. intros r. pose proof (Hno (R r) ltac:(done)) as H1.
    pose proof (Hno (F r) ltac:(done)) as H2. cbn [amount] in *. unfold measure in *.
    by destruct (rctxs w !! r) as [[c|]|]. }
  assert (bctxs w = ∅) as Hx by (apply (nothing_held one); [intros; unfold one; lia|intros b; by apply (Hno (B b))]).
  assert (ncalls w = ∅) as Hc.
  { apply (nothing_held id); [apply HI|]. intros c. change (amount w (K c) = 0). rewrite <-(inv_count _ _ HI), count_nil.
    apply count_zero. rewrite Hr, Ht in Hheld. by intros [(? & ? & [=] & _)|(? & ? & [=] & _)]%Hheld. }
  destruct w. cbn in *. by subst.
Qed.

(** C5: memory that goes through the core is used while it is there and freed once: whatever a
    program does with its calls, handlers and wakers, however requests are routed, served and
    aborted, and whenever the core ends operations, as long as it accepts what is started no
    tag, context, call or task is used after it was freed, freed twice, or freed as something
    else; the tags that the core has are the boxed ones, each with its contexts, which are
    there for the core to write, a request context without a call; calls and tasks are
    referred to as often as they are counted; and when all operations have ended and no value
    is left, nothing remains on the heap. *)
Theorem tags_freed_once (ops : list TagOp) : Forall accepted ops ->
  exists vs w, run_program ops [] empty_heap = Done (vs, w) /\
    given w = uses <$> boxes w /\
    (forall p ctxs x, given w !! p = Some ctxs -> x ∈ ctxs ->
       match x with
       | B b => is_Some (bctxs w !! b)
       | R r => rctxs w !! r = Some None
       | _ => False
       end) /\
    (forall c, default 0 (ncalls w !! c) = count (K c) (vs ≫= tokens) + count (K c) (held w)) /\
    (forall t, default 0 (t_strong <$> tasks w !! t) = count (T t) (vs ≫= tokens) + count (T t) (held w)) /\
    (vs = [] -> given w = ∅ -> w = empty_heap).
Proof.
  intros Hops. pose proof (tag_program_leaves ops [] empty_heap Hops empty_heap_ok) as H.
  apply wp_Done in H as (vs & w & E & HI). exists vs, w. split; [done|]. split; [|split; [|split; [|split]]].
  - apply map_eq. intros p. rewrite lookup_fmap. destruct (boxes w !! p) as [tag|] eqn:Hb; cbn; [by eapply box_given|].
    destruct (given w !! p) as [ctxs|] eqn:Hg; [|done]. apply (inv_given _ _ HI) in Hg. by rewrite Hb in Hg.
  - intros p ctxs x Hg Hx. pose proof (written_there _ _ _ _ _ HI Hg Hx) as Hn.
    apply (inv_given _ _ HI), fmap_Some in Hg as (tag & _ & ->).
    destruct tag; cbn in Hx; try (by apply not_elem_of_nil in Hx); apply list_elem_of_singleton in Hx as ->;
      cbn [amount] in Hn; unfold measure in Hn; [by destruct (bctxs w !! ctx); [eexists|cbn in Hn; lia]| |
        by destruct (bctxs w !! _); [eexists|cbn in Hn; lia]..].
    destruct (rctxs w !! ctx) as [[c|]|]; cbn in Hn; [lia|done|lia].
  - intros c. rewrite (inv_count _ _ HI (K c)). cbn [amount]. unfold measure. by destruct (ncalls w !! c).
  - intros t. by rewrite (inv_count _ _ HI (T t)).
  - intros ->. by apply all_freed.
Qed.
End programs.

(** ** When the core refuses

    A batch that the core does not accept is a panic anyway, but before it the tag is freed
    as if it were a [c_void]. *)
Theorem refused_batch_frees_wrongly (c : nat) (w : Heap) : is_Some (ncalls w !! c) ->
  check_run false c w = Panicked "freed with another layout" /\
  Call_abort true false c w = Panicked "freed with another layout".
Proof.
  intros [n Hc]. unfold check_run, Call_abort, batch_pair, abort, box_batch_tag, start_batch, from_raw_void, BatchContext_new, into_raw.
  unfold bind, gets, modify, ret, panic. cbn [batch_ctx unwrap]. unfold ret. heap. rewrite Hc. cbn [unwrap]. unfold ret. heap.
  by rewrite !lookup_insert_eq.
Qed.

(** ** A run

    A server asks for a request; one comes, of a client side unary method, and its message;
    the handler spawns a future that owns the call of its sink, keeps a waker and is done when
    it is woken from another thread.  At the end the server takes no more requests. *)
Definition meets (route : Route) (message : option Served) (again ready : bool) (wakers : nat) : Meets :=
  mkMeets route message true again ready wakers.

Definition demo_ops : list TagOp := [
  OpRequestCall true true;
  OpEvent 0 true (meets ClientUnary None true false 0) true;
  OpEvent 0 true (meets ClientUnary (Some Handled) true false 0) true;
  OpSpawn 1 (Some 0) (meets ClientUnary None true false 1);
  OpWake 0 (Elsewhere true) true;
  OpDrop 0; OpDrop 0;
  OpEvent 2 true (meets ClientUnary None true true 0) true;
  OpEvent 0 true (meets ClientUnary None true true 0) true;
  OpEvent 1 false (meets ClientUnary None false true 0) true ].

Definition summary (r : outcome (list Val * Heap)) : option (list Val * (nat * nat * nat * nat * nat)) :=
  match r with
  | Done (vs, w) => Some (vs, (size (boxes w), size (bctxs w), size (rctxs w), size (ncalls w), size (tasks w)))
  | Panicked _ => None
  end.

Example demo_tags :
  ((fun n => summary (run_program (take n demo_ops) [] empty_heap)) <$> [2; 3; 5; 7; 8; 10]) =
  [Some ([], (1, 1, 1, 1, 0)); Some ([VCall 0; VCtx 0], (2, 1, 2, 1, 0)); Some ([VWaker 0; VCtx 0], (3, 1, 2, 1, 1));
   Some ([], (3, 1, 1, 1, 1)); Some ([], (2, 1, 1, 0, 0)); Some ([], (0, 0, 0, 0, 0))].
Proof. vm_compute. reflexivity. Qed.

Lemma tags_freed_once_witness : Forall accepted demo_ops /\
  exists vs w, run_program demo_ops [] empty_heap = Done (vs, w) /\ given w = uses <$> boxes w.
Proof.
  assert (Forall accepted demo_ops) as H by (repeat constructor). split; [exact H|].
  destruct (tags_freed_once demo_ops H) as (vs & w & E & G & _). exists vs, w. by split.
Defined.
