(* ===== verification/Layout.v ===== *)
(** How types that are shared with the core lie in memory: [#[repr(C)]] structs and unions,
    arrays, integers and pointers of a 64 bit target, as src/grpc-sys/bindings declares them.

    Offsets, sizes and alignments are computed by the rules of C; a path of fields and indices
    is located by its offset; and an object is the list of its bytes, of which a path is
    loaded and stored. *)

From S2P Require Import Prelude.

(** [CInt n]: an integer or an enumeration of [n] bytes. *)
#[local] Unset Elimination Schemes.
Inductive ctype :=
| CInt (bytes : nat)
| CPtr
| CArray (elem : ctype) (n : nat)
| CStruct (fields : list (string * ctype))
| CUnion (members : list (string * ctype)).
#[local] Set Elimination Schemes.

(** Induction with the hypothesis for all fields. *)
Lemma ctype_fields_ind (P : ctype -> Prop) :
  (forall n, P (CInt n)) -> P CPtr -> (forall e n, P e -> P (CArray e n)) ->
  (forall fs, Forall (fun f => P f.2) fs -> P (CStruct fs)) ->
  (forall fs, Forall (fun f => P f.2) fs -> P (CUnion fs)) -> forall t, P t.
Proof.
  intros Hi Hp Ha Hs Hu. fix IH 1. intros [n| |e n|fs|fs].
  - apply Hi.
  - apply Hp.
  - apply Ha, IH.
  - apply Hs. induction fs as [|[x t] fs IHfs]; constructor; [apply IH|exact IHfs].
  - apply Hu. induction fs as [|[x t] fs IHfs]; constructor; [apply IH|exact IHfs].
Qed.

(** ** Sizes *)

Definition round_up (n a : nat) : nat := (n + (a - 1)) / a * a.

Fixpoint align (t : ctype) : nat :=
  match t with
  | CInt n => n
  | CPtr => 8
  | CArray e _ => align e
  | CStruct fs | CUnion fs => foldr (fun f a => align f.2 `max` a) 1 fs
  end.

Fixpoint size (t : ctype) : nat :=
  match t with
  | CInt n => n
  | CPtr => 8
  | CArray e n => n * size e
  | CStruct fs => round_up (foldl (fun off f => round_up off (align f.2) + size f.2) 0 fs) (align t)
  | CUnion fs => round_up (foldr (fun f m => size f.2 `max` m) 0 fs) (align t)
  end.

(** Types that can be declared. *)
Definition int_bytes (n : nat) : bool := bool_decide (n ∈ [1; 2; 4; 8; 16]).

Fixpoint wf (t : ctype) : bool :=
  match t with
  | CInt n => int_bytes n
  | CPtr => true
  | CArray e _ => wf e
  | CStruct fs | CUnion fs => forallb (fun f => wf f.2) fs && bool_decide (NoDup fs.*1)
  end.

(** ** Paths *)

Inductive step := Fld (name : string) | Idx (i : nat).

#[export] Instance step_eq_dec : EqDecision step.
Proof. solve_decision. Defined.

(** The field [x] among fields that start at [off]. *)
Fixpoint find_field (off : nat) (fs : list (string * ctype)) (x : string) : option (nat * ctype) :=
  match fs with
  | [] => None
  | (y, t) :: fs =>
      let o := round_up off (align t) in
      if bool_decide (y = x) then Some (o, t) else find_field (o + size t) fs x
  end.

Fixpoint find_member (fs : list (string * ctype)) (x : string) : option ctype :=
  match fs with
  | [] => None
  | (y, t) :: fs => if bool_decide (y = x) then Some t else find_member fs x
  end.

Definition locate1 (t : ctype) (s : step) : option (nat * ctype) :=
  match t, s with
  | CStruct fs, Fld x => find_field 0 fs x
  | CUnion fs, Fld x => (fun u => (0, u)) <$> find_member fs x
  | CArray e n, Idx i => if bool_decide (i < n) then Some (i * size e, e) else None
  | _, _ => None
  end.

Fixpoint locate (t : ctype) (p : list step) : option (nat * ctype) :=
  match p with
  | [] => Some (0, t)
  | s :: p =>
      match locate1 t s with
      | Some (o, u) => match locate u p with Some (o', v) => Some (o + o', v) | None => None end
      | None => None
      end
  end.

Definition is_union (t : ctype) : bool := match t with CUnion _ => true | _ => false end.

(** Two paths part at two fields of a struct or two elements of an array. *)
Fixpoint apart (t : ctype) (p q : list step) : bool :=
  match p, q with
  | s :: p, s' :: q =>
      if bool_decide (s = s') then match locate1 t s with Some (_, u) => apart u p q | None => false end
      else negb (is_union t)
  | _, _ => false
  end.

(** ** Objects *)

Definition load (m : list byte) (o n : nat) : list byte := take n (drop o m).

Definition store (m : list byte) (o : nat) (v : list byte) : list byte := take o m ++ v ++ drop (o + length v) m.

Definition get (t : ctype) (p : list step) (m : list byte) : option (list byte) :=
  match locate t p with Some (o, u) => Some (load m o (size u)) | None => None end.

(** A value of another size than that of the path is no value of it. *)
Definition set (t : ctype) (p : list step) (v : list byte) (m : list byte) : option (list byte) :=
  match locate t p with
  | Some (o, u) => if bool_decide (length v = size u) then Some (store m o v) else None
  | None => None
  end.

(** ** Rounding and alignment *)

Lemma round_up_spec n a : 0 < a -> n <= round_up n a /\ (a | round_up n a) /\ round_up n a < n + a.
Proof.
  intros Ha. unfold round_up. pose proof (Nat.div_mod (n + (a - 1)) a ltac:(lia)) as E.
  pose proof (Nat.mod_upper_bound (n + (a - 1)) a ltac:(lia)). split; [nia|]. split; [|nia].
  exists ((n + (a - 1)) / a). lia.
Qed.

Definition pow2 (a : nat) : Prop := exists k, a = 2 ^ k.

Lemma pow2_pos a : pow2 a -> 0 < a.
Proof. intros [k ->]. apply Nat.neq_0_lt_0, Nat.pow_nonzero. lia. Qed.

Lemma pow2_divide a b : pow2 a -> pow2 b -> a <= b -> (a | b).
Proof.
  intros [k ->] [l ->] H. apply Nat.pow_le_mono_r_iff in H; [|lia].
  exists (2 ^ (l - k)). rewrite <-Nat.pow_add_r. f_equal. lia.
Qed.

Lemma pow2_max a b : pow2 a -> pow2 b -> pow2 (a `max` b).
Proof. intros. by destruct (Nat.max_spec a b) as [[_ ->]|[_ ->]]. Qed.

Lemma int_bytes_pow2 n : int_bytes n -> pow2 n.
Proof.
  unfold int_bytes. intros H%bool_decide_unpack. rewrite !elem_of_cons, elem_of_nil in H.
  destruct H as [->|[->|[->|[->|[->|[]]]]]]; [by exists 0|by exists 1|by exists 2|by exists 3|by exists 4].
Qed.

Lemma wf_fields fs : (forallb (fun f => wf f.2) fs && bool_decide (NoDup fs.*1) : bool) ->
  Forall (fun f : string * ctype => wf f.2) fs /\ NoDup fs.*1.
Proof.
  intros [H Hn%bool_decide_unpack]%andb_prop_elim. split; [|done]. by apply forallb_True in H.
Qed.

(** The greatest alignment of the fields. *)
Lemma fields_align fs : Forall (fun f : string * ctype => pow2 (align f.2)) fs ->
  let a := foldr (fun f a => align f.2 `max` a) 1 fs in
  pow2 a /\ Forall (fun f => (align f.2 | a)) fs.
Proof.
  intros H. cbn. induction H as [|f fs Hf _ [IH1 IH2]]; cbn [foldr]; [split; [by exists 0|constructor]|].
  pose proof (pow2_max _ _ Hf IH1) as Hp. split; [done|]. constructor; [apply pow2_divide; [done..|lia]|].
  eapply Forall_impl; [exact IH2|]. intros g Hg. etrans; [exact Hg|]. apply pow2_divide; [done..|lia].
Qed.

Lemma align_pow2 t : wf t -> pow2 (align t).
Proof.
  induction t as [n| |e n IH|fs IH|fs IH] using ctype_fields_ind; cbn [wf align]; intros Hw.
  - by apply int_bytes_pow2.
  - by exists 3.
  - by apply IH.
  - apply wf_fields in Hw as [Hw _]. apply fields_align. rewrite Forall_forall in *. auto.
  - apply wf_fields in Hw as [Hw _]. apply fields_align. rewrite Forall_forall in *. auto.
Qed.

Lemma align_pos t : wf t -> 0 < align t.
Proof. intros. by apply pow2_pos, align_pow2. Qed.

Lemma size_aligned t : wf t -> (align t | size t).
Proof.
  induction t as [n| |e n IH|fs _|fs _] using ctype_fields_ind; intros Hw.
  - done.
  - done.
  - cbn. apply Nat.divide_mul_r. by apply IH.
  - apply (round_up_spec _ (align (CStruct fs))). by apply align_pos.
  - apply (round_up_spec _ (align (CUnion fs))). by apply align_pos.
Qed.

(** ** Fields *)

Abbreviation end_of start fs := (foldl (fun off f => round_up off (align f.2) + size f.2) start fs).

Lemma end_of_ge (fs : list (string * ctype)) off : Forall (fun f => wf f.2) fs -> off <= end_of off fs.
Proof.
  intros H. revert off. induction H as [|f fs Hf _ IH]; intros off; cbn [foldl]; [lia|].
  destruct (round_up_spec off (align f.2)) as (? & _); [by apply align_pos|]. etrans; [|apply IH]. lia.
Qed.

Lemma find_field_spec fs off x o u : Forall (fun f => wf f.2) fs -> find_field off fs x = Some (o, u) ->
  off <= o /\ o + size u <= end_of off fs /\ (align u | o) /\ (x, u) ∈ fs.
Proof.
  intros H. revert off. induction H as [|[y t] fs Hf Hfs IH]; intros off; cbn [find_field foldl fst snd]; [done|].
  destruct (round_up_spec off (align t)) as (Hr & Hd & _); [by apply align_pos|]. cbn [snd] in *. case_bool_decide as E.
  - intros [= <- <-]. subst y. split; [done|]. split; [by apply end_of_ge|]. split; [done|]. by left.
  - intros (? & ? & ? & ?)%IH. split; [lia|]. split; [done|]. split; [done|]. by right.
Qed.

Lemma find_field_disjoint fs off x y o u o' u' : Forall (fun f => wf f.2) fs -> x <> y ->
  find_field off fs x = Some (o, u) -> find_field off fs y = Some (o', u') ->
  o + size u <= o' \/ o' + size u' <= o.
Proof.
  intros H Hne. revert off. induction H as [|[z t] fs Hf Hfs IH]; intros off; cbn [find_field]; [done|].
  destruct (bool_decide_reflect (z = x)), (bool_decide_reflect (z = y)); [congruence|..|by apply IH].
  - intros [= <- <-] (? & _)%find_field_spec; [|done]. by left.
  - intros (? & _)%find_field_spec [= <- <-]; [|done]. by right.
Qed.

Lemma find_member_spec fs x u : find_member fs x = Some u ->
  (x, u) ∈ fs /\ size u <= foldr (fun f m => size f.2 `max` m) 0 fs.
Proof.
  induction fs as [|[y t] fs IH]; cbn [find_member foldr snd]; [done|]. case_bool_decide as E.
  - intros [= <-]. subst y. split; [by left|lia].
  - intros [? ?]%IH. split; [by right|lia].
Qed.

(** One step: the part is inside, aligned, and as strictly aligned as the whole at most. *)
Lemma locate1_spec t s o u : wf t -> locate1 t s = Some (o, u) ->
  wf u /\ o + size u <= size t /\ (align u | o) /\ (align u | align t).
Proof.
  assert (forall fs, Forall (fun f : string * ctype => wf f.2) fs -> forall x u, (x, u) ∈ fs ->
    wf u /\ (align u | foldr (fun f a => align f.2 `max` a) 1 fs)) as Hin.
  { intros fs Hw x v Hx. rewrite Forall_forall in Hw. split; [exact (Hw _ Hx)|].
    destruct (fields_align fs) as [_ Ha]; [apply Forall_forall; intros f Hf; by apply align_pow2, Hw|].
    rewrite Forall_forall in Ha. exact (Ha _ Hx). }
  intros Hw. pose proof (align_pos _ Hw) as Hpos. destruct t as [n| |e n|fs|fs], s as [x|i]; cbn [locate1]; try done.
  - case_bool_decide; intros [= <- <-]. split; [done|]. split; [cbn [size]; nia|].
    split; [by apply Nat.divide_mul_r, size_aligned|done].
  - apply wf_fields in Hw as [Hw _]. intros (? & ? & ? & Hm)%find_field_spec; [|done].
    destruct (Hin fs Hw _ _ Hm) as [? ?]. split; [done|]. split; [|done].
    cbn [size]. destruct (round_up_spec (end_of 0 fs) (align (CStruct fs)) Hpos). lia.
  - apply wf_fields in Hw as [Hw _]. destruct (find_member fs x) as [v|] eqn:Em; [|done].
    intros [= <- <-]. apply find_member_spec in Em as [Hm Hs].
    destruct (Hin fs Hw _ _ Hm) as [? ?]. split; [done|]. split; [|split; [by exists 0|done]].
    cbn [size]. destruct (round_up_spec (foldr (fun f m => size f.2 `max` m) 0 fs) (align (CUnion fs)) Hpos). lia.
Qed.

Lemma locate1_disjoint t s s' o u o' u' : wf t -> s <> s' -> is_union t = false ->
  locate1 t s = Some (o, u) -> locate1 t s' = Some (o', u') -> o + size u <= o' \/ o' + size u' <= o.
Proof.
  intros Hw Hne Hu. destruct t as [n| |e n|fs|fs], s as [x|i], s' as [y|j]; cbn [locate1]; try done.
  - do 2 case_bool_decide; intros [= <- <-] [= <- <-]. assert (i <> j) by congruence.
    destruct (decide (i < j)); [left|right]; nia.
  - apply wf_fields in Hw as [Hw _]. intros H H'. eapply find_field_disjoint; [done| |done..]. congruence.
Qed.

(** ** Paths are parts *)

Lemma locate_spec p t o u : wf t -> locate t p = Some (o, u) ->
  wf u /\ o + size u <= size t /\ (align u | o) /\ (align u | align t).
Proof.
  revert t o u. induction p as [|s p IH]; intros t o u Hw; cbn [locate].
  - intros [= <- <-]. split; [done|]. split; [lia|]. split; [by exists 0|done].
  - destruct (locate1 t s) as [[o1 u1]|] eqn:E1; [|done]. destruct (locate u1 p) as [[o2 u2]|] eqn:E2; [|done].
    intros [= <- <-]. apply locate1_spec in E1 as (W1 & S1 & A1 & D1); [|done].
    apply IH in E2 as (W2 & S2 & A2 & D2); [|done]. split; [done|]. split; [lia|]. split.
    + apply Nat.divide_add_r; [by etrans|done].
    + by etrans.
Qed.

Lemma locate_disjoint p q t o u o' u' : wf t -> apart t p q -> locate t p = Some (o, u) -> locate t q = Some (o', u') ->
  o + size u <= o' \/ o' + size u' <= o.
Proof.
  revert q t o u o' u'. induction p as [|s p IH]; intros [|s' q] t o u o' u' Hw Ha; [done..|]. cbn [apart locate] in *.
  case_bool_decide as E.
  - subst s'. destruct (locate1 t s) as [[o1 u1]|] eqn:E1; [|done].
    destruct (locate u1 p) as [[o2 u2]|] eqn:E2; [|done]. destruct (locate u1 q) as [[o3 u3]|] eqn:E3; [|done].
    intros [= <- <-] [= <- <-]. apply locate1_spec in E1 as (W1 & _); [|done].
    destruct (IH q u1 o2 u2 o3 u3); [done..|left; lia|right; lia].
  - destruct (locate1 t s) as [[o1 u1]|] eqn:E1; [|done]. destruct (locate u1 p) as [[o2 u2]|] eqn:E2; [|done].
    destruct (locate1 t s') as [[o3 u3]|] eqn:E3; [|done]. destruct (locate u3 q) as [[o4 u4]|] eqn:E4; [|done].
    intros [= <- <-] [= <- <-]. assert (is_union t = false) as Hu by (by destruct (is_union t)).
    pose proof (locate1_disjoint _ _ _ _ _ _ _ Hw E Hu E1 E3) as Hd.
    apply locate1_spec in E1 as (W1 & _), E3 as (W3 & _); [|done..].
    apply locate_spec in E2 as (_ & S2 & _), E4 as (_ & S4 & _); [|done..]. destruct Hd; [left|right]; lia.
Qed.

(** ** Loading and storing *)

Lemma store_length m o v : o + length v <= length m -> length (store m o v) = length m.
Proof. intros H. unfold store. rewrite !length_app, length_take, length_drop. lia. Qed.

Lemma load_store_same m o v : o + length v <= length m -> load (store m o v) o (length v) = v.
Proof.
  intros H. unfold load, store. rewrite drop_app_length' by (rewrite length_take; lia). apply take_app_length.
Qed.

Lemma load_store_other m o v o' n : o + length v <= length m -> o' + n <= o \/ o + length v <= o' ->
  load (store m o v) o' n = load m o' n.
Proof.
  intros H Hd. apply list_eq. intros i. unfold load. destruct (decide (i < n)) as [Hi|Hi].
  - rewrite !lookup_take_lt, !lookup_drop by done. unfold store. destruct Hd.
    + rewrite lookup_app_l by (rewrite length_take; lia). by rewrite lookup_take_lt by lia.
    + rewrite lookup_app_r by (rewrite length_take; lia). rewrite lookup_app_r by (rewrite length_take; lia).
      rewrite length_take, lookup_drop. f_equal. lia.
  - by rewrite !lookup_take_ge by lia.
Qed.

(** A path that exists can be stored, within the object, and is loaded as stored; a path apart
    from it is not changed. *)
Lemma set_get t p v m o u : wf t -> length m = size t -> locate t p = Some (o, u) -> length v = size u ->
  exists m', set t p v m = Some m' /\ length m' = size t /\ get t p m' = Some v /\
    forall q, apart t p q -> get t q m' = get t q m.
Proof.
  intros Hw Hm Hp Hv. unfold set, get. rewrite Hp, bool_decide_eq_true_2 by done. exists (store m o v).
  pose proof (locate_spec _ _ _ _ Hw Hp) as (_ & Hs & _). split; [done|]. rewrite store_length by lia. split; [done|].
  rewrite <-Hv at 1. rewrite load_store_same by lia. split; [done|]. intros q Ha.
  destruct (locate t q) as [[o' u']|] eqn:Hq; [|done]. f_equal. apply load_store_other; [lia|].
  destruct (locate_disjoint _ _ _ _ _ _ _ Hw Ha Hp Hq); lia.
Qed.
