(* ===== verification/Bindings.v ===== *)
(** The declarations through which the library talks to the core:
    src/grpc-sys/bindings/x86_64-unknown-linux-gnu-bindings.rs (the file for aarch64 is the
    same), the prototypes of src/grpc-sys/grpc_wrap.cc, and what the library takes from them.

    Enumerations with their numbers, structs and unions as types of Layout, string and number
    constants, and the signatures of the functions of the wrapper on both sides. *)

From stdpp Require Import pretty.
From S2P Require Import Prelude Status Layout Buf Channel Env.

Definition enumeration := list (string * Z).

(** An enumeration in a struct: as wide as its numbers ask. *)
Definition enum_ctype (e : enumeration) : ctype :=
  if forallb (fun v => Z.leb 0 v.2 && Z.ltb v.2 U32) e then CInt 4 else CInt 8.

(** A byte string constant: its declared length, and the string before the NUL. *)
Record string_constant := mkStr { sc_name : string; sc_len : nat; sc_text : string }.

(** Types of arguments and results, the same for C and Rust; [TPtr true]: to a constant. *)
Inductive cty :=
| TVoid
| TChar
| TInt (signed : bool) (bytes : nat)
| TPtr (const : bool) (to : cty)
| TNamed (name : string).

#[export] Instance cty_eq_dec : EqDecision cty.
Proof. solve_decision. Defined.

Definition size_t : cty := TInt false 8.

(** A declared function and the symbol it is linked to; a defined one, exported with C linkage
    or not. *)
Record signature := mkSig { s_name : string; s_args : list cty; s_result : cty; s_symbol : string }.
Record definition := mkDef { d_export : bool; d_name : string; d_args : list cty; d_result : cty }.

(** ** Enumerations

    The numbers of the variants, as [#[repr(u32)]] enumerations. *)
Section numbers_of_variants.
Local Open Scope Z_scope.

Definition grpc_compression_algorithm : enumeration := [("GRPC_COMPRESS_NONE", 0);
  ("GRPC_COMPRESS_DEFLATE", 1); ("GRPC_COMPRESS_GZIP", 2); ("GRPC_COMPRESS_STREAM_GZIP", 3);
  ("GRPC_COMPRESS_ALGORITHMS_COUNT", 4)].

Definition grpc_compression_level : enumeration := [("GRPC_COMPRESS_LEVEL_NONE", 0);
  ("GRPC_COMPRESS_LEVEL_LOW", 1); ("GRPC_COMPRESS_LEVEL_MED", 2); ("GRPC_COMPRESS_LEVEL_HIGH", 3);
  ("GRPC_COMPRESS_LEVEL_COUNT", 4)].

Definition gpr_clock_type : enumeration := [("GPR_CLOCK_MONOTONIC", 0); ("GPR_CLOCK_REALTIME", 1);
  ("GPR_CLOCK_PRECISE", 2); ("GPR_TIMESPAN", 3)].

Definition grpc_slice_ref_whom : enumeration := [("GRPC_SLICE_REF_TAIL", 1); ("GRPC_SLICE_REF_HEAD", 2);
  ("GRPC_SLICE_REF_BOTH", 3)].

Definition grpc_byte_buffer_type : enumeration := [("GRPC_BB_RAW", 0)].

Definition grpc_arg_type : enumeration := [("GRPC_ARG_STRING", 0); ("GRPC_ARG_INTEGER", 1);
  ("GRPC_ARG_POINTER", 2)].

Definition grpc_call_error : enumeration := [("GRPC_CALL_OK", 0); ("GRPC_CALL_ERROR", 1);
  ("GRPC_CALL_ERROR_NOT_ON_SERVER", 2); ("GRPC_CALL_ERROR_NOT_ON_CLIENT", 3);
  ("GRPC_CALL_ERROR_ALREADY_ACCEPTED", 4); ("GRPC_CALL_ERROR_ALREADY_INVOKED", 5);
  ("GRPC_CALL_ERROR_NOT_INVOKED", 6); ("GRPC_CALL_ERROR_ALREADY_FINISHED", 7);
  ("GRPC_CALL_ERROR_TOO_MANY_OPERATIONS", 8); ("GRPC_CALL_ERROR_INVALID_FLAGS", 9);
  ("GRPC_CALL_ERROR_INVALID_METADATA", 10); ("GRPC_CALL_ERROR_INVALID_MESSAGE", 11);
  ("GRPC_CALL_ERROR_NOT_SERVER_COMPLETION_QUEUE", 12); ("GRPC_CALL_ERROR_BATCH_TOO_BIG", 13);
  ("GRPC_CALL_ERROR_PAYLOAD_TYPE_MISMATCH", 14); ("GRPC_CALL_ERROR_COMPLETION_QUEUE_SHUTDOWN", 15)].

Definition grpc_completion_type : enumeration := [("GRPC_QUEUE_SHUTDOWN", 0); ("GRPC_QUEUE_TIMEOUT", 1);
  ("GRPC_OP_COMPLETE", 2)].

Definition grpc_op_type : enumeration := [("GRPC_OP_SEND_INITIAL_METADATA", 0);
  ("GRPC_OP_SEND_MESSAGE", 1); ("GRPC_OP_SEND_CLOSE_FROM_CLIENT", 2);
  ("GRPC_OP_SEND_STATUS_FROM_SERVER", 3); ("GRPC_OP_RECV_INITIAL_METADATA", 4);
  ("GRPC_OP_RECV_MESSAGE", 5); ("GRPC_OP_RECV_STATUS_ON_CLIENT", 6); ("GRPC_OP_RECV_CLOSE_ON_SERVER", 7)].

Definition grpc_cq_polling_type : enumeration := [("GRPC_CQ_DEFAULT_POLLING", 0);
  ("GRPC_CQ_NON_LISTENING", 1); ("GRPC_CQ_NON_POLLING", 2)].

Definition grpc_cq_completion_type : enumeration := [("GRPC_CQ_NEXT", 0); ("GRPC_CQ_PLUCK", 1);
  ("GRPC_CQ_CALLBACK", 2)].

Definition grpc_connectivity_state : enumeration := [("GRPC_CHANNEL_IDLE", 0);
  ("GRPC_CHANNEL_CONNECTING", 1); ("GRPC_CHANNEL_READY", 2); ("GRPC_CHANNEL_TRANSIENT_FAILURE", 3);
  ("GRPC_CHANNEL_SHUTDOWN", 4)].

Definition grpc_server_register_method_payload_handling : enumeration := [("GRPC_SRM_PAYLOAD_NONE", 0);
  ("GRPC_SRM_PAYLOAD_READ_INITIAL_BYTE_BUFFER", 1)].

Definition grpc_ssl_roots_override_result : enumeration := [("GRPC_SSL_ROOTS_OVERRIDE_OK", 0);
  ("GRPC_SSL_ROOTS_OVERRIDE_FAIL_PERMANENTLY", 1); ("GRPC_SSL_ROOTS_OVERRIDE_FAIL", 2)].

Definition grpc_ssl_certificate_config_reload_status : enumeration := [
  ("GRPC_SSL_CERTIFICATE_CONFIG_RELOAD_UNCHANGED", 0); ("GRPC_SSL_CERTIFICATE_CONFIG_RELOAD_NEW", 1);
  ("GRPC_SSL_CERTIFICATE_CONFIG_RELOAD_FAIL", 2)].

Definition grpc_ssl_client_certificate_request_type : enumeration := [
  ("GRPC_SSL_DONT_REQUEST_CLIENT_CERTIFICATE", 0);
  ("GRPC_SSL_REQUEST_CLIENT_CERTIFICATE_BUT_DONT_VERIFY", 1);
  ("GRPC_SSL_REQUEST_CLIENT_CERTIFICATE_AND_VERIFY", 2);
  ("GRPC_SSL_REQUEST_AND_REQUIRE_CLIENT_CERTIFICATE_BUT_DONT_VERIFY", 3);
  ("GRPC_SSL_REQUEST_AND_REQUIRE_CLIENT_CERTIFICATE_AND_VERIFY", 4)].

Definition grpc_security_level : enumeration := [("GRPC_SECURITY_MIN", 0); ("GRPC_INTEGRITY_ONLY", 1);
  ("GRPC_PRIVACY_AND_INTEGRITY", 2)].

Definition grpc_tls_server_verification_option : enumeration := [("GRPC_TLS_SERVER_VERIFICATION", 0);
  ("GRPC_TLS_SKIP_HOSTNAME_VERIFICATION", 1); ("GRPC_TLS_SKIP_ALL_SERVER_VERIFICATION", 2)].

Definition grpc_local_connect_type : enumeration := [("UDS", 0); ("LOCAL_TCP", 1)].

Definition grpc_tls_version : enumeration := [("TLS1_2", 0); ("TLS1_3", 1)].

Definition gpr_log_severity : enumeration := [("GPR_LOG_SEVERITY_DEBUG", 0); ("GPR_LOG_SEVERITY_INFO", 1);
  ("GPR_LOG_SEVERITY_ERROR", 2)].

(** The codes of a status are constants of type [c_int]. *)
Definition grpc_status_code : enumeration := [("GRPC_STATUS_OK", 0); ("GRPC_STATUS_CANCELLED", 1);
  ("GRPC_STATUS_UNKNOWN", 2); ("GRPC_STATUS_INVALID_ARGUMENT", 3); ("GRPC_STATUS_DEADLINE_EXCEEDED", 4);
  ("GRPC_STATUS_NOT_FOUND", 5); ("GRPC_STATUS_ALREADY_EXISTS", 6); ("GRPC_STATUS_PERMISSION_DENIED", 7);
  ("GRPC_STATUS_UNAUTHENTICATED", 16); ("GRPC_STATUS_RESOURCE_EXHAUSTED", 8);
  ("GRPC_STATUS_FAILED_PRECONDITION", 9); ("GRPC_STATUS_ABORTED", 10); ("GRPC_STATUS_OUT_OF_RANGE", 11);
  ("GRPC_STATUS_UNIMPLEMENTED", 12); ("GRPC_STATUS_INTERNAL", 13); ("GRPC_STATUS_UNAVAILABLE", 14);
  ("GRPC_STATUS_DATA_LOSS", 15); ("GRPC_STATUS__DO_NOT_USE", (-1))].

Definition enumerations : list (string * enumeration) := [
  ("grpc_compression_algorithm", grpc_compression_algorithm);
  ("grpc_compression_level", grpc_compression_level); ("gpr_clock_type", gpr_clock_type);
  ("grpc_slice_ref_whom", grpc_slice_ref_whom); ("grpc_byte_buffer_type", grpc_byte_buffer_type);
  ("grpc_arg_type", grpc_arg_type); ("grpc_call_error", grpc_call_error);
  ("grpc_completion_type", grpc_completion_type); ("grpc_op_type", grpc_op_type);
  ("grpc_cq_polling_type", grpc_cq_polling_type); ("grpc_cq_completion_type", grpc_cq_completion_type);
  ("grpc_connectivity_state", grpc_connectivity_state);
  ("grpc_server_register_method_payload_handling", grpc_server_register_method_payload_handling);
  ("grpc_ssl_roots_override_result", grpc_ssl_roots_override_result);
  ("grpc_ssl_certificate_config_reload_status", grpc_ssl_certificate_config_reload_status);
  ("grpc_ssl_client_certificate_request_type", grpc_ssl_client_certificate_request_type);
  ("grpc_security_level", grpc_security_level);
  ("grpc_tls_server_verification_option", grpc_tls_server_verification_option);
  ("grpc_local_connect_type", grpc_local_connect_type); ("grpc_tls_version", grpc_tls_version);
  ("gpr_log_severity", gpr_log_severity)].

End numbers_of_variants.

(** ** Types

    Types that only the core knows have no size here and are used behind pointers. *)
Definition opaque : ctype := CStruct [("_unused", CArray (CInt 1) 0)].

Definition grpc_compression_options_grpc_compression_options_default_level : ctype := CStruct [
  ("is_set", CInt 4); ("level", enum_ctype grpc_compression_level)].

Definition grpc_compression_options_grpc_compression_options_default_algorithm : ctype := CStruct [
  ("is_set", CInt 4); ("algorithm", enum_ctype grpc_compression_algorithm)].

Definition grpc_compression_options : ctype := CStruct [("enabled_algorithms_bitset", CInt 4);
  ("default_level", grpc_compression_options_grpc_compression_options_default_level);
  ("default_algorithm", grpc_compression_options_grpc_compression_options_default_algorithm)].

Definition grpc_slice_refcount : ctype := opaque.

Definition grpc_slice_grpc_slice_data_grpc_slice_refcounted : ctype := CStruct [("length", CInt 8);
  ("bytes", CPtr)].

Definition grpc_slice_grpc_slice_data_grpc_slice_inlined : ctype := CStruct [("length", CInt 1);
  ("bytes", CArray (CInt 1) 23)].

Definition grpc_slice_grpc_slice_data : ctype := CUnion [
  ("refcounted", grpc_slice_grpc_slice_data_grpc_slice_refcounted);
  ("inlined", grpc_slice_grpc_slice_data_grpc_slice_inlined); ("_bindgen_union_align", CArray (CInt 8) 3)].

Definition grpc_slice : ctype := CStruct [("refcount", CPtr); ("data", grpc_slice_grpc_slice_data)].

Definition grpc_slice_buffer : ctype := CStruct [("base_slices", CPtr); ("slices", CPtr);
  ("count", CInt 8); ("capacity", CInt 8); ("length", CInt 8); ("inlined", CArray grpc_slice 8)].

Definition gpr_timespec : ctype := CStruct [("tv_sec", CInt 8); ("tv_nsec", CInt 4);
  ("clock_type", enum_ctype gpr_clock_type)].

Definition gpr_event : ctype := CStruct [("state", CInt 8)].

Definition gpr_refcount : ctype := CStruct [("count", CInt 8)].

Definition gpr_stats_counter : ctype := CStruct [("value", CInt 8)].

Definition grpc_byte_buffer_grpc_byte_buffer_data__bindgen_ty_1 : ctype := CStruct [
  ("reserved", CArray CPtr 8)].

Definition grpc_byte_buffer_grpc_byte_buffer_data_grpc_compressed_buffer : ctype := CStruct [
  ("compression", enum_ctype grpc_compression_algorithm); ("slice_buffer", grpc_slice_buffer)].

Definition grpc_byte_buffer_grpc_byte_buffer_data : ctype := CUnion [
  ("reserved", grpc_byte_buffer_grpc_byte_buffer_data__bindgen_ty_1);
  ("raw", grpc_byte_buffer_grpc_byte_buffer_data_grpc_compressed_buffer);
  ("_bindgen_union_align", CArray (CInt 8) 38)].

Definition grpc_byte_buffer : ctype := CStruct [("reserved", CPtr);
  ("type_", enum_ctype grpc_byte_buffer_type); ("data", grpc_byte_buffer_grpc_byte_buffer_data)].

Definition grpc_completion_queue : ctype := opaque.
Definition grpc_alarm : ctype := opaque.
Definition grpc_channel : ctype := opaque.
Definition grpc_server : ctype := opaque.
Definition grpc_call : ctype := opaque.
Definition grpc_socket_mutator : ctype := opaque.
Definition grpc_socket_factory : ctype := opaque.

Definition grpc_arg_pointer_vtable : ctype := CStruct [("copy", CPtr); ("destroy", CPtr); ("cmp", CPtr)].

Definition grpc_arg_grpc_arg_value_grpc_arg_pointer : ctype := CStruct [("p", CPtr); ("vtable", CPtr)].

Definition grpc_arg_grpc_arg_value : ctype := CUnion [("string", CPtr); ("integer", CInt 4);
  ("pointer", grpc_arg_grpc_arg_value_grpc_arg_pointer); ("_bindgen_union_align", CArray (CInt 8) 2)].

Definition grpc_arg : ctype := CStruct [("type_", enum_ctype grpc_arg_type); ("key", CPtr);
  ("value", grpc_arg_grpc_arg_value)].

Definition grpc_channel_args : ctype := CStruct [("num_args", CInt 8); ("args", CPtr)].

Definition grpc_metadata__bindgen_ty_1 : ctype := CStruct [("obfuscated", CArray CPtr 4)].

Definition grpc_metadata : ctype := CStruct [("key", grpc_slice); ("value", grpc_slice); ("flags", CInt 4);
  ("internal_data", grpc_metadata__bindgen_ty_1)].

Definition grpc_event : ctype := CStruct [("type_", enum_ctype grpc_completion_type); ("success", CInt 4);
  ("tag", CPtr)].

Definition grpc_metadata_array : ctype := CStruct [("count", CInt 8); ("capacity", CInt 8);
  ("metadata", CPtr)].

Definition grpc_call_details : ctype := CStruct [("method", grpc_slice); ("host", grpc_slice);
  ("deadline", gpr_timespec); ("flags", CInt 4); ("reserved", CPtr)].

Definition grpc_op_grpc_op_data__bindgen_ty_1 : ctype := CStruct [("reserved", CArray CPtr 8)].

Definition grpc_op_grpc_op_data_grpc_op_send_initial_metadata_grpc_op_send_initial_metadata_maybe_compression_level : ctype := CStruct [
  ("is_set", CInt 1); ("level", enum_ctype grpc_compression_level)].

Definition grpc_op_grpc_op_data_grpc_op_send_initial_metadata : ctype := CStruct [("count", CInt 8);
  ("metadata", CPtr);
  ("maybe_compression_level", grpc_op_grpc_op_data_grpc_op_send_initial_metadata_grpc_op_send_initial_metadata_maybe_compression_level)].

Definition grpc_op_grpc_op_data_grpc_op_send_message : ctype := CStruct [("send_message", CPtr)].

Definition grpc_op_grpc_op_data_grpc_op_send_status_from_server : ctype := CStruct [
  ("trailing_metadata_count", CInt 8); ("trailing_metadata", CPtr); ("status", CInt 4);
  ("status_details", CPtr)].

Definition grpc_op_grpc_op_data_grpc_op_recv_initial_metadata : ctype := CStruct [
  ("recv_initial_metadata", CPtr)].

Definition grpc_op_grpc_op_data_grpc_op_recv_message : ctype := CStruct [("recv_message", CPtr)].

Definition grpc_op_grpc_op_data_grpc_op_recv_status_on_client : ctype := CStruct [
  ("trailing_metadata", CPtr); ("status", CPtr); ("status_details", CPtr); ("error_string", CPtr)].

Definition grpc_op_grpc_op_data_grpc_op_recv_close_on_server : ctype := CStruct [("cancelled", CPtr)].

Definition grpc_op_grpc_op_data : ctype := CUnion [("reserved", grpc_op_grpc_op_data__bindgen_ty_1);
  ("send_initial_metadata", grpc_op_grpc_op_data_grpc_op_send_initial_metadata);
  ("send_message", grpc_op_grpc_op_data_grpc_op_send_message);
  ("send_status_from_server", grpc_op_grpc_op_data_grpc_op_send_status_from_server);
  ("recv_initial_metadata", grpc_op_grpc_op_data_grpc_op_recv_initial_metadata);
  ("recv_message", grpc_op_grpc_op_data_grpc_op_recv_message);
  ("recv_status_on_client", grpc_op_grpc_op_data_grpc_op_recv_status_on_client);
  ("recv_close_on_server", grpc_op_grpc_op_data_grpc_op_recv_close_on_server);
  ("_bindgen_union_align", CArray (CInt 8) 8)].

Definition grpc_op : ctype := CStruct [("op", enum_ctype grpc_op_type); ("flags", CInt 4); ("reserved", CPtr);
  ("data", grpc_op_grpc_op_data)].

Definition grpc_channel_info : ctype := CStruct [("lb_policy_name", CPtr); ("service_config_json", CPtr)].

Definition grpc_resource_quota : ctype := opaque.

Definition grpc_experimental_completion_queue_functor : ctype := CStruct [("functor_run", CPtr);
  ("inlineable", CInt 4); ("internal_success", CInt 4); ("internal_next", CPtr)].

Definition grpc_completion_queue_attributes : ctype := CStruct [("version", CInt 4);
  ("cq_completion_type", enum_ctype grpc_cq_completion_type); ("cq_polling_type", enum_ctype grpc_cq_polling_type);
  ("cq_shutdown_cb", CPtr)].

Definition grpc_completion_queue_factory : ctype := opaque.
Definition census_context : ctype := opaque.

Definition grpc_server_xds_status_notifier : ctype := CStruct [("on_serving_status_update", CPtr);
  ("user_data", CPtr)].

Definition grpc_server_config_fetcher : ctype := opaque.
Definition grpc_auth_context : ctype := opaque.

Definition grpc_auth_property_iterator : ctype := CStruct [("ctx", CPtr); ("index", CInt 8);
  ("name", CPtr)].

Definition grpc_auth_property : ctype := CStruct [("name", CPtr); ("value", CPtr);
  ("value_length", CInt 8)].

Definition grpc_ssl_session_cache : ctype := opaque.
Definition grpc_call_credentials : ctype := opaque.
Definition grpc_channel_credentials : ctype := opaque.

Definition grpc_ssl_pem_key_cert_pair : ctype := CStruct [("private_key", CPtr); ("cert_chain", CPtr)].

Definition verify_peer_options : ctype := CStruct [("verify_peer_callback", CPtr);
  ("verify_peer_callback_userdata", CPtr); ("verify_peer_destruct", CPtr)].

Definition grpc_ssl_verify_peer_options : ctype := CStruct [("verify_peer_callback", CPtr);
  ("verify_peer_callback_userdata", CPtr); ("verify_peer_destruct", CPtr)].

Definition grpc_sts_credentials_options : ctype := CStruct [("token_exchange_service_uri", CPtr);
  ("resource", CPtr); ("audience", CPtr); ("scope", CPtr); ("requested_token_type", CPtr);
  ("subject_token_path", CPtr); ("subject_token_type", CPtr); ("actor_token_path", CPtr);
  ("actor_token_type", CPtr)].

Definition grpc_auth_metadata_context : ctype := CStruct [("service_url", CPtr); ("method_name", CPtr);
  ("channel_auth_context", CPtr); ("reserved", CPtr)].

Definition grpc_metadata_credentials_plugin : ctype := CStruct [("get_metadata", CPtr);
  ("debug_string", CPtr); ("destroy", CPtr); ("state", CPtr); ("type_", CPtr)].

Definition grpc_server_credentials : ctype := opaque.
Definition grpc_ssl_server_certificate_config : ctype := opaque.
Definition grpc_ssl_server_credentials_options : ctype := opaque.

Definition grpc_auth_metadata_processor : ctype := CStruct [("process", CPtr); ("destroy", CPtr);
  ("state", CPtr)].

Definition grpc_alts_credentials_options : ctype := opaque.
Definition grpc_tls_error_details : ctype := opaque.
Definition grpc_tls_server_authorization_check_config : ctype := opaque.
Definition grpc_tls_credentials_options : ctype := opaque.
Definition grpc_tls_certificate_provider : ctype := opaque.
Definition grpc_tls_identity_pairs : ctype := opaque.

Definition grpc_tls_server_authorization_check_arg : ctype := CStruct [("cb", CPtr);
  ("cb_user_data", CPtr); ("success", CInt 4); ("target_name", CPtr); ("peer_cert", CPtr);
  ("peer_cert_full_chain", CPtr); ("subject_alternative_names", CPtr);
  ("subject_alternative_names_size", CInt 8); ("status", CInt 4); ("error_details", CPtr);
  ("config", CPtr); ("context", CPtr); ("destroy_context", CPtr)].

Definition gpr_log_func_args : ctype := CStruct [("file", CPtr); ("line", CInt 4);
  ("severity", enum_ctype gpr_log_severity); ("message", CPtr)].

Definition grpc_byte_buffer_reader_grpc_byte_buffer_reader_current : ctype := CUnion [("index", CInt 4);
  ("_bindgen_union_align", CInt 4)].

Definition grpc_byte_buffer_reader : ctype := CStruct [("buffer_in", CPtr); ("buffer_out", CPtr);
  ("current", grpc_byte_buffer_reader_grpc_byte_buffer_reader_current)].

Definition grpcwrap_batch_context__bindgen_ty_1 : ctype := CStruct [
  ("trailing_metadata", grpc_metadata_array)].

Definition grpcwrap_batch_context__bindgen_ty_2 : ctype := CStruct [
  ("trailing_metadata", grpc_metadata_array); ("status", CInt 4); ("status_details", grpc_slice)].

Definition grpcwrap_batch_context : ctype := CStruct [("send_initial_metadata", grpc_metadata_array);
  ("send_message", CPtr); ("send_status_from_server", grpcwrap_batch_context__bindgen_ty_1);
  ("recv_initial_metadata", grpc_metadata_array); ("recv_message", CPtr);
  ("recv_status_on_client", grpcwrap_batch_context__bindgen_ty_2);
  ("recv_close_on_server_cancelled", CInt 4)].

Definition grpcwrap_request_call_context : ctype := CStruct [("call", CPtr);
  ("call_details", grpc_call_details); ("request_metadata", grpc_metadata_array)].

Definition declared : list (string * ctype) := [
  ("grpc_compression_options_grpc_compression_options_default_level", grpc_compression_options_grpc_compression_options_default_level);
  ("grpc_compression_options_grpc_compression_options_default_algorithm", grpc_compression_options_grpc_compression_options_default_algorithm);
  ("grpc_compression_options", grpc_compression_options); ("grpc_slice_refcount", grpc_slice_refcount);
  ("grpc_slice_grpc_slice_data_grpc_slice_refcounted", grpc_slice_grpc_slice_data_grpc_slice_refcounted);
  ("grpc_slice_grpc_slice_data_grpc_slice_inlined", grpc_slice_grpc_slice_data_grpc_slice_inlined);
  ("grpc_slice_grpc_slice_data", grpc_slice_grpc_slice_data); ("grpc_slice", grpc_slice);
  ("grpc_slice_buffer", grpc_slice_buffer); ("gpr_timespec", gpr_timespec); ("gpr_event", gpr_event);
  ("gpr_refcount", gpr_refcount); ("gpr_stats_counter", gpr_stats_counter);
  ("grpc_byte_buffer_grpc_byte_buffer_data__bindgen_ty_1", grpc_byte_buffer_grpc_byte_buffer_data__bindgen_ty_1);
  ("grpc_byte_buffer_grpc_byte_buffer_data_grpc_compressed_buffer", grpc_byte_buffer_grpc_byte_buffer_data_grpc_compressed_buffer);
  ("grpc_byte_buffer_grpc_byte_buffer_data", grpc_byte_buffer_grpc_byte_buffer_data);
  ("grpc_byte_buffer", grpc_byte_buffer); ("grpc_completion_queue", grpc_completion_queue);
  ("grpc_alarm", grpc_alarm); ("grpc_channel", grpc_channel); ("grpc_server", grpc_server);
  ("grpc_call", grpc_call); ("grpc_socket_mutator", grpc_socket_mutator);
  ("grpc_socket_factory", grpc_socket_factory); ("grpc_arg_pointer_vtable", grpc_arg_pointer_vtable);
  ("grpc_arg_grpc_arg_value_grpc_arg_pointer", grpc_arg_grpc_arg_value_grpc_arg_pointer);
  ("grpc_arg_grpc_arg_value", grpc_arg_grpc_arg_value); ("grpc_arg", grpc_arg);
  ("grpc_channel_args", grpc_channel_args); ("grpc_metadata__bindgen_ty_1", grpc_metadata__bindgen_ty_1);
  ("grpc_metadata", grpc_metadata); ("grpc_event", grpc_event);
  ("grpc_metadata_array", grpc_metadata_array); ("grpc_call_details", grpc_call_details);
  ("grpc_op_grpc_op_data__bindgen_ty_1", grpc_op_grpc_op_data__bindgen_ty_1);
  ("grpc_op_grpc_op_data_grpc_op_send_initial_metadata_grpc_op_send_initial_metadata_maybe_compression_level", grpc_op_grpc_op_data_grpc_op_send_initial_metadata_grpc_op_send_initial_metadata_maybe_compression_level);
  ("grpc_op_grpc_op_data_grpc_op_send_initial_metadata", grpc_op_grpc_op_data_grpc_op_send_initial_metadata);
  ("grpc_op_grpc_op_data_grpc_op_send_message", grpc_op_grpc_op_data_grpc_op_send_message);
  ("grpc_op_grpc_op_data_grpc_op_send_status_from_server", grpc_op_grpc_op_data_grpc_op_send_status_from_server);
  ("grpc_op_grpc_op_data_grpc_op_recv_initial_metadata", grpc_op_grpc_op_data_grpc_op_recv_initial_metadata);
  ("grpc_op_grpc_op_data_grpc_op_recv_message", grpc_op_grpc_op_data_grpc_op_recv_message);
  ("grpc_op_grpc_op_data_grpc_op_recv_status_on_client", grpc_op_grpc_op_data_grpc_op_recv_status_on_client);
  ("grpc_op_grpc_op_data_grpc_op_recv_close_on_server", grpc_op_grpc_op_data_grpc_op_recv_close_on_server);
  ("grpc_op_grpc_op_data", grpc_op_grpc_op_data); ("grpc_op", grpc_op);
  ("grpc_channel_info", grpc_channel_info); ("grpc_resource_quota", grpc_resource_quota);
  ("grpc_experimental_completion_queue_functor", grpc_experimental_completion_queue_functor);
  ("grpc_completion_queue_attributes", grpc_completion_queue_attributes);
  ("grpc_completion_queue_factory", grpc_completion_queue_factory); ("census_context", census_context);
  ("grpc_server_xds_status_notifier", grpc_server_xds_status_notifier);
  ("grpc_server_config_fetcher", grpc_server_config_fetcher); ("grpc_auth_context", grpc_auth_context);
  ("grpc_auth_property_iterator", grpc_auth_property_iterator); ("grpc_auth_property", grpc_auth_property);
  ("grpc_ssl_session_cache", grpc_ssl_session_cache); ("grpc_call_credentials", grpc_call_credentials);
  ("grpc_channel_credentials", grpc_channel_credentials);
  ("grpc_ssl_pem_key_cert_pair", grpc_ssl_pem_key_cert_pair); ("verify_peer_options", verify_peer_options);
  ("grpc_ssl_verify_peer_options", grpc_ssl_verify_peer_options);
  ("grpc_sts_credentials_options", grpc_sts_credentials_options);
  ("grpc_auth_metadata_context", grpc_auth_metadata_context);
  ("grpc_metadata_credentials_plugin", grpc_metadata_credentials_plugin);
  ("grpc_server_credentials", grpc_server_credentials);
  ("grpc_ssl_server_certificate_config", grpc_ssl_server_certificate_config);
  ("grpc_ssl_server_credentials_options", grpc_ssl_server_credentials_options);
  ("grpc_auth_metadata_processor", grpc_auth_metadata_processor);
  ("grpc_alts_credentials_options", grpc_alts_credentials_options);
  ("grpc_tls_error_details", grpc_tls_error_details);
  ("grpc_tls_server_authorization_check_config", grpc_tls_server_authorization_check_config);
  ("grpc_tls_credentials_options", grpc_tls_credentials_options);
  ("grpc_tls_certificate_provider", grpc_tls_certificate_provider);
  ("grpc_tls_identity_pairs", grpc_tls_identity_pairs);
  ("grpc_tls_server_authorization_check_arg", grpc_tls_server_authorization_check_arg);
  ("gpr_log_func_args", gpr_log_func_args);
  ("grpc_byte_buffer_reader_grpc_byte_buffer_reader_current", grpc_byte_buffer_reader_grpc_byte_buffer_reader_current);
  ("grpc_byte_buffer_reader", grpc_byte_buffer_reader);
  ("grpcwrap_batch_context__bindgen_ty_1", grpcwrap_batch_context__bindgen_ty_1);
  ("grpcwrap_batch_context__bindgen_ty_2", grpcwrap_batch_context__bindgen_ty_2);
  ("grpcwrap_batch_context", grpcwrap_batch_context);
  ("grpcwrap_request_call_context", grpcwrap_request_call_context)].

(** ** Constants

    Strings with the length that their type declares, and numbers. *)

Definition strings_1 : list string_constant := [
  mkStr "GRPC_COMPRESSION_REQUEST_ALGORITHM_MD_KEY" 31 "grpc-internal-encoding-request";
  mkStr "GRPC_COMPRESSION_CHANNEL_DEFAULT_ALGORITHM" 35 "grpc.default_compression_algorithm";
  mkStr "GRPC_COMPRESSION_CHANNEL_DEFAULT_LEVEL" 31 "grpc.default_compression_level";
  mkStr "GRPC_COMPRESSION_CHANNEL_ENABLED_ALGORITHMS_BITSET" 43 "grpc.compression_enabled_algorithms_bitset";
  mkStr "GRPC_ARG_ENABLE_CENSUS" 12 "grpc.census";
  mkStr "GRPC_ARG_ENABLE_LOAD_REPORTING" 19 "grpc.loadreporting";
  mkStr "GRPC_ARG_MINIMAL_STACK" 19 "grpc.minimal_stack";
  mkStr "GRPC_ARG_MAX_CONCURRENT_STREAMS" 28 "grpc.max_concurrent_streams";
  mkStr "GRPC_ARG_MAX_RECEIVE_MESSAGE_LENGTH" 32 "grpc.max_receive_message_length";
  mkStr "GRPC_ARG_MAX_MESSAGE_LENGTH" 32 "grpc.max_receive_message_length";
  mkStr "GRPC_ARG_MAX_SEND_MESSAGE_LENGTH" 29 "grpc.max_send_message_length";
  mkStr "GRPC_ARG_MAX_CONNECTION_IDLE_MS" 28 "grpc.max_connection_idle_ms";
  mkStr "GRPC_ARG_MAX_CONNECTION_AGE_MS" 27 "grpc.max_connection_age_ms";
  mkStr "GRPC_ARG_MAX_CONNECTION_AGE_GRACE_MS" 33 "grpc.max_connection_age_grace_ms";
  mkStr "GRPC_ARG_CLIENT_IDLE_TIMEOUT_MS" 28 "grpc.client_idle_timeout_ms";
  mkStr "GRPC_ARG_ENABLE_PER_MESSAGE_COMPRESSION" 29 "grpc.per_message_compression";
  mkStr "GRPC_ARG_ENABLE_PER_MESSAGE_DECOMPRESSION" 31 "grpc.per_message_decompression";
  mkStr "GRPC_ARG_ENABLE_DEADLINE_CHECKS" 30 "grpc.enable_deadline_checking";
  mkStr "GRPC_ARG_HTTP2_INITIAL_SEQUENCE_NUMBER" 35 "grpc.http2.initial_sequence_number";
  mkStr "GRPC_ARG_HTTP2_STREAM_LOOKAHEAD_BYTES" 27 "grpc.http2.lookahead_bytes";
  mkStr "GRPC_ARG_HTTP2_HPACK_TABLE_SIZE_DECODER" 36 "grpc.http2.hpack_table_size.decoder";
  mkStr "GRPC_ARG_HTTP2_HPACK_TABLE_SIZE_ENCODER" 36 "grpc.http2.hpack_table_size.encoder"].

Definition strings_2 : list string_constant := [
  mkStr "GRPC_ARG_HTTP2_MAX_FRAME_SIZE" 26 "grpc.http2.max_frame_size";
  mkStr "GRPC_ARG_HTTP2_BDP_PROBE" 21 "grpc.http2.bdp_probe";
  mkStr "GRPC_ARG_HTTP2_MIN_SENT_PING_INTERVAL_WITHOUT_DATA_MS" 37 "grpc.http2.min_time_between_pings_ms";
  mkStr "GRPC_ARG_HTTP2_MIN_RECV_PING_INTERVAL_WITHOUT_DATA_MS" 45 "grpc.http2.min_ping_interval_without_data_ms";
  mkStr "GRPC_ARG_HTTP2_SCHEME" 18 "grpc.http2_scheme";
  mkStr "GRPC_ARG_HTTP2_MAX_PINGS_WITHOUT_DATA" 34 "grpc.http2.max_pings_without_data";
  mkStr "GRPC_ARG_HTTP2_MAX_PING_STRIKES" 28 "grpc.http2.max_ping_strikes";
  mkStr "GRPC_ARG_HTTP2_WRITE_BUFFER_SIZE" 29 "grpc.http2.write_buffer_size";
  mkStr "GRPC_ARG_HTTP2_ENABLE_TRUE_BINARY" 23 "grpc.http2.true_binary";
  mkStr "GRPC_ARG_KEEPALIVE_TIME_MS" 23 "grpc.keepalive_time_ms";
  mkStr "GRPC_ARG_KEEPALIVE_TIMEOUT_MS" 26 "grpc.keepalive_timeout_ms";
  mkStr "GRPC_ARG_KEEPALIVE_PERMIT_WITHOUT_CALLS" 36 "grpc.keepalive_permit_without_calls";
  mkStr "GRPC_ARG_DEFAULT_AUTHORITY" 23 "grpc.default_authority";
  mkStr "GRPC_ARG_PRIMARY_USER_AGENT_STRING" 24 "grpc.primary_user_agent";
  mkStr "GRPC_ARG_SECONDARY_USER_AGENT_STRING" 26 "grpc.secondary_user_agent";
  mkStr "GRPC_ARG_MIN_RECONNECT_BACKOFF_MS" 30 "grpc.min_reconnect_backoff_ms";
  mkStr "GRPC_ARG_MAX_RECONNECT_BACKOFF_MS" 30 "grpc.max_reconnect_backoff_ms";
  mkStr "GRPC_ARG_INITIAL_RECONNECT_BACKOFF_MS" 34 "grpc.initial_reconnect_backoff_ms";
  mkStr "GRPC_ARG_DNS_MIN_TIME_BETWEEN_RESOLUTIONS_MS" 41 "grpc.dns_min_time_between_resolutions_ms";
  mkStr "GRPC_ARG_SERVER_HANDSHAKE_TIMEOUT_MS" 33 "grpc.server_handshake_timeout_ms";
  mkStr "GRPC_SSL_TARGET_NAME_OVERRIDE_ARG" 30 "grpc.ssl_target_name_override";
  mkStr "GRPC_SSL_SESSION_CACHE_ARG" 23 "grpc.ssl_session_cache";
  mkStr "GRPC_ARG_TSI_MAX_FRAME_SIZE" 24 "grpc.tsi.max_frame_size";
  mkStr "GRPC_ARG_MAX_METADATA_SIZE" 23 "grpc.max_metadata_size";
  mkStr "GRPC_ARG_ALLOW_REUSEPORT" 18 "grpc.so_reuseport";
  mkStr "GRPC_ARG_RESOURCE_QUOTA" 20 "grpc.resource_quota";
  mkStr "GRPC_ARG_EXPAND_WILDCARD_ADDRS" 27 "grpc.expand_wildcard_addrs";
  mkStr "GRPC_ARG_SERVICE_CONFIG" 20 "grpc.service_config";
  mkStr "GRPC_ARG_SERVICE_CONFIG_DISABLE_RESOLUTION" 39 "grpc.service_config_disable_resolution";
  mkStr "GRPC_ARG_LB_POLICY_NAME" 20 "grpc.lb_policy_name";
  mkStr "GRPC_ARG_SOCKET_MUTATOR" 20 "grpc.socket_mutator";
  mkStr "GRPC_ARG_SOCKET_FACTORY" 20 "grpc.socket_factory";
  mkStr "GRPC_ARG_MAX_CHANNEL_TRACE_EVENT_MEMORY_PER_NODE" 45 "grpc.max_channel_trace_event_memory_per_node";
  mkStr "GRPC_ARG_ENABLE_CHANNELZ" 21 "grpc.enable_channelz"].

Definition strings_3 : list string_constant := [
  mkStr "GRPC_ARG_USE_CRONET_PACKET_COALESCING" 34 "grpc.use_cronet_packet_coalescing";
  mkStr "GRPC_ARG_TCP_READ_CHUNK_SIZE" 38 "grpc.experimental.tcp_read_chunk_size";
  mkStr "GRPC_ARG_TCP_MIN_READ_CHUNK_SIZE" 42 "grpc.experimental.tcp_min_read_chunk_size";
  mkStr "GRPC_ARG_TCP_MAX_READ_CHUNK_SIZE" 42 "grpc.experimental.tcp_max_read_chunk_size";
  mkStr "GRPC_ARG_TCP_TX_ZEROCOPY_ENABLED" 42 "grpc.experimental.tcp_tx_zerocopy_enabled";
  mkStr "GRPC_ARG_TCP_TX_ZEROCOPY_SEND_BYTES_THRESHOLD" 55 "grpc.experimental.tcp_tx_zerocopy_send_bytes_threshold";
  mkStr "GRPC_ARG_TCP_TX_ZEROCOPY_MAX_SIMULT_SENDS" 57 "grpc.experimental.tcp_tx_zerocopy_max_simultaneous_sends";
  mkStr "GRPC_ARG_GRPCLB_CALL_TIMEOUT_MS" 28 "grpc.grpclb_call_timeout_ms";
  mkStr "GRPC_ARG_TEST_ONLY_DO_NOT_USE_IN_PROD_XDS_BOOTSTRAP_CONFIG" 55 "grpc.TEST_ONLY_DO_NOT_USE_IN_PROD.xds_bootstrap_config";
  mkStr "GRPC_ARG_GRPCLB_FALLBACK_TIMEOUT_MS" 32 "grpc.grpclb_fallback_timeout_ms";
  mkStr "GRPC_ARG_PRIORITY_FAILOVER_TIMEOUT_MS" 34 "grpc.priority_failover_timeout_ms";
  mkStr "GRPC_ARG_WORKAROUND_CRONET_COMPRESSION" 35 "grpc.workaround.cronet_compression";
  mkStr "GRPC_ARG_OPTIMIZATION_TARGET" 25 "grpc.optimization_target";
  mkStr "GRPC_ARG_ENABLE_RETRIES" 20 "grpc.enable_retries";
  mkStr "GRPC_ARG_PER_RPC_RETRY_BUFFER_SIZE" 31 "grpc.per_rpc_retry_buffer_size";
  mkStr "GRPC_ARG_MOBILE_LOG_CONTEXT" 24 "grpc.mobile_log_context";
  mkStr "GRPC_ARG_DISABLE_CLIENT_AUTHORITY_FILTER" 37 "grpc.disable_client_authority_filter";
  mkStr "GRPC_ARG_ENABLE_HTTP_PROXY" 23 "grpc.enable_http_proxy";
  mkStr "GRPC_ARG_HTTP_PROXY" 16 "grpc.http_proxy";
  mkStr "GRPC_ARG_SURFACE_USER_AGENT" 24 "grpc.surface_user_agent";
  mkStr "GRPC_ARG_INHIBIT_HEALTH_CHECKING" 29 "grpc.inhibit_health_checking";
  mkStr "GRPC_ARG_DNS_ENABLE_SRV_QUERIES" 28 "grpc.dns_enable_srv_queries";
  mkStr "GRPC_ARG_DNS_ARES_QUERY_TIMEOUT_MS" 28 "grpc.dns_ares_query_timeout";
  mkStr "GRPC_ARG_USE_LOCAL_SUBCHANNEL_POOL" 31 "grpc.use_local_subchannel_pool"].

Definition strings_4 : list string_constant := [
  mkStr "GRPC_ARG_CHANNEL_POOL_DOMAIN" 28 "grpc.channel_pooling_domain";
  mkStr "GRPC_ARG_CHANNEL_ID" 16 "grpc.channel_id";
  mkStr "GRPC_TRANSPORT_SECURITY_TYPE_PROPERTY_NAME" 24 "transport_security_type";
  mkStr "GRPC_SSL_TRANSPORT_SECURITY_TYPE" 4 "ssl";
  mkStr "GRPC_X509_CN_PROPERTY_NAME" 17 "x509_common_name";
  mkStr "GRPC_X509_SAN_PROPERTY_NAME" 30 "x509_subject_alternative_name";
  mkStr "GRPC_X509_PEM_CERT_PROPERTY_NAME" 14 "x509_pem_cert";
  mkStr "GRPC_X509_PEM_CERT_CHAIN_PROPERTY_NAME" 20 "x509_pem_cert_chain";
  mkStr "GRPC_SSL_SESSION_REUSED_PROPERTY" 19 "ssl_session_reused";
  mkStr "GRPC_TRANSPORT_SECURITY_LEVEL_PROPERTY_NAME" 15 "security_level";
  mkStr "GRPC_PEER_DNS_PROPERTY_NAME" 9 "peer_dns";
  mkStr "GRPC_PEER_SPIFFE_ID_PROPERTY_NAME" 15 "peer_spiffe_id";
  mkStr "GRPC_PEER_EMAIL_PROPERTY_NAME" 11 "peer_email";
  mkStr "GRPC_PEER_IP_PROPERTY_NAME" 8 "peer_ip";
  mkStr "GRPC_DEFAULT_SSL_ROOTS_FILE_PATH_ENV_VAR" 33 "GRPC_DEFAULT_SSL_ROOTS_FILE_PATH";
  mkStr "GRPC_GOOGLE_CREDENTIALS_ENV_VAR" 31 "GOOGLE_APPLICATION_CREDENTIALS"].

Definition strings : list string_constant := strings_1 ++ strings_2 ++ strings_3 ++ strings_4.

Definition numbers : list (string * Z) := ([("GRPC_ARES", 1); ("GRPC_IF_NAMETOINDEX", 1);
  ("GRPC_ALLOW_EXCEPTIONS", 1); ("GRPC_ALLOW_GPR_SLICE_FUNCTIONS", 1);
  ("GRPC_SLICE_BUFFER_INLINE_ELEMENTS", 8); ("GRPC_TCP_DEFAULT_READ_SLICE_SIZE", 8192);
  ("GRPC_DEFAULT_MAX_SEND_MESSAGE_LENGTH", (-1)); ("GRPC_DEFAULT_MAX_RECV_MESSAGE_LENGTH", 4194304);
  ("GRPC_WRITE_BUFFER_HINT", 1); ("GRPC_WRITE_NO_COMPRESS", 2); ("GRPC_WRITE_THROUGH", 4);
  ("GRPC_WRITE_USED_MASK", 7); ("GRPC_INITIAL_METADATA_IDEMPOTENT_REQUEST", 16);
  ("GRPC_INITIAL_METADATA_WAIT_FOR_READY", 32); ("GRPC_INITIAL_METADATA_CACHEABLE_REQUEST", 64);
  ("GRPC_INITIAL_METADATA_WAIT_FOR_READY_EXPLICITLY_SET", 128); ("GRPC_INITIAL_METADATA_CORKED", 256);
  ("GRPC_INITIAL_METADATA_USED_MASK", 500); ("GRPC_CQ_CURRENT_VERSION", 2);
  ("GRPC_CQ_VERSION_MINIMUM_FOR_CALLBACKABLE", 2); ("GRPC_MAX_COMPLETION_QUEUE_PLUCKERS", 6);
  ("GRPC_METADATA_CREDENTIALS_PLUGIN_SYNC_MAX", 4)])%Z.

(** ** The functions of the wrapper

    As the bindings declare them, with the symbol that is linked. *)

Definition wrap_decls_1 : list signature := [
  mkSig "grpcwrap_batch_context_create"
    []
    (TPtr false (TNamed "grpcwrap_batch_context")) "grpcwrap_batch_context_create";
  mkSig "grpcwrap_request_call_context_create"
    []
    (TPtr false (TNamed "grpcwrap_request_call_context")) "grpcwrap_request_call_context_create";
  mkSig "grpcwrap_metadata_array_destroy_metadata_only"
    [(TPtr false (TNamed "grpc_metadata_array"))]
    TVoid "_Z45grpcwrap_metadata_array_destroy_metadata_onlyP19grpc_metadata_array";
  mkSig "grpcwrap_metadata_array_destroy_metadata_including_entries"
    [(TPtr false (TNamed "grpc_metadata_array"))]
    TVoid "_Z58grpcwrap_metadata_array_destroy_metadata_including_entriesP19grpc_metadata_array";
  mkSig "grpcwrap_metadata_array_destroy_full"
    [(TPtr false (TNamed "grpc_metadata_array"))]
    TVoid "grpcwrap_metadata_array_destroy_full";
  mkSig "grpcwrap_metadata_array_init"
    [(TPtr false (TNamed "grpc_metadata_array")); size_t]
    TVoid "grpcwrap_metadata_array_init";
  mkSig "grpcwrap_metadata_array_add"
    [(TPtr false (TNamed "grpc_metadata_array")); (TPtr true TChar); size_t; (TPtr true TChar); size_t]
    TVoid "grpcwrap_metadata_array_add";
  mkSig "grpcwrap_metadata_array_get_key"
    [(TPtr true (TNamed "grpc_metadata_array")); size_t; (TPtr false size_t)]
    (TPtr true TChar) "grpcwrap_metadata_array_get_key";
  mkSig "grpcwrap_metadata_array_get_value"
    [(TPtr true (TNamed "grpc_metadata_array")); size_t; (TPtr false size_t)]
    (TPtr true TChar) "grpcwrap_metadata_array_get_value";
  mkSig "grpcwrap_metadata_array_cleanup"
    [(TPtr false (TNamed "grpc_metadata_array"))]
    TVoid "grpcwrap_metadata_array_cleanup";
  mkSig "grpcwrap_metadata_array_shrink_to_fit"
    [(TPtr false (TNamed "grpc_metadata_array"))]
    TVoid "grpcwrap_metadata_array_shrink_to_fit";
  mkSig "grpcwrap_metadata_array_move"
    [(TPtr false (TNamed "grpc_metadata_array")); (TPtr false (TNamed "grpc_metadata_array"))]
    TVoid "_Z28grpcwrap_metadata_array_moveP19grpc_metadata_arrayS0_";
  mkSig "grpcwrap_batch_context_destroy"
    [(TPtr false (TNamed "grpcwrap_batch_context"))]
    TVoid "grpcwrap_batch_context_destroy";
  mkSig "grpcwrap_request_call_context_destroy"
    [(TPtr false (TNamed "grpcwrap_request_call_context"))]
    TVoid "grpcwrap_request_call_context_destroy"].

Definition wrap_decls_2 : list signature := [
  mkSig "grpcwrap_batch_context_recv_initial_metadata"
    [(TPtr true (TNamed "grpcwrap_batch_context"))]
    (TPtr true (TNamed "grpc_metadata_array")) "grpcwrap_batch_context_recv_initial_metadata";
  mkSig "grpcwrap_slice_raw_offset"
    [(TPtr true (TNamed "grpc_slice")); size_t; (TPtr false size_t)]
    (TPtr true TChar) "grpcwrap_slice_raw_offset";
  mkSig "grpcwrap_slice_copy"
    [(TPtr true (TNamed "grpc_slice"))]
    (TNamed "grpc_slice") "grpcwrap_slice_copy";
  mkSig "grpcwrap_slice_unref"
    [(TPtr true (TNamed "grpc_slice"))]
    TVoid "grpcwrap_slice_unref";
  mkSig "grpcwrap_slice_ref"
    [(TPtr true (TNamed "grpc_slice"))]
    (TNamed "grpc_slice") "grpcwrap_slice_ref";
  mkSig "grpcwrap_slice_length"
    [(TPtr true (TNamed "grpc_slice"))]
    size_t "grpcwrap_slice_length";
  mkSig "grpcwrap_batch_context_take_recv_message"
    [(TPtr false (TNamed "grpcwrap_batch_context"))]
    (TPtr false (TNamed "grpc_byte_buffer")) "grpcwrap_batch_context_take_recv_message";
  mkSig "grpcwrap_batch_context_recv_status_on_client_status"
    [(TPtr true (TNamed "grpcwrap_batch_context"))]
    (TNamed "grpc_status_code") "grpcwrap_batch_context_recv_status_on_client_status";
  mkSig "grpcwrap_batch_context_recv_status_on_client_details"
    [(TPtr true (TNamed "grpcwrap_batch_context")); (TPtr false size_t)]
    (TPtr true TChar) "grpcwrap_batch_context_recv_status_on_client_details";
  mkSig "grpcwrap_batch_context_recv_status_on_client_trailing_metadata"
    [(TPtr true (TNamed "grpcwrap_batch_context"))]
    (TPtr true (TNamed "grpc_metadata_array")) "grpcwrap_batch_context_recv_status_on_client_trailing_metadata";
  mkSig "grpcwrap_request_call_context_ref_call"
    [(TPtr false (TNamed "grpcwrap_request_call_context"))]
    (TPtr false (TNamed "grpc_call")) "grpcwrap_request_call_context_ref_call";
  mkSig "grpcwrap_request_call_context_get_call"
    [(TPtr false (TNamed "grpcwrap_request_call_context"))]
    (TPtr false (TNamed "grpc_call")) "grpcwrap_request_call_context_get_call";
  mkSig "grpcwrap_request_call_context_method"
    [(TPtr true (TNamed "grpcwrap_request_call_context")); (TPtr false size_t)]
    (TPtr true TChar) "grpcwrap_request_call_context_method";
  mkSig "grpcwrap_request_call_context_host"
    [(TPtr true (TNamed "grpcwrap_request_call_context")); (TPtr false size_t)]
    (TPtr true TChar) "grpcwrap_request_call_context_host"].

Definition wrap_decls_3 : list signature := [
  mkSig "grpcwrap_request_call_context_deadline"
    [(TPtr true (TNamed "grpcwrap_request_call_context"))]
    (TNamed "gpr_timespec") "grpcwrap_request_call_context_deadline";
  mkSig "grpcwrap_request_call_context_metadata_array"
    [(TPtr true (TNamed "grpcwrap_request_call_context"))]
    (TPtr true (TNamed "grpc_metadata_array")) "grpcwrap_request_call_context_metadata_array";
  mkSig "grpcwrap_batch_context_recv_close_on_server_cancelled"
    [(TPtr true (TNamed "grpcwrap_batch_context"))]
    (TInt true 4) "grpcwrap_batch_context_recv_close_on_server_cancelled";
  mkSig "grpcwrap_channel_create_call"
    [(TPtr false (TNamed "grpc_channel")); (TPtr false (TNamed "grpc_call")); (TInt false 4); (TPtr false (TNamed "grpc_completion_queue")); (TPtr true TChar); size_t; (TPtr true TChar); size_t; (TNamed "gpr_timespec")]
    (TPtr false (TNamed "grpc_call")) "grpcwrap_channel_create_call";
  mkSig "grpcwrap_channel_args_create"
    [size_t]
    (TPtr false (TNamed "grpc_channel_args")) "grpcwrap_channel_args_create";
  mkSig "grpcwrap_channel_args_set_string"
    [(TPtr false (TNamed "grpc_channel_args")); size_t; (TPtr true TChar); (TPtr true TChar)]
    TVoid "grpcwrap_channel_args_set_string";
  mkSig "grpcwrap_channel_args_set_integer"
    [(TPtr false (TNamed "grpc_channel_args")); size_t; (TPtr true TChar); (TInt true 4)]
    TVoid "grpcwrap_channel_args_set_integer";
  mkSig "grpcwrap_channel_args_set_pointer_vtable"
    [(TPtr false (TNamed "grpc_channel_args")); size_t; (TPtr true TChar); (TPtr false TVoid); (TPtr true (TNamed "grpc_arg_pointer_vtable"))]
    TVoid "grpcwrap_channel_args_set_pointer_vtable";
  mkSig "grpcwrap_channel_args_destroy"
    [(TPtr false (TNamed "grpc_channel_args"))]
    TVoid "grpcwrap_channel_args_destroy";
  mkSig "grpcwrap_call_start_unary"
    [(TPtr false (TNamed "grpc_call")); (TPtr false (TNamed "grpcwrap_batch_context")); (TPtr false (TNamed "grpc_slice")); (TInt false 4); (TPtr false (TNamed "grpc_metadata_array")); (TInt false 4); (TPtr false TVoid)]
    (TNamed "grpc_call_error") "grpcwrap_call_start_unary";
  mkSig "grpcwrap_call_start_client_streaming"
    [(TPtr false (TNamed "grpc_call")); (TPtr false (TNamed "grpcwrap_batch_context")); (TPtr false (TNamed "grpc_metadata_array")); (TInt false 4); (TPtr false TVoid)]
    (TNamed "grpc_call_error") "grpcwrap_call_start_client_streaming";
  mkSig "grpcwrap_call_start_server_streaming"
    [(TPtr false (TNamed "grpc_call")); (TPtr false (TNamed "grpcwrap_batch_context")); (TPtr false (TNamed "grpc_slice")); (TInt false 4); (TPtr false (TNamed "grpc_metadata_array")); (TInt false 4); (TPtr false TVoid)]
    (TNamed "grpc_call_error") "grpcwrap_call_start_server_streaming";
  mkSig "grpcwrap_call_start_duplex_streaming"
    [(TPtr false (TNamed "grpc_call")); (TPtr false (TNamed "grpcwrap_batch_context")); (TPtr false (TNamed "grpc_metadata_array")); (TInt false 4); (TPtr false TVoid)]
    (TNamed "grpc_call_error") "grpcwrap_call_start_duplex_streaming";
  mkSig "grpcwrap_call_recv_initial_metadata"
    [(TPtr false (TNamed "grpc_call")); (TPtr false (TNamed "grpcwrap_batch_context")); (TPtr false TVoid)]
    (TNamed "grpc_call_error") "grpcwrap_call_recv_initial_metadata"].

Definition wrap_decls_4 : list signature := [
  mkSig "grpcwrap_call_send_message"
    [(TPtr false (TNamed "grpc_call")); (TPtr false (TNamed "grpcwrap_batch_context")); (TPtr false (TNamed "grpc_slice")); (TInt false 4); (TInt true 4); (TPtr false TVoid)]
    (TNamed "grpc_call_error") "grpcwrap_call_send_message";
  mkSig "grpcwrap_call_send_close_from_client"
    [(TPtr false (TNamed "grpc_call")); (TPtr false TVoid)]
    (TNamed "grpc_call_error") "grpcwrap_call_send_close_from_client";
  mkSig "grpcwrap_call_send_status_from_server"
    [(TPtr false (TNamed "grpc_call")); (TPtr false (TNamed "grpcwrap_batch_context")); (TNamed "grpc_status_code"); (TPtr true TChar); size_t; (TPtr false (TNamed "grpc_metadata_array")); (TInt true 4); (TPtr false (TNamed "grpc_slice")); (TInt false 4); (TPtr false TVoid)]
    (TNamed "grpc_call_error") "grpcwrap_call_send_status_from_server";
  mkSig "grpcwrap_call_recv_message"
    [(TPtr false (TNamed "grpc_call")); (TPtr false (TNamed "grpcwrap_batch_context")); (TPtr false TVoid)]
    (TNamed "grpc_call_error") "grpcwrap_call_recv_message";
  mkSig "grpcwrap_call_start_serverside"
    [(TPtr false (TNamed "grpc_call")); (TPtr false (TNamed "grpcwrap_batch_context")); (TPtr false TVoid)]
    (TNamed "grpc_call_error") "grpcwrap_call_start_serverside";
  mkSig "grpcwrap_call_send_initial_metadata"
    [(TPtr false (TNamed "grpc_call")); (TPtr false (TNamed "grpcwrap_batch_context")); (TPtr false (TNamed "grpc_metadata_array")); (TPtr false TVoid)]
    (TNamed "grpc_call_error") "grpcwrap_call_send_initial_metadata";
  mkSig "grpcwrap_call_kick_completion_queue"
    [(TPtr false (TNamed "grpc_call")); (TPtr false TVoid)]
    (TNamed "grpc_call_error") "grpcwrap_call_kick_completion_queue";
  mkSig "grpcwrap_server_request_call"
    [(TPtr false (TNamed "grpc_server")); (TPtr false (TNamed "grpc_completion_queue")); (TPtr false (TNamed "grpcwrap_request_call_context")); (TPtr false TVoid)]
    (TNamed "grpc_call_error") "grpcwrap_server_request_call"].

Definition wrap_decls : list signature := wrap_decls_1 ++ wrap_decls_2 ++ wrap_decls_3 ++ wrap_decls_4.

(** As src/grpc-sys/grpc_wrap.cc defines them; [true]: exported with C linkage. *)

Definition wrap_defs_1 : list definition := [
  mkDef false "string_to_byte_buffer"
    [(TPtr true TChar); size_t]
    (TPtr false (TNamed "grpc_byte_buffer"));
  mkDef true "grpcwrap_batch_context_create"
    []
    (TPtr false (TNamed "grpcwrap_batch_context"));
  mkDef true "grpcwrap_request_call_context_create"
    []
    (TPtr false (TNamed "grpcwrap_request_call_context"));
  mkDef false "grpcwrap_metadata_array_destroy_metadata_only"
    [(TPtr false (TNamed "grpc_metadata_array"))]
    TVoid;
  mkDef false "grpcwrap_metadata_array_destroy_metadata_including_entries"
    [(TPtr false (TNamed "grpc_metadata_array"))]
    TVoid;
  mkDef true "grpcwrap_metadata_array_destroy_full"
    [(TPtr false (TNamed "grpc_metadata_array"))]
    TVoid;
  mkDef true "grpcwrap_metadata_array_init"
    [(TPtr false (TNamed "grpc_metadata_array")); size_t]
    TVoid;
  mkDef true "grpcwrap_metadata_array_add"
    [(TPtr false (TNamed "grpc_metadata_array")); (TPtr true TChar); size_t; (TPtr true TChar); size_t]
    TVoid;
  mkDef true "grpcwrap_metadata_array_get_key"
    [(TPtr true (TNamed "grpc_metadata_array")); size_t; (TPtr false size_t)]
    (TPtr true TChar);
  mkDef true "grpcwrap_metadata_array_get_value"
    [(TPtr true (TNamed "grpc_metadata_array")); size_t; (TPtr false size_t)]
    (TPtr true TChar);
  mkDef true "grpcwrap_metadata_array_cleanup"
    [(TPtr false (TNamed "grpc_metadata_array"))]
    TVoid;
  mkDef true "grpcwrap_metadata_array_shrink_to_fit"
    [(TPtr false (TNamed "grpc_metadata_array"))]
    TVoid;
  mkDef false "grpcwrap_metadata_array_move"
    [(TPtr false (TNamed "grpc_metadata_array")); (TPtr false (TNamed "grpc_metadata_array"))]
    TVoid;
  mkDef true "grpcwrap_batch_context_destroy"
    [(TPtr false (TNamed "grpcwrap_batch_context"))]
    TVoid;
  mkDef true "grpcwrap_request_call_context_destroy"
    [(TPtr false (TNamed "grpcwrap_request_call_context"))]
    TVoid].

Definition wrap_defs_2 : list definition := [
  mkDef true "grpcwrap_batch_context_recv_initial_metadata"
    [(TPtr true (TNamed "grpcwrap_batch_context"))]
    (TPtr true (TNamed "grpc_metadata_array"));
  mkDef true "grpcwrap_slice_raw_offset"
    [(TPtr true (TNamed "grpc_slice")); size_t; (TPtr false size_t)]
    (TPtr true TChar);
  mkDef true "grpcwrap_slice_copy"
    [(TPtr true (TNamed "grpc_slice"))]
    (TNamed "grpc_slice");
  mkDef true "grpcwrap_slice_unref"
    [(TPtr true (TNamed "grpc_slice"))]
    TVoid;
  mkDef true "grpcwrap_slice_ref"
    [(TPtr true (TNamed "grpc_slice"))]
    (TNamed "grpc_slice");
  mkDef true "grpcwrap_slice_length"
    [(TPtr true (TNamed "grpc_slice"))]
    size_t;
  mkDef true "grpcwrap_batch_context_take_recv_message"
    [(TPtr false (TNamed "grpcwrap_batch_context"))]
    (TPtr false (TNamed "grpc_byte_buffer"));
  mkDef true "grpcwrap_batch_context_recv_status_on_client_status"
    [(TPtr true (TNamed "grpcwrap_batch_context"))]
    (TNamed "grpc_status_code");
  mkDef true "grpcwrap_batch_context_recv_status_on_client_details"
    [(TPtr true (TNamed "grpcwrap_batch_context")); (TPtr false size_t)]
    (TPtr true TChar);
  mkDef true "grpcwrap_batch_context_recv_status_on_client_trailing_metadata"
    [(TPtr true (TNamed "grpcwrap_batch_context"))]
    (TPtr true (TNamed "grpc_metadata_array"));
  mkDef true "grpcwrap_request_call_context_ref_call"
    [(TPtr false (TNamed "grpcwrap_request_call_context"))]
    (TPtr false (TNamed "grpc_call"));
  mkDef true "grpcwrap_request_call_context_get_call"
    [(TPtr false (TNamed "grpcwrap_request_call_context"))]
    (TPtr false (TNamed "grpc_call"));
  mkDef true "grpcwrap_request_call_context_method"
    [(TPtr true (TNamed "grpcwrap_request_call_context")); (TPtr false size_t)]
    (TPtr true TChar);
  mkDef true "grpcwrap_request_call_context_host"
    [(TPtr true (TNamed "grpcwrap_request_call_context")); (TPtr false size_t)]
    (TPtr true TChar)].

Definition wrap_defs_3 : list definition := [
  mkDef true "grpcwrap_request_call_context_deadline"
    [(TPtr true (TNamed "grpcwrap_request_call_context"))]
    (TNamed "gpr_timespec");
  mkDef true "grpcwrap_request_call_context_metadata_array"
    [(TPtr true (TNamed "grpcwrap_request_call_context"))]
    (TPtr true (TNamed "grpc_metadata_array"));
  mkDef true "grpcwrap_batch_context_recv_close_on_server_cancelled"
    [(TPtr true (TNamed "grpcwrap_batch_context"))]
    (TInt true 4);
  mkDef true "grpcwrap_channel_create_call"
    [(TPtr false (TNamed "grpc_channel")); (TPtr false (TNamed "grpc_call")); (TInt false 4); (TPtr false (TNamed "grpc_completion_queue")); (TPtr true TChar); size_t; (TPtr true TChar); size_t; (TNamed "gpr_timespec")]
    (TPtr false (TNamed "grpc_call"));
  mkDef true "grpcwrap_channel_args_create"
    [size_t]
    (TPtr false (TNamed "grpc_channel_args"));
  mkDef true "grpcwrap_channel_args_set_string"
    [(TPtr false (TNamed "grpc_channel_args")); size_t; (TPtr true TChar); (TPtr true TChar)]
    TVoid;
  mkDef true "grpcwrap_channel_args_set_integer"
    [(TPtr false (TNamed "grpc_channel_args")); size_t; (TPtr true TChar); (TInt true 4)]
    TVoid;
  mkDef true "grpcwrap_channel_args_set_pointer_vtable"
    [(TPtr false (TNamed "grpc_channel_args")); size_t; (TPtr true TChar); (TPtr false TVoid); (TPtr true (TNamed "grpc_arg_pointer_vtable"))]
    TVoid;
  mkDef true "grpcwrap_channel_args_destroy"
    [(TPtr false (TNamed "grpc_channel_args"))]
    TVoid;
  mkDef true "grpcwrap_call_start_unary"
    [(TPtr false (TNamed "grpc_call")); (TPtr false (TNamed "grpcwrap_batch_context")); (TPtr false (TNamed "grpc_slice")); (TInt false 4); (TPtr false (TNamed "grpc_metadata_array")); (TInt false 4); (TPtr false TVoid)]
    (TNamed "grpc_call_error");
  mkDef true "grpcwrap_call_start_client_streaming"
    [(TPtr false (TNamed "grpc_call")); (TPtr false (TNamed "grpcwrap_batch_context")); (TPtr false (TNamed "grpc_metadata_array")); (TInt false 4); (TPtr false TVoid)]
    (TNamed "grpc_call_error");
  mkDef true "grpcwrap_call_start_server_streaming"
    [(TPtr false (TNamed "grpc_call")); (TPtr false (TNamed "grpcwrap_batch_context")); (TPtr false (TNamed "grpc_slice")); (TInt false 4); (TPtr false (TNamed "grpc_metadata_array")); (TInt false 4); (TPtr false TVoid)]
    (TNamed "grpc_call_error");
  mkDef true "grpcwrap_call_start_duplex_streaming"
    [(TPtr false (TNamed "grpc_call")); (TPtr false (TNamed "grpcwrap_batch_context")); (TPtr false (TNamed "grpc_metadata_array")); (TInt false 4); (TPtr false TVoid)]
    (TNamed "grpc_call_error");
  mkDef true "grpcwrap_call_recv_initial_metadata"
    [(TPtr false (TNamed "grpc_call")); (TPtr false (TNamed "grpcwrap_batch_context")); (TPtr false TVoid)]
    (TNamed "grpc_call_error")].

Definition wrap_defs_4 : list definition := [
  mkDef true "grpcwrap_call_send_message"
    [(TPtr false (TNamed "grpc_call")); (TPtr false (TNamed "grpcwrap_batch_context")); (TPtr false (TNamed "grpc_slice")); (TInt false 4); (TInt true 4); (TPtr false TVoid)]
    (TNamed "grpc_call_error");
  mkDef true "grpcwrap_call_send_close_from_client"
    [(TPtr false (TNamed "grpc_call")); (TPtr false TVoid)]
    (TNamed "grpc_call_error");
  mkDef true "grpcwrap_call_send_status_from_server"
    [(TPtr false (TNamed "grpc_call")); (TPtr false (TNamed "grpcwrap_batch_context")); (TNamed "grpc_status_code"); (TPtr true TChar); size_t; (TPtr false (TNamed "grpc_metadata_array")); (TInt true 4); (TPtr false (TNamed "grpc_slice")); (TInt false 4); (TPtr false TVoid)]
    (TNamed "grpc_call_error");
  mkDef true "grpcwrap_call_recv_message"
    [(TPtr false (TNamed "grpc_call")); (TPtr false (TNamed "grpcwrap_batch_context")); (TPtr false TVoid)]
    (TNamed "grpc_call_error");
  mkDef true "grpcwrap_call_start_serverside"
    [(TPtr false (TNamed "grpc_call")); (TPtr false (TNamed "grpcwrap_batch_context")); (TPtr false TVoid)]
    (TNamed "grpc_call_error");
  mkDef true "grpcwrap_call_send_initial_metadata"
    [(TPtr false (TNamed "grpc_call")); (TPtr false (TNamed "grpcwrap_batch_context")); (TPtr false (TNamed "grpc_metadata_array")); (TPtr false TVoid)]
    (TNamed "grpc_call_error");
  mkDef true "grpcwrap_call_kick_completion_queue"
    [(TPtr false (TNamed "grpc_call")); (TPtr false TVoid)]
    (TNamed "grpc_call_error");
  mkDef true "grpcwrap_server_request_call"
    [(TPtr false (TNamed "grpc_server")); (TPtr false (TNamed "grpc_completion_queue")); (TPtr false (TNamed "grpcwrap_request_call_context")); (TPtr false TVoid)]
    (TNamed "grpc_call_error")].

Definition wrap_defs : list definition := wrap_defs_1 ++ wrap_defs_2 ++ wrap_defs_3 ++ wrap_defs_4.

(** ** Symbols

    A function of C++ that is not exported has a mangled name, in which a type that came
    before is a reference to it. *)
Fixpoint position (x : cty) (l : list cty) : option nat :=
  match l with
  | [] => None
  | y :: l => if bool_decide (x = y) then Some 0 else S <$> position x l
  end.

Definition substitution (k : nat) : string :=
  match k with 0 => "S_" | S k => "S" +:+ pretty k +:+ "_" end.

(** Pointers to constants do not occur among the functions that are not exported. *)
Fixpoint mangle_type (seen : list cty) (t : cty) : option (string * list cty) :=
  match position t seen with
  | Some k => Some (substitution k, seen)
  | None =>
      match t with
      | TVoid => Some ("v", seen)
      | TChar => Some ("c", seen)
      | TInt signed bytes =>
          match bytes with
          | 4 => Some (if signed then "i" else "j", seen)
          | 8 => Some (if signed then "l" else "m", seen)
          | _ => None
          end
      | TNamed n => Some (pretty (String.length n) +:+ n, seen ++ [t])
      | TPtr false to =>
          match mangle_type seen to with
          | Some (s, seen) => Some ("P" +:+ s, seen ++ [t])
          | None => None
          end
      | TPtr true _ => None
      end
  end.

Fixpoint mangle_args (seen : list cty) (ts : list cty) : option string :=
  match ts with
  | [] => Some ""
  | t :: ts =>
      match mangle_type seen t with
      | Some (s, seen) => match mangle_args seen ts with Some r => Some (s +:+ r) | None => None end
      | None => None
      end
  end.

Definition mangle (name : string) (args : list cty) : option string :=
  match mangle_args [] (match args with [] => [TVoid] | _ => args end) with
  | Some s => Some ("_Z" +:+ pretty (String.length name) +:+ name +:+ s)
  | None => None
  end.

(** The functions that src/grpc-sys/build.rs has bindgen declare. *)
Definition whitelisted (d : definition) : bool :=
  existsb (fun p => String.prefix p (d_name d)) ["grpc_"; "gpr_"; "grpcwrap_"].

(** What a Rust declaration of a defined function is. *)
Definition declare (d : definition) : option signature :=
  match (if d_export d then Some (d_name d) else mangle (d_name d) (d_args d)) with
  | Some symbol => Some (mkSig (d_name d) (d_args d) (d_result d) symbol)
  | None => None
  end.

(** ** What must hold of the declarations *)

(** A union has a member only for its size and alignment. *)
Definition filler : string := "_bindgen_union_align".

Definition filler_ok (t : ctype) : bool :=
  match t with
  | CUnion ms =>
      match find_member ms filler with
      | Some f =>
          let u := CUnion (filter (fun m => m.1 <> filler) ms) in
          bool_decide (size f = size u) && bool_decide (align f = align u)
      | None => true
      end
  | _ => true
  end.

Definition string_ok (c : string_constant) : bool :=
  bool_decide (length (nul_terminated (sc_text c)) = sc_len c) && bool_decide (x00 ∉ as_bytes (sc_text c)).

Definition enumeration_ok (e : enumeration) : bool :=
  bool_decide (NoDup e.*1) && bool_decide (NoDup e.*2) && forallb (fun v => Z.leb 0 v.2 && Z.ltb v.2 U32) e.

(** The structs of the wrapper in src/grpc-sys/grpc_wrap.cc. *)
Definition c_batch_context : ctype := CStruct [
  ("send_initial_metadata", grpc_metadata_array); ("send_message", CPtr);
  ("send_status_from_server", CStruct [("trailing_metadata", grpc_metadata_array)]);
  ("recv_initial_metadata", grpc_metadata_array); ("recv_message", CPtr);
  ("recv_status_on_client",
   CStruct [("trailing_metadata", grpc_metadata_array); ("status", CInt 4); ("status_details", grpc_slice)]);
  ("recv_close_on_server_cancelled", CInt 4)].

Definition c_request_call_context : ctype := CStruct [
  ("call", CPtr); ("call_details", grpc_call_details); ("request_metadata", grpc_metadata_array)].

(** ** Theorems *)

(** What a computation found for all elements holds of each. *)
Lemma forallb_elim {A} (f : A -> bool) l x : forallb f l = true -> x ∈ l -> f x.
Proof. intros H Hin. apply Is_true_true_2 in H. apply forallb_True in H. rewrite Forall_forall in H. by apply H. Qed.

Lemma declared_wf x t : (x, t) ∈ declared -> wf t /\ filler_ok t.
Proof.
  intros Hin. assert (forallb (fun t => wf t.2 && filler_ok t.2) declared = true) as H by (by vm_compute).
  pose proof (forallb_elim _ _ _ H Hin) as Ht. exact (andb_prop_elim _ _ Ht).
Qed.

(** A status code by its name. *)
Definition code_ok (p : Z * string) : bool :=
  bool_decide ((if bool_decide (p.2 = "DO_NOT_USE") then "GRPC_STATUS__DO_NOT_USE" else "GRPC_STATUS_" +:+ p.2, p.1) ∈ grpc_status_code).

(** The key of a setting among the constants. *)
Definition key_ok (p : string * list byte) : bool :=
  existsb (fun c => string_ok c && bool_decide (p.2 = nul_terminated (sc_text c))) strings.

(** An object that is shared with the core can be taken apart: of every declared type, the
    member of a union that only gives its size gives the right one, and every part that a path
    of fields and indices reaches lies within the object, at an offset its alignment divides;
    storing a value there keeps the size of the object, the value is loaded back, and every
    part that is apart from it stays as it was. *)
Theorem shared_objects_sound (x : string) (t : ctype) : (x, t) ∈ declared ->
  filler_ok t /\ forall p o u, locate t p = Some (o, u) ->
    o + size u <= size t /\ (align u | o) /\
    forall m v, length m = size t -> length v = size u ->
      exists m', set t p v m = Some m' /\ length m' = size t /\ get t p m' = Some v /\
        forall q, apart t p q -> get t q m' = get t q m.
Proof.
  intros [Hw Hf]%declared_wf. split; [done|]. intros p o u Hp.
  destruct (locate_spec p t o u Hw Hp) as (_ & Hs & Ha & _). split; [done|]. split; [done|].
  intros m v Hm Hv. by eapply set_get.
Qed.

Lemma shared_objects_sound_witness : ("grpc_op", grpc_op) ∈ declared /\
  locate grpc_op [Fld "data"; Fld "send_status_from_server"; Fld "status"] = Some (32, CInt 4) /\ 32 + 4 <= size grpc_op.
Proof.
  assert (("grpc_op", grpc_op) ∈ declared) as H by (repeat first [apply list_elem_of_here | apply list_elem_of_further]).
  assert (locate grpc_op [Fld "data"; Fld "send_status_from_server"; Fld "status"] = Some (32, CInt 4)) as E by (by vm_compute).
  split; [exact H|]. split; [exact E|]. destruct (shared_objects_sound _ _ H) as [_ Hp]. by destruct (Hp _ _ _ E).
Defined.

(** The library and the wrapper agree where no compiler compares them: every function that the
    bindings declare is defined in grpc_wrap.cc with the same arguments and result and under the
    symbol that is linked, and every function of the wrapper that bindgen is to declare is
    declared; and the contexts of the wrapper have the same fields on both sides. *)
Theorem wrapper_declared_as_defined :
  Some <$> wrap_decls = declare <$> filter whitelisted wrap_defs /\
  grpcwrap_batch_context = c_batch_context /\ grpcwrap_request_call_context = c_request_call_context.
Proof. split; [vm_compute; reflexivity|done]. Qed.

(** What the library writes down itself is what the bindings declare: the status codes have
    the numbers of the core; the key of every channel setting is a declared string, which is
    as long as declared and ends at its NUL, so that the core reads the whole key; the flags of
    messages and calls are the declared bits; and the room that [realloc] counts on in an
    inline slice is the size of its bytes. *)
Theorem library_matches_bindings :
  (forall n s, (n, s) ∈ status_codes ->
     ((if bool_decide (s = "DO_NOT_USE") then "GRPC_STATUS__DO_NOT_USE" else "GRPC_STATUS_" +:+ s), n) ∈ grpc_status_code) /\
  length status_codes = length grpc_status_code /\
  (forall s k, (s, k) ∈ setter_table -> exists c, c ∈ strings /\ string_ok c /\ k = nul_terminated (sc_text c)) /\
  Forall (fun p => p ∈ numbers)
    [("GRPC_WRITE_BUFFER_HINT", GRPC_WRITE_BUFFER_HINT); ("GRPC_WRITE_NO_COMPRESS", GRPC_WRITE_NO_COMPRESS);
     ("GRPC_INITIAL_METADATA_IDEMPOTENT_REQUEST", GRPC_INITIAL_METADATA_IDEMPOTENT_REQUEST);
     ("GRPC_INITIAL_METADATA_WAIT_FOR_READY", GRPC_INITIAL_METADATA_WAIT_FOR_READY);
     ("GRPC_INITIAL_METADATA_CACHEABLE_REQUEST", GRPC_INITIAL_METADATA_CACHEABLE_REQUEST)] /\
  locate grpc_slice [Fld "data"; Fld "inlined"; Fld "bytes"] = Some (9, CArray (CInt 1) INLINED_SIZE).
Proof.
  split; [|split; [done|split; [|split]]].
  - intros n s Hin. assert (forallb code_ok status_codes = true) as H by (by vm_compute).
    exact (bool_decide_unpack _ (forallb_elim _ _ _ H Hin)).
  - intros s k Hin. assert (forallb key_ok setter_table = true) as H by (by vm_compute).
    pose proof (forallb_elim _ _ _ H Hin) as Hk. apply existb_True, Exists_exists in Hk
      as (c & Hc & [Hok Hk%bool_decide_unpack]%andb_prop_elim). exists c. exact (conj Hc (conj Hok Hk)).
  - apply (bool_decide_unpack _). vm_compute. exact I.
  - by vm_compute.
Qed.
