(* ===== verification/MetaMem.v ===== *)
(** The memory of metadata and of what batches carry: arrays of metadata and their entries,
    messages and batch contexts (src/src/metadata.rs, src/src/call/mod.rs,
    src/src/call/client.rs and the functions of src/grpc-sys/grpc_wrap.cc that they call).

    An array is a native block of entries, each two slices; slices are counted, and so are the
    messages that hold them.  A batch takes the array of its headers over and leaves the
    library an empty one; its context frees what it has.  Capacities are numbers of [size_t],
    and so are the sizes of blocks, which are products that wrap around.  Undefined behaviour
    (using or freeing what is not there, writing out of a block) is a panic of the model. *)

From S2P Require Import Layout Bindings Prelude Count.
Local Open Scope rust_scope.

(** ** Data *)

(** [sizeof(grpc_metadata)], and [sizeof(grpc_metadata) * n] in [size_t]. *)
Definition ENTRY : Z := Z.of_nat (Layout.size grpc_metadata).

Definition bytes_for (n : Z) : Z := ((ENTRY * n) `mod` U64)%Z.

(** [grpc_metadata_array]; a null pointer is [None]. *)
Record Arr := mkArr { a_count : nat; a_capacity : Z; a_metadata : option nat }.

Definition empty_arr : Arr := mkArr 0 0 None.

(** A block of [b_bytes] bytes, whose first entries are set, to slices that the block owns unless
    they belong to the call; the flag only serves the proofs. *)
Record Block := mkBlock { b_entries : list (nat * nat); b_bytes : Z; b_owned : bool }.

(** Entry [i] and those before it lie in the block. *)
Definition in_block (i : nat) (b : Block) : bool := (ENTRY * (Z.of_nat i + 1) <=? b_bytes b)%Z.

(** [grpcwrap_batch_context]: what it sends, what the core receives into it, and whether the
    core is done with it. *)
Record Ctx := mkCtx {
  send_initial_metadata : Arr;
  send_message : option nat;
  send_trailing_metadata : Arr;
  recv_initial_metadata : Arr;
  recv_message : option nat;
  recv_trailing_metadata : Arr;
  recv_status_details : option nat;
  ended : bool;
}.

(** The heap: counts of slices, blocks, messages with their slice, contexts. *)
Record Heap := mkHeap {
  slices : gmap nat nat;
  blocks : gmap nat Block;
  buffers : gmap nat nat;
  ctxs : gmap nat Ctx;
}.

Definition set_slices f (w : Heap) := mkHeap (f (slices w)) (blocks w) (buffers w) (ctxs w).
Definition set_blocks f (w : Heap) := mkHeap (slices w) (f (blocks w)) (buffers w) (ctxs w).
Definition set_buffers f (w : Heap) := mkHeap (slices w) (blocks w) (f (buffers w)) (ctxs w).
Definition set_ctxs f (w : Heap) := mkHeap (slices w) (blocks w) (buffers w) (f (ctxs w)).

(** ** Slices, messages and blocks *)

Definition slice_new : M Heap nat :=
  let* s := gets (fun w => alloc (slices w)) in
  do* modify (set_slices <[s:=1]>) in ret s.

Definition slice_ref (s : nat) : M Heap unit :=
  let* o := gets (fun w => slices w !! s) in
  let* n := unwrap o "use after free" in
  modify (set_slices <[s:=S n]>).

Definition slice_unref (s : nat) : M Heap unit :=
  let* o := gets (fun w => slices w !! s) in
  let* n := unwrap o "use after free" in
  modify (set_slices (if bool_decide (n = 1) then delete s else <[s:=n-1]>)).

(** [grpc_raw_byte_buffer_create] of one slice, which it refers to, and
    [grpc_byte_buffer_destroy]. *)
Definition buffer_create (s : nat) : M Heap nat :=
  do* slice_ref s in
  let* b := gets (fun w => alloc (buffers w)) in
  do* modify (set_buffers <[b:=s]>) in ret b.

Definition buffer_destroy (b : option nat) : M Heap unit :=
  match b with
  | None => ret tt
  | Some b =>
      let* o := gets (fun w => buffers w !! b) in
      let* s := unwrap o "double free" in
      do* modify (set_buffers (delete b)) in slice_unref s
  end.

(** [gpr_malloc], a block of no bytes standing for the null pointer of [gpr_malloc(0)];
    [gpr_realloc], which may move the block; [gpr_free]. *)
Definition block_malloc (bytes : Z) : M Heap nat :=
  let* a := gets (fun w => alloc (blocks w)) in
  do* modify (set_blocks <[a:=mkBlock [] bytes true]>) in ret a.

Definition block_realloc (a : option nat) (bytes : Z) : M Heap nat :=
  match a with
  | None => block_malloc bytes
  | Some a =>
      let* o := gets (fun w => blocks w !! a) in
      let* b := unwrap o "use after free" in
      do* modify (set_blocks (delete a)) in
      let* a := gets (fun w => alloc (blocks w)) in
      do* modify (set_blocks <[a:=mkBlock (take (Z.to_nat (bytes / ENTRY)) (b_entries b)) bytes (b_owned b)]>) in ret a
  end.

Definition block_free (a : option nat) : M Heap unit :=
  match a with
  | None => ret tt
  | Some a =>
      let* o := gets (fun w => blocks w !! a) in
      do* unwrap o "double free" in
      modify (set_blocks (delete a))
  end.

(** [memset(metadata + i, 0, bytes)] *)
Definition block_clear (a i : nat) (bytes : Z) : M Heap unit :=
  let* o := gets (fun w => blocks w !! a) in
  let* b := unwrap o "use after free" in
  rassert (ENTRY * Z.of_nat i + bytes <=? b_bytes b)%Z "out of bounds".

(** [metadata[i]]; a block is filled from its start. *)
Definition get_entry (a : option nat) (i : nat) : M Heap (nat * nat) :=
  let* a := unwrap a "null pointer" in
  let* o := gets (fun w => blocks w !! a) in
  let* b := unwrap o "use after free" in
  do* rassert (in_block i b) "out of bounds" in
  unwrap (b_entries b !! i) "not initialised".

Definition set_entry (a : option nat) (i : nat) (e : nat * nat) : M Heap unit :=
  let* a := unwrap a "null pointer" in
  let* o := gets (fun w => blocks w !! a) in
  let* b := unwrap o "use after free" in
  do* rassert (in_block i b) "out of bounds" in
  do* rassert (bool_decide (i = length (b_entries b))) "not the next entry" in
  modify (set_blocks <[a:=mkBlock (b_entries b ++ [e]) (b_bytes b) (b_owned b)]>).

(** ** Arrays *)

Definition metadata_array_init (capacity : Z) : M Heap Arr :=
  if (capacity =? 0)%Z then ret empty_arr
  else
    let* a := block_malloc (bytes_for capacity) in
    do* block_clear a 0 (bytes_for capacity) in
    ret (mkArr 0 capacity (Some a)).

Definition metadata_array_add (array : Arr) : M Heap Arr :=
  do* rassert (Z.of_nat (a_count array) <=? a_capacity array)%Z "GPR_ASSERT" in
  let i := a_count array in
  let* array :=
    if (Z.of_nat i =? a_capacity array)%Z then
      let capacity := (if a_capacity array =? 0 then 4 else (a_capacity array * 2) `mod` U64)%Z in
      let* a := block_realloc (a_metadata array) (bytes_for capacity) in
      do* block_clear a i (bytes_for (capacity - Z.of_nat i)) in
      ret (mkArr i capacity (Some a))
    else ret array in
  let* k := slice_new in
  let* v := slice_new in
  do* set_entry (a_metadata array) i (k, v) in
  ret (mkArr (S i) (a_capacity array) (a_metadata array)).

Fixpoint unref_entries (a : option nat) (i n : nat) : M Heap unit :=
  match n with
  | 0 => ret tt
  | S n =>
      let* e := get_entry a i in
      do* slice_unref e.1 in
      do* slice_unref e.2 in
      unref_entries a (S i) n
  end.

(** [grpcwrap_metadata_array_destroy_metadata_including_entries], which is also what
    [grpcwrap_metadata_array_cleanup] does. *)
Definition destroy_metadata_including_entries (array : Arr) : M Heap unit :=
  do* match a_metadata array with Some _ => unref_entries (a_metadata array) 0 (a_count array) | None => ret tt end in
  block_free (a_metadata array).

Definition destroy_metadata_only (array : Arr) : M Heap unit := block_free (a_metadata array).

Definition metadata_array_shrink_to_fit (array : Arr) : M Heap Arr :=
  do* rassert (Z.of_nat (a_count array) <=? a_capacity array)%Z "GPR_ASSERT" in
  if (Z.of_nat (a_count array) =? a_capacity array)%Z then ret array
  else if bool_decide (a_count array <> 0) then
    let* a := block_realloc (a_metadata array) (bytes_for (Z.of_nat (a_count array))) in
    ret (mkArr (a_count array) (Z.of_nat (a_count array)) (Some a))
  else
    do* destroy_metadata_including_entries array in
    ret (mkArr (a_count array) 0 None).

(** [grpcwrap_metadata_array_move]: the destination, and what is left of the source. *)
Definition metadata_array_move (src : option Arr) : Arr * option Arr :=
  match src with
  | None => (empty_arr, None)
  | Some src => (src, Some empty_arr)
  end.

(** ** Batches *)

Definition zero_ctx : Ctx := mkCtx empty_arr None empty_arr empty_arr None empty_arr None false.

Definition batch_context_create : M Heap nat :=
  let* c := gets (fun w => alloc (ctxs w)) in
  do* modify (set_ctxs <[c:=zero_ctx]>) in ret c.

Definition batch_context_destroy (c : nat) : M Heap unit :=
  let* o := gets (fun w => ctxs w !! c) in
  let* x := unwrap o "double free" in
  do* rassert (ended x) "in use by the core" in
  do* (do* destroy_metadata_including_entries (send_initial_metadata x) in
       do* buffer_destroy (send_message x) in
       do* destroy_metadata_including_entries (send_trailing_metadata x) in
       do* destroy_metadata_only (recv_initial_metadata x) in
       do* buffer_destroy (recv_message x) in
       do* destroy_metadata_only (recv_trailing_metadata x) in
       match recv_status_details x with Some s => slice_unref s | None => ret tt end) in
  modify (set_ctxs (delete c)).

(** A change of a context that is there. *)
Definition update_ctx (c : nat) (f : Ctx -> Ctx) : M Heap unit :=
  let* o := gets (fun w => ctxs w !! c) in
  let* x := unwrap o "use after free" in
  modify (set_ctxs <[c:=f x]>).

Definition with_send_initial (a : Arr) (x : Ctx) : Ctx :=
  mkCtx a (send_message x) (send_trailing_metadata x) (recv_initial_metadata x) (recv_message x)
    (recv_trailing_metadata x) (recv_status_details x) (ended x).
Definition with_send_message (b : option nat) (x : Ctx) : Ctx :=
  mkCtx (send_initial_metadata x) b (send_trailing_metadata x) (recv_initial_metadata x) (recv_message x)
    (recv_trailing_metadata x) (recv_status_details x) (ended x).
Definition with_send_trailing (a : Arr) (x : Ctx) : Ctx :=
  mkCtx (send_initial_metadata x) (send_message x) a (recv_initial_metadata x) (recv_message x)
    (recv_trailing_metadata x) (recv_status_details x) (ended x).
Definition with_recv_message (b : option nat) (x : Ctx) : Ctx :=
  mkCtx (send_initial_metadata x) (send_message x) (send_trailing_metadata x) (recv_initial_metadata x) b
    (recv_trailing_metadata x) (recv_status_details x) (ended x).

(** [ctx->send_message = grpc_raw_byte_buffer_create(send_buffer, 1)] *)
Definition put_message (c s : nat) : M Heap unit :=
  let* b := buffer_create s in update_ctx c (with_send_message (Some b)).

(** The part of [grpcwrap_call_start_unary] and [grpcwrap_call_start_server_streaming] that
    concerns memory, and that of the two starts without a message; what is left of the
    headers. *)
Definition call_start (c : nat) (payload : option nat) (initial_metadata : option Arr) : M Heap (option Arr) :=
  let '(dest, src) := metadata_array_move initial_metadata in
  do* update_ctx c (with_send_initial dest) in
  do* match payload with Some s => put_message c s | None => ret tt end in
  ret src.

Definition call_send_message (c s : nat) : M Heap unit := put_message c s.

Definition call_send_status_from_server (c : nat) (trailing_metadata : option Arr) (payload : option nat) :
    M Heap (option Arr) :=
  let* status_details := slice_new in
  let '(dest, src) := metadata_array_move trailing_metadata in
  do* update_ctx c (with_send_trailing dest) in
  do* match payload with Some s => put_message c s | None => ret tt end in
  do* slice_unref status_details in
  ret src.

Definition batch_context_take_recv_message (c : nat) : M Heap (option nat) :=
  let* o := gets (fun w => ctxs w !! c) in
  let* x := unwrap o "use after free" in
  do* update_ctx c (with_recv_message None) in ret (recv_message x).

(** What the core receives for a batch: metadata whose slices stay with the call, in a block of
    the context; a message; the details of the status. *)
Record Received := mkReceived {
  r_initial : option nat;
  r_message : bool;
  r_trailing : option nat;
  r_details : bool;
}.

Definition core_array (n : option nat) : M Heap Arr :=
  match n with
  | None => ret empty_arr
  | Some n =>
      let* a := gets (fun w => alloc (blocks w)) in
      do* modify (set_blocks <[a:=mkBlock [] (bytes_for (Z.of_nat n)) false]>) in ret (mkArr n (Z.of_nat n) (Some a))
  end.

Definition core_message (b : bool) : M Heap (option nat) :=
  if b then
    let* s := slice_new in
    let* b := gets (fun w => alloc (buffers w)) in
    do* modify (set_buffers <[b:=s]>) in ret (Some b)
  else ret None.

Definition core_completes (c : nat) (r : Received) : M Heap unit :=
  let* initial := core_array (r_initial r) in
  let* message := core_message (r_message r) in
  let* trailing := core_array (r_trailing r) in
  let* details := (if r_details r then let* s := slice_new in ret (Some s) else ret None) in
  update_ctx c (fun x => mkCtx (send_initial_metadata x) (send_message x) (send_trailing_metadata x)
    initial message trailing details true).

(** ** The library *)

Definition Metadata_with_capacity (cap : Z) : M Heap Arr := metadata_array_init cap.
Definition MetadataBuilder_build (self : Arr) : M Heap Arr := metadata_array_shrink_to_fit self.
Definition Metadata_drop (self : Arr) : M Heap unit := destroy_metadata_including_entries self.

(** [Metadata::get] of an entry: both slices are read. *)
Definition Metadata_get (self : Arr) (i : nat) : M Heap bool :=
  if bool_decide (a_count self <= i) then ret false
  else
    let* e := get_entry (a_metadata self) i in
    let* k := gets (fun w => slices w !! e.1) in
    do* unwrap k "use after free" in
    let* v := gets (fun w => slices w !! e.2) in
    do* unwrap v "use after free" in ret true.

(** The loop of [clone]: entry [i] and the following are read and added to the builder. *)
Fixpoint clone_loop (n i : nat) (self builder : Arr) : M Heap Arr :=
  match n with
  | 0 => ret builder
  | S n =>
      do* Metadata_get self i in
      let* builder := metadata_array_add builder in
      clone_loop n (S i) self builder
  end.

Definition Metadata_clone (self : Arr) : M Heap Arr :=
  let* builder := Metadata_with_capacity (Z.of_nat (a_count self)) in
  let* builder := clone_loop (a_count self) 0 self builder in
  MetadataBuilder_build builder.

(** [into_raw_parts] and [from_raw_parts] *)
Definition into_raw_parts (self : Arr) : option nat * nat * Z := (a_metadata self, a_count self, a_capacity self).
Definition from_raw_parts (p : option nat) (len : nat) (cap : Z) : Arr := mkArr len cap p.

Definition drop_headers (headers : option Arr) : M Heap unit :=
  match headers with Some h => Metadata_drop h | None => ret tt end.

(** The start of a call: the context is new, and afterwards the options are dropped with what is
    left of the headers, and the payload. *)
Definition start_call (headers : option Arr) (payload : option nat) : M Heap nat :=
  let* c := batch_context_create in
  let* headers := call_start c payload headers in
  do* match payload with Some s => slice_unref s | None => ret tt end in
  do* drop_headers headers in ret c.

(** [Call::start_send_message]: the message stays with the caller. *)
Definition start_send_message (s : nat) : M Heap nat :=
  let* c := batch_context_create in
  do* call_send_message c s in ret c.

(** [Call::start_send_status_from_server]: details go into a metadata array. *)
Definition start_send_status (details : bool) (payload : option nat) : M Heap nat :=
  let* c := batch_context_create in
  let* trailing :=
    (if details then
       let* builder := Metadata_with_capacity 0 in
       let* builder := metadata_array_add builder in
       let* m := MetadataBuilder_build builder in ret (Some m)
     else ret None) in
  let* trailing := call_send_status_from_server c trailing payload in
  do* drop_headers trailing in ret c.

(** ** Programs

    Metadata, its raw parts, a slice, the context of a batch that the core has, one whose batch
    has ended, and a received message. *)
Inductive Val :=
| VMeta (m : Arr)
| VRaw (p : option nat) (len : nat) (cap : Z)
| VSlice (s : nat)
| VFlight (c : nat)
| VDone (c : nat)
| VMessage (b : nat).

Inductive MetaOp :=
| OpWithCapacity (cap : Z)
| OpAdd (i : nat)
| OpBuild (i : nat)
| OpClone (i : nat)
| OpIntoRaw (i : nat)
| OpFromRaw (i : nat)
| OpSlice
| OpStartCall (headers payload : option nat)
| OpSendMessage (i : nat)
| OpSendStatus (details : bool) (payload : option nat)
| OpReceive
| OpEvent (i : nat) (r : Received)
| OpTakeMessage (i : nat)
| OpDrop (i : nat).

Definition take_headers (i : option nat) (vs : list Val) : option Arr * list Val :=
  match i with
  | Some i => match vs !! i with Some (VMeta m) => (Some m, delete i vs) | _ => (None, vs) end
  | None => (None, vs)
  end.

Definition take_payload (i : option nat) (vs : list Val) : option nat * list Val :=
  match i with
  | Some i => match vs !! i with Some (VSlice s) => (Some s, delete i vs) | _ => (None, vs) end
  | None => (None, vs)
  end.

Definition see_payload (i : option nat) (vs : list Val) : option nat :=
  match i with
  | Some i => match vs !! i with Some (VSlice s) => Some s | _ => None end
  | None => None
  end.

(** An operation on a value that is not there or has another type is no program and does
    nothing; raw parts have no destructor, and a context in flight is the core's. *)
Definition run_op (op : MetaOp) (vs : list Val) : M Heap (list Val) :=
  match op with
  | OpWithCapacity cap => let* m := Metadata_with_capacity cap in ret (VMeta m :: vs)
  | OpAdd i =>
      match vs !! i with
      | Some (VMeta m) => let* m := metadata_array_add m in ret (VMeta m :: delete i vs)
      | _ => ret vs
      end
  | OpBuild i =>
      match vs !! i with
      | Some (VMeta m) => let* m := MetadataBuilder_build m in ret (VMeta m :: delete i vs)
      | _ => ret vs
      end
  | OpClone i =>
      match vs !! i with
      | Some (VMeta m) => let* m' := Metadata_clone m in ret (VMeta m' :: vs)
      | _ => ret vs
      end
  | OpIntoRaw i =>
      match vs !! i with
      | Some (VMeta m) => let '(p, len, cap) := into_raw_parts m in ret (VRaw p len cap :: delete i vs)
      | _ => ret vs
      end
  | OpFromRaw i =>
      match vs !! i with
      | Some (VRaw p len cap) => ret (VMeta (from_raw_parts p len cap) :: delete i vs)
      | _ => ret vs
      end
  | OpSlice => let* s := slice_new in ret (VSlice s :: vs)
  | OpStartCall i j =>
      let '(headers, vs) := take_headers i vs in
      let '(payload, vs) := take_payload j vs in
      let* c := start_call headers payload in ret (VFlight c :: vs)
  | OpSendMessage i =>
      match vs !! i with
      | Some (VSlice s) => let* c := start_send_message s in ret (VFlight c :: vs)
      | _ => ret vs
      end
  | OpSendStatus details j =>
      let* c := start_send_status details (see_payload j vs) in ret (VFlight c :: vs)
  | OpReceive => let* c := batch_context_create in ret (VFlight c :: vs)
  | OpEvent i r =>
      match vs !! i with
      | Some (VFlight c) => do* core_completes c r in ret (VDone c :: delete i vs)
      | _ => ret vs
      end
  | OpTakeMessage i =>
      match vs !! i with
      | Some (VDone c) =>
          let* b := batch_context_take_recv_message c in
          ret (match b with Some b => VMessage b :: vs | None => vs end)
      | _ => ret vs
      end
  | OpDrop i =>
      match vs !! i with
      | Some (VMeta m) => do* Metadata_drop m in ret (delete i vs)
      | Some (VSlice s) => do* slice_unref s in ret (delete i vs)
      | Some (VDone c) => do* batch_context_destroy c in ret (delete i vs)
      | Some (VMessage b) => do* buffer_destroy (Some b) in ret (delete i vs)
      | _ => ret vs
      end
  end.

Fixpoint run_program (ops : list MetaOp) (vs : list Val) : M Heap (list Val) :=
  match ops with
  | [] => ret vs
  | op :: ops => let* vs := run_op op vs in run_program ops vs
  end.

Definition empty_heap : Heap := mkHeap ∅ ∅ ∅ ∅.

(** ** What refers to what

    A token for a block says how many entries it has, its size, and whether it owns them. *)
Inductive Token :=
| Blk (a n : nat) (bytes : Z) (own : bool)
| Sl (s : nat)
| Bf (b : nat)
| Fl (c : nat)
| Cx (c : nat).

#[export] Instance Token_eq_dec : EqDecision Token.
Proof. solve_decision. Defined.

Definition arr_tokens (own : bool) (m : Arr) : list Token :=
  match a_metadata m with
  | Some a => [Blk a (if own then a_count m else 0) (bytes_for (a_capacity m)) own]
  | None => []
  end.

Definition opt_tokens {A} (f : A -> Token) (o : option A) : list Token :=
  match o with Some x => [f x] | None => [] end.

Definition entry_tokens (e : nat * nat) : list Token := [Sl e.1; Sl e.2].

Definition block_tokens (b : Block) : list Token := b_entries b ≫= entry_tokens.

Definition ctx_tokens (x : Ctx) : list Token :=
  arr_tokens true (send_initial_metadata x) ++ opt_tokens Bf (send_message x) ++
  arr_tokens true (send_trailing_metadata x) ++ arr_tokens false (recv_initial_metadata x) ++
  opt_tokens Bf (recv_message x) ++ arr_tokens false (recv_trailing_metadata x) ++
  opt_tokens Sl (recv_status_details x).

Definition val_tokens (v : Val) : list Token :=
  match v with
  | VMeta m => arr_tokens true m
  | VRaw p len cap => arr_tokens true (from_raw_parts p len cap)
  | VSlice s => [Sl s]
  | VFlight c => [Fl c]
  | VDone c => [Cx c]
  | VMessage b => [Bf b]
  end.

Definition held (w : Heap) : list Token :=
  owns (fun _ => block_tokens) (blocks w) ++ owns (fun _ s => [Sl s]) (buffers w) ++ owns (fun _ => ctx_tokens) (ctxs w).

Definition shape (n : nat) (bytes : Z) (own : bool) (b : Block) : nat :=
  if decide ((length (b_entries b), b_bytes b, b_owned b) = (n, bytes, own)) then 1 else 0.

Definition amount (w : Heap) (t : Token) : nat :=
  match t with
  | Blk a n bytes own => measure (shape n bytes own) (blocks w) a
  | Sl s => measure id (slices w) s
  | Bf b => measure one (buffers w) b
  | Fl c => measure (fun x => Nat.b2n (negb (ended x))) (ctxs w) c
  | Cx c => measure (fun x => Nat.b2n (ended x)) (ctxs w) c
  end.

(** An array without a block is empty; an array with one has room, of a size that did not wrap
    around. *)
Definition arr_wf (m : Arr) : Prop :=
  match a_metadata m with
  | Some _ => (Z.of_nat (a_count m) <= a_capacity m /\ 0 < a_capacity m /\ ENTRY * a_capacity m < U64)%Z
  | None => a_count m = 0 /\ a_capacity m = 0%Z
  end.

(** The metadata of a program has at most [K] entries. *)
Definition val_wf (K : nat) (v : Val) : Prop :=
  match v with
  | VMeta m => arr_wf m /\ a_count m <= K
  | VRaw p len cap => arr_wf (from_raw_parts p len cap) /\ len <= K
  | _ => True
  end.

(** Before its batch ends, a context has received nothing. *)
Definition ctx_wf (x : Ctx) : Prop :=
  arr_wf (send_initial_metadata x) /\ arr_wf (send_trailing_metadata x) /\
  (ended x = false -> recv_initial_metadata x = empty_arr /\ recv_message x = None /\
     recv_trailing_metadata x = empty_arr /\ recv_status_details x = None).

(** The entries of a block lie in it. *)
Definition roomy (b : Block) : Prop := (ENTRY * Z.of_nat (length (b_entries b)) <= b_bytes b)%Z.

Record Inv (ts : list Token) (w : Heap) : Prop := {
  inv_count t : count t ts + count t (held w) = amount w t;
  inv_slices s n : slices w !! s = Some n -> 0 < n;
  inv_blocks a b : blocks w !! a = Some b -> roomy b;
  inv_ctxs c x : ctxs w !! c = Some x -> ctx_wf x;
}.

Lemma ENTRY_eq : ENTRY = 104%Z.
Proof. vm_compute. reflexivity. Qed.

Local Ltac room := unfold roomy, in_block, arr_wf, U64 in *; rewrite ?ENTRY_eq in *; lia.

Lemma bytes_for_exact n : (0 <= n)%Z -> (ENTRY * n < U64)%Z -> bytes_for n = (ENTRY * n)%Z.
Proof. intros Hn Hf. apply Z.mod_small. room. Qed.

Lemma bytes_for_nonneg n : (0 <= bytes_for n)%Z.
Proof. apply Z.mod_pos_bound. by unfold U64. Qed.

(** An array of [n] entries can still grow. *)
Definition room_for (n : nat) : Prop := (ENTRY * (2 * Z.of_nat n + 4) < U64)%Z.

Lemma room_for_mono n n' : n <= n' -> room_for n' -> room_for n.
Proof. unfold room_for. room. Qed.

Lemma entries_none : [] ≫= entry_tokens = [].
Proof. done. Qed.

Lemma entries_one k v : [(k, v)] ≫= entry_tokens = [Sl k; Sl v].
Proof. done. Qed.

Local Ltac heap := cbn [set_slices set_blocks set_buffers set_ctxs slices blocks buffers ctxs].

Local Ltac count_at t HI :=
  pose proof (inv_count _ _ HI t); unfold held in *; heap; count_norm; count_owned t;
  destruct t; cbn [amount] in *; heap; measure_norm; known_lookups; unfold block_tokens in *;
  cbn [b_entries from_option] in *; rewrite ?bind_app, ?entries_none, ?entries_one in *; count_norm;
  decide_equalities; known_measures; unfold shape, one, id in *; cbn [b_entries b_bytes b_owned length ended negb Nat.b2n] in *;
  rewrite ?length_app in *; cbn [length] in *; rewrite ?Nat.add_1_r in *; decide_equalities; try lia.

Local Ltac by_count HI := let t := fresh "t" in intros t; count_at t HI.

Section operations.
Implicit Types (w : Heap) (ts : list Token).

#[export] Instance Inv_proper : Proper ((≡ₚ) ==> eq ==> iff) Inv.
Proof.
  assert (forall ts ts' w, ts ≡ₚ ts' -> Inv ts w -> Inv ts' w) as H
    by (intros ts ts' w Hp [H1 H2 H3 H4]; split; [intros t; rewrite <-Hp; apply H1|done..]).
  intros ts ts' Hp w ? <-. split; by apply H.
Qed.

Lemma referred ts w t : Inv ts w -> t ∈ ts -> 0 < amount w t.
Proof. intros HI Hin%count_elem. rewrite <-(inv_count _ _ HI t). lia. Qed.

Lemma slice_referred ts w s : Inv ts w -> Sl s ∈ ts -> exists n, slices w !! s = Some n /\ 0 < n.
Proof.
  intros HI Hin. destruct (measure_pos id (slices w) s) as (n & Hs & _); [by apply (referred _ _ (Sl s) HI)|].
  exists n. split; [done|]. by eapply (inv_slices _ _ HI).
Qed.

Lemma slice_new_leaves ts w : Inv ts w -> wp slice_new (fun s => Inv (Sl s :: ts)) w.
Proof.
  intros HI. pose proof (alloc_fresh (slices w)). unfold wp, slice_new, bind, gets, modify, ret.
  split; [by_count HI| |apply HI..]. heap. intros c n [[<- <-]|[_ Hc]]%lookup_insert_Some; [lia|by eapply (inv_slices _ _ HI)].
Qed.

Lemma slice_ref_leaves ts w s : Inv ts w -> Sl s ∈ ts -> wp (slice_ref s) (fun _ => Inv (Sl s :: ts)) w.
Proof.
  intros HI (n & Hs & Hn)%(slice_referred _ _ _ HI). unfold wp, slice_ref, bind, gets. rewrite Hs. cbn [unwrap ret modify].
  split; [by_count HI| |apply HI..]. heap. intros c m [[<- <-]|[_ Hc]]%lookup_insert_Some; [lia|by eapply (inv_slices _ _ HI)].
Qed.

Lemma slice_unref_leaves ts w s : Inv (Sl s :: ts) w -> wp (slice_unref s) (fun _ => Inv ts) w.
Proof.
  intros HI. destruct (slice_referred _ _ s HI) as (n & Hs & Hn); [by left|].
  unfold wp, slice_unref, bind, gets. rewrite Hs. cbn [unwrap ret modify]. case_bool_decide.
  - split; [by_count HI| |apply HI..]. heap. intros c m [_ Hc]%lookup_delete_Some. by eapply (inv_slices _ _ HI).
  - split; [by_count HI| |apply HI..]. heap. intros c m [[<- <-]|[_ Hc]]%lookup_insert_Some; [lia|by eapply (inv_slices _ _ HI)].
Qed.

Lemma buffer_create_leaves ts w s : Inv ts w -> Sl s ∈ ts -> wp (buffer_create s) (fun b => Inv (Bf b :: ts)) w.
Proof.
  intros HI Hin. wp_step slice_ref_leaves; [exact HI|exact Hin|]. intros [] w1 H1.
  pose proof (alloc_fresh (buffers w1)). unfold wp, bind, gets, modify, ret. split; [by_count H1|apply H1..].
Qed.

Lemma buffer_destroy_leaves ts w o : Inv (opt_tokens Bf o ++ ts) w -> wp (buffer_destroy o) (fun _ => Inv ts) w.
Proof.
  destruct o as [b|]; cbn [opt_tokens app]; intros HI; [|by apply wp_ret].
  destruct (measure_pos one (buffers w) b) as (s & Hb & _); [apply (referred _ _ (Bf b) HI); by left|].
  apply wp_bind, wp_gets. rewrite Hb. apply wp_bind, wp_ret. apply wp_bind, wp_modify. apply slice_unref_leaves.
  split; [by_count HI|apply HI..].
Qed.

Lemma block_malloc_leaves ts w bytes : (0 <= bytes)%Z -> Inv ts w ->
  wp (block_malloc bytes) (fun a => Inv (Blk a 0 bytes true :: ts)) w.
Proof.
  intros Hbytes HI. pose proof (alloc_fresh (blocks w)). unfold wp, block_malloc, bind, gets, modify, ret.
  split; [by_count HI|apply HI| |apply HI]. heap. intros a b [[<- <-]|[_ Ha]]%lookup_insert_Some; [done|by eapply (inv_blocks _ _ HI)].
Qed.

(** A block with its token: what is in it. *)
Lemma block_referred ts w a n cap own : Inv ts w -> Blk a n cap own ∈ ts ->
  exists b, blocks w !! a = Some b /\ length (b_entries b) = n /\ b_bytes b = cap /\ b_owned b = own /\
    (ENTRY * Z.of_nat n <= cap)%Z.
Proof.
  intros HI Hin. pose proof (referred _ _ _ HI Hin) as Hn. cbn [amount] in Hn.
  destruct (measure_pos _ _ _ Hn) as (b & Hb & E). rewrite E in Hn. unfold shape in Hn.
  destruct (decide _) as [[= <- <- <-]|]; [|lia]. exists b. split; [done|]. split; [done|]. split; [done|]. split; [done|].
  by eapply (inv_blocks _ _ HI).
Qed.

Lemma blocks_room w a b : (forall a b, blocks w !! a = Some b -> roomy b) ->
  roomy b ->
  forall a' b', <[a:=b]> (blocks w) !! a' = Some b' -> roomy b'.
Proof. intros H Hb a' b' [[<- <-]|[_ Ha]]%lookup_insert_Some; [done|by eapply H]. Qed.

Lemma blocks_delete w a : (forall a b, blocks w !! a = Some b -> roomy b) ->
  forall a' b', delete a (blocks w) !! a' = Some b' -> roomy b'.
Proof. intros H a' b' [_ Ha]%lookup_delete_Some. by eapply H. Qed.

(** A block goes; what it owned is left to be released. *)
Lemma block_goes ts w a b n cap own : Inv (Blk a n cap own :: ts) w -> blocks w !! a = Some b ->
  Inv (block_tokens b ++ ts) (set_blocks (delete a) w).
Proof.
  intros HI Hb. destruct (block_referred _ _ a n cap own HI) as (b' & Hb' & <- & <- & <- & _); [by left|].
  assert (b' = b) as -> by congruence.
  split; [by_count HI|apply HI|apply blocks_delete, HI|apply HI].
Qed.

Lemma block_comes ts w b : Inv (block_tokens b ++ ts) w -> roomy b ->
  Inv (Blk (alloc (blocks w)) (length (b_entries b)) (b_bytes b) (b_owned b) :: ts) (set_blocks <[alloc (blocks w):=b]> w).
Proof.
  intros HI Hl. pose proof (alloc_fresh (blocks w)).
  split; [by_count HI|apply HI|apply blocks_room; [apply HI|done]|apply HI].
Qed.

Lemma block_realloc_leaves ts w m bytes : arr_wf m -> Inv (arr_tokens true m ++ ts) w ->
  (ENTRY * Z.of_nat (a_count m) <= bytes)%Z ->
  wp (block_realloc (a_metadata m) bytes) (fun a => Inv (Blk a (a_count m) bytes true :: ts)) w.
Proof.
  unfold arr_wf, arr_tokens. destruct m as [n c [a|]]; cbn [a_count a_capacity a_metadata app]; intros Hwf HI Hc.
  - destruct (block_referred _ _ a n (bytes_for c) true HI) as (b & Hb & Hl & Hcap & Ho & _); [by left|].
    apply wp_bind, wp_gets. rewrite Hb. apply wp_bind, wp_ret. apply wp_bind, wp_modify.
    pose proof (block_goes _ _ a b n (bytes_for c) true HI Hb) as H1.
    rewrite take_ge by (rewrite Hl; pose proof (Z.div_le_lower_bound bytes ENTRY (Z.of_nat n)); room). rewrite Ho.
    unfold wp, bind, gets, modify, ret. rewrite <-Hl.
    apply (block_comes ts _ (mkBlock (b_entries b) bytes true)); [exact H1|unfold roomy; cbn; by rewrite Hl].
  - destruct Hwf as [-> ->]. by apply block_malloc_leaves.
Qed.

(** Clearing the rest of a block, of which nothing else is known. *)
Lemma block_clear_leaves ts w a n bytes i clear : Inv (Blk a n bytes true :: ts) w ->
  (ENTRY * Z.of_nat i + clear <= bytes)%Z -> wp (block_clear a i clear) (fun _ => Inv (Blk a n bytes true :: ts)) w.
Proof.
  intros HI Hc. destruct (block_referred _ _ a n bytes true HI) as (b & Hb & _ & Hcap & _); [by left|].
  unfold wp, block_clear, bind, gets. rewrite Hb. cbn [unwrap ret]. rewrite Hcap, (proj2 (Z.leb_le _ _) Hc). exact HI.
Qed.

Lemma block_free_leaves ts w m : Inv (arr_tokens false m ++ ts) w -> wp (block_free (a_metadata m)) (fun _ => Inv ts) w.
Proof.
  unfold arr_tokens. destruct m as [n c [a|]]; cbn [a_count a_capacity a_metadata app block_free]; intros HI; [|by apply wp_ret].
  destruct (block_referred _ _ a 0 (bytes_for c) false HI) as (b & Hb & Hl & _); [by left|].
  apply wp_bind, wp_gets. rewrite Hb. apply wp_bind, wp_ret. apply wp_modify.
  pose proof (block_goes _ _ a b 0 (bytes_for c) false HI Hb) as H1. unfold block_tokens in H1. by rewrite (nil_length_inv _ Hl) in H1.
Qed.

Lemma set_entry_leaves ts w a n cap k v : Inv (Blk a n cap true :: Sl k :: Sl v :: ts) w ->
  (ENTRY * (Z.of_nat n + 1) <= cap)%Z ->
  wp (set_entry (Some a) n (k, v)) (fun _ => Inv (Blk a (S n) cap true :: ts)) w.
Proof.
  intros HI Hn. destruct (block_referred _ _ a n cap true HI) as (b & Hb & Hl & Hc & Ho & _); [by left|].
  destruct b as [es c o]. cbn [b_entries b_bytes b_owned] in *. subst c o n.
  unfold wp, set_entry, bind, gets. cbn [unwrap ret]. rewrite Hb. cbn [unwrap ret b_bytes b_entries].
  unfold in_block. cbn [b_bytes]. rewrite (proj2 (Z.leb_le _ _) Hn), bool_decide_eq_true_2 by done. cbn [rassert ret modify b_owned].
  split; [|apply HI|apply blocks_room; [apply HI|unfold roomy; cbn; rewrite length_app; cbn; lia]|apply HI].
  by_count HI.
Qed.

Lemma arr_room m : arr_wf m -> (Z.of_nat (a_count m) <= a_capacity m)%Z.
Proof. unfold arr_wf. destruct (a_metadata m); lia. Qed.

(** The array after it has grown, if it must. *)
Lemma add_grows ts w m : arr_wf m -> room_for (a_count m) -> Inv (arr_tokens true m ++ ts) w ->
  wp (if (Z.of_nat (a_count m) =? a_capacity m)%Z then
        let capacity := (if a_capacity m =? 0 then 4 else (a_capacity m * 2) `mod` U64)%Z in
        let* a := block_realloc (a_metadata m) (bytes_for capacity) in
        do* block_clear a (a_count m) (bytes_for (capacity - Z.of_nat (a_count m))) in
        ret (mkArr (a_count m) capacity (Some a))
      else ret m)
    (fun m' w' => exists a, m' = mkArr (a_count m) (a_capacity m') (Some a) /\
      (Z.of_nat (a_count m) < a_capacity m')%Z /\ (ENTRY * a_capacity m' < U64)%Z /\
      Inv (Blk a (a_count m) (bytes_for (a_capacity m')) true :: ts) w') w.
Proof.
  intros Hwf Hr HI. pose proof (arr_room m Hwf) as Hle. unfold room_for in Hr. cbv zeta. case_match eqn:Hc; [apply Z.eqb_eq in Hc|apply Z.eqb_neq in Hc].
  - set (capacity := (if (a_capacity m =? 0)%Z then 4%Z else ((a_capacity m * 2) `mod` U64)%Z)).
    assert (Z.of_nat (a_count m) < capacity /\ ENTRY * capacity < U64)%Z as [Hlt Hsz].
    { subst capacity. case_match eqn:H0; [apply Z.eqb_eq in H0; room|apply Z.eqb_neq in H0]. rewrite Z.mod_small; room. }
    wp_step block_realloc_leaves; [exact Hwf|exact HI|rewrite bytes_for_exact; room|]. intros a w1 H1.
    wp_step block_clear_leaves; [exact H1|rewrite !bytes_for_exact; room|]. intros [] w2 H2. apply wp_ret.
    exists a. split; [done|]. by split; [|split].
  - apply wp_ret. unfold arr_wf, arr_tokens in *. destruct m as [n c [a|]]; cbn [a_count a_capacity a_metadata] in *; [|lia].
    exists a. split; [done|]. split; [lia|]. split; [apply Hwf|done].
Qed.

Lemma metadata_array_add_leaves ts w m : arr_wf m -> room_for (a_count m) -> Inv (arr_tokens true m ++ ts) w ->
  wp (metadata_array_add m) (fun m' w' => arr_wf m' /\ a_count m' = S (a_count m) /\ Inv (arr_tokens true m' ++ ts) w') w.
Proof.
  intros Hwf Hr HI. unfold metadata_array_add. rewrite (proj2 (Z.leb_le _ _) (arr_room m Hwf)).
  apply wp_bind, wp_ret. wp_step add_grows; [exact Hwf|exact Hr|exact HI|].
  intros m' w1 (a & -> & Hlt & Hsz & H1). cbn [a_capacity a_count a_metadata] in *.
  wp_step slice_new_leaves; [exact H1|]. intros k w2 H2. wp_step slice_new_leaves; [exact H2|]. intros v w3 H3.
  wp_step (set_entry_leaves ts _ a _ (bytes_for (a_capacity m'))); [|rewrite bytes_for_exact; room|].
  - assert (Blk a (a_count m) (bytes_for (a_capacity m')) true :: Sl k :: Sl v :: ts ≡ₚ
      Sl v :: Sl k :: Blk a (a_count m) (bytes_for (a_capacity m')) true :: ts) as -> by solve_Permutation. exact H3.
  - intros [] w4 H4. apply wp_ret. unfold arr_wf. cbn [a_count a_capacity a_metadata]. split; [lia|]. done.
Qed.

(** ** Releasing arrays *)

(** A method that does not depend on a change of the heap. *)
Definition indep (g : Heap -> Heap) {A} (c : M Heap A) : Prop :=
  forall w, c (g w) = match c w with Done (a, w') => Done (a, g w') | Panicked e => Panicked e end.

Lemma indep_bind g {A B} (c : M Heap A) (k : A -> M Heap B) : indep g c -> (forall a, indep g (k a)) -> indep g (bind c k).
Proof. intros Hc Hk w. unfold bind. rewrite Hc. destruct (c w) as [[a w']|]; [apply Hk|done]. Qed.

Lemma indep_then g (c : M Heap unit) Q w : indep g c -> wp c Q (g w) -> wp (do* c in modify g) Q w.
Proof. intros Hc. unfold wp, bind, modify. rewrite Hc. by destruct (c w) as [[[] w']|]. Qed.

Lemma indep_ret g {A} (a : A) : indep g (ret a).
Proof. done. Qed.

Lemma indep_unwrap g {A} (o : option A) e : indep g (unwrap o e).
Proof. by destruct o. Qed.

Lemma slice_unref_indep f h s : indep (set_blocks f) (slice_unref s) /\ indep (set_ctxs h) (slice_unref s).
Proof. split; intros w; unfold slice_unref, bind, gets; heap; by destruct (slices w !! s). Qed.

Fixpoint unref_all (l : list nat) : M Heap unit :=
  match l with [] => ret tt | s :: l => do* slice_unref s in unref_all l end.

Lemma unref_all_indep f l : indep (set_blocks f) (unref_all l).
Proof. induction l as [|s l IH]; [done|]. by apply indep_bind; [apply (slice_unref_indep f id)|]. Qed.

Lemma unref_all_leaves l ts w : Inv ((Sl <$> l) ++ ts) w -> wp (unref_all l) (fun _ => Inv ts) w.
Proof.
  revert w. induction l as [|s l IH]; intros w HI; [by apply wp_ret|].
  wp_step slice_unref_leaves; [exact HI|]. intros [] w' H. by apply IH.
Qed.

Lemma slice_unref_blocks s w w' : slice_unref s w = Done (tt, w') -> blocks w' = blocks w.
Proof. unfold slice_unref, bind, gets. destruct (slices w !! s); [|done]. by intros [= <-]. Qed.

Lemma unref_all_blocks l w w' : unref_all l w = Done (tt, w') -> blocks w' = blocks w.
Proof.
  revert w. induction l as [|s l IH]; intros w; cbn [unref_all]; [by intros [= <-]|].
  unfold bind. destruct (slice_unref s w) as [[[] w1]|] eqn:E; [|done]. intros H. rewrite (IH _ H). by eapply slice_unref_blocks.
Qed.

(** The slices of entries. *)
Definition entry_slices (es : list (nat * nat)) : list nat := es ≫= fun e => [e.1; e.2].

Lemma roomy_in_block b i : roomy b -> i < length (b_entries b) -> in_block i b = true.
Proof. intros Hb Hi. apply Z.leb_le. room. Qed.

Lemma unref_entries_all a b es i w : blocks w !! a = Some b -> drop i (b_entries b) = es ->
  roomy b -> unref_entries (Some a) i (length es) w = unref_all (entry_slices es) w.
Proof.
  revert i w. induction es as [|[k v] es IH]; intros i w Hb Hd Hl; [done|].
  assert (b_entries b !! i = Some (k, v)) as Hi by (by rewrite <-(Nat.add_0_r i), <-lookup_drop, Hd).
  pose proof (lookup_lt_Some _ _ _ Hi). cbn [length unref_entries]. unfold bind at 1. unfold get_entry, bind at 1, unwrap at 1, ret at 1.
  unfold bind at 1, gets at 1. rewrite Hb. unfold bind at 1, unwrap at 1, ret at 1.
  rewrite (roomy_in_block b i) by done.
  unfold bind at 1, rassert at 1, ret at 1. rewrite Hi. cbn [unwrap ret fst snd].
  change (entry_slices ((k, v) :: es)) with (k :: v :: entry_slices es). cbn [unref_all]. unfold bind.
  destruct (slice_unref k w) as [[[] w1]|] eqn:E1; [|done]. destruct (slice_unref v w1) as [[[] w2]|] eqn:E2; [|done].
  apply IH; [|by rewrite (drop_S _ _ _ Hi) in Hd; injection Hd|done].
  by rewrite (slice_unref_blocks _ _ _ E2), (slice_unref_blocks _ _ _ E1).
Qed.

Lemma entry_slices_tokens es : Sl <$> entry_slices es = es ≫= entry_tokens.
Proof. induction es as [|e es IH]; [done|]. cbn. by rewrite <-IH. Qed.

Lemma destroy_leaves ts w m : arr_wf m -> Inv (arr_tokens true m ++ ts) w ->
  wp (destroy_metadata_including_entries m) (fun _ => Inv ts) w.
Proof.
  unfold arr_wf, arr_tokens, destroy_metadata_including_entries. destruct m as [n c [a|]];
    cbn [a_count a_capacity a_metadata app]; intros Hwf HI; [|by apply wp_bind, wp_ret].
  destruct (block_referred _ _ a n (bytes_for c) true HI) as (b & Hb & Hl & Hc & _ & Hle); [by left|].
  pose proof (block_goes _ _ a b n (bytes_for c) true HI Hb) as H1. unfold block_tokens in H1. rewrite <-entry_slices_tokens in H1.
  apply unref_all_leaves in H1. rewrite <-Hl. unfold wp, bind in *.
  rewrite (unref_entries_all a b (b_entries b) 0 w Hb (drop_0 _)) by (by eapply (inv_blocks _ _ HI)).
  rewrite (unref_all_indep (delete a) _ w) in H1. destruct (unref_all (entry_slices (b_entries b)) w) as [[[] w1]|] eqn:E; [|done].
  unfold block_free, bind, gets. rewrite (unref_all_blocks _ _ _ E), Hb. exact H1.
Qed.

Lemma inv_perm ts ts' w : Inv ts w -> ts ≡ₚ ts' -> Inv ts' w.
Proof. intros HI Hp. by rewrite <-Hp. Qed.

Lemma destroy_only_leaves ts w m : Inv (arr_tokens false m ++ ts) w ->
  wp (destroy_metadata_only m) (fun _ => Inv ts) w.
Proof. apply block_free_leaves. Qed.

(** ** The other operations on arrays *)

Lemma with_capacity_leaves ts w cap : (0 <= cap)%Z -> (ENTRY * cap < U64)%Z -> Inv ts w ->
  wp (Metadata_with_capacity cap) (fun m w' => arr_wf m /\ a_count m = 0 /\ Inv (arr_tokens true m ++ ts) w') w.
Proof.
  intros Hcap Hsz HI. unfold Metadata_with_capacity, metadata_array_init. case_match eqn:H0; [by apply wp_ret|apply Z.eqb_neq in H0].
  wp_step block_malloc_leaves; [apply bytes_for_nonneg|exact HI|]. intros a w1 H1.
  wp_step block_clear_leaves; [exact H1|lia|]. intros [] w2 H2. apply wp_ret. unfold arr_wf; cbn. split; [lia|]. done.
Qed.

Lemma build_leaves ts w m : arr_wf m -> Inv (arr_tokens true m ++ ts) w ->
  wp (MetadataBuilder_build m)
    (fun m' w' => arr_wf m' /\ a_count m' = a_count m /\ a_capacity m' = Z.of_nat (a_count m) /\ Inv (arr_tokens true m' ++ ts) w') w.
Proof.
  intros Hwf HI. unfold MetadataBuilder_build, metadata_array_shrink_to_fit. pose proof (arr_room m Hwf) as Hle.
  rewrite (proj2 (Z.leb_le _ _) Hle). apply wp_bind, wp_ret. case_match eqn:Hc; [apply Z.eqb_eq in Hc; by apply wp_ret|apply Z.eqb_neq in Hc].
  assert (ENTRY * a_capacity m < U64)%Z by (unfold arr_wf in Hwf; destruct (a_metadata m); room).
  case_bool_decide as H0.
  - wp_step block_realloc_leaves; [exact Hwf|exact HI|rewrite bytes_for_exact; room|]. intros a w1 H1. apply wp_ret. unfold arr_wf; cbn. split; [room|]. done.
  - wp_step destroy_leaves; [exact Hwf|exact HI|]. intros [] w1 H1. apply wp_ret. unfold arr_wf; cbn. split; [lia|].
    split; [done|]. split; [lia|done].
Qed.

(** What a block holds is there. *)
Lemma entry_there ts w a b i e s : Inv ts w -> blocks w !! a = Some b -> b_entries b !! i = Some e ->
  Sl s ∈ entry_tokens e -> is_Some (slices w !! s).
Proof.
  intros HI Hb He Hs. destruct (measure_pos id (slices w) s) as (n & Hn & _); [|by exists n].
  change (0 < amount w (Sl s)). rewrite <-(inv_count _ _ HI). apply Nat.add_pos_r, count_elem.
  unfold held. apply elem_of_app. left. apply elem_of_owns. exists a, b. split; [done|].
  apply list_elem_of_bind. exists e. split; [done|]. by eapply list_elem_of_lookup_2.
Qed.

Lemma get_leaves ts w m i : Inv (arr_tokens true m ++ ts) w -> arr_wf m -> i < a_count m ->
  wp (Metadata_get m i) (fun r w' => r = true /\ w' = w) w.
Proof.
  intros HI Hwf Hi. unfold Metadata_get. rewrite bool_decide_eq_false_2 by lia. unfold arr_wf, arr_tokens in *.
  destruct m as [n c [a|]]; cbn [a_count a_capacity a_metadata] in *; [|lia].
  destruct (block_referred _ _ a n (bytes_for c) true HI) as (b & Hb & Hl & Hc & _ & Hle); [by left|].
  destruct (lookup_lt_is_Some_2 (b_entries b) i) as [e He]; [lia|].
  destruct (entry_there _ _ _ _ _ _ e.1 HI Hb He) as [k Hk]; [by left|].
  destruct (entry_there _ _ _ _ _ _ e.2 HI Hb He) as [v Hv]; [by right; left|].
  unfold wp, get_entry, bind, gets. cbn [unwrap ret]. rewrite Hb. cbn [unwrap ret].
  rewrite (roomy_in_block b i) by (lia || by eapply (inv_blocks _ _ HI)).
  cbn [rassert ret]. rewrite He. cbn [unwrap ret]. rewrite Hk. cbn [unwrap ret]. by rewrite Hv.
Qed.

Lemma clone_loop_leaves n i m m' ts w : arr_wf m -> arr_wf m' -> i + n <= a_count m -> room_for (a_count m' + n) ->
  Inv (arr_tokens true m' ++ arr_tokens true m ++ ts) w ->
  wp (clone_loop n i m m') (fun r w' => arr_wf r /\ a_count r = a_count m' + n /\
    Inv (arr_tokens true r ++ arr_tokens true m ++ ts) w') w.
Proof.
  intros Hwf. revert i m' w. induction n as [|n IH]; intros i m' w Hwf' Hn Hr HI; cbn [clone_loop].
  - apply wp_ret. split; [done|]. split; [lia|done].
  - wp_step (get_leaves (arr_tokens true m' ++ ts) _ m); [|exact Hwf|lia|].
    { apply (inv_perm _ _ _ HI). by rewrite Permutation_app_swap_app. }
    intros r w1 [-> ->]. wp_step metadata_array_add_leaves; [exact Hwf'|eapply room_for_mono; [|exact Hr]; lia|exact HI|]. intros m1 w2 (Hwf1 & Hc1 & H1).
    eapply wp_mono; [apply (IH (S i)); [exact Hwf1|lia|by rewrite Hc1, Nat.add_succ_comm|exact H1]|]. cbv beta. intros r w3 (? & ? & ?). split; [done|]. split; [lia|done].
Qed.

(** A clone has as many entries, of its own, and just the room for them. *)
Lemma clone_leaves m ts w : arr_wf m -> room_for (a_count m) -> Inv (arr_tokens true m ++ ts) w ->
  wp (Metadata_clone m) (fun r w' => arr_wf r /\ a_count r = a_count m /\ Inv (arr_tokens true r ++ arr_tokens true m ++ ts) w') w.
Proof.
  intros Hwf Hr HI. wp_step with_capacity_leaves; [lia|unfold room_for in Hr; room|exact HI|]. intros m1 w1 (Hwf1 & Hc1 & H1).
  wp_step (clone_loop_leaves (a_count m) 0 m); [exact Hwf|exact Hwf1|lia|by rewrite Hc1|exact H1|]. intros m2 w2 (Hwf2 & Hc2 & H2).
  eapply wp_mono; [apply build_leaves; [exact Hwf2|exact H2]|]. cbv beta. intros r w3 (? & Hc & _ & ?).
  split; [done|]. split; [lia|done].
Qed.

(** ** Contexts *)

(** The token of a context, by whether the core is done with it. *)
Definition ctx_token (c : nat) (x : Ctx) : Token := if ended x then Cx c else Fl c.

Lemma ctxs_insert_wf w c x : (forall c x, ctxs w !! c = Some x -> ctx_wf x) -> ctx_wf x ->
  forall c' x', <[c:=x]> (ctxs w) !! c' = Some x' -> ctx_wf x'.
Proof. intros H Hx c' x' [[<- <-]|[_ Hc]]%lookup_insert_Some; [done|by eapply H]. Qed.

Lemma ctx_referred ts w c t : Inv ts w -> t ∈ ts -> t = Fl c \/ t = Cx c ->
  exists x, ctxs w !! c = Some x /\ t = ctx_token c x /\ ctx_wf x.
Proof.
  intros HI Hin Ht. pose proof (referred _ _ _ HI Hin) as Hn. unfold ctx_token.
  destruct Ht as [-> | ->]; cbn [amount] in Hn; destruct (measure_pos _ _ _ Hn) as (x & Hx & E); rewrite E in Hn;
    exists x; (split; [done|]); (split; [destruct (ended x); (done || (cbn in Hn; lia))|by eapply (inv_ctxs _ _ HI)]).
Qed.

Lemma create_leaves ts w : Inv ts w ->
  wp batch_context_create (fun c w' => Inv (Fl c :: ts) w' /\ ctxs w' !! c = Some zero_ctx) w.
Proof.
  intros HI. pose proof (alloc_fresh (ctxs w)). unfold wp, batch_context_create, bind, gets, modify, ret.
  split; [|apply lookup_insert_eq]. split; [|apply HI..|apply ctxs_insert_wf; [apply HI|done]].
  by_count HI; change (ctx_tokens zero_ctx) with ([] : list Token) in *; count_norm; cbn in *; lia.
Qed.

(** A context takes [got] over and gives [given] away. *)
Lemma update_ctx_leaves (got given : list Token) ts w c f x :
  Inv (got ++ ctx_token c x :: ts) w -> ctxs w !! c = Some x ->
  got ++ ctx_tokens x ≡ₚ given ++ ctx_tokens (f x) -> ctx_wf (f x) ->
  wp (update_ctx c f) (fun _ w' => Inv (given ++ ctx_token c (f x) :: ts) w' /\ ctxs w' !! c = Some (f x)) w.
Proof.
  intros HI Hx Hp Hwf. unfold wp, update_ctx, bind, gets. rewrite Hx. cbn [unwrap ret modify].
  split; [|apply lookup_insert_eq]. split; [|apply HI..|apply ctxs_insert_wf; [apply HI|done]].
  intros t. pose proof (f_equal id (count_proper t _ _ Hp)) as Hc. revert Hc. unfold id, ctx_token in *.
  destruct (ended x) eqn:E, (ended (f x)) eqn:E'; intros Hc; count_at t HI; rewrite ?E, ?E' in *; cbn in *; lia.
Qed.

Lemma context_goes ts w c x : Inv (Cx c :: ts) w -> ctxs w !! c = Some x ->
  Inv (ctx_tokens x ++ ts) (set_ctxs (delete c) w).
Proof.
  intros HI Hx. destruct (ctx_referred _ _ c (Cx c) HI) as (x' & Hx' & Ht & _); [by left|by right|].
  assert (x' = x) as -> by congruence. unfold ctx_token in Ht. destruct (ended x) eqn:E; [|done].
  split; [|apply HI..|]; [by_count HI; rewrite ?E in *; cbn in *; lia|].
  heap. intros c' x' [_ Hc]%lookup_delete_Some. by eapply (inv_ctxs _ _ HI).
Qed.

(** What contexts hold plays no role for the other parts of the heap. *)
Lemma block_free_indep h a : indep (set_ctxs h) (block_free a).
Proof. destruct a as [a|]; [|done]. intros w. unfold block_free, bind, gets. heap. by destruct (blocks w !! a). Qed.

Lemma get_entry_indep h a i : indep (set_ctxs h) (get_entry a i).
Proof.
  destruct a as [a|]; [|done]. intros w. unfold get_entry, bind, gets. cbn [unwrap ret]. heap. destruct (blocks w !! a) as [b|]; [|done].
  cbn [unwrap ret]. destruct (in_block i b); [|done]. cbn [rassert ret]. by destruct (b_entries b !! i).
Qed.

Lemma unref_entries_indep h a i n : indep (set_ctxs h) (unref_entries a i n).
Proof.
  revert i. induction n as [|n IH]; intros i; [done|]. apply indep_bind; [apply get_entry_indep|]. intros e.
  apply indep_bind; [apply (slice_unref_indep id)|]. intros []. by apply indep_bind; [apply (slice_unref_indep id)|].
Qed.

Lemma destroy_indep h m : indep (set_ctxs h) (destroy_metadata_including_entries m).
Proof.
  apply indep_bind; [|intros []; apply block_free_indep]. destruct (a_metadata m); [apply unref_entries_indep|done].
Qed.

Lemma buffer_destroy_indep h o : indep (set_ctxs h) (buffer_destroy o).
Proof.
  destruct o as [b|]; [|done]. intros w. unfold buffer_destroy, bind, gets. heap. destruct (buffers w !! b) as [s|]; [|done].
  cbn [unwrap ret modify]. rewrite <-(proj2 (slice_unref_indep id h s) _). done.
Qed.

Lemma context_destroy_leaves ts w c : Inv (Cx c :: ts) w -> wp (batch_context_destroy c) (fun _ => Inv ts) w.
Proof.
  intros HI. destruct (ctx_referred _ _ c (Cx c) HI) as (x & Hx & Ht & Hi & Hs & _); [by left|by right|].
  pose proof (context_goes _ _ _ _ HI Hx) as H. unfold ctx_tokens in H. rewrite <-!app_assoc in H.
  apply wp_bind, wp_gets. rewrite Hx. apply wp_bind, wp_ret. unfold ctx_token in Ht. destruct (ended x); [|done].
  apply wp_bind, wp_ret. apply indep_then.
  - repeat first [apply destroy_indep | apply buffer_destroy_indep | apply block_free_indep | apply indep_bind; [|intros []]].
    destruct (recv_status_details x); [apply (slice_unref_indep id)|done].
  - wp_step destroy_leaves; [exact Hi|exact H|]. intros [] w1 H1.
    wp_step buffer_destroy_leaves; [exact H1|]. intros [] w2 H2.
    wp_step destroy_leaves; [exact Hs|exact H2|]. intros [] w3 H3.
    wp_step destroy_only_leaves; [exact H3|]. intros [] w4 H4.
    wp_step buffer_destroy_leaves; [exact H4|]. intros [] w5 H5.
    wp_step destroy_only_leaves; [exact H5|]. intros [] w6 H6.
    destruct (recv_status_details x); [by apply slice_unref_leaves|by apply wp_ret].
Qed.

(** ** What batches take over *)

Definition has_ctx (c : nat) (x : Ctx) (w : Heap) : Prop := ctxs w !! c = Some x.

Lemma wp_keeps {A} (P : Heap -> Prop) (m : M Heap A) Q w : preserves P m -> P w -> wp m Q w ->
  wp m (fun a w' => Q a w' /\ P w') w.
Proof. intros Hm HP. unfold wp. destruct (m w) as [[a w']|] eqn:E; [|done]. intros HQ. split; [done|by eapply Hm]. Qed.

Lemma has_ctx_slices c x f : preserves (has_ctx c x) (modify (set_slices f)).
Proof. by intros w [] w' H [= <-]. Qed.

Lemma has_ctx_blocks c x f : preserves (has_ctx c x) (modify (set_blocks f)).
Proof. by intros w [] w' H [= <-]. Qed.

Lemma has_ctx_buffers c x f : preserves (has_ctx c x) (modify (set_buffers f)).
Proof. by intros w [] w' H [= <-]. Qed.

#[local] Hint Resolve has_ctx_slices has_ctx_blocks has_ctx_buffers : frame.

Lemma slice_new_keeps c x : preserves (has_ctx c x) slice_new.
Proof. unfold slice_new. preserve. Qed.

Lemma buffer_create_keeps c x s : preserves (has_ctx c x) (buffer_create s).
Proof. unfold buffer_create, slice_ref. preserve. Qed.

Lemma block_realloc_keeps c x a n : preserves (has_ctx c x) (block_realloc a n).
Proof. unfold block_realloc, block_malloc. preserve. Qed.

#[local] Hint Resolve slice_new_keeps buffer_create_keeps block_realloc_keeps : frame.

Lemma block_clear_keeps c x a i n : preserves (has_ctx c x) (block_clear a i n).
Proof. unfold block_clear. preserve. Qed.

#[local] Hint Resolve block_clear_keeps : frame.

Lemma array_add_keeps c x m : preserves (has_ctx c x) (metadata_array_add m).
Proof. unfold metadata_array_add, set_entry. preserve. Qed.

Lemma with_capacity_keeps c x n : preserves (has_ctx c x) (Metadata_with_capacity n).
Proof. unfold Metadata_with_capacity, metadata_array_init, block_malloc. preserve. Qed.

Lemma unref_entries_keeps c x a i n : preserves (has_ctx c x) (unref_entries a i n).
Proof. revert i. induction n as [|n IH]; intros i; cbn [unref_entries]; unfold get_entry, slice_unref; preserve. Qed.

#[local] Hint Resolve unref_entries_keeps : frame.

Lemma build_keeps c x m : preserves (has_ctx c x) (MetadataBuilder_build m).
Proof.
  unfold MetadataBuilder_build, metadata_array_shrink_to_fit, destroy_metadata_including_entries, block_free. preserve.
Qed.

Definition headers_tokens (h : option Arr) : list Token := from_option (arr_tokens true) [] h.
Definition headers_wf (h : option Arr) : Prop := from_option arr_wf True h.

(** After a move the source, when there is one, is empty. *)
Lemma move_leaves h : headers_wf h -> arr_wf (metadata_array_move h).1 /\
  arr_tokens true (metadata_array_move h).1 = headers_tokens h /\
  ((metadata_array_move h).2 = None \/ (metadata_array_move h).2 = Some empty_arr).
Proof. destruct h; cbn; auto. Qed.

Lemma drop_moved_leaves h ts w : h = None \/ h = Some empty_arr -> Inv ts w -> wp (drop_headers h) (fun _ => Inv ts) w.
Proof. by intros [-> | ->] HI; [apply wp_ret|apply destroy_leaves]. Qed.

Lemma slice_new_there c x ts w : Inv ts w -> has_ctx c x w ->
  wp slice_new (fun s w' => Inv (Sl s :: ts) w' /\ has_ctx c x w') w.
Proof. intros HI Hx. by apply (wp_keeps (has_ctx c x)); [apply slice_new_keeps| |apply slice_new_leaves]. Qed.

Lemma put_message_leaves c s x ts w : Inv (Fl c :: ts) w -> Sl s ∈ ts -> has_ctx c x w -> ended x = false ->
  send_message x = None -> ctx_wf x -> wp (put_message c s) (fun _ => Inv (Fl c :: ts)) w.
Proof.
  intros HI Hs Hx He Hm Hwf. apply wp_bind.
  eapply wp_mono; [apply (wp_keeps (has_ctx c x)); [apply buffer_create_keeps|exact Hx|apply buffer_create_leaves; [exact HI|by right]]|].
  intros b w1 [H1 Hx1]. cbv beta in H1. assert (ctx_token c x = Fl c) as Et by (unfold ctx_token; by rewrite He). rewrite <-Et in H1.
  eapply wp_mono; [apply (update_ctx_leaves [Bf b] [] ts _ c _ x H1 Hx1); [|exact Hwf]|].
  - unfold ctx_tokens, with_send_message; cbn. rewrite Hm; cbn. solve_Permutation.
  - intros [] w2 [H2 _]. revert H2. unfold ctx_token; cbn. by rewrite He.
Qed.

Lemma payload_leaves c p x ts w : Inv (Fl c :: ts) w -> (forall s, p = Some s -> Sl s ∈ ts) -> has_ctx c x w ->
  ended x = false -> send_message x = None -> ctx_wf x ->
  wp match p with Some s => put_message c s | None => ret tt end (fun _ => Inv (Fl c :: ts)) w.
Proof. intros HI Hp Hx He Hm Hwf. destruct p as [s|]; [|by apply wp_ret]. by eapply put_message_leaves; eauto. Qed.

Lemma call_start_leaves c p h ts w : Inv (headers_tokens h ++ Fl c :: ts) w -> headers_wf h ->
  (forall s, p = Some s -> Sl s ∈ ts) -> has_ctx c zero_ctx w ->
  wp (call_start c p h) (fun h' w' => (h' = None \/ h' = Some empty_arr) /\ Inv (Fl c :: ts) w') w.
Proof.
  intros HI Hh Hp Hx. unfold call_start. destruct (move_leaves h Hh) as (Hwf & Ht & Hleft).
  destruct (metadata_array_move h) as [dest src]. cbn [fst snd] in *. rewrite <-Ht in HI.
  apply wp_bind. eapply wp_mono; [apply (update_ctx_leaves (arr_tokens true dest) [] ts w c _ zero_ctx HI Hx)|].
  - unfold ctx_tokens; cbn. by rewrite !app_nil_r.
  - done.
  - intros [] w1 [H1 Hx1]. wp_step payload_leaves; [exact H1|exact Hp|exact Hx1|done..|]. intros [] w2 H2. by apply wp_ret.
Qed.

Lemma send_status_leaves c h p ts w : Inv (headers_tokens h ++ Fl c :: ts) w -> headers_wf h ->
  (forall s, p = Some s -> Sl s ∈ ts) -> has_ctx c zero_ctx w ->
  wp (call_send_status_from_server c h p) (fun h' w' => (h' = None \/ h' = Some empty_arr) /\ Inv (Fl c :: ts) w') w.
Proof.
  intros HI Hh Hp Hx. unfold call_send_status_from_server. wp_step slice_new_there; [exact HI|exact Hx|].
  intros s w1 [H1 Hx1]. destruct (move_leaves h Hh) as (Hwf & Ht & Hleft).
  destruct (metadata_array_move h) as [dest src]. cbn [fst snd] in *. rewrite <-Ht in H1.
  assert (Inv (arr_tokens true dest ++ Fl c :: Sl s :: ts) w1) as H2 by (apply (inv_perm _ _ _ H1); solve_Permutation).
  apply wp_bind. eapply wp_mono; [apply (update_ctx_leaves (arr_tokens true dest) [] (Sl s :: ts) w1 c _ zero_ctx H2 Hx1)|].
  - unfold ctx_tokens; cbn. by rewrite !app_nil_r.
  - done.
  - intros [] w2 [H3 Hx2]. wp_step payload_leaves; [exact H3|intros t Ht'; right; by apply Hp|exact Hx2|done..|].
    intros [] w3 H4. wp_step slice_unref_leaves; [apply (inv_perm _ _ _ H4), perm_swap|]. intros [] w4 H5. by apply wp_ret.
Qed.

(** ** What the core does with a context *)

Lemma core_array_leaves c x ts w n : Inv ts w -> has_ctx c x w ->
  wp (core_array n) (fun m w' => Inv (arr_tokens false m ++ ts) w' /\ has_ctx c x w') w.
Proof.
  intros HI Hx. destruct n as [n|]; [|by apply wp_ret]. split; [|exact Hx].
  exact (block_comes ts w (mkBlock [] (bytes_for (Z.of_nat n)) false) HI (bytes_for_nonneg _)).
Qed.

Lemma core_message_leaves c x ts w b : Inv ts w -> has_ctx c x w ->
  wp (core_message b) (fun o w' => Inv (opt_tokens Bf o ++ ts) w' /\ has_ctx c x w') w.
Proof.
  intros HI Hx. destruct b; [|by apply wp_ret]. wp_step slice_new_there; [exact HI|exact Hx|].
  intros s w1 [H1 Hx1]. pose proof (alloc_fresh (buffers w1)). unfold wp, bind, gets, modify, ret.
  split; [|exact Hx1]. cbn [opt_tokens app]. split; [by_count H1|apply H1..].
Qed.

Lemma core_details_leaves c x ts w (b : bool) : Inv ts w -> has_ctx c x w ->
  wp (if b then let* s := slice_new in ret (Some s) else ret None)
    (fun o w' => Inv (opt_tokens Sl o ++ ts) w' /\ has_ctx c x w') w.
Proof.
  intros HI Hx. destruct b; [|by apply wp_ret]. wp_step slice_new_there; [exact HI|exact Hx|].
  intros s w1 H1. by apply wp_ret.
Qed.

Lemma core_completes_leaves c r ts w : Inv (Fl c :: ts) w -> wp (core_completes c r) (fun _ => Inv (Cx c :: ts)) w.
Proof.
  intros HI. destruct (ctx_referred _ _ c (Fl c) HI) as (x & Hx & Ht & Hi & Hs & Hr); [by left|by left|].
  rewrite Ht in HI. assert (ended x = false) as He by (unfold ctx_token in Ht; by destruct (ended x)).
  destruct (Hr He) as (E1 & E2 & E3 & E4).
  wp_step (core_array_leaves c x); [exact HI|exact Hx|]. intros i w1 [H1 X1].
  wp_step (core_message_leaves c x); [exact H1|exact X1|]. intros m w2 [H2 X2].
  wp_step (core_array_leaves c x); [exact H2|exact X2|]. intros t w3 [H3 X3].
  wp_step (core_details_leaves c x); [exact H3|exact X3|]. intros d w4 [H4 X4].
  rewrite !app_assoc in H4.
  eapply wp_mono; [apply (update_ctx_leaves _ [] ts w4 c _ x H4 X4)|by intros [] w5 [H5 _]].
  - unfold ctx_tokens; cbn. rewrite E1, E2, E3, E4; cbn. solve_Permutation.
  - by split; [|split].
Qed.

Lemma take_recv_message_leaves c ts w : Inv (Cx c :: ts) w ->
  wp (batch_context_take_recv_message c) (fun o => Inv (opt_tokens Bf o ++ Cx c :: ts)) w.
Proof.
  intros HI. destruct (ctx_referred _ _ c (Cx c) HI) as (x & Hx & Ht & Hi & Hs & Hr); [by left|by right|].
  rewrite Ht in *. assert (ended x = true) as He by (unfold ctx_token in Ht; by destruct (ended x)).
  apply wp_bind, wp_gets. rewrite Hx. apply wp_bind, wp_ret. apply wp_bind.
  eapply wp_mono; [apply (update_ctx_leaves [] (opt_tokens Bf (recv_message x)) ts w c _ x HI Hx)|].
  - unfold ctx_tokens; cbn. solve_Permutation.
  - split; [exact Hi|]. split; [exact Hs|]. cbn. by rewrite He.
  - intros [] w1 [H1 _]. by apply wp_ret.
Qed.

(** ** Starting batches *)

Lemma start_call_leaves h p ts w : Inv (headers_tokens h ++ opt_tokens Sl p ++ ts) w -> headers_wf h ->
  wp (start_call h p) (fun c => Inv (Fl c :: ts)) w.
Proof.
  intros HI Hh. wp_step create_leaves; [exact HI|]. intros c w1 [H1 Hx].
  wp_step (call_start_leaves c p h (opt_tokens Sl p ++ ts)); [apply (inv_perm _ _ _ H1); solve_Permutation|exact Hh|
    intros s ->; by left|exact Hx|].
  intros h' w2 [Hleft H2]. apply wp_bind. apply (wp_mono _ (fun _ => Inv (Fl c :: ts))).
  - destruct p as [s|]; [|by apply wp_ret]. apply slice_unref_leaves. apply (inv_perm _ _ _ H2), perm_swap.
  - intros [] w3 H3. wp_step drop_moved_leaves; [exact Hleft|exact H3|]. intros [] w4 H4. by apply wp_ret.
Qed.

Lemma start_send_message_leaves s ts w : Inv ts w -> Sl s ∈ ts -> wp (start_send_message s) (fun c => Inv (Fl c :: ts)) w.
Proof.
  intros HI Hs. wp_step create_leaves; [exact HI|]. intros c w1 [H1 Hx].
  wp_step (put_message_leaves c s zero_ctx); [exact H1|exact Hs|exact Hx|done..|]. intros [] w2 H2. by apply wp_ret.
Qed.

(** The array for the details of a status. *)
Lemma details_leaves (details : bool) c ts w : Inv ts w -> has_ctx c zero_ctx w ->
  wp (if details then
        let* builder := Metadata_with_capacity 0 in
        let* builder := metadata_array_add builder in
        let* m := MetadataBuilder_build builder in ret (Some m)
      else ret None)
    (fun h w' => headers_wf h /\ Inv (headers_tokens h ++ ts) w' /\ has_ctx c zero_ctx w') w.
Proof.
  intros HI Hx. destruct details; [|by apply wp_ret].
  apply wp_bind. eapply wp_mono; [apply (wp_keeps (has_ctx c zero_ctx)); [apply with_capacity_keeps|exact Hx|by apply with_capacity_leaves; [|vm_compute|]]|].
  intros m1 w1 [(Hwf1 & Hc1 & H1) X1].
  apply wp_bind. eapply wp_mono; [apply (wp_keeps (has_ctx c zero_ctx)); [apply array_add_keeps|exact X1|apply metadata_array_add_leaves; [done|rewrite Hc1; by vm_compute|done]]|].
  intros m2 w2 [(Hwf2 & _ & H2) X2].
  apply wp_bind. eapply wp_mono; [apply (wp_keeps (has_ctx c zero_ctx)); [apply build_keeps|exact X2|by apply build_leaves]|].
  intros m3 w3 [(Hwf3 & _ & _ & H3) X3]. by apply wp_ret.
Qed.

Lemma start_send_status_leaves details p ts w : Inv ts w -> (forall s, p = Some s -> Sl s ∈ ts) ->
  wp (start_send_status details p) (fun c => Inv (Fl c :: ts)) w.
Proof.
  intros HI Hp. wp_step create_leaves; [exact HI|]. intros c w1 [H1 Hx].
  wp_step (details_leaves details c); [exact H1|exact Hx|]. intros h w2 (Hh & H2 & X2).
  wp_step send_status_leaves; [exact H2|exact Hh|exact Hp|exact X2|]. intros h' w3 [Hleft H3].
  wp_step drop_moved_leaves; [exact Hleft|exact H3|]. intros [] w4 H4. by apply wp_ret.
Qed.
End operations.

(** ** Whole programs *)

Definition Ok (K : nat) (vs : list Val) (w : Heap) : Prop := Forall (val_wf K) vs /\ Inv (vs ≫= val_tokens) w.

Section programs.
Implicit Types (K : nat) (vs : list Val) (w : Heap).

Lemma value_taken K vs i v w : Ok K vs w -> vs !! i = Some v ->
  val_wf K v /\ Forall (val_wf K) (delete i vs) /\ Inv (val_tokens v ++ (delete i vs ≫= val_tokens)) w.
Proof.
  intros [Hwf HI] Hi. rewrite (delete_Permutation _ _ _ Hi) in Hwf, HI. by apply Forall_cons in Hwf as [? ?].
Qed.

Lemma value_back vs i v : vs !! i = Some v -> val_tokens v ++ (delete i vs ≫= val_tokens) ≡ₚ vs ≫= val_tokens.
Proof. intros Hi. change (((v :: delete i vs) ≫= val_tokens) ≡ₚ vs ≫= val_tokens). by rewrite <-(delete_Permutation _ _ _ Hi). Qed.

Lemma value_there K vs i v w t : Ok K vs w -> vs !! i = Some v -> t ∈ val_tokens v -> t ∈ vs ≫= val_tokens.
Proof. intros _ Hi Ht. apply list_elem_of_bind. exists v. split; [done|]. by eapply list_elem_of_lookup_2. Qed.

Lemma take_headers_leaves K i vs w : Ok K vs w -> headers_wf (take_headers i vs).1 /\
  Forall (val_wf K) (take_headers i vs).2 /\ Inv (headers_tokens (take_headers i vs).1 ++ ((take_headers i vs).2 ≫= val_tokens)) w.
Proof.
  intros HO. destruct i as [i|]; [|by destruct HO]. cbn [take_headers].
  destruct (vs !! i) as [[]|] eqn:Hi; try (by destruct HO). destruct (value_taken _ _ _ _ _ HO Hi) as ([Hm _] & ? & ?). done.
Qed.

Lemma take_payload_leaves K i vs ts w : Forall (val_wf K) vs -> Inv (ts ++ (vs ≫= val_tokens)) w ->
  Forall (val_wf K) (take_payload i vs).2 /\ Inv (ts ++ opt_tokens Sl (take_payload i vs).1 ++ ((take_payload i vs).2 ≫= val_tokens)) w.
Proof.
  intros Hwf HI. destruct i as [i|]; [|done]. cbn [take_payload]. destruct (vs !! i) as [[]|] eqn:Hi; try done.
  cbn [fst snd]. rewrite (delete_Permutation _ _ _ Hi) in Hwf, HI. by apply Forall_cons in Hwf as [? ?].
Qed.

Lemma see_payload_there i vs s : see_payload i vs = Some s -> Sl s ∈ vs ≫= val_tokens.
Proof.
  destruct i as [i|]; [|done]. cbn [see_payload]. destruct (vs !! i) as [[]|] eqn:Hi; try done. intros [= ->].
  apply list_elem_of_bind. exists (VSlice s). split; [by left|]. by eapply list_elem_of_lookup_2.
Qed.

Lemma drop_leaves K v ts w : val_wf K v -> Inv (val_tokens v ++ ts) w ->
  match v with
  | VMeta m => wp (Metadata_drop m) (fun _ => Inv ts) w
  | VSlice s => wp (slice_unref s) (fun _ => Inv ts) w
  | VDone c => wp (batch_context_destroy c) (fun _ => Inv ts) w
  | VMessage b => wp (buffer_destroy (Some b)) (fun _ => Inv ts) w
  | _ => True
  end.
Proof.
  destruct v; cbn [val_wf val_tokens]; intros Hwf HI; try done;
    [by apply destroy_leaves; [apply Hwf|]|by apply slice_unref_leaves|by apply context_destroy_leaves|by apply (buffer_destroy_leaves _ _ (Some b))].
Qed.

(** A new value is put before the others. *)
Lemma put_value K v vs w : val_wf K v -> Forall (val_wf K) vs -> Inv (val_tokens v ++ (vs ≫= val_tokens)) w ->
  wp (ret (v :: vs)) (Ok K) w.
Proof. intros Hv Hvs HI. split; [by constructor|exact HI]. Qed.

Lemma val_wf_mono K v : val_wf K v -> val_wf (S K) v.
Proof. destruct v; cbn; try done; intros [? ?]; (split; [done|lia]). Qed.

(** What the caller of [with_capacity] asks for fits into memory, let alone into [size_t]. *)
Definition op_fits (op : MetaOp) : Prop :=
  match op with OpWithCapacity cap => (0 <= cap)%Z /\ (ENTRY * cap < U64)%Z | _ => True end.

Lemma meta_op_leaves K op vs w : room_for K -> op_fits op -> Ok K vs w -> wp (run_op op vs) (Ok (S K)) w.
Proof.
  intros HK Hop [Hwf HI]. assert (Ok (S K) vs w) as HO by (split; [eapply Forall_impl; [exact Hwf|apply val_wf_mono]|exact HI]).
  assert (wp (ret vs) (Ok (S K)) w) as Hsame by exact HO. assert (Forall (val_wf (S K)) vs) as Hwf' by apply HO.
  assert (forall n, n <= K -> room_for n) as Hroom by (intros; by eapply room_for_mono).
  destruct op as [cap|i|i|i|i|i| |i j|i|details j| |i r|i|i]; cbn [run_op];
    try (destruct (vs !! i) as [[m|q len cap|s|c|c|b]|] eqn:Hi; try exact Hsame;
         pose proof (value_taken _ _ _ _ _ (conj Hwf HI) Hi) as (Hv0 & _); pose proof (value_taken _ _ _ _ _ HO Hi) as (Hv & Hd & Ht)).
  - destruct Hop. wp_step with_capacity_leaves; [done|done|exact HI|]. intros m w1 (Hm & Hc & H1). apply put_value; [|done..]. split; [done|lia].
  - destruct Hv0 as [Hm Hn]. wp_step metadata_array_add_leaves; [exact Hm|by apply Hroom|exact Ht|]. intros m' w1 (Hm' & Hc & H1).
    apply put_value; [|done..]. split; [done|lia].
  - destruct Hv as [Hm Hn]. wp_step build_leaves; [exact Hm|exact Ht|]. intros m' w1 (Hm' & Hc & _ & H1). apply put_value; [|done..]. split; [done|lia].
  - destruct Hv0 as [Hm Hn]. wp_step clone_leaves; [exact Hm|by apply Hroom|exact Ht|]. intros m' w1 (Hm' & Hc & H1).
    apply put_value; [split; [done|lia]|done|]. apply (inv_perm _ _ _ H1), Permutation_app_head. exact (value_back _ _ _ Hi).
  - destruct m. by apply put_value.
  - by apply put_value.
  - wp_step slice_new_leaves; [exact HI|]. intros s w1 H1. by apply put_value.
  - destruct (take_headers_leaves _ i _ _ HO) as (Hh & Hwf1 & H1). destruct (take_headers i vs) as [h vs1]. cbn [fst snd] in *.
    destruct (take_payload_leaves _ j vs1 _ _ Hwf1 H1) as [Hwf2 H2]. destruct (take_payload j vs1) as [p vs2]. cbn [fst snd] in *.
    wp_step start_call_leaves; [exact H2|exact Hh|]. intros c w1 H3. by apply put_value.
  - wp_step start_send_message_leaves; [exact HI|eapply value_there; [exact HO|exact Hi|by left]|]. intros c w1 H1. by apply put_value.
  - wp_step start_send_status_leaves; [exact HI|intros s; apply see_payload_there|]. intros c w1 H1. by apply put_value.
  - wp_step create_leaves; [exact HI|]. intros c w1 [H1 _]. by apply put_value.
  - wp_step core_completes_leaves; [exact Ht|]. intros [] w1 H1. by apply put_value.
  - wp_step take_recv_message_leaves; [exact Ht|]. intros o w1 H1. assert (Inv (opt_tokens Bf o ++ (vs ≫= val_tokens)) w1) as H2
      by (apply (inv_perm _ _ _ H1), Permutation_app_head; exact (value_back _ _ _ Hi)).
    destruct o; [by apply put_value|by apply wp_ret].
  - wp_step (drop_leaves (S K) (VMeta m)); [exact Hv|exact Ht|]. intros [] w1 H1. by apply wp_ret.
  - wp_step (drop_leaves (S K) (VSlice s)); [exact Hv|exact Ht|]. intros [] w1 H1. by apply wp_ret.
  - wp_step (drop_leaves (S K) (VDone c)); [exact Hv|exact Ht|]. intros [] w1 H1. by apply wp_ret.
  - wp_step (drop_leaves (S K) (VMessage b)); [exact Hv|exact Ht|]. intros [] w1 H1. by apply wp_ret.
Qed.

Lemma meta_program_leaves K ops vs w : room_for (K + length ops) -> Forall op_fits ops -> Ok K vs w ->
  wp (run_program ops vs) (Ok (K + length ops)) w.
Proof.
  revert K vs w. induction ops as [|op ops IH]; intros K vs w HK Hops HO; [apply wp_ret; by rewrite Nat.add_0_r|].
  apply Forall_cons in Hops as [Hop Hops]. cbn [length] in *.
  wp_step (meta_op_leaves K); [eapply room_for_mono; [|exact HK]; lia|exact Hop|exact HO|]. intros vs' w' H.
  rewrite <-Nat.add_succ_comm in *. by apply IH.
Qed.

Lemma empty_heap_sound : Ok 0 [] empty_heap.
Proof. split; [done|]. split; [by intros []|intros ? ? H; by destruct (lookup_empty_Some _ _ H)..]. Qed.

(** What is in the heap holds no token of a context; what holds tokens of blocks and messages
    are contexts. *)
Lemma held_by w t : t ∈ held w -> (exists s, t = Sl s) \/ (exists c x, ctxs w !! c = Some x /\ t ∈ ctx_tokens x).
Proof.
  unfold held. rewrite !elem_of_app, !elem_of_owns. intros [(a & b & _ & Ht)|[(b & s & _ & Ht)|(c & x & Hx & Ht)]].
  - apply list_elem_of_bind in Ht as (e & Ht & _). unfold entry_tokens in Ht.
    rewrite !elem_of_cons, elem_of_nil in Ht. destruct Ht as [-> |[-> |[]]]; eauto.
  - apply list_elem_of_singleton in Ht as ->. eauto.
  - eauto.
Qed.

Lemma ctx_tokens_no_ctx x t c : t = Fl c \/ t = Cx c -> t ∉ ctx_tokens x.
Proof.
  intros Ht. assert (forall A (f : A -> Token) o, (forall x, t <> f x) -> t ∉ opt_tokens f o) as Ho.
  { intros A f [y|] Hf Hin; [|by apply not_elem_of_nil in Hin]. apply list_elem_of_singleton in Hin. by destruct (Hf y). }
  assert (forall own m, t ∉ arr_tokens own m) as Ha.
  { intros own m. apply (Ho _ (fun a => Blk a (if own then a_count m else 0) (bytes_for (a_capacity m)) own)). by destruct Ht as [-> | ->]. }
  assert (forall b, t ∉ opt_tokens Bf b) by (intros b; apply Ho; by destruct Ht as [-> | ->]).
  assert (forall s, t ∉ opt_tokens Sl s) by (intros s; apply Ho; by destruct Ht as [-> | ->]).
  unfold ctx_tokens. by repeat (apply not_elem_of_app; split).
Qed.

(** Without values nothing is left on the heap. *)
Lemma nothing_left w : Inv [] w -> w = empty_heap.
Proof.
  intros HI. assert (forall t, t ∉ held w -> amount w t = 0) as Hno
    by (intros t Ht; by rewrite <-(inv_count _ _ HI), count_nil, (proj2 (count_zero _ _))).
  assert (ctxs w = ∅) as Hc.
  { apply (nothing_held one); [intros; unfold one; lia|]. intros c.
    assert (amount w (Fl c) = 0 /\ amount w (Cx c) = 0) as [H1 H2]
      by (split; apply Hno; (intros [(s & [=])|(c' & x & _ & H)]%held_by; apply (ctx_tokens_no_ctx x _ c) in H; [done|auto])).
    cbn [amount] in *. unfold measure, one in *. destruct (ctxs w !! c) as [x|]; cbn in *; [|done]. by destruct (ended x). }
  assert (forall t, (forall s, t <> Sl s) -> amount w t = 0) as Hno'.
  { intros t Ht. apply Hno. intros [(s & ->)|(c & x & Hx & _)]%held_by; [by apply (Ht s)|]. by rewrite Hc in Hx. }
  assert (blocks w = ∅) as Hb.
  { apply map_eq. intros a. rewrite lookup_empty. destruct (blocks w !! a) as [b|] eqn:Ha; [|done].
    pose proof (Hno' (Blk a (length (b_entries b)) (b_bytes b) (b_owned b)) ltac:(done)) as H. cbn [amount] in H.
    rewrite (measure_lookup _ _ _ _ Ha) in H. unfold shape in H. by rewrite decide_True in H. }
  assert (buffers w = ∅) as Hf by (apply (nothing_held one); [intros; unfold one; lia|intros b; by apply (Hno' (Bf b))]).
  assert (slices w = ∅) as Hs.
  { apply (nothing_held id); [apply HI|]. intros s. apply (Hno (Sl s)). unfold held. rewrite Hb, Hf, Hc. by apply not_elem_of_nil. }
  destruct w. cbn in *. by subst.
Qed.

(** Metadata that a program has: its block holds its entries, whose slices are there. *)
Lemma metadata_there K vs w m : Ok K vs w -> VMeta m ∈ vs ->
  match a_metadata m with
  | None => a_count m = 0 /\ a_capacity m = 0%Z
  | Some a => exists b, blocks w !! a = Some b /\ length (b_entries b) = a_count m /\ b_bytes b = (ENTRY * a_capacity m)%Z /\
      forall k v, (k, v) ∈ b_entries b -> is_Some (slices w !! k) /\ is_Some (slices w !! v)
  end.
Proof.
  intros [Hwf HI] Hm. assert (arr_wf m) as Ha by (exact (proj1 (proj1 (Forall_forall _ _) Hwf _ Hm))).
  assert (arr_tokens true m ⊆ vs ≫= val_tokens) as Ht by (intros t ?; apply list_elem_of_bind; by exists (VMeta m)).
  unfold arr_wf, arr_tokens in *. destruct m as [n c [a|]]; cbn [a_metadata a_count a_capacity] in *; [|done].
  destruct (block_referred _ _ a n (bytes_for c) true HI) as (b & Hb & Hl & Hc & _ & _); [apply Ht; by left|].
  rewrite bytes_for_exact in Hc by room. exists b. split; [done|]. split; [done|]. split; [done|]. intros k v [i Hi]%list_elem_of_lookup.
  split; (eapply entry_there; [exact HI|exact Hb|exact Hi|]); [by left|by right; left].
Qed.

(** C6: metadata and what batches carry is freed once: whatever a program does with metadata, its
    raw parts, payloads and batches, and whatever the core receives for them, in any order, when
    the arrays it asks for and those that its operations can fill have a size that [size_t] can
    hold, no array, entry, message or context is used after it was freed, freed twice, indexed out of its
    block or freed while the core uses it; the metadata that the program has is in a block of
    its own size, filled with slices that are there; every slice is referred to as often as it
    is counted; and when the program has dropped its values nothing is left on the heap. *)
Theorem metadata_freed_once (ops : list MetaOp) :
  Forall op_fits ops -> (ENTRY * (2 * Z.of_nat (length ops) + 4) < U64)%Z ->
  exists vs w, run_program ops [] empty_heap = Done (vs, w) /\
    (forall m, VMeta m ∈ vs ->
       match a_metadata m with
       | None => a_count m = 0 /\ a_capacity m = 0%Z
       | Some a => exists b, blocks w !! a = Some b /\ length (b_entries b) = a_count m /\ b_bytes b = (ENTRY * a_capacity m)%Z /\
           forall k v, (k, v) ∈ b_entries b -> is_Some (slices w !! k) /\ is_Some (slices w !! v)
       end) /\
    (forall s, default 0 (slices w !! s) = count (Sl s) (vs ≫= val_tokens) + count (Sl s) (held w)) /\
    (vs = [] -> w = empty_heap).
Proof.
  intros Hops Hn. pose proof (meta_program_leaves 0 ops [] empty_heap Hn Hops empty_heap_sound) as H.
  apply wp_Done in H as (vs & w & E & HO). exists vs, w. split; [exact E|]. split; [|split].
  - intros m Hm. by eapply metadata_there.
  - intros s. destruct HO as [_ HI]. rewrite (inv_count _ _ HI (Sl s)). cbn [amount]. unfold measure. by destruct (slices w !! s).
  - intros ->. by apply nothing_left, HO.
Qed.
End programs.

(** ** An example

    Headers with three entries are cloned; the clone goes with a call and its payload, the
    original with another; a status with details follows; the events arrive, a received message is
    taken, and everything is dropped. *)
Definition demo_ops : list MetaOp :=
  [OpWithCapacity 0; OpAdd 0; OpAdd 0; OpAdd 0; OpBuild 0; OpClone 0; OpIntoRaw 0; OpFromRaw 0; OpSlice;
   OpStartCall (Some 1) (Some 0); OpStartCall (Some 1) None; OpSendStatus true None;
   OpEvent 0 (mkReceived None false None false); OpEvent 1 (mkReceived (Some 2) true (Some 1) true); OpTakeMessage 0;
   OpDrop 0; OpDrop 0; OpDrop 0; OpEvent 0 (mkReceived (Some 0) false None true); OpDrop 0].

(** The number of slices, blocks, messages and contexts after a part of the program. *)
Definition demo_after (n : nat) : option (list Val * (nat * nat * nat * nat)) :=
  match run_program (take n demo_ops) [] empty_heap with
  | Done (vs, w) => Some (vs, (size (slices w), size (blocks w), size (buffers w), size (ctxs w)))
  | Panicked _ => None
  end.

Example demo_metadata :
  demo_after <$> [5; 9; 12; 15; 20] =
  [Some ([VMeta (mkArr 3 3 (Some 0))], (6, 1, 0, 0));
   Some ([VSlice 12; VMeta (mkArr 3 3 (Some 1)); VMeta (mkArr 3 3 (Some 0))], (13, 2, 0, 0));
   Some ([VFlight 2; VFlight 1; VFlight 0], (15, 3, 1, 3));
   Some ([VMessage 1; VDone 1; VDone 2; VFlight 0], (17, 5, 2, 3));
   Some ([], (0, 0, 0, 0))].
Proof. vm_compute. reflexivity. Qed.

(** [metadata_freed_once] for these operations: the program ends, with no value left. *)
Lemma metadata_freed_once_witness :
  Forall op_fits demo_ops /\ (ENTRY * (2 * Z.of_nat (length demo_ops) + 4) < U64)%Z /\
  exists vs w, run_program demo_ops [] empty_heap = Done (vs, w) /\ (vs = [] -> w = empty_heap).
Proof.
  assert (Forall op_fits demo_ops) as Hf by (repeat apply Forall_cons_2; [by vm_compute..|apply Forall_nil_2]).
  assert (ENTRY * (2 * Z.of_nat (length demo_ops) + 4) < U64)%Z as Hn by (vm_compute; reflexivity).
  split; [exact Hf|]. split; [exact Hn|].
  destruct (metadata_freed_once demo_ops Hf Hn) as (vs & w & E & _ & _ & Hempty).
  exists vs, w. split; [exact E|exact Hempty].
Defined.

(** The condition on the capacities is needed: when the size of the block wraps around to less
    than an entry, the first entry that is added is written out of it. *)
Theorem oversized_array_overruns (cap : Z) : (0 < cap)%Z -> (bytes_for cap < ENTRY)%Z ->
  run_program [OpWithCapacity cap; OpAdd 0] [] empty_heap = Panicked "out of bounds".
Proof.
  intros Hcap Hb. assert (exists vs w, run_op (OpWithCapacity cap) [] empty_heap = Done (vs, w) /\
    vs = [VMeta (mkArr 0 cap (Some 0))] /\ w = mkHeap ∅ {[0 := mkBlock [] (bytes_for cap) true]} ∅ ∅) as (vs & w & E & -> & ->).
  { unfold run_op, Metadata_with_capacity, metadata_array_init. destruct (cap =? 0)%Z eqn:H0; [lia|].
    unfold bind, gets, modify, ret, block_malloc, block_clear, bind, gets, modify, ret. cbn. rewrite lookup_insert_eq. cbn.
    rewrite Z.leb_refl. cbn. eauto. }
  cbn [run_program]. unfold bind at 1. rewrite E. cbn [run_op lookup list_lookup]. unfold bind at 1, bind at 1, metadata_array_add.
  cbv zeta. cbn [a_count a_capacity Z.of_nat].
  rewrite (proj2 (Z.leb_le (Z.of_nat 0) cap)), (proj2 (Z.eqb_neq (Z.of_nat 0) cap)) by lia.
  unfold bind, gets, modify, ret, slice_new, set_entry, bind, gets, modify, ret. cbn [rassert ret unwrap a_metadata blocks set_slices].
  unfold bind, gets, ret. cbn [blocks set_slices]. rewrite lookup_singleton_eq. cbn [unwrap ret]. unfold in_block. cbn [b_bytes].
  by rewrite (proj2 (Z.leb_gt _ _)) by (cbn; lia).
Qed.

Example oversized_array_8_bytes :
  bytes_for 1064235235021704901 = 8%Z /\
  run_program [OpWithCapacity 1064235235021704901; OpAdd 0] [] empty_heap = Panicked "out of bounds".
Proof. vm_compute. done. Qed.
