(* ===== verification/Deadline.v ===== *)
(** Deadlines and the other facts of a request that the core keeps: [Deadline] and the getters
    of [RequestContext] and [RpcContext] in src/src/call/server.rs, the conversion of durations
    in src/grpc-sys/src/grpc_wrap.rs, and the timeout of a call in src/src/channel.rs.

    The clock of the core is a parameter, with the laws of its documentation; a point in time
    is a number of nanoseconds since the epoch. *)

From S2P Require Import Prelude Status Cq Executor Buf Utf8 Metadata Task Call ServerCall Support Env Channel.

Local Open Scope rust_scope.
Local Open Scope Z_scope.

Inductive gpr_clock_type := GPR_CLOCK_MONOTONIC | GPR_CLOCK_REALTIME | GPR_CLOCK_PRECISE | GPR_TIMESPAN.

Record gpr_timespec := mkTimespec { tv_sec : Z; tv_nsec : Z; clock_type : gpr_clock_type }.

Definition NANOS : Z := 1000000000.

(** The time or span in nanoseconds. *)
Definition nanos (s : gpr_timespec) : Z := tv_sec s * NANOS + tv_nsec s.

Definition duration_nanos (d : Duration) : Z := as_secs d * NANOS + subsec_nanos d.

(** A finite time: its seconds are strictly between the two infinities. *)
Definition finite (s : gpr_timespec) : Prop :=
  - 2 ^ 63 < tv_sec s < 2 ^ 63 - 1 /\ 0 <= tv_nsec s < NANOS.

(** [as i64] of a [u64], and [as i32] of a [u32]. *)
Definition as_i64 (x : Z) : Z := if bool_decide (x < 2 ^ 63) then x else x - 2 ^ 64.

(** [From<Duration> for gpr_timespec]; the nanoseconds of a duration are below 2^31. *)
Definition timespec_from (dur : Duration) : gpr_timespec :=
  mkTimespec (as_i64 (as_secs dur)) (subsec_nanos dur) GPR_TIMESPAN.

(** ** The clock of the core *)

Class Clock := {
  gpr_now : gpr_clock_type -> Z -> gpr_timespec;
  gpr_convert_clock_type : Z -> gpr_timespec -> gpr_clock_type -> gpr_timespec;
  gpr_time_cmp : gpr_timespec -> gpr_timespec -> Z;
  gpr_inf_future : gpr_clock_type -> gpr_timespec;
}.

(** A time is converted to its own clock by doing nothing, a span by adding it to the time of
    that clock; times of one clock are compared as numbers. *)
Class ClockLaws (C : Clock) : Prop := {
  now_realtime t : 0 <= t < 2 ^ 62 * NANOS ->
    finite (gpr_now GPR_CLOCK_REALTIME t) /\
    clock_type (gpr_now GPR_CLOCK_REALTIME t) = GPR_CLOCK_REALTIME /\
    nanos (gpr_now GPR_CLOCK_REALTIME t) = t;
  convert_same t s : gpr_convert_clock_type t s (clock_type s) = s;
  convert_span t s : clock_type s = GPR_TIMESPAN -> finite s ->
    - 2 ^ 63 < t / NANOS + tv_sec s < 2 ^ 63 - 2 ->
    finite (gpr_convert_clock_type t s GPR_CLOCK_REALTIME) /\
    clock_type (gpr_convert_clock_type t s GPR_CLOCK_REALTIME) = GPR_CLOCK_REALTIME /\
    nanos (gpr_convert_clock_type t s GPR_CLOCK_REALTIME) = t + nanos s;
  time_cmp_ge a b : clock_type a = clock_type b -> finite a -> finite b ->
    (0 <= gpr_time_cmp a b <-> nanos b <= nanos a);
}.

Lemma secs_bound t : 0 <= t < 2 ^ 62 * NANOS -> 0 <= t / NANOS < 2 ^ 62.
Proof.
  intros Ht. split; [by apply Z.div_pos; unfold NANOS; lia|].
  apply Z.div_lt_upper_bound; [by unfold NANOS; lia|]. rewrite Z.mul_comm. apply Ht.
Qed.

Section deadline.
Context `{C : Clock}.

(** ** Deadline *)

Record Deadline := mkDeadline { spec : gpr_timespec }.

Definition Deadline_new (now : Z) (s : gpr_timespec) : Deadline :=
  {| spec := gpr_convert_clock_type now s GPR_CLOCK_REALTIME |}.

Definition exceeded (now : Z) (self : Deadline) : bool :=
  bool_decide (0 <= gpr_time_cmp (gpr_now GPR_CLOCK_REALTIME now) (spec self)).

Definition Deadline_from (now : Z) (dur : Duration) : Deadline :=
  Deadline_new now (timespec_from dur).

Definition inf_future : gpr_timespec := gpr_inf_future GPR_CLOCK_REALTIME.

(** The deadline [create_call] gives to the core. *)
Definition call_timeout (timeout : option Duration) : gpr_timespec :=
  match timeout with Some dur => timespec_from dur | None => inf_future end.

(** ** Facts of a request *)

(** What the core knows of a request, by its native context or call. *)
Context (request_deadline : nat -> gpr_timespec).
Context (call_peer : nat -> list byte).
Context `{A : Auth.AuthCore}.

Definition RequestContext_deadline (now : Z) (self : RequestContext) : Deadline :=
  Deadline_new now (request_deadline (rq_call self)).

(** The copy of the string the core allocated for the peer. *)
Definition RequestContext_peer (self : RequestContext) : outcome string :=
  Auth.expect_str (call_peer (rq_call self)) "valid UTF-8 data".

Definition RequestContext_auth_context (self : RequestContext) : option Auth.grpc_auth_context :=
  Auth.from_call_ptr (rq_call self).

(** The [RpcContext] with its deadline, which is computed when it is made. *)
Record TimedContext := mkTimedContext { tc_ctx : RpcContext; tc_deadline : Deadline }.

Definition TimedContext_new (now : Z) (ctx : RequestContext) : TimedContext :=
  {| tc_ctx := RpcContext_new ctx; tc_deadline := RequestContext_deadline now ctx |}.

Definition RpcContext_deadline (self : TimedContext) : Deadline := tc_deadline self.

Definition RpcContext_peer (self : TimedContext) : outcome string :=
  RequestContext_peer (rc_ctx (tc_ctx self)).

Definition RpcContext_auth_context (self : TimedContext) : option Auth.grpc_auth_context :=
  RequestContext_auth_context (rc_ctx (tc_ctx self)).

Definition RpcContext_kicker (self : TimedContext) : nat := RpcContext_call (tc_ctx self).

(** [spawn]: the task and its first poll, and the call its wakers kick the queue with. *)
Definition RpcContext_spawn (self : TimedContext) : SpawnTask * epc * nat :=
  (spawn, RpcContext_kicker self).

(** ** Lemmas *)

Context `{L : !ClockLaws C}.

Lemma exceeded_iff now s :
  0 <= now < 2 ^ 62 * NANOS -> finite s -> clock_type s = GPR_CLOCK_REALTIME ->
  exceeded now (mkDeadline s) = bool_decide (nanos s <= now).
Proof.
  intros Hn Hs Hc. destruct (now_realtime now Hn) as (Hf & Hc' & Hv).
  unfold exceeded. cbn [spec]. apply bool_decide_ext.
  rewrite time_cmp_ge by (congruence || done). by rewrite Hv.
Qed.

Lemma span_exceeded now now' s :
  clock_type s = GPR_TIMESPAN -> finite s -> - 2 ^ 63 < now / NANOS + tv_sec s < 2 ^ 63 - 2 ->
  0 <= now' < 2 ^ 62 * NANOS ->
  exceeded now' (Deadline_new now s) = bool_decide (now + nanos s <= now').
Proof.
  intros Hs Hf Hr Hn. destruct (convert_span now s Hs Hf Hr) as (Hf' & Hc & Hv).
  unfold Deadline_new. by rewrite exceeded_iff, Hv.
Qed.

(** The deadline made from a duration is the current time plus the duration: it is
    exceeded exactly from that time on, for every duration of less than 2^61 seconds. *)
Theorem deadline_from_duration dur now now' :
  duration_wf dur -> as_secs dur < 2 ^ 61 ->
  0 <= now < 2 ^ 62 * NANOS -> 0 <= now' < 2 ^ 62 * NANOS ->
  exceeded now' (Deadline_from now dur) = bool_decide (now + duration_nanos dur <= now').
Proof.
  intros [Hd1 Hd2] Hd3 Hn Hn'. unfold Deadline_from, timespec_from, as_i64.
  rewrite bool_decide_true by lia.
  pose proof (secs_bound now Hn).
  rewrite span_exceeded; [done|done| | |done]; [split|]; cbn [tv_sec tv_nsec]; unfold NANOS in *; lia.
Qed.

(** A duration of more than 2^63 seconds, such as [Duration::MAX], is read as a negative
    span, and the deadline made from it is exceeded at once. *)
Theorem huge_duration_expired dur now :
  duration_wf dur -> 2 ^ 63 < as_secs dur -> 0 <= now < 2 ^ 62 * NANOS ->
  exceeded now (Deadline_from now dur) = true.
Proof.
  intros [Hd1 Hd2] Hd3 Hn. unfold Deadline_from, timespec_from, as_i64, U64 in *.
  rewrite bool_decide_false by lia.
  pose proof (secs_bound now Hn).
  rewrite span_exceeded; [|done| | |done]; cbn [tv_sec tv_nsec].
  - apply bool_decide_eq_true. unfold nanos. cbn. unfold NANOS. lia.
  - split; cbn; unfold NANOS; lia.
  - lia.
Qed.
End deadline.

(** A clock that counts nanoseconds. *)
#[export] Instance plain_clock : Clock := {|
  gpr_now ct t := mkTimespec (t / NANOS) (t mod NANOS) ct;
  gpr_convert_clock_type t s ct :=
    match clock_type s, ct with
    | GPR_TIMESPAN, GPR_TIMESPAN => s
    | GPR_TIMESPAN, _ => mkTimespec ((t + nanos s) / NANOS) ((t + nanos s) mod NANOS) ct
    | _, _ => s
    end;
  gpr_time_cmp a b := Z.sgn (nanos a - nanos b);
  gpr_inf_future ct := mkTimespec (2 ^ 63 - 1) 0 ct;
|}.

#[export] Instance plain_clock_laws : ClockLaws plain_clock.
Proof.
  assert (forall x, x / NANOS * NANOS + x mod NANOS = x) as Hdm.
  { intros x. rewrite Z.mul_comm. symmetry. by apply Z.div_mod. }
  assert (forall x, 0 <= x mod NANOS < NANOS) as Hm by (intros x; by apply Z.mod_pos_bound).
  split.
  - intros t Ht. split_and!; [|done|apply Hdm]. split; cbn; [|apply Hm].
    pose proof (secs_bound t Ht). lia.
  - intros t s. cbn. by destruct (clock_type s).
  - intros t s Hs [Hf1 Hf2] Hr. cbn. rewrite Hs. split_and!; [|done|apply Hdm].
    split; cbn; [|apply Hm]. unfold nanos. pose proof (Hdm t). pose proof (Hm t).
    replace (t + (tv_sec s * NANOS + tv_nsec s))
      with ((t mod NANOS + tv_nsec s) + (t / NANOS + tv_sec s) * NANOS) by lia.
    rewrite Z.div_add by done.
    assert (0 <= (t mod NANOS + tv_nsec s) / NANOS <= 1); [|lia].
    split; [apply Z.div_pos; lia|]. apply Z.lt_succ_r, Z.div_lt_upper_bound; lia.
  - intros a b _ _ _. cbn. rewrite Z.sgn_nonneg. lia.
Qed.

Lemma deadline_from_duration_witness :
  exceeded (7 * NANOS) (Deadline_from (5 * NANOS) (mkDuration 2 0)) = true /\
  exceeded (7 * NANOS) (Deadline_from (5 * NANOS) (mkDuration 2 1)) = false.
Proof.
  split.
  - apply (deadline_from_duration (mkDuration 2 0) (5 * NANOS) (7 * NANOS)); unfold duration_wf, NANOS, U64;
      cbn; lia.
  - apply (deadline_from_duration (mkDuration 2 1) (5 * NANOS) (7 * NANOS)); unfold duration_wf, NANOS, U64;
      cbn; lia.
Defined.
