(* ===== verification/Health.v ===== *)
(** The health service (health/src/service.rs): the versioned status of a service with its
    subscribers, under every interleaving of updates and polls, and the service on top. *)

From S2P Require Import Prelude Status Task.

Local Open Scope rust_scope.

(** ** Versioned states *)

(** [ServingStatus] of the generated protocol. *)
Inductive ServingStatus := Unknown | Serving | NotServing | ServiceUnknown.

#[export] Instance ServingStatus_eq_dec : EqDecision ServingStatus.
Proof. solve_decision. Defined.

Definition status_as_usize (s : ServingStatus) : Z :=
  match s with Unknown => 0 | Serving => 1 | NotServing => 2 | ServiceUnknown => 3 end.

Definition ServingStatus_from_i32 (x : Z) : option ServingStatus :=
  if bool_decide (x = 0)%Z then Some Unknown
  else if bool_decide (x = 1)%Z then Some Serving
  else if bool_decide (x = 2)%Z then Some NotServing
  else if bool_decide (x = 3)%Z then Some ServiceUnknown
  else None.

Definition VERSION_STEP : Z := 8.
Definition STATUS_MASK : Z := 7.

Definition state_to_status (state : Z) : outcome ServingStatus :=
  match ServingStatus_from_i32 (Z.land state STATUS_MASK) with
  | Some s => Done s
  | None => Panicked "called `Option::unwrap()` on a `None` value"
  end.

(** [!x] of a [usize]. *)
Definition not_usize (x : Z) : Z := U64 - 1 - x.

(** The state [StatusCast::new] starts with, and the one [broadcast] stores. *)
Definition first_state (status : ServingStatus) : Z := Z.lor VERSION_STEP (status_as_usize status).

Definition next_state (checks : bool) (state : Z) (status : ServingStatus) : outcome Z :=
  let+ sum := checked_u checks U64 (state + VERSION_STEP) in
  Done (Z.lor (Z.land sum (not_usize STATUS_MASK)) (status_as_usize status)).

(** ** One cast and its subscribers, step by step *)

(** [StatusCast]: the state and the wakers of the subscribers by id. *)
Record StatusCast := mkCast { state : Z; subscribers : gmap nat Waker }.

Definition StatusCast_new (status : ServingStatus) : StatusCast := mkCast (first_state status) ∅.

(** What a step does with the lock of the subscribers. *)
Inductive LockOp := Keep | Acquire | Release.

(** Where a call of [broadcast] stands. *)
Inductive bpc :=
| BIdle
| BLock (status : ServingStatus)
| BLoad (status : ServingStatus)
| BStore (status : ServingStatus) (loaded : Z)
| BDrain
| BUnlock.

(** One access of [broadcast]: the new place, the cast, the lock, and who is woken. *)
Definition broadcast_step (p : bpc) (c : StatusCast) : outcome (bpc * StatusCast * LockOp * list Waker) :=
  match p with
  | BIdle => Done (BIdle, c, Keep, [])
  | BLock status => Done (BLoad status, c, Acquire, [])
  | BLoad status => Done (BStore status (state c), c, Keep, [])
  | BStore status loaded =>
      let+ new_state := next_state true loaded status in
      Done (BDrain, mkCast new_state (subscribers c), Keep, [])
  | BDrain => Done (BUnlock, mkCast (state c) ∅, Keep, (map_to_list (subscribers c)).*2)
  | BUnlock => Done (BIdle, c, Release, [])
  end.

(** Where a call of [poll_next] or of [drop] of a subscriber stands. *)
Inductive spc :=
| SIdle
| SLoad1
| SLock
| SLoad2
| SRegister
| SUnlock (result : option Z)
| SDropLock
| SDropRemove
| SDropUnlock
| SDropped.

(** [StatusSubscriber] and the task that polls it: the waker of its latest poll, whether
    that poll returned [Pending], whether the task was woken since, and the states it was
    given. *)
Record Subscriber := mkSub {
  last_state : Z;
  sub_cx : Waker;
  sub_pc : spc;
  parked : bool;
  woken : bool;
  seen : list Z;
}.

(** [StatusSubscriber::new]. *)
Definition StatusSubscriber_new : Subscriber := mkSub 0 0 SIdle false false [].

(** A poll returns a status. *)
Definition give (s : Subscriber) (cur : Z) (p : spc) : Subscriber :=
  mkSub cur (sub_cx s) p false (woken s) (seen s ++ [cur]).

Definition set_pc (s : Subscriber) (p : spc) : Subscriber :=
  mkSub (last_state s) (sub_cx s) p (parked s) (woken s) (seen s).

Definition set_parked (s : Subscriber) : Subscriber :=
  mkSub (last_state s) (sub_cx s) SIdle true (woken s) (seen s).

(** The entry a pending poll leaves: kept if it wakes the same task. *)
Definition register (id : nat) (cx : Waker) (subs : gmap nat Waker) : gmap nat Waker :=
  match subs !! id with
  | Some w => if bool_decide (w = cx) then subs else <[id := cx]> subs
  | None => <[id := cx]> subs
  end.

(** One access of [poll_next] or [drop]. *)
Definition subscriber_step (id : nat) (s : Subscriber) (c : StatusCast) :
    Subscriber * StatusCast * LockOp :=
  match sub_pc s with
  | SIdle | SDropped => (s, c, Keep)
  | SLoad1 =>
      let cur_state := state c in
      if bool_decide (cur_state <> last_state s) then (give s cur_state SIdle, c, Keep)
      else (set_pc s SLock, c, Keep)
  | SLock => (set_pc s SLoad2, c, Acquire)
  | SLoad2 =>
      let cur_state := state c in
      if bool_decide (cur_state <> last_state s) then (set_pc s (SUnlock (Some cur_state)), c, Keep)
      else (set_pc s SRegister, c, Keep)
  | SRegister =>
      (set_pc s (SUnlock None), mkCast (state c) (register id (sub_cx s) (subscribers c)), Keep)
  | SUnlock (Some cur) => (give s cur SIdle, c, Release)
  | SUnlock None => (set_parked s, c, Release)
  | SDropLock => (set_pc s SDropRemove, c, Acquire)
  | SDropRemove => (set_pc s SDropUnlock, mkCast (state c) (delete id (subscribers c)), Keep)
  | SDropUnlock => (set_pc s SDropped, c, Release)
  end.

(** Who holds the lock. *)
Inductive Holder := ByBroadcast (i : nat) | BySubscriber (i : nat).

(** A cast, the calls of [broadcast], the subscribers by id, and the states it had. *)
Record CastSys := mkCastSys {
  cast : StatusCast;
  lock : option Holder;
  casters : list bpc;
  subs : list Subscriber;
  published : list Z;
}.

Definition apply_lock (h : Holder) (op : LockOp) (l : option Holder) : option (option Holder) :=
  match op, l with
  | Keep, _ => Some l
  | Acquire, None => Some (Some h)
  | Acquire, Some _ => None
  | Release, _ => Some None
  end.

(** Waking a task. *)
Definition wake (ws : list Waker) (s : Subscriber) : Subscriber :=
  mkSub (last_state s) (sub_cx s) (sub_pc s) (parked s)
    (woken s || bool_decide (sub_cx s ∈ ws)) (seen s).

Definition stores (p : bpc) : bool := match p with BStore _ _ => true | _ => false end.

Inductive CStep : CastSys -> CastSys -> Prop :=
| CBroadcast c l ps ss pub i status :
    ps !! i = Some BIdle ->
    CStep (mkCastSys c l ps ss pub) (mkCastSys c l (<[i := BLock status]> ps) ss pub)
| CRun c l ps ss pub i p p' c' op ws l' :
    ps !! i = Some p -> broadcast_step p c = Done (p', c', op, ws) ->
    apply_lock (ByBroadcast i) op l = Some l' ->
    CStep (mkCastSys c l ps ss pub)
      (mkCastSys c' l' (<[i := p']> ps) (wake ws <$> ss)
         (if stores p then pub ++ [state c'] else pub))
| CPoll c l ps ss pub id s cx :
    ss !! id = Some s -> sub_pc s = SIdle ->
    CStep (mkCastSys c l ps ss pub)
      (mkCastSys c l ps (<[id := mkSub (last_state s) cx SLoad1 false false (seen s)]> ss) pub)
| CDrop c l ps ss pub id s :
    ss !! id = Some s -> sub_pc s = SIdle ->
    CStep (mkCastSys c l ps ss pub)
      (mkCastSys c l ps (<[id := set_pc s SDropLock]> ss) pub)
| CSub c l ps ss pub id s s' c' op l' :
    ss !! id = Some s -> subscriber_step id s c = (s', c', op) ->
    apply_lock (BySubscriber id) op l = Some l' ->
    CStep (mkCastSys c l ps ss pub) (mkCastSys c' l' ps (<[id := s']> ss) pub).

Definition CInit (x : CastSys) : Prop :=
  exists status n m, x = mkCastSys (StatusCast_new status) None (replicate n BIdle)
    (replicate m StatusSubscriber_new) [first_state status].

(** ** Lemmas on states *)

Lemma clear_mask x : (0 <= x < U64)%Z -> Z.land x (not_usize STATUS_MASK) = (8 * (x / 8))%Z.
Proof.
  intros Hx. replace (8 * (x / 8))%Z with (Z.ldiff x (Z.ones 3)).
  2: { rewrite Z.ldiff_ones_r, Z.shiftl_mul_pow2, Z.shiftr_div_pow2 by lia. change (2 ^ 3)%Z with 8%Z. lia. }
  replace (not_usize STATUS_MASK) with (Z.ldiff (Z.ones 64) (Z.ones 3)) by reflexivity.
  rewrite <-(Z.mod_small x (2 ^ 64)) at 2 by done. rewrite <-Z.land_ones by lia.
  apply Z.bits_inj'. intros n Hn.
  rewrite !Z.land_spec, !Z.ldiff_spec, Z.land_spec. by rewrite andb_assoc.
Qed.

Lemma lor_status k status : Z.lor (8 * k) (status_as_usize status) = (8 * k + status_as_usize status)%Z.
Proof.
  assert (Z.land (8 * k) (status_as_usize status) = 0%Z) as H.
  { apply Z.bits_inj'. intros n Hn. rewrite Z.land_spec, Z.bits_0.
    replace (8 * k)%Z with (Z.shiftl k 3) by (rewrite Z.shiftl_mul_pow2; lia).
    destruct (decide (n < 3)%Z).
    - by rewrite Z.shiftl_spec_low by lia.
    - rewrite (Z.bits_above_log2 (status_as_usize status)), andb_false_r;
        [done|by destruct status|]. apply (Z.le_lt_trans _ 1); [by destruct status|lia]. }
  by rewrite Z.add_nocarry_lxor, Z.lxor_lor.
Qed.

Lemma first_state_eq status : first_state status = (8 + status_as_usize status)%Z.
Proof. apply (lor_status 1). Qed.

Lemma next_state_eq state status z :
  (0 <= state)%Z -> next_state true state status = Done z ->
  z = (8 * (state / 8 + 1) + status_as_usize status)%Z.
Proof.
  intros H0 E. unfold next_state, checked_u, obind in E. case_bool_decide as Hb; [|done].
  injection E as <-. rewrite clear_mask, lor_status by done. unfold VERSION_STEP.
  replace (state + 8)%Z with (state + 1 * 8)%Z by lia. rewrite Z.div_add by lia. lia.
Qed.

Lemma state_to_status_eq k status :
  state_to_status (8 * k + status_as_usize status) = Done status.
Proof.
  unfold state_to_status, STATUS_MASK. change 7%Z with (Z.ones 3). rewrite Z.land_ones by lia.
  replace ((8 * k + status_as_usize status) `mod` 2 ^ 3)%Z with (status_as_usize status).
  - by destruct status.
  - rewrite Z.add_comm, Z.mul_comm. rewrite Z.mod_add by lia. by destruct status.
Qed.

(** A published state: a positive version and a status. *)
Definition state_ok (z : Z) : Prop :=
  exists k status, (0 < k)%Z /\ z = (8 * k + status_as_usize status)%Z.

Lemma first_state_ok status : state_ok (first_state status).
Proof. exists 1%Z, status. split; [lia|apply first_state_eq]. Qed.

(** A broadcast publishes a larger state with the status it was given. *)
Lemma next_state_ok state status z :
  state_ok state -> next_state true state status = Done z ->
  state_ok z /\ (state < z)%Z /\ state_to_status z = Done status.
Proof.
  intros (k & st & Hk & ->) E.
  assert (0 <= status_as_usize st < 8)%Z as Hst by (by destruct st).
  apply next_state_eq in E; [|lia]. subst z.
  replace ((8 * k + status_as_usize st) / 8)%Z with k.
  2: { rewrite Z.add_comm, Z.mul_comm, Z.div_add, Z.div_small by lia. lia. }
  split; [exists (k + 1)%Z, status; split; [lia|done]|].
  split; [destruct status, st; simpl; lia|apply state_to_status_eq].
Qed.

Lemma state_ok_status z : state_ok z -> exists status, state_to_status z = Done status.
Proof. intros (k & st & _ & ->). exists st. apply state_to_status_eq. Qed.

(** Strictly increasing lists. *)
Inductive increasing : list Z -> Prop :=
| increasing_nil : increasing []
| increasing_snoc l x : increasing l -> Forall (fun y => y < x)%Z l -> increasing (l ++ [x]).

Lemma increasing_last l x : increasing l -> last l = Some x -> Forall (fun y => y <= x)%Z l.
Proof.
  destruct 1 as [|l' y Hi HF]; [done|]. rewrite last_snoc. intros [= ->].
  apply Forall_app. split; [|by constructor].
  eapply Forall_impl; [exact HF|]. simpl. lia.
Qed.

(** ** The invariant *)

Definition b_holds (p : bpc) : bool :=
  match p with BLoad _ | BStore _ _ | BDrain | BUnlock => true | _ => false end.

Definition s_holds (p : spc) : bool :=
  match p with SLoad2 | SRegister | SUnlock _ | SDropRemove | SDropUnlock => true | _ => false end.

Definition draining (ps : list bpc) : Prop := exists k, ps !! k = Some BDrain.

(** What holds of a subscriber, by where it stands. *)
Definition place_ok (c : StatusCast) (dr : Prop) (id : nat) (s : Subscriber) : Prop :=
  match sub_pc s with
  | SIdle =>
      parked s = true -> woken s = true \/
        (subscribers c !! id = Some (sub_cx s) /\ (last_state s = state c \/ dr))
  | SRegister => last_state s = state c
  | SUnlock None => last_state s = state c /\ subscribers c !! id = Some (sub_cx s)
  | SUnlock (Some z) => z = state c /\ z <> last_state s
  | _ => True
  end.

Definition seen_ok (pub : list Z) (s : Subscriber) : Prop :=
  last_state s = default 0%Z (last (seen s)) /\ increasing (seen s) /\
  Forall (fun z => z ∈ pub) (seen s).

Record CInv (x : CastSys) : Prop := {
  inv_b : forall i p, casters x !! i = Some p ->
    (b_holds p = true <-> lock x = Some (ByBroadcast i)) /\
    (forall status z, p = BStore status z -> z = state (cast x));
  inv_s : forall id s, subs x !! id = Some s ->
    s_holds (sub_pc s) = true <-> lock x = Some (BySubscriber id);
  inv_pub : increasing (published x) /\ last (published x) = Some (state (cast x)) /\
    Forall state_ok (published x);
  inv_place : forall id s, subs x !! id = Some s ->
    place_ok (cast x) (draining (casters x)) id s;
  inv_seen : forall id s, subs x !! id = Some s -> seen_ok (published x) s;
}.

Lemma CInit_CInv x : CInit x -> CInv x.
Proof.
  intros (status & n & m & ->). constructor; simpl.
  - intros i p Hp. apply lookup_replicate in Hp as [-> _]. done.
  - intros id s Hs. apply lookup_replicate in Hs as [-> _]. done.
  - split; [apply (increasing_snoc []); constructor|]. split; [done|].
    repeat constructor. apply first_state_ok.
  - intros id s Hs. apply lookup_replicate in Hs as [-> _]. done.
  - intros id s Hs. apply lookup_replicate in Hs as [-> _]. repeat split; constructor.
Qed.

Lemma last_elem (l : list Z) x : last l = Some x -> x ∈ l.
Proof. rewrite last_lookup. apply list_elem_of_lookup_2. Qed.

(** A poll that returns the current state adds it to what was seen. *)
Lemma give_seen_ok pub s cur p : increasing pub -> last pub = Some cur ->
  cur <> last_state s -> (0 < cur)%Z -> seen_ok pub s -> seen_ok pub (give s cur p).
Proof.
  intros Hi Hl Hne Hpos (Hlast & Hinc & Hin). split; simpl; [by rewrite last_snoc|].
  assert (cur ∈ pub) as Hcur by (by apply last_elem).
  split; [|apply Forall_app; split; [done|by constructor]].
  constructor; [done|]. destruct (last (seen s)) as [z|] eqn:E.
  - simpl in Hlast. apply (increasing_last _ _ Hinc) in E as Hle.
    assert (z ∈ pub) as Hz.
    { rewrite Forall_forall in Hin. apply Hin. by apply last_elem. }
    apply (increasing_last _ _ Hi) in Hl. rewrite Forall_forall in Hl. specialize (Hl z Hz).
    eapply Forall_impl; [exact Hle|]. simpl. lia.
  - apply last_None in E. rewrite E. constructor.
Qed.

Lemma wake_nil s : wake [] s = s.
Proof. destruct s. unfold wake. simpl. by rewrite orb_false_r. Qed.

Lemma wake_seen_ok pub ws s : seen_ok pub s -> seen_ok pub (wake ws s).
Proof. done. Qed.

Lemma register_lookup id cx m :
  register id cx m !! id = Some cx /\ (forall id', id' <> id -> register id cx m !! id' = m !! id').
Proof.
  unfold register. destruct (m !! id) as [w|] eqn:E; [case_bool_decide|]; subst;
    split; intros; rewrite ?lookup_insert_eq, ?lookup_insert_ne; done.
Qed.

(** The lock after a step, by who made it. *)
Lemma apply_lock_cases h op l l' : apply_lock h op l = Some l' ->
  match op with Keep => l' = l | Acquire => l = None /\ l' = Some h | Release => l' = None end.
Proof. destruct op, l; simpl; intros; simplify_eq; done. Qed.

(** A step of one holder does not change whether another one holds the lock. *)
Lemma lock_others h h' op l l' : apply_lock h op l = Some l' -> (op = Release -> l = Some h) ->
  h <> h' -> (l = Some h' <-> l' = Some h').
Proof.
  intros Hl Hr Hne. apply apply_lock_cases in Hl. destruct op; simpl in *.
  - by subst.
  - destruct Hl as [-> ->]. split; congruence.
  - subst. rewrite Hr by done. split; congruence.
Qed.

Lemma lock_own h op l l' (b : bool) : apply_lock h op l = Some l' -> (b = true <-> l = Some h) ->
  (match op with Keep => b | Acquire => true | Release => false end = true <-> l' = Some h).
Proof.
  intros Hl Hb. apply apply_lock_cases in Hl. destruct op; simpl in *.
  - by subst.
  - by destruct Hl as [_ ->].
  - by subst.
Qed.

(** How [broadcast] uses the lock and the state. *)
Lemma broadcast_step_effect p c p' c' op ws : broadcast_step p c = Done (p', c', op, ws) ->
  b_holds p' = match op with Keep => b_holds p | Acquire => true | Release => false end /\
  (op = Release -> b_holds p = true) /\
  (stores p = false -> state c' = state c) /\
  (forall status z, p' = BStore status z -> z = state c').
Proof.
  destruct p; simpl; intros E; try (injection E as <- <- <- <-; simpl;
    repeat split; intros; simplify_eq; done).
  unfold obind in E. destruct (next_state true loaded status); [|done].
  injection E as <- <- <- <-. done.
Qed.

(** A broadcast keeps what holds of each subscriber: a store leaves registered ones to the
    drain that follows, and the drain wakes them. *)
Lemma broadcast_place_ok i p c p' c' op ws ps id s :
  ps !! i = Some p -> broadcast_step p c = Done (p', c', op, ws) ->
  (b_holds p = true -> s_holds (sub_pc s) = false) ->
  place_ok c (draining ps) id s ->
  place_ok c' (draining (<[i := p']> ps)) id (wake ws s).
Proof.
  intros Hi E Hh Hs.
  assert (p <> BDrain -> draining ps -> draining (<[i := p']> ps)) as Hdr.
  { intros Hp [k Hk]. exists k. rewrite list_lookup_insert_ne; [done|]. intros ->. congruence. }
  destruct p as [|status|status|status z| |]; simpl in E, Hh.
  4: { unfold obind in E. destruct (next_state true z status) as [n|]; [|done].
       injection E as <- <- <- <-. rewrite wake_nil. specialize (Hh eq_refl).
       unfold place_ok in *. destruct (sub_pc s) as [| | | | |[]| | | |]; try done. simpl.
       intros Hp. destruct (Hs Hp) as [?|[? _]]; [by left|]. right. split; [done|]. right.
       exists i. apply list_lookup_insert_eq. by eapply lookup_lt_Some. }
  4: { injection E as <- <- <- <-. specialize (Hh eq_refl).
       unfold place_ok in *. destruct (sub_pc s) as [| | | | |[]| | | |] eqn:Hpc; try done;
         unfold wake; simpl; rewrite Hpc; try done.
       intros Hp. left. destruct (Hs Hp) as [Hw|[Hin _]]; [by rewrite Hw|].
       apply orb_true_iff. right. apply bool_decide_eq_true. apply list_elem_of_fmap.
       exists (id, sub_cx s). split; [done|]. by apply elem_of_map_to_list. }
  all: injection E as <- <- <- <-; rewrite wake_nil; unfold place_ok in *;
    destruct (sub_pc s) as [| | | | |[]| | | |]; try done; intros Hp;
    destruct (Hs Hp) as [?|[? [?|?]]]; auto.
Qed.

Lemma CRun_CInv c l ps ss pub i p p' c' op ws l' :
  ps !! i = Some p -> broadcast_step p c = Done (p', c', op, ws) ->
  apply_lock (ByBroadcast i) op l = Some l' ->
  CInv (mkCastSys c l ps ss pub) ->
  CInv (mkCastSys c' l' (<[i := p']> ps) (wake ws <$> ss)
          (if stores p then pub ++ [state c'] else pub)).
Proof.
  intros Hi E Hl [Hb Hs [Hp1 [Hp2 Hp3]] Hpl Hse]. simpl in *.
  destruct (Hb i p Hi) as [Hbi Hbz].
  destruct (broadcast_step_effect _ _ _ _ _ _ E) as (Hh' & Hrel & Hst & Hz).
  assert (op = Release -> l = Some (ByBroadcast i)) as Hr by (intros; apply Hbi; auto).
  constructor; simpl.
  - intros j q Hq. apply list_lookup_insert_Some in Hq as [(-> & <- & _)|[Hne Hq]].
    + rewrite Hh'. split; [by apply lock_own with (l := l)|done].
    + destruct (Hb j q Hq) as [Hbj Hbjz]. rewrite Hbj.
      split; [by apply (lock_others _ _ _ _ _ Hl Hr); congruence|].
      intros status z ->. rewrite (Hbjz _ _ eq_refl). symmetry. apply Hst.
      destruct (stores p) eqn:Esp; [|done]. assert (l = Some (ByBroadcast i)) by (apply Hbi; by destruct p).
      assert (l = Some (ByBroadcast j)) by (by apply Hbj). congruence.
  - intros id s Hin. rewrite list_lookup_fmap in Hin; apply fmap_Some in Hin as (s0 & Hs0 & ->). simpl.
    rewrite (Hs id s0 Hs0). by apply (lock_others _ _ _ _ _ Hl Hr).
  - destruct (stores p) eqn:Esp; [|by rewrite Hst].
    destruct p as [| | |status z| |]; try done. simpl in E. unfold obind in E.
    destruct (next_state true z status) as [n|] eqn:En; [|done]. injection E as <- <- <- <-.
    rewrite (Hbz _ _ eq_refl) in En.
    assert (state_ok (state c)) as Hc.
    { rewrite Forall_forall in Hp3. apply Hp3. by apply last_elem. }
    destruct (next_state_ok _ _ _ Hc En) as (Hn & Hlt & _). simpl. split.
    + constructor; [done|]. eapply Forall_impl; [by eapply increasing_last|]. simpl. lia.
    + split; [by rewrite last_snoc|]. apply Forall_app. split; [done|by constructor].
  - intros id s Hin. rewrite list_lookup_fmap in Hin; apply fmap_Some in Hin as (s0 & Hs0 & ->).
    eapply broadcast_place_ok; eauto. intros Hbp. apply Hbi in Hbp.
    destruct (s_holds (sub_pc s0)) eqn:Eh; [|done]. apply (Hs _ _ Hs0) in Eh. congruence.
  - intros id s Hin. rewrite list_lookup_fmap in Hin; apply fmap_Some in Hin as (s0 & Hs0 & ->).
    apply wake_seen_ok. destruct (Hse id s0 Hs0) as (H1 & H2 & H3). split; [done|]. split; [done|].
    destruct (stores p); [|done]. eapply Forall_impl; [exact H3|]. intros z Hin. simpl.
    apply elem_of_app. by left.
Qed.

(** How a subscriber uses the lock and the cast. *)
Lemma subscriber_step_effect id s c s' c' op : subscriber_step id s c = (s', c', op) ->
  s_holds (sub_pc s') = match op with Keep => s_holds (sub_pc s) | Acquire => true | Release => false end /\
  (op = Release -> s_holds (sub_pc s) = true) /\
  state c' = state c /\
  (forall id', id' <> id -> subscribers c' !! id' = subscribers c !! id').
Proof.
  destruct (register_lookup id (sub_cx s) (subscribers c)) as [_ Hreg].
  unfold subscriber_step. intros E.
  destruct (sub_pc s) as [| | | | |[]| | | |] eqn:Hpc; try case_bool_decide;
    injection E as <- <- <-; simpl; rewrite ?Hpc; repeat split; auto; try done.
  intros id' Hne. by rewrite lookup_delete_ne.
Qed.

(** The subscriber that made the step is where it should be, and saw what it should. *)
Lemma subscriber_step_ok id s c s' c' op dr pub :
  subscriber_step id s c = (s', c', op) ->
  increasing pub -> last pub = Some (state c) -> (0 < state c)%Z ->
  place_ok c dr id s -> seen_ok pub s -> place_ok c' dr id s' /\ seen_ok pub s'.
Proof.
  intros E Hi Hl H0 Hp Hse. unfold subscriber_step in E. unfold place_ok in Hp.
  destruct (sub_pc s) as [| | | | |[z|]| | | |] eqn:Hpc; try case_bool_decide as Hc;
    injection E as <- <- <-; unfold place_ok; simpl; rewrite ?Hpc; (split; [try done|]); try done.
  - by apply give_seen_ok.
  - split; [done|]. apply register_lookup.
  - destruct Hp as [-> Hne]. by apply give_seen_ok.
  - intros _. destruct Hp as [? ?]. right. auto.
Qed.

Lemma place_ok_frame c c' dr id s :
  state c' = state c -> subscribers c' !! id = subscribers c !! id ->
  place_ok c dr id s -> place_ok c' dr id s.
Proof.
  intros Hst Hsub. unfold place_ok. rewrite Hst, Hsub. done.
Qed.

Lemma CSub_CInv c l ps ss pub id s s' c' op l' :
  ss !! id = Some s -> subscriber_step id s c = (s', c', op) ->
  apply_lock (BySubscriber id) op l = Some l' ->
  CInv (mkCastSys c l ps ss pub) -> CInv (mkCastSys c' l' ps (<[id := s']> ss) pub).
Proof.
  intros Hid E Hl [Hb Hs [Hp1 [Hp2 Hp3]] Hpl Hse]. simpl in *.
  destruct (subscriber_step_effect _ _ _ _ _ _ E) as (Hh' & Hrel & Hst & Hsub).
  assert (op = Release -> l = Some (BySubscriber id)) as Hr by (intros; apply (Hs id s Hid); auto).
  assert (state_ok (state c)) as Hc.
  { rewrite Forall_forall in Hp3. apply Hp3. by apply last_elem. }
  assert (0 < state c)%Z as Hpos by (destruct Hc as (k & st & ? & ->); destruct st; simpl; lia).
  destruct (subscriber_step_ok _ _ _ _ _ _ (draining ps) pub E Hp1 Hp2 Hpos (Hpl _ _ Hid) (Hse _ _ Hid))
    as [Hpl' Hse'].
  constructor; simpl.
  - intros j q Hq. destruct (Hb j q Hq) as [Hbj Hbz]. rewrite Hst. split; [|done].
    rewrite Hbj. by apply (lock_others _ _ _ _ _ Hl Hr).
  - intros j q Hq. apply list_lookup_insert_Some in Hq as [(<- & <- & _)|[Hne Hq]].
    + rewrite Hh'. apply lock_own with (l := l); [done|]. by apply Hs.
    + rewrite (Hs j q Hq). apply (lock_others _ _ _ _ _ Hl Hr). congruence.
  - by rewrite Hst.
  - intros j q Hq. apply list_lookup_insert_Some in Hq as [(<- & <- & _)|[Hne Hq]]; [done|].
    apply (place_ok_frame c); auto.
  - intros j q Hq. apply list_lookup_insert_Some in Hq as [(<- & <- & _)|[Hne Hq]]; eauto.
Qed.

(** A subscriber changes place without an access. *)
Lemma CMove_CInv c l ps ss pub id s s' :
  ss !! id = Some s -> s_holds (sub_pc s) = false -> s_holds (sub_pc s') = false ->
  seen s' = seen s -> last_state s' = last_state s ->
  place_ok c (draining ps) id s' ->
  CInv (mkCastSys c l ps ss pub) -> CInv (mkCastSys c l ps (<[id := s']> ss) pub).
Proof.
  intros Hid Hh Hh' Hseen Hlast Hpl' [Hb Hs Hp Hpl Hse]. simpl in *. constructor; simpl; auto.
  - intros j q Hq. apply list_lookup_insert_Some in Hq as [(<- & <- & _)|[Hne Hq]]; auto.
    rewrite Hh', <-Hh. by apply Hs.
  - intros j q Hq. apply list_lookup_insert_Some in Hq as [(<- & <- & _)|[Hne Hq]]; auto.
  - intros j q Hq. apply list_lookup_insert_Some in Hq as [(<- & <- & _)|[Hne Hq]]; [|by eauto].
    unfold seen_ok. rewrite Hseen, Hlast. by apply (Hse id).
Qed.

Lemma CStep_CInv x x' : CInv x -> CStep x x' -> CInv x'.
Proof.
  intros HI Hst. destruct Hst as
    [c l ps ss pub i status Hi|c l ps ss pub i p p' c' op ws l' Hi E Hl
    |c l ps ss pub id s cx Hid Hpc|c l ps ss pub id s Hid Hpc|c l ps ss pub id s s' c' op l' Hid E Hl].
  - destruct HI as [Hb Hs Hp Hpl Hse]. simpl in *. constructor; simpl; auto.
    + intros j q Hq. apply list_lookup_insert_Some in Hq as [(<- & <- & _)|[Hne Hq]]; [|by apply Hb].
      destruct (Hb i BIdle Hi) as [H _]. done.
    + intros id s Hid. specialize (Hpl id s Hid). unfold place_ok in *.
      destruct (sub_pc s) as [| | | | |[]| | | |]; try done. intros Hpk.
      destruct (Hpl Hpk) as [?|[? [?|[k Hk]]]]; auto. right. split; [done|]. right. exists k.
      rewrite list_lookup_insert_ne; [done|]. intros ->. congruence.
  - by eapply CRun_CInv.
  - eapply CMove_CInv; eauto; simpl; [by rewrite Hpc|done].
  - eapply CMove_CInv; eauto; simpl; [by rewrite Hpc|done].
  - by eapply CSub_CInv.
Qed.

Lemma reachable_CInv x : reachable CStep CInit x -> CInv x.
Proof. apply reachable_inv; [apply CInit_CInv|]. intros; by eapply CStep_CInv. Qed.

(** C15: no status is lost: in every state reachable by broadcasts, polls and drops in any
    interleaving, a subscriber has been given published states only, each once and in
    the order they were published; and when its last poll returned [Pending], its task
    was not woken since and no broadcast is between its store and its wake-ups, the last
    status it was given is the current one. *)
Theorem health_no_lost_status (x : CastSys) (id : nat) (s : Subscriber) :
  reachable CStep CInit x -> subs x !! id = Some s ->
  increasing (seen s) /\ Forall (fun z => z ∈ published x) (seen s) /\
  Forall (fun z => exists status, state_to_status z = Done status) (seen s) /\
  (sub_pc s = SIdle -> parked s = true -> woken s = false -> ~ draining (casters x) ->
     last (seen s) = Some (state (cast x))).
Proof.
  intros Hr Hs. destruct (reachable_CInv x Hr) as [_ _ (Hi & Hl & Hok) Hpl Hse].
  destruct (Hse id s Hs) as (Hlast & Hinc & Hin). split; [done|]. split; [done|]. split.
  { eapply Forall_impl; [exact Hin|]. intros z Hz. rewrite Forall_forall in Hok.
    by apply state_ok_status, Hok. }
  intros Hpc Hpk Hw Hdr. specialize (Hpl id s Hs). unfold place_ok in Hpl. rewrite Hpc in Hpl.
  destruct (Hpl Hpk) as [?|[_ [Hls|?]]]; [congruence| |done].
  rewrite Hlast in Hls. destruct (last (seen s)) as [z|]; simpl in Hls; [by subst|].
  assert (state_ok (state (cast x))) as (k & st & Hk & E).
  { rewrite Forall_forall in Hok. apply Hok. by apply last_elem. }
  destruct st; simpl in E; lia.
Qed.

(** ** The service *)

(** A call of [broadcast] without interference. *)
Definition broadcast (c : StatusCast) (status : ServingStatus) : outcome (StatusCast * list Waker) :=
  let+ new_state := next_state true (state c) status in
  Done (mkCast new_state ∅, (map_to_list (subscribers c)).*2).

(** A call of [poll_next] without interference. *)
Definition poll_next (cx : Waker) (id : nat) (last : Z) (c : StatusCast) :
    outcome (Poll ServingStatus * Z * StatusCast) :=
  let cur_state := state c in
  if bool_decide (cur_state <> last) then
    let+ status := state_to_status cur_state in Done (Ready status, cur_state, c)
  else Done (Pending, last, mkCast (state c) (register id cx (subscribers c))).

(** [Inner]; casts are shared and known by their place in the heap. *)
Record Inner := mkInner {
  in_id : nat;
  in_shutdown : bool;
  in_status : gmap string ServingStatus;
  in_casts : gmap string nat;
}.

(** The task spawned by [watch] and its subscriber. *)
Record Watcher := mkWatcher { w_name : string; w_cast : nat; w_last : Z }.

(** The service: its lock-protected part, the casts, the tasks of the watchers by id, the
    casts that calls of [set_serving_status] hold between lock and broadcast, and the
    tasks woken so far. *)
Record HealthState := mkHealth {
  inner : Inner;
  heap : list StatusCast;
  watchers : gmap nat Watcher;
  held : list nat;
  wakes : list Waker;
}.

Definition HealthService_default : HealthState := mkHealth (mkInner 0 false ∅ ∅) [] ∅ [] [].

(** [Arc::strong_count] of a cast. *)
Definition strong_count (c : nat) (h : HealthState) : nat :=
  size (filter (fun kv => kv.2 = c) (in_casts (inner h))) +
  size (filter (fun kv => w_cast kv.2 = c) (watchers h)) +
  length (filter (fun x => x = c) (held h)).

(** The part of [set_serving_status] under the lock. *)
Definition set_status_locked (service : string) (status : ServingStatus) :
    M HealthState (option nat) := fun h =>
  let i := inner h in
  if in_shutdown i then Done (None, h)
  else
    let i' := mkInner (in_id i) (in_shutdown i) (<[service := status]> (in_status i)) (in_casts i) in
    match in_casts i' !! service with
    | Some c => Done (Some c, mkHealth i' (heap h) (watchers h) (held h ++ [c]) (wakes h))
    | None => Done (None, mkHealth i' (heap h) (watchers h) (held h) (wakes h))
    end.

Definition broadcast_at (c : nat) (status : ServingStatus) : M HealthState unit := fun h =>
  match heap h !! c with
  | Some cast =>
      let+ (cast', ws) := broadcast cast status in
      Done (tt, mkHealth (inner h) (<[c := cast']> (heap h)) (watchers h) (held h) (wakes h ++ ws))
  | None => Panicked "no such cast"
  end.

(** The clone of the cast is dropped at the end of [set_serving_status]. *)
Fixpoint remove_one (c : nat) (l : list nat) : list nat :=
  match l with
  | [] => []
  | x :: l => if bool_decide (x = c) then l else x :: remove_one c l
  end.

Definition release (c : nat) : M HealthState unit :=
  modify (fun h => mkHealth (inner h) (heap h) (watchers h) (remove_one c (held h)) (wakes h)).

(** [HealthService::set_serving_status]. *)
Definition set_serving_status (service : string) (status : ServingStatus) : M HealthState unit :=
  let* c := set_status_locked service status in
  match c with
  | None => ret tt
  | Some c => do* broadcast_at c status in release c
  end.

Fixpoint broadcast_all (cs : list nat) (status : ServingStatus) : M HealthState unit :=
  match cs with
  | [] => ret tt
  | c :: cs => do* broadcast_at c status in broadcast_all cs status
  end.

(** [HealthService::shutdown]. *)
Definition HealthService_shutdown : M HealthState unit :=
  do* modify (fun h =>
    let i := inner h in
    mkHealth (mkInner (in_id i) true ((fun _ => NotServing) <$> in_status i) (in_casts i))
      (heap h) (watchers h) (held h) (wakes h)) in
  let* cs := gets (fun h => (map_to_list (in_casts (inner h))).*2) in
  broadcast_all cs NotServing.

(** [check]: the response, or the status the sink fails with. *)
Definition check (service : string) (h : HealthState) : Result RpcStatus ServingStatus :=
  match in_status (inner h) !! service with
  | Some status => Ok status
  | None => Err (RpcStatus_with_message CODE_NOT_FOUND "unknown service")
  end.

(** [watch]: the id of the subscriber of the spawned task. *)
Definition watch (name : string) : M HealthState nat := fun h =>
  let i := inner h in
  let id := S (in_id i) in
  match in_casts i !! name with
  | Some c =>
      Done (id, mkHealth (mkInner id (in_shutdown i) (in_status i) (in_casts i)) (heap h)
                  (<[id := mkWatcher name c 0]> (watchers h)) (held h) (wakes h))
  | None =>
      let status := match in_status i !! name with Some s => s | None => ServiceUnknown end in
      let c := length (heap h) in
      Done (id, mkHealth (mkInner id (in_shutdown i) (in_status i) (<[name := c]> (in_casts i)))
                  (heap h ++ [StatusCast_new status])
                  (<[id := mkWatcher name c 0]> (watchers h)) (held h) (wakes h))
  end.

(** The task of a watcher polls its subscriber. *)
Definition watcher_poll (cx : Waker) (id : nat) : M HealthState (Poll ServingStatus) := fun h =>
  match watchers h !! id with
  | Some w =>
      match heap h !! w_cast w with
      | Some c =>
          let+ (p, last, c') := poll_next cx id (w_last w) c in
          Done (p, mkHealth (inner h) (<[w_cast w := c']> (heap h))
                     (<[id := mkWatcher (w_name w) (w_cast w) last]> (watchers h)) (held h) (wakes h))
      | None => Panicked "no such cast"
      end
  | None => Panicked "no such watcher"
  end.

(** The task ends: the subscriber is dropped, and the cast with its last subscriber. *)
Definition watcher_end (id : nat) : M HealthState unit := fun h =>
  match watchers h !! id with
  | Some w =>
      let drop_sub c := mkCast (state c) (delete id (subscribers c)) in
      let h1 := mkHealth (inner h) (alter drop_sub (w_cast w) (heap h)) (delete id (watchers h))
                  (held h) (wakes h) in
      let i := inner h1 in
      match in_casts i !! w_name w with
      | Some c =>
          if bool_decide (strong_count c h1 = 1) then
            Done (tt, mkHealth (mkInner (in_id i) (in_shutdown i) (in_status i)
                                  (delete (w_name w) (in_casts i)))
                        (heap h1) (watchers h1) (held h1) (wakes h1))
          else Done (tt, h1)
      | None => Done (tt, h1)
      end
  | None => Panicked "no such watcher"
  end.

(** ** Sequences of calls *)

Inductive HealthOp :=
| OpSet (service : string) (status : ServingStatus)
| OpShutdown
| OpWatch (service : string)
| OpPoll (cx : Waker) (id : nat)
| OpEnd (id : nat).

Definition run_op (op : HealthOp) : M HealthState unit :=
  match op with
  | OpSet service status => set_serving_status service status
  | OpShutdown => HealthService_shutdown
  | OpWatch service => do* watch service in ret tt
  | OpPoll cx id => do* watcher_poll cx id in ret tt
  | OpEnd id => watcher_end id
  end.

Fixpoint run_ops (ops : list HealthOp) : M HealthState unit :=
  match ops with
  | [] => ret tt
  | op :: ops => do* run_op op in run_ops ops
  end.

(** The status a watcher of a service is to be given. *)
Definition reported (h : HealthState) (name : string) (status : ServingStatus) : Prop :=
  match in_status (inner h) !! name with
  | Some s => status = s
  | None => status = ServiceUnknown \/ (in_shutdown (inner h) = true /\ status = NotServing)
  end.

(** What holds between calls. *)
Record HInv (h : HealthState) : Prop := {
  hinv_cast : forall name c, in_casts (inner h) !! name = Some c ->
    exists cast status, heap h !! c = Some cast /\ state_ok (state cast) /\
      state_to_status (state cast) = Done status /\ reported h name status;
  hinv_inj : forall n1 n2 c, in_casts (inner h) !! n1 = Some c -> in_casts (inner h) !! n2 = Some c ->
    n1 = n2;
  hinv_watch : forall id w, watchers h !! id = Some w -> in_casts (inner h) !! w_name w = Some (w_cast w);
  hinv_fresh : forall id w, watchers h !! id = Some w -> id <= in_id (inner h);
  hinv_held : held h = [];
}.

(** A cast that shows a status. *)
Definition shows (h : HealthState) (c : nat) (status : ServingStatus) : Prop :=
  exists cast, heap h !! c = Some cast /\ state_ok (state cast) /\
    state_to_status (state cast) = Done status.

Lemma broadcast_at_spec c status h h' : broadcast_at c status h = Done (tt, h') ->
  inner h' = inner h /\ watchers h' = watchers h /\ held h' = held h /\
  (forall st, shows h c st -> shows h' c status) /\
  (forall c' st, c' <> c -> shows h c' st -> shows h' c' st).
Proof.
  unfold broadcast_at, broadcast, obind. intros E.
  destruct (heap h !! c) as [cast|] eqn:Hc; [|done].
  destruct (next_state true (state cast) status) as [n|] eqn:En; [|done]. injection E as <-. simpl.
  repeat split; [|].
  - intros st (cast0 & H0 & Hok & _). simplify_eq. destruct (next_state_ok _ _ _ Hok En) as (H1 & _ & H2).
    exists (mkCast n ∅). simpl. rewrite list_lookup_insert_eq by (by eapply lookup_lt_Some). done.
  - intros c' st Hne (cast0 & H0 & ?). exists cast0. simpl. by rewrite list_lookup_insert_ne.
Qed.

Lemma broadcast_all_spec cs status h h' : broadcast_all cs status h = Done (tt, h') ->
  inner h' = inner h /\ watchers h' = watchers h /\ held h' = held h /\
  (forall c st, shows h c st -> c ∈ cs -> shows h' c status).
Proof.
  revert h. induction cs as [|c cs IH]; intros h; cbn [broadcast_all].
  - intros [= ->]. repeat split. by intros ? ? _ ?%elem_of_nil.
  - intros (u & h1 & E1 & E2)%bind_Done. destruct u.
    destruct (broadcast_at_spec _ _ _ _ E1) as (Hi & Hw & Hh & Hs1 & Hs2).
    destruct (IH _ E2) as (Hi' & Hw' & Hh' & Hall). rewrite Hi', Hw', Hh'. repeat split; try done.
    intros c' st Hsh Hin. destruct (decide (c' = c)) as [->|Hne].
    + apply Hs1 in Hsh. destruct (decide (c ∈ cs)); [by eapply Hall|].
      clear IH Hall. revert E2 Hsh n. clear. revert h1. induction cs as [|d cs IH]; intros h1.
      * by intros [= ->].
      * cbn [broadcast_all]. intros (u & h2 & E1 & E2)%bind_Done Hsh [Hd Hn]%not_elem_of_cons. destruct u.
        destruct (broadcast_at_spec _ _ _ _ E1) as (_ & _ & _ & _ & Hs2). eapply IH; eauto.
    + apply elem_of_cons in Hin as [?|Hin]; [done|]. eapply Hall; eauto.
Qed.

Lemma HInv_default : HInv HealthService_default.
Proof. constructor; simpl; try done; intros *; rewrite !lookup_empty; done. Qed.

(** Rebuilds the invariant when casts, ids and watchers stay and statuses follow. *)
Lemma HInv_update h h' :
  HInv h -> in_casts (inner h') = in_casts (inner h) -> watchers h' = watchers h ->
  in_id (inner h') = in_id (inner h) -> held h' = [] ->
  (forall name c, in_casts (inner h) !! name = Some c ->
     exists status, shows h' c status /\ reported h' name status) -> HInv h'.
Proof.
  intros [Hc Hi Hw Hf Hh] E1 E2 E3 E4 Hnew. constructor; rewrite ?E1, ?E2, ?E3; auto.
  intros name c Hn. destruct (Hnew name c Hn) as (st & (cast & ? & ? & ?) & ?). by exists cast, st.
Qed.

Lemma HInv_shows h name c : HInv h -> in_casts (inner h) !! name = Some c ->
  exists status, shows h c status /\ reported h name status.
Proof.
  intros HI Hn. destruct (hinv_cast h HI name c Hn) as (cast & st & ? & ? & ? & ?).
  exists st. split; [by exists cast|done].
Qed.

Lemma set_serving_status_HInv service status h h' :
  HInv h -> set_serving_status service status h = Done (tt, h') -> HInv h'.
Proof.
  intros HI. unfold set_serving_status. intros (r & h1 & E1 & E2)%bind_Done.
  unfold set_status_locked in E1. destruct (in_shutdown (inner h)) eqn:Hsd.
  { injection E1 as <- <-. by injection E2 as <-. }
  cbn [in_casts] in E1. destruct (in_casts (inner h) !! service) as [c|] eqn:Hc.
  - injection E1 as <- <-. apply bind_Done in E2 as (u & h2 & E2 & E3). destruct u.
    destruct (broadcast_at_spec _ _ _ _ E2) as (Hi & Hw & Hhd & Hs1 & Hs2).
    unfold release, modify in E3. injection E3 as <-. simpl in *.
    apply (HInv_update h); rewrite ?Hi, ?Hw; simpl; auto.
    { rewrite Hhd, (hinv_held h HI). simpl. by rewrite bool_decide_eq_true_2. }
    intros name d Hd. destruct (HInv_shows h name d HI Hd) as (st & Hsh & Hrep).
    destruct (decide (name = service)) as [->|Hne].
    + assert (d = c) as -> by congruence. exists status. split; [by eapply Hs1|].
      unfold reported. simpl. rewrite ?Hi. simpl. by rewrite lookup_insert_eq.
    + exists st. split.
      * apply Hs2; [|done]. intros ->. apply Hne. exact (hinv_inj h HI name service c Hd Hc).
      * unfold reported in *. simpl. rewrite ?Hi. simpl. rewrite lookup_insert_ne by done. rewrite ?Hsd in Hrep. exact Hrep.
  - injection E1 as <- <-. injection E2 as <-. apply (HInv_update h); simpl; auto.
    { apply (hinv_held h HI). }
    intros name d Hd. destruct (HInv_shows h name d HI Hd) as (st & Hsh & Hrep).
    exists st. split; [done|]. unfold reported in *. simpl.
    rewrite lookup_insert_ne; [by rewrite Hsd in Hrep|]. intros <-. congruence.
Qed.

Lemma shutdown_HInv h h' : HInv h -> HealthService_shutdown h = Done (tt, h') -> HInv h'.
Proof.
  intros HI. unfold HealthService_shutdown. intros (u & h1 & E1 & E2)%bind_Done. destruct u.
  injection E1 as <-. apply bind_Done in E2 as (cs & h1 & E2 & E3).
  unfold gets in E2. injection E2 as <- <-. simpl in E3.
  destruct (broadcast_all_spec _ _ _ _ E3) as (Hi & Hw & Hhd & Hall).
  apply (HInv_update h); rewrite ?Hi, ?Hw, ?Hhd; simpl; auto; [apply (hinv_held h HI)|].
  intros name d Hd. destruct (HInv_shows h name d HI Hd) as (st & Hsh & Hrep).
  exists NotServing. split.
  - eapply Hall; [exact Hsh|]. apply list_elem_of_fmap. exists (name, d). split; [done|].
    by apply elem_of_map_to_list.
  - unfold reported. rewrite ?Hi. simpl. rewrite lookup_fmap.
    destruct (in_status (inner h) !! name); simpl; auto.
Qed.

Lemma watch_HInv name h id h' : HInv h -> watch name h = Done (id, h') -> HInv h'.
Proof.
  intros HI E. unfold watch in E. destruct (in_casts (inner h) !! name) as [c|] eqn:Hc;
    injection E as <- <-; destruct HI as [Hca Hinj Hw Hf Hh]; constructor; simpl; auto.
  - intros id w. rewrite lookup_insert_Some. intros [[_ <-]|[_ Hl]]; [done|eauto].
  - intros id w. rewrite lookup_insert_Some. intros [[<- _]|[_ Hl]]; [lia|]. apply Hf in Hl. lia.
  - intros n d. rewrite lookup_insert_Some. intros [[<- <-]|[Hne Hd]].
    + eexists _, _. rewrite lookup_app_r, Nat.sub_diag by lia. split; [reflexivity|].
      split; [apply first_state_ok|]. simpl. rewrite first_state_eq.
      split; [apply (state_to_status_eq 1)|]. unfold reported. simpl. by destruct (in_status _ !! name); auto.
    + destruct (Hca n d Hd) as (cast & st & Hl & ?). exists cast, st. split; [|done].
      rewrite lookup_app_l; [done|]. by eapply lookup_lt_Some.
  - assert (forall n, in_casts (inner h) !! n = Some (length (heap h)) -> False) as Hno.
    { intros n Hn. destruct (Hca _ _ Hn) as (? & ? & Hl & _). apply lookup_lt_Some in Hl. lia. }
    intros n1 n2 d. rewrite !lookup_insert_Some.
    intros [[<- <-]|[? H1]] [[<- H2']|[? H2]]; try done; [by destruct (Hno n2)| |by eapply Hinj].
    subst d. by destruct (Hno n1).
  - intros id w. rewrite !lookup_insert_Some. intros [[<- <-]|[_ Hl]]; [by left|].
    right. split; [|eauto]. intros ->. specialize (Hw _ _ Hl). congruence.
  - intros id w. rewrite lookup_insert_Some. intros [[<- _]|[_ Hl]]; [lia|]. apply Hf in Hl. lia.
Qed.

(** Replacing a cast by one with the same state keeps what is shown. *)
Lemma shows_same_state h h' c d f : (forall x, state (f x) = state x) ->
  heap h' = alter f d (heap h) -> forall st, shows h c st -> shows h' c st.
Proof.
  intros Hf Hh st (cast & Hl & Hok & Hst). destruct (decide (c = d)) as [->|Hne].
  - exists (f cast). rewrite Hh, list_lookup_alter_eq, Hl, Hf. done.
  - exists cast. rewrite Hh, list_lookup_alter_ne by done. done.
Qed.

Lemma watcher_poll_HInv cx id h p h' : HInv h -> watcher_poll cx id h = Done (p, h') -> HInv h'.
Proof.
  intros HI E. unfold watcher_poll, poll_next, obind in E.
  destruct (watchers h !! id) as [w|] eqn:Hw; [|done].
  destruct (heap h !! w_cast w) as [c|] eqn:Hc; [|done].
  assert (exists last c', state c' = state c /\
    h' = mkHealth (inner h) (<[w_cast w := c']> (heap h))
           (<[id := mkWatcher (w_name w) (w_cast w) last]> (watchers h)) (held h) (wakes h))
    as (last & c' & Hst & ->).
  { case_bool_decide; [destruct (state_to_status (state c)); [|done]|]; injection E as <- <-;
      eexists _, _; (split; [|reflexivity]); done. }
  destruct HI as [Hca Hinj Hwa Hf Hh]. constructor; simpl; auto.
  - intros n d Hd. destruct (Hca n d Hd) as (cast & st & Hl & Hok & Hs & Hr).
    destruct (decide (d = w_cast w)) as [->|Hne].
    + simplify_eq. exists c', st. rewrite list_lookup_insert_eq by (by eapply lookup_lt_Some).
      by rewrite Hst.
    + exists cast, st. by rewrite list_lookup_insert_ne.
  - intros id' w'. rewrite lookup_insert_Some. intros [[<- <-]|[_ Hl]]; simpl; eauto.
  - intros id' w'. rewrite lookup_insert_Some. intros [[<- <-]|[_ Hl]]; simpl; eauto.
Qed.

(** A cast with a watcher left is referenced by the map and by the watcher. *)
Lemma strong_count_two h n c id w :
  in_casts (inner h) !! n = Some c -> watchers h !! id = Some w -> w_cast w = c ->
  2 <= strong_count c h.
Proof.
  intros Hn Hw Hc. unfold strong_count.
  assert (0 < size (filter (fun kv : string * nat => kv.2 = c) (in_casts (inner h)))) as H1.
  { apply Nat.neq_0_lt_0. intros E. apply map_size_empty_inv in E.
    assert (filter (fun kv : string * nat => kv.2 = c) (in_casts (inner h)) !! n = Some c) as Hl
      by (by apply map_lookup_filter_Some). by rewrite E, lookup_empty in Hl. }
  assert (0 < size (filter (fun kv : nat * Watcher => w_cast kv.2 = c) (watchers h))) as H2.
  { apply Nat.neq_0_lt_0. intros E. apply map_size_empty_inv in E.
    assert (filter (fun kv : nat * Watcher => w_cast kv.2 = c) (watchers h) !! id = Some w) as Hl
      by (by apply map_lookup_filter_Some). by rewrite E, lookup_empty in Hl. }
  lia.
Qed.

Lemma watcher_end_HInv id h h' : HInv h -> watcher_end id h = Done (tt, h') -> HInv h'.
Proof.
  intros HI E. unfold watcher_end in E. destruct (watchers h !! id) as [w|] eqn:Hw; [|done].
  set (h1 := mkHealth (inner h) _ (delete id (watchers h)) (held h) (wakes h)) in E.
  assert (HInv h1) as HI1.
  { destruct HI as [Hca Hinj Hwa Hf Hh]. constructor; simpl; auto.
    - intros n d Hd. destruct (Hca n d Hd) as (cast & st & Hl & Hok & Hs & Hr).
      destruct (shows_same_state h h1 d (w_cast w)
        (fun c => mkCast (state c) (delete id (subscribers c))) ltac:(done) eq_refl st)
        as (cast' & ? & ? & ?); [by exists cast|]. by exists cast', st.
    - intros id' w'. rewrite lookup_delete_Some. intros [_ ?]. eauto.
    - intros id' w'. rewrite lookup_delete_Some. intros [_ ?]. eauto. }
  destruct (in_casts (inner h1) !! w_name w) as [c|] eqn:Hc; [|by injection E as <-].
  case_bool_decide as Hcnt; [|by injection E as <-]. injection E as <-.
  assert (forall id' w', watchers h1 !! id' = Some w' -> w_name w' <> w_name w) as Hother.
  { intros id' w' Hw' En. pose proof (hinv_watch h1 HI1 id' w' Hw') as Hn. rewrite En, Hc in Hn.
    injection Hn as Hn. pose proof (strong_count_two h1 _ c id' w' Hc Hw' (eq_sym Hn)). lia. }
  destruct HI1 as [Hca Hinj Hwa Hf Hh]. constructor; cbn [inner heap watchers held in_casts in_id] in *; auto.
  - intros n d. rewrite lookup_delete_Some. intros [_ Hd]. exact (Hca n d Hd).
  - intros n1 n2 d. rewrite !lookup_delete_Some. intros [_ ?] [_ ?]. eauto.
  - intros id' w' Hw'. rewrite lookup_delete_ne; [by apply (Hwa id')|]. by apply not_eq_sym, (Hother id').
Qed.

(** ** What the service promises *)

(** The statuses the calls asked for: the last one set counts, until the shutdown makes
    all of them [NotServing] for good. *)
Definition spec_op (s : gmap string ServingStatus * bool) (op : HealthOp) :
    gmap string ServingStatus * bool :=
  match op with
  | OpSet service status => if s.2 then s else (<[service := status]> s.1, s.2)
  | OpShutdown => ((fun _ => NotServing) <$> s.1, true)
  | _ => s
  end.

Lemma run_op_spec op h h' : run_op op h = Done (tt, h') ->
  (in_status (inner h'), in_shutdown (inner h')) =
    spec_op (in_status (inner h), in_shutdown (inner h)) op.
Proof.
  destruct op as [service status| |name|cx id|id]; cbn [run_op spec_op].
  - intros (r & h1 & E1 & E2)%bind_Done. unfold set_status_locked in E1. cbn [snd fst].
    destruct (in_shutdown (inner h)) eqn:Hsd; [injection E1 as <- <-; injection E2 as <-; by rewrite Hsd|].
    cbn [in_casts] in E1. destruct (in_casts (inner h) !! service) as [c|]; injection E1 as <- <-;
      [|by injection E2 as <-].
    apply bind_Done in E2 as (u & h2 & E2 & E3). destruct u.
    destruct (broadcast_at_spec _ _ _ _ E2) as (Hi & _). injection E3 as <-. simpl. by rewrite Hi.
  - intros (u & h1 & E1 & E2)%bind_Done. injection E1 as <- <-.
    apply bind_Done in E2 as (cs & h1 & E2 & E3). injection E2 as <- <-.
    destruct (broadcast_all_spec _ _ _ _ E3) as (Hi & _). by rewrite Hi.
  - intros (id & h1 & E1 & E2)%bind_Done. injection E2 as <-. unfold watch in E1.
    destruct (in_casts (inner h) !! name); by injection E1 as <- <-.
  - intros (p & h1 & E1 & E2)%bind_Done. injection E2 as <-. unfold watcher_poll, obind in E1.
    destruct (watchers h !! id); [|done]. destruct (heap h !! _); [|done].
    destruct (poll_next _ _ _ _) as [[[]]|]; [|done]. by injection E1 as <- <-.
  - intros E. unfold watcher_end in E. destruct (watchers h !! id); [|done].
    destruct (in_casts _ !! _); [case_bool_decide|]; by injection E as <-.
Qed.

Lemma run_op_HInv op h h' : HInv h -> run_op op h = Done (tt, h') -> HInv h'.
Proof.
  intros HI. destruct op; cbn [run_op].
  - by apply set_serving_status_HInv.
  - by apply shutdown_HInv.
  - intros (i & h1 & E1 & E2)%bind_Done. injection E2 as <-. by eapply watch_HInv.
  - intros (p & h1 & E1 & E2)%bind_Done. injection E2 as <-. by eapply watcher_poll_HInv.
  - by apply watcher_end_HInv.
Qed.

Lemma run_ops_spec ops h h' : HInv h -> run_ops ops h = Done (tt, h') ->
  HInv h' /\ (in_status (inner h'), in_shutdown (inner h')) =
    foldl spec_op (in_status (inner h), in_shutdown (inner h)) ops.
Proof.
  revert h. induction ops as [|op ops IH]; intros h HI; cbn [run_ops foldl].
  - by intros [= <-].
  - intros (u & h1 & E1 & E2)%bind_Done. destruct u.
    rewrite <-(run_op_spec _ _ _ E1). apply IH; [by eapply run_op_HInv|done].
Qed.

(** C19: the service keeps its promises over any sequence of calls: [check] answers with
    the last status set, all [NotServing] after the shutdown, and NOT_FOUND for unknown
    services; and polling any watcher returns the status of its service, or is pending
    when that is the status it was last given ([ServiceUnknown], or [NotServing] after
    the shutdown, for a service never set). *)
Theorem health_service_consistent (ops : list HealthOp) (h : HealthState) :
  run_ops ops HealthService_default = Done (tt, h) ->
  let '(spec, down) := foldl spec_op (∅, false) ops in
  (forall service, check service h =
     match spec !! service with
     | Some status => Ok status
     | None => Err (RpcStatus_with_message CODE_NOT_FOUND "unknown service")
     end) /\
  (forall id w cx, watchers h !! id = Some w ->
     exists status p h', watcher_poll cx id h = Done (p, h') /\
       (p = Ready status \/ (p = Pending /\ state_to_status (w_last w) = Done status)) /\
       match spec !! w_name w with
       | Some s => status = s
       | None => status = ServiceUnknown \/ (down = true /\ status = NotServing)
       end).
Proof.
  intros E. destruct (run_ops_spec _ _ _ HInv_default E) as [HI Hs]. simpl in Hs.
  rewrite <-Hs. split; [done|]. intros id w cx Hw.
  pose proof (hinv_watch h HI id w Hw) as Hc.
  destruct (hinv_cast h HI _ _ Hc) as (cast & status & Hl & _ & Hst & Hr).
  unfold watcher_poll, poll_next. rewrite Hw, Hl. case_bool_decide as Hne.
  - exists status. eexists _, _. rewrite Hst. cbn [obind]. split; [reflexivity|]. auto.
  - exists status. eexists _, _. split; [reflexivity|]. split; [|exact Hr].
    right. split; [done|]. by destruct (decide (state cast = w_last w)) as [<-|]; [|done].
Qed.

(** The broadcast of [set_serving_status] is made after its lock is released: when two
    calls for a watched service overlap, the broadcasts can be made in the opposite order
    of the updates, and a watcher is left with a status [check] no longer returns. *)
Theorem health_set_race :
  exists h c h1 h2 h3,
    run_ops [OpSet "s" Unknown; OpWatch "s"] HealthService_default = Done (tt, h) /\
    set_status_locked "s" Serving h = Done (Some c, h1) /\
    set_status_locked "s" NotServing h1 = Done (Some c, h2) /\
    bind (broadcast_at c NotServing) (fun _ => broadcast_at c Serving) h2 = Done (tt, h3) /\
    check "s" h3 = Ok NotServing /\
    (exists h4, watcher_poll 1 1 h3 = Done (Ready Serving, h4) /\
       exists h5, watcher_poll 1 1 h4 = Done (Pending, h5)).
Proof.
  eexists _, _, _, _, _. split; [vm_compute; reflexivity|]. split; [vm_compute; reflexivity|].
  split; [vm_compute; reflexivity|]. split; [vm_compute; reflexivity|]. split; [reflexivity|].
  eexists. split; [vm_compute; reflexivity|]. eexists. vm_compute. reflexivity.
Qed.

(** ** Witnesses *)

(** Subscriber 0 is polled to the end of its poll, a status is broadcast, and it is polled again. *)
Definition demo_cast : CastSys :=
  mkCastSys (StatusCast_new Serving) None [BIdle] [StatusSubscriber_new] [first_state Serving].

Lemma demo_cast_polled : exists x s, reachable CStep CInit x /\ subs x !! 0 = Some s /\
  sub_pc s = SIdle /\ parked s = true /\ woken s = false /\ ~ draining (casters x) /\
  state (cast x) = first_state Serving.
Proof.
  eexists _, _. split.
  { exists demo_cast. split; [by exists Serving, 1, 1|]. unfold demo_cast.
    eapply rtc_l; [eapply (CPoll _ _ _ _ _ 0 _ 5); reflexivity|].
    eapply rtc_l; [eapply (CSub _ _ _ _ _ 0); reflexivity|].
    eapply rtc_l; [eapply (CPoll _ _ _ _ _ 0 _ 5); reflexivity|].
    eapply rtc_l; [eapply (CSub _ _ _ _ _ 0); reflexivity|].
    eapply rtc_l; [eapply (CSub _ _ _ _ _ 0); reflexivity|].
    eapply rtc_l; [eapply (CSub _ _ _ _ _ 0); reflexivity|].
    eapply rtc_l; [eapply (CSub _ _ _ _ _ 0); reflexivity|].
    eapply rtc_l; [eapply (CSub _ _ _ _ _ 0); reflexivity|]. apply rtc_refl. }
  simpl. repeat split. intros [[|[|k]] Hk]; simpl in Hk; congruence.
Qed.

Lemma health_no_lost_status_witness :
  exists x s, subs x !! 0 = Some s /\ last (seen s) = Some (first_state Serving).
Proof.
  destruct demo_cast_polled as (x & s & Hr & Hs & Hpc & Hpk & Hw & Hd & Hst).
  exists x, s. split; [exact Hs|]. rewrite <-Hst.
  apply (health_no_lost_status x 0 s Hr Hs); assumption.
Defined.

Definition demo_ops : list HealthOp :=
  [OpSet "a" Serving; OpWatch "a"; OpPoll 7 1; OpWatch "b"; OpSet "a" NotServing; OpSet "b" Serving].

Lemma health_service_consistent_witness :
  exists h, run_ops demo_ops HealthService_default = Done (tt, h) /\ check "a" h = Ok NotServing.
Proof.
  destruct (run_ops demo_ops HealthService_default) as [[[] h]|] eqn:E; [|by vm_compute in E].
  exists h. split; [reflexivity|].
  apply (proj1 (health_service_consistent demo_ops h E) "a").
Defined.
