(* ===== verification/Wire.v ===== *)
(** The protobuf runtime that generated messages are written against: the wire format of
    its documentation (varints, tags, fields), the functions of the runtime that
    health/src/proto/protobuf/health.rs calls as a class of parameters, what they are
    documented to do as laws over the wire format, and an instance.

    The bytes of a stream that are not read yet are a ghost of the class: the laws speak of
    them.  Writing returns the bytes that are appended; that they fit into the buffer is
    decided where the buffer is ([pb_ser] of Buf). *)

From S2P Require Import Prelude Status Utf8.

Local Open Scope rust_scope.

(** ** The wire format *)

Inductive WireType :=
| WireTypeVarint | WireTypeFixed64 | WireTypeLengthDelimited
| WireTypeStartGroup | WireTypeEndGroup | WireTypeFixed32.

#[export] Instance WireType_eq_dec : EqDecision WireType.
Proof. solve_decision. Defined.

Definition wire_type_code (t : WireType) : Z :=
  match t with
  | WireTypeVarint => 0 | WireTypeFixed64 => 1 | WireTypeLengthDelimited => 2
  | WireTypeStartGroup => 3 | WireTypeEndGroup => 4 | WireTypeFixed32 => 5
  end.

Definition wire_type_of_code (z : Z) : option WireType :=
  match z with
  | 0 => Some WireTypeVarint | 1 => Some WireTypeFixed64 | 2 => Some WireTypeLengthDelimited
  | 3 => Some WireTypeStartGroup | 4 => Some WireTypeEndGroup | 5 => Some WireTypeFixed32
  | _ => None
  end%Z.

(** A byte of seven bits, the eighth says whether more follow. *)
Definition byte_of (z : Z) : byte := default x00 (Byte.of_N (Z.to_N z)).

Fixpoint varint_loop (fuel : nat) (z : Z) : list byte :=
  match fuel with
  | 0 => []
  | S fuel => if Z.ltb z 128 then [byte_of z] else byte_of (128 + z `mod` 128) :: varint_loop fuel (z / 128)
  end.

(** A varint of 64 bits has at most ten bytes. *)
Definition varint (z : Z) : list byte := varint_loop 10 z.

(** A number in little-endian bytes. *)
Fixpoint little_endian (n : nat) (z : Z) : list byte :=
  match n with 0 => [] | S n => byte_of (z `mod` 256) :: little_endian n (z / 256) end.

(** The value of a field. *)
Inductive Value :=
| VFixed32 (v : Z)
| VFixed64 (v : Z)
| VVarint (v : Z)
| VLengthDelimited (bs : list byte).

Definition value_type (v : Value) : WireType :=
  match v with
  | VFixed32 _ => WireTypeFixed32
  | VFixed64 _ => WireTypeFixed64
  | VVarint _ => WireTypeVarint
  | VLengthDelimited _ => WireTypeLengthDelimited
  end.

Definition value_bytes (v : Value) : list byte :=
  match v with
  | VFixed32 v => little_endian 4 v
  | VFixed64 v => little_endian 8 v
  | VVarint v => varint v
  | VLengthDelimited bs => varint (Z.of_nat (length bs)) ++ bs
  end.

Definition tag (n : Z) (t : WireType) : Z := 8 * n + wire_type_code t.

Abbreviation Field := (Z * Value)%type.

Definition field_bytes (f : Field) : list byte := varint (tag f.1 (value_type f.2)) ++ value_bytes f.2.

Definition fields_bytes (fs : list Field) : list byte := concat (field_bytes <$> fs).

(** Field numbers have 29 bits; values the width of their type. *)
Definition number_ok (n : Z) : Prop := (1 <= n < 2 ^ 29)%Z.

Definition value_ok (v : Value) : Prop :=
  match v with
  | VFixed32 v => (0 <= v < U32)%Z
  | VFixed64 v | VVarint v => (0 <= v < U64)%Z
  | VLengthDelimited bs => (Z.of_nat (length bs) < U32)%Z
  end.

Definition field_ok (f : Field) : Prop := number_ok f.1 /\ value_ok f.2.

(** [v as i32] of what a varint holds, and [i as i64 as u64] back. *)
Definition as_i32 (v : Z) : Z := wrap_signed 32 v.
Definition i32_as_u64 (i : Z) : Z := i `mod` U64.

(** ** The runtime *)

(** The functions of the protobuf crate: a stream that is read, the fields a message has
    no name for, and the readers, sizes and writers of fields.  A reader returns the rest
    of the stream; errors are texts. *)
Class ProtobufRuntime := {
  CodedInputStream : Type;
  remaining : CodedInputStream -> list byte;
  UnknownFields : Type;
  UnknownFields_new : UnknownFields;
  add_value : Z -> Value -> UnknownFields -> UnknownFields;
  eof : CodedInputStream -> Result string (bool * CodedInputStream);
  read_tag_unpack : CodedInputStream -> Result string ((Z * WireType) * CodedInputStream);
  read_singular_proto3_string_into : WireType -> CodedInputStream -> Result string (string * CodedInputStream);
  read_proto3_enum_with_unknown_fields_into : forall E : Type, (Z -> option E) ->
    WireType -> CodedInputStream -> E -> Z -> UnknownFields ->
    Result string ((E * UnknownFields) * CodedInputStream);
  read_unknown_or_skip_group : Z -> WireType -> CodedInputStream -> UnknownFields ->
    Result string (UnknownFields * CodedInputStream);
  string_size : Z -> string -> Z;
  enum_size : Z -> Z -> Z;
  unknown_fields_size : UnknownFields -> Z;
  write_string : Z -> string -> list byte;
  write_enum : Z -> Z -> list byte;
  write_unknown_fields : UnknownFields -> list byte;
}.

(** What the runtime is documented to do.  [entries] are the unknown fields in the order
    they are written. *)
Class RuntimeLaws (R : ProtobufRuntime) := {
  entries : UnknownFields -> list Field;
  entries_new : entries UnknownFields_new = [];
  entries_add n v u : entries (add_value n v u) ≡ₚ (n, v) :: entries u;
  entries_rebuild u : foldl (fun u f => add_value f.1 f.2 u) UnknownFields_new (entries u) = u;
  (** Reading what was written. *)
  eof_law s : exists s', eof s = Ok (bool_decide (remaining s = []), s') /\ remaining s' = remaining s;
  tag_law s n v rest : field_ok (n, v) ->
    remaining s = varint (tag n (value_type v)) ++ rest ->
    exists s', read_tag_unpack s = Ok ((n, value_type v), s') /\ remaining s' = rest;
  string_law s v rest : value_ok v -> remaining s = value_bytes v ++ rest ->
    match v with
    | VLengthDelimited bs =>
        if utf8_valid bs then
          exists s', read_singular_proto3_string_into (value_type v) s =
            Ok (String.string_of_list_byte bs, s') /\ remaining s' = rest
        else exists e, read_singular_proto3_string_into (value_type v) s = Err e
    | _ => exists e, read_singular_proto3_string_into (value_type v) s = Err e
    end;
  enum_law E from_i32 (t : E) n u s v rest : value_ok v -> remaining s = value_bytes v ++ rest ->
    match v with
    | VVarint i =>
        exists s', read_proto3_enum_with_unknown_fields_into E from_i32 (value_type v) s t n u =
          Ok (match from_i32 (as_i32 i) with
              | Some e => (e, u)
              | None => (t, add_value n (VVarint (i32_as_u64 (as_i32 i))) u)
              end, s') /\ remaining s' = rest
    | _ => exists e, read_proto3_enum_with_unknown_fields_into E from_i32 (value_type v) s t n u = Err e
    end;
  unknown_law n u s v rest : field_ok (n, v) -> remaining s = value_bytes v ++ rest ->
    exists s', read_unknown_or_skip_group n (value_type v) s u = Ok (add_value n v u, s') /\
      remaining s' = rest;
  (** Reading anything: bytes are consumed, and what is read is well formed. *)
  tag_sound s n t s' : read_tag_unpack s = Ok ((n, t), s') ->
    number_ok n /\ length (remaining s') < length (remaining s);
  string_sound t s x s' : read_singular_proto3_string_into t s = Ok (x, s') ->
    utf8_valid (as_bytes x) = true /\ (Z.of_nat (length (as_bytes x)) < U32)%Z /\
    length (remaining s') <= length (remaining s);
  enum_sound E from_i32 (t : E) n u w s e u' s' :
    read_proto3_enum_with_unknown_fields_into E from_i32 w s t n u = Ok ((e, u'), s') ->
    length (remaining s') <= length (remaining s) /\
    ((exists i, from_i32 i = Some e /\ u' = u) \/
     (exists i, (- 2 ^ 31 <= i < 2 ^ 31)%Z /\ from_i32 i = None /\ e = t /\
        u' = add_value n (VVarint (i32_as_u64 i)) u));
  unknown_sound n w s u u' s' : read_unknown_or_skip_group n w s u = Ok (u', s') ->
    length (remaining s') <= length (remaining s) /\
    (u' = u \/ exists v, value_ok v /\ u' = add_value n v u);
  (** Sizes that fit and what is written. *)
  string_size_law n x : let bs := field_bytes (n, VLengthDelimited (as_bytes x)) in
    (Z.of_nat (length bs) < U32)%Z -> string_size n x = Z.of_nat (length bs);
  enum_size_law n i : enum_size n i = Z.of_nat (length (field_bytes (n, VVarint (i32_as_u64 i))));
  unknown_size_law u : (Z.of_nat (length (fields_bytes (entries u))) < U32)%Z ->
    unknown_fields_size u = Z.of_nat (length (fields_bytes (entries u)));
  write_string_law n x : write_string n x = field_bytes (n, VLengthDelimited (as_bytes x));
  write_enum_law n i : write_enum n i = field_bytes (n, VVarint (i32_as_u64 i));
  write_unknown_law u : write_unknown_fields u = fields_bytes (entries u);
}.

(** ** Varints *)

Lemma byte_of_bZ z : (0 <= z < 256)%Z -> bZ (byte_of z) = z.
Proof.
  intros Hz. unfold bZ, byte_of. destruct (Byte.of_N (Z.to_N z)) as [b|] eqn:E; simpl.
  - apply Byte.to_of_N in E. rewrite E. lia.
  - apply Byte.of_N_None_iff in E. lia.
Qed.

Lemma bZ_range b : (0 <= bZ b < 256)%Z.
Proof. unfold bZ. pose proof (Byte.to_N_bounded b). lia. Qed.

Lemma varint_nonempty z : varint z <> [].
Proof. unfold varint. simpl. by destruct (Z.ltb z 128). Qed.

(** Reading a varint of at most [fuel] bytes. *)
Fixpoint read_varint_loop (fuel : nat) (bs : list byte) : option (Z * list byte) :=
  match fuel, bs with
  | S fuel, b :: bs =>
      if Z.ltb (bZ b) 128 then Some (bZ b, bs)
      else match read_varint_loop fuel bs with
           | Some (z, rest) => Some (bZ b - 128 + 128 * z, rest)%Z
           | None => None
           end
  | _, _ => None
  end.

Definition read_varint (bs : list byte) : option (Z * list byte) :=
  match read_varint_loop 10 bs with
  | Some (z, rest) => Some ((z `mod` U64)%Z, rest)
  | None => None
  end.

Lemma read_varint_loop_written fuel z rest :
  (0 <= z < 2 ^ (7 * Z.of_nat fuel))%Z -> 0 < fuel ->
  read_varint_loop fuel (varint_loop fuel z ++ rest) = Some (z, rest).
Proof.
  revert z. induction fuel as [|fuel IH]; intros z Hz Hf; [lia|]. cbn [varint_loop].
  destruct (Z.ltb_spec z 128) as [Hs|Hl].
  - cbn [app read_varint_loop]. rewrite byte_of_bZ by lia.
    destruct (Z.ltb_spec z 128); [done|lia].
  - cbn [app read_varint_loop].
    assert (0 <= z `mod` 128 < 128)%Z as Hm by (by apply Z.mod_pos_bound).
    rewrite byte_of_bZ by lia. destruct (Z.ltb_spec (128 + z `mod` 128) 128); [lia|].
    assert (0 < fuel) as Hf'.
    { destruct fuel; [|lia]. simpl in Hz. lia. }
    rewrite IH; [|split; [by apply Z.div_pos; lia|]|done].
    + do 2 f_equal. pose proof (Z.div_mod z 128). lia.
    + apply Z.div_lt_upper_bound; [lia|].
      replace (7 * Z.of_nat (S fuel))%Z with (7 + 7 * Z.of_nat fuel)%Z in Hz by lia.
      rewrite Z.pow_add_r in Hz by lia. change (2 ^ 7)%Z with 128%Z in Hz. lia.
Qed.

Lemma read_varint_written z rest : (0 <= z < U64)%Z -> read_varint (varint z ++ rest) = Some (z, rest).
Proof.
  intros Hz. unfold read_varint, varint. rewrite read_varint_loop_written; [|unfold U64 in Hz|lia].
  - by rewrite Z.mod_small.
  - change (2 ^ (7 * Z.of_nat 10))%Z with (2 ^ 70)%Z. lia.
Qed.

Lemma read_varint_loop_consumes fuel bs z rest :
  read_varint_loop fuel bs = Some (z, rest) -> length rest < length bs.
Proof.
  revert bs z rest. induction fuel as [|fuel IH]; intros [|b bs] z rest; simpl; try done.
  destruct (Z.ltb _ _); [intros [= _ <-]; lia|].
  destruct (read_varint_loop fuel bs) as [[z' rest']|] eqn:E; [|done].
  intros [= _ <-]. apply IH in E. lia.
Qed.

Lemma read_varint_consumes bs z rest : read_varint bs = Some (z, rest) ->
  (0 <= z < U64)%Z /\ length rest < length bs.
Proof.
  unfold read_varint. destruct (read_varint_loop 10 bs) as [[z' r]|] eqn:E; [|done].
  intros [= <- <-]. split; [by apply Z.mod_pos_bound|]. by eapply read_varint_loop_consumes.
Qed.

Lemma little_endian_length n z : length (little_endian n z) = n.
Proof. revert z. induction n as [|n IH]; intros z; simpl; [done|]. by rewrite IH. Qed.

Fixpoint read_little_endian (bs : list byte) : Z :=
  match bs with [] => 0 | b :: bs => bZ b + 256 * read_little_endian bs end.

Lemma read_little_endian_written n z : (0 <= z < 2 ^ (8 * Z.of_nat n))%Z ->
  read_little_endian (little_endian n z) = z.
Proof.
  revert z. induction n as [|n IH]; intros z Hz; [simpl in *; lia|]. cbn [little_endian read_little_endian].
  rewrite byte_of_bZ by (by apply Z.mod_pos_bound). rewrite IH.
  - pose proof (Z.div_mod z 256). lia.
  - split; [apply Z.div_pos; lia|]. apply Z.div_lt_upper_bound; [lia|].
    replace (8 * Z.of_nat (S n))%Z with (8 + 8 * Z.of_nat n)%Z in Hz by lia.
    rewrite Z.pow_add_r in Hz by lia. change (2 ^ 8)%Z with 256%Z in Hz. lia.
Qed.

Lemma read_little_endian_range bs : (0 <= read_little_endian bs < 2 ^ (8 * Z.of_nat (length bs)))%Z.
Proof.
  induction bs as [|b bs IH]; [simpl; lia|]. cbn [read_little_endian length].
  pose proof (bZ_range b). replace (8 * Z.of_nat (S (length bs)))%Z with (8 + 8 * Z.of_nat (length bs))%Z by lia.
  rewrite Z.pow_add_r by lia. change (2 ^ 8)%Z with 256%Z. lia.
Qed.

(** ** An instance

    A stream is the bytes left, unknown fields are a list in the order they came. *)

Definition split_at (n : nat) (bs : list byte) : option (list byte * list byte) :=
  if bool_decide (n <= length bs) then Some (take n bs, drop n bs) else None.

Definition read_value (t : WireType) (bs : list byte) : option (Value * list byte) :=
  match t with
  | WireTypeVarint => match read_varint bs with Some (z, r) => Some (VVarint z, r) | None => None end
  | WireTypeFixed64 =>
      match split_at 8 bs with Some (b, r) => Some (VFixed64 (read_little_endian b), r) | None => None end
  | WireTypeFixed32 =>
      match split_at 4 bs with Some (b, r) => Some (VFixed32 (read_little_endian b), r) | None => None end
  | WireTypeLengthDelimited =>
      match read_varint bs with
      | Some (z, r) =>
          if Z.ltb z U32 then
            match split_at (Z.to_nat z) r with
            | Some (b, r) => Some (VLengthDelimited b, r)
            | None => None
            end
          else None
      | None => None
      end
  | _ => None
  end.

Lemma split_at_app (b r : list byte) : split_at (length b) (b ++ r) = Some (b, r).
Proof.
  unfold split_at. rewrite bool_decide_eq_true_2 by (rewrite length_app; lia).
  by rewrite take_app_length, drop_app_length.
Qed.

Lemma split_at_sound n bs b r : split_at n bs = Some (b, r) -> length b = n /\ length r <= length bs.
Proof.
  unfold split_at. case_bool_decide; [|done]. intros [= <- <-].
  rewrite length_take, length_drop. lia.
Qed.

Lemma read_value_written v rest : value_ok v ->
  read_value (value_type v) (value_bytes v ++ rest) = Some (v, rest).
Proof.
  destruct v as [v|v|v|bs]; cbn [value_ok value_type value_bytes read_value]; intros Hv.
  - rewrite <-(little_endian_length 4 v) at 1. rewrite split_at_app, read_little_endian_written; [done|].
    exact Hv.
  - rewrite <-(little_endian_length 8 v) at 1. rewrite split_at_app, read_little_endian_written; [done|].
    exact Hv.
  - by rewrite read_varint_written.
  - rewrite <-app_assoc, read_varint_written by (unfold U64, U32 in *; lia).
    destruct (Z.ltb_spec (Z.of_nat (length bs)) U32); [|lia]. by rewrite Nat2Z.id, split_at_app.
Qed.

Lemma read_value_sound t bs v r : read_value t bs = Some (v, r) ->
  value_ok v /\ value_type v = t /\ length r <= length bs.
Proof.
  destruct t; simpl; try done.
  - destruct (read_varint bs) as [[z r']|] eqn:E; [|done]. intros [= <- <-].
    apply read_varint_consumes in E as [? ?]. simpl. split; [done|]. split; [done|lia].
  - destruct (split_at 8 bs) as [[b r']|] eqn:E; [|done]. intros [= <- <-].
    apply split_at_sound in E as [Hb ?]. split; [|done]. simpl.
    pose proof (read_little_endian_range b) as Hr. rewrite Hb in Hr. exact Hr.
  - destruct (read_varint bs) as [[z r']|] eqn:E; [|done].
    apply read_varint_consumes in E as [? ?]. destruct (Z.ltb_spec z U32); [|done].
    destruct (split_at (Z.to_nat z) r') as [[b r'']|] eqn:E'; [|done]. intros [= <- <-].
    apply split_at_sound in E' as [Hb ?]. split; [simpl; lia|]. split; [done|lia].
  - destruct (split_at 4 bs) as [[b r']|] eqn:E; [|done]. intros [= <- <-].
    apply split_at_sound in E as [Hb ?]. split; [|done]. simpl.
    pose proof (read_little_endian_range b) as Hr. rewrite Hb in Hr. exact Hr.
Qed.

Definition list_read_tag (s : list byte) : Result string ((Z * WireType) * list byte) :=
  match read_varint s with
  | Some (z, r) =>
      match wire_type_of_code (z `mod` 8) with
      | Some t => if bool_decide (number_ok (z / 8)) then Ok ((z / 8, t)%Z, r) else Err "incorrect tag"
      | None => Err "unexpected wire type"
      end
  | None => Err "truncated message"
  end.

Definition list_read_string (t : WireType) (s : list byte) : Result string (string * list byte) :=
  match t, read_value t s with
  | WireTypeLengthDelimited, Some (VLengthDelimited bs, r) =>
      if utf8_valid bs then Ok (String.string_of_list_byte bs, r) else Err "invalid UTF-8"
  | _, _ => Err "unexpected wire type"
  end.

Definition list_read_enum (E : Type) (from_i32 : Z -> option E) (t : WireType) (s : list byte)
    (target : E) (n : Z) (u : list Field) : Result string ((E * list Field) * list byte) :=
  match t, read_value t s with
  | WireTypeVarint, Some (VVarint i, r) =>
      match from_i32 (as_i32 i) with
      | Some e => Ok ((e, u), r)
      | None => Ok ((target, u ++ [(n, VVarint (i32_as_u64 (as_i32 i)))]), r)
      end
  | _, _ => Err "unexpected wire type"
  end.

Definition list_read_unknown (n : Z) (t : WireType) (s : list byte) (u : list Field) :
    Result string (list Field * list byte) :=
  match read_value t s with
  | Some (v, r) => Ok (u ++ [(n, v)], r)
  | None => Err "unexpected wire type"
  end.

#[export] Instance list_runtime : ProtobufRuntime := {
  CodedInputStream := list byte;
  remaining := id;
  UnknownFields := list Field;
  UnknownFields_new := [];
  add_value n v u := u ++ [(n, v)];
  eof s := Ok (bool_decide (s = []), s);
  read_tag_unpack := list_read_tag;
  read_singular_proto3_string_into := list_read_string;
  read_proto3_enum_with_unknown_fields_into := list_read_enum;
  read_unknown_or_skip_group := list_read_unknown;
  string_size n x := Z.of_nat (length (field_bytes (n, VLengthDelimited (as_bytes x))));
  enum_size n i := Z.of_nat (length (field_bytes (n, VVarint (i32_as_u64 i))));
  unknown_fields_size u := Z.of_nat (length (fields_bytes u));
  write_string n x := field_bytes (n, VLengthDelimited (as_bytes x));
  write_enum n i := field_bytes (n, VVarint (i32_as_u64 i));
  write_unknown_fields u := fields_bytes u;
}.

Lemma tag_split n t : (tag n t / 8 = n /\ tag n t `mod` 8 = wire_type_code t)%Z.
Proof.
  unfold tag. rewrite Z.add_comm, Z.mul_comm. rewrite Z.div_add, Z.mod_add by lia.
  destruct t; split; reflexivity.
Qed.

Lemma list_tag_law s n v rest : field_ok (n, v) -> s = varint (tag n (value_type v)) ++ rest ->
  list_read_tag s = Ok ((n, value_type v), rest).
Proof.
  intros [Hn _] ->. unfold list_read_tag. cbn [fst] in Hn.
  rewrite read_varint_written.
  - destruct (tag_split n (value_type v)) as [Hd Hm]. rewrite Hd, Hm, bool_decide_eq_true_2 by done.
    by destruct v.
  - unfold tag, number_ok, U64 in *. destruct (value_type v); simpl; lia.
Qed.

Lemma list_enum_sound E (from_i32 : Z -> option E) t n u w s e u' s' :
  list_read_enum E from_i32 w s t n u = Ok ((e, u'), s') ->
  length s' <= length s /\
  ((exists i, from_i32 i = Some e /\ u' = u) \/
   (exists i, (- 2 ^ 31 <= i < 2 ^ 31)%Z /\ from_i32 i = None /\ e = t /\
      u' = u ++ [(n, VVarint (i32_as_u64 i))])).
Proof.
  unfold list_read_enum. destruct w; try done.
  destruct (read_value WireTypeVarint s) as [[[v|v|v|v] r]|] eqn:Er; try done.
  apply read_value_sound in Er as (_ & _ & Hl).
  destruct (from_i32 (as_i32 v)) eqn:Ef; intros [= <- <- <-]; (split; [done|]); [by eauto|].
  right. exists (as_i32 v). split; [|done]. unfold as_i32, wrap_signed.
  pose proof (Z.mod_pos_bound (v + 2 ^ (32 - 1)) (2 ^ 32)). simpl Z.sub in *. lia.
Qed.

Lemma list_entries_rebuild (u acc : list Field) :
  foldl (fun u f => u ++ [(f.1, f.2)]) acc u = acc ++ u.
Proof.
  revert acc. induction u as [|[n v] u IH]; intros acc; simpl; [by rewrite app_nil_r|].
  rewrite IH. by rewrite <-app_assoc.
Qed.

#[export] Instance list_runtime_laws : RuntimeLaws list_runtime.
Proof.
  refine {| entries := (id : UnknownFields (ProtobufRuntime:=list_runtime) -> list Field) |}.
  - reflexivity.
  - intros n v u. simpl. unfold id. by rewrite Permutation_app_comm.
  - intros u. exact (list_entries_rebuild u []).
  - intros s. by exists s.
  - intros s n v rest H E. exists rest. split; [by apply list_tag_law|done].
  - intros s v rest Hv E. change (s = value_bytes v ++ rest) in E. subst s.
    pose proof (read_value_written v rest Hv) as Hr.
    destruct v; cbn [value_type] in *; cbn -[value_bytes utf8_valid read_value]; unfold list_read_string; rewrite ?Hr; try by eexists.
    destruct (utf8_valid bs); eauto.
  - intros E0 f t n u s v rest Hv E. change (s = value_bytes v ++ rest) in E. subst s.
    pose proof (read_value_written v rest Hv) as Hr.
    destruct v; cbn [value_type] in *; cbn -[value_bytes read_value as_i32]; unfold list_read_enum; rewrite ?Hr; try by eexists.
    destruct (f (as_i32 v)); eauto.
  - intros n u s v rest [_ Hv] E. simpl in *. unfold id in E. subst s. unfold list_read_unknown.
    rewrite read_value_written by done. eauto.
  - intros s n t s' E. simpl in E. unfold list_read_tag in E.
    destruct (read_varint s) as [[z r]|] eqn:Er; [|done].
    destruct (wire_type_of_code _); [|done]. case_bool_decide as Hn; [|done].
    injection E as <- _ <-. split; [done|]. by apply read_varint_consumes in Er as [_ ?].
  - intros t s x s' E. simpl in E. unfold list_read_string in E. destruct t; try done.
    destruct (read_value WireTypeLengthDelimited s) as [[[v|v|v|bs] r]|] eqn:Er; try done.
    apply read_value_sound in Er as (Hv & _ & Hl). destruct (utf8_valid bs) eqn:Eu; [|done].
    injection E as <- <-. rewrite as_bytes_of_list. done.
  - intros E0 f t n u w s e u' s' E. by apply (list_enum_sound E0 f t n u w).
  - intros n w s u u' s' E. simpl in E. unfold list_read_unknown in E.
    destruct (read_value w s) as [[v r]|] eqn:Er; [|done]. injection E as <- <-.
    apply read_value_sound in Er as (Hv & _ & Hl). split; [done|]. right. by exists v.
  - done.
  - done.
  - done.
  - done.
  - done.
  - done.
Defined.
