(* ===== verification/SliceMem.v ===== *)
(** A [GrpcSlice] as the bytes of a [grpc_slice]: src/src/buf.rs over the layout of
    src/grpc-sys/bindings, the memory of large slices being the core's.

    Buf describes slices as values; here the methods read and write the fields of the struct
    and of the union in it, and the slice they represent is the one of Buf. *)

From S2P Require Import Prelude Status Utf8 Buf Layout Bindings Wire.

(** ** Objects and memory *)

Abbreviation heap := (gmap Z byte).

(** Little-endian numbers. *)
Definition le_decode (bs : list byte) : Z := foldr (fun b n => bZ b + 256 * n)%Z 0%Z bs.

Fixpoint le_encode (n : nat) (z : Z) : list byte :=
  match n with
  | 0 => []
  | S n => byte_of (z mod 256) :: le_encode n (z / 256)
  end.

(** The bytes behind a pointer, and writing them. *)
Fixpoint deref (h : heap) (p : Z) (n : nat) : option (list byte) :=
  match n with
  | 0 => Some []
  | S n => match h !! p, deref h (p + 1) n with Some b, Some bs => Some (b :: bs) | _, _ => None end
  end.

Fixpoint poke (h : heap) (p : Z) (bs : list byte) : heap :=
  match bs with
  | [] => h
  | b :: bs => <[p:=b]> (poke h (p + 1) bs)
  end.

(** The fields that the methods use. *)
Definition P_refcount : list step := [Fld "refcount"].
Definition P_length : list step := [Fld "data"; Fld "refcounted"; Fld "length"].
Definition P_bytes : list step := [Fld "data"; Fld "refcounted"; Fld "bytes"].
Definition P_inlined_length : list step := [Fld "data"; Fld "inlined"; Fld "length"].
Definition P_inlined_bytes : list step := [Fld "data"; Fld "inlined"; Fld "bytes"].

Definition field (p : list step) (m : list byte) : list byte := default [] (get grpc_slice p m).
Definition offset (p : list step) : nat := from_option fst 0 (locate grpc_slice p).

(** ** The methods *)

Definition is_null (bs : list byte) : bool := forallb (fun b => bool_decide (b = x00)) bs.

Definition is_inline (self : list byte) : bool := is_null (field P_refcount self).

Definition len (self : list byte) : Z :=
  if negb (is_inline self) then le_decode (field P_length self) else le_decode (field P_inlined_length self).

Definition as_slice (h : heap) (self : list byte) : outcome (list byte) :=
  if negb (is_inline self) then
    match deref h (le_decode (field P_bytes self)) (Z.to_nat (le_decode (field P_length self))) with
    | Some bs => Done bs
    | None => Panicked "invalid memory"
    end
  else
    let n := Z.to_nat (le_decode (field P_inlined_length self)) in
    if bool_decide (n <= length (field P_inlined_bytes self)) then Done (take n (field P_inlined_bytes self))
    else Panicked "range end index out of range".

Definition is_empty (self : list byte) : bool := Z.eqb (len self) 0.

(** Where the caller of [realloc] writes: into the object, or behind a pointer. *)
Inductive buffer :=
| InObject (off n : nat)
| InHeap (p : Z) (n : nat).

Definition buffer_len (b : buffer) : nat := match b with InObject _ n | InHeap _ n => n end.

(** The core's empty slice, and the slice that [grpc_slice_malloc_large] allocates. *)
Class SliceObjects := {
  empty_slice : list byte;
  malloc_large : heap -> nat -> heap * list byte;
}.

Definition realloc `{SliceObjects} (h : heap) (self : list byte) (cap : nat) : heap * list byte * buffer :=
  if bool_decide (cap <= INLINED_SIZE) then
    let self := if negb (is_inline self) then empty_slice else self in
    let self := default self (set grpc_slice P_inlined_length [byte_of (Z.of_nat cap mod 256)] self) in
    (h, self, InObject (offset P_inlined_bytes) cap)
  else
    let '(h, self) := malloc_large h cap in
    (h, self, InHeap (le_decode (field P_bytes self)) (Z.to_nat (le_decode (field P_length self)))).

(** Initialising the first bytes of what [realloc] returned. *)
Definition write_buffer (h : heap) (self : list byte) (b : buffer) (data : list byte) : option (heap * list byte) :=
  if bool_decide (length data <= buffer_len b) then
    Some (match b with
          | InObject off _ => (h, store self off data)
          | InHeap p _ => (poke h p data, self)
          end)
  else None.

(** ** The slice that an object represents *)

Definition represents (h : heap) (m : list byte) (s : GrpcSlice) : Prop :=
  length m = size grpc_slice /\
  match s with
  | Refcounted bs =>
      is_inline m = false /\ le_decode (field P_length m) = Z.of_nat (length bs) /\
      deref h (le_decode (field P_bytes m)) (length bs) = Some bs
  | Inlined n bytes =>
      is_inline m = true /\ le_decode (field P_inlined_length m) = Z.of_nat n /\ field P_inlined_bytes m = bytes
  end.

(** What the core documents of the two. *)
Class SliceObjectsLaws `{O : SliceObjects} (C : SliceCore) : Prop := {
  empty_represents h : represents h empty_slice grpc_empty_slice;
  malloc_represents h cap : (Z.of_nat cap < U64)%Z ->
    exists bs, length bs = cap /\ represents (malloc_large h cap).1 (malloc_large h cap).2 (Refcounted bs);
}.

(** ** Lemmas *)

Lemma lookup_poke_lt h p q bs : (q < p)%Z -> poke h p bs !! q = h !! q.
Proof.
  revert p. induction bs as [|b bs IH]; intros p Hq; cbn [poke]; [done|].
  rewrite lookup_insert_ne by lia. apply IH. lia.
Qed.

Lemma deref_same h h' p n : (forall q, (p <= q)%Z -> h !! q = h' !! q) -> deref h p n = deref h' p n.
Proof.
  revert p. induction n as [|n IH]; intros p H; cbn [deref]; [done|]. rewrite (H p), (IH (p + 1)%Z); [done| |lia].
  intros q Hq. apply H. lia.
Qed.

Lemma deref_length h p n bs : deref h p n = Some bs -> length bs = n.
Proof.
  revert p bs. induction n as [|n IH]; intros p bs; cbn [deref]; [by intros [= <-]|].
  destruct (h !! p), (deref h (p + 1) n) eqn:E; try done. intros [= <-]. cbn. f_equal. by eapply IH.
Qed.

(** Writing into what is there changes the first bytes. *)
Lemma deref_poke data h p n bs : deref h p n = Some bs -> length data <= n ->
  deref (poke h p data) p n = Some (data ++ drop (length data) bs).
Proof.
  revert p n bs. induction data as [|b data IH]; intros p n bs Hd Hn; [done|]. destruct n as [|n]; [cbn in Hn; lia|].
  cbn [poke deref] in *. rewrite lookup_insert_eq. destruct (h !! p) as [c|]; [|done].
  destruct (deref h (p + 1) n) as [bs'|] eqn:E; [|done]. injection Hd as <-.
  rewrite (deref_same _ (poke h (p + 1) data)) by (intros q Hq; by rewrite lookup_insert_ne by lia).
  rewrite (IH _ _ bs'); [done..|]. cbn in Hn. lia.
Qed.

Lemma load_store_prefix m o v n : o + n <= length m -> length v <= n ->
  load (store m o v) o n = v ++ drop (length v) (load m o n).
Proof.
  intros Ho Hv. unfold load, store. rewrite drop_app_length' by (rewrite length_take; lia).
  rewrite take_app_ge by done. f_equal. rewrite skipn_firstn_comm, drop_drop. f_equal; lia.
Qed.

(** Where the fields are. *)
Lemma field_offsets m :
  field P_refcount m = load m 0 8 /\ field P_length m = load m 8 8 /\ field P_bytes m = load m 16 8 /\
  field P_inlined_length m = load m 8 1 /\ field P_inlined_bytes m = load m 9 23.
Proof. done. Qed.

Lemma inlined_length_one z : (0 <= z < 256)%Z -> le_decode [byte_of z] = z.
Proof. intros Hz. unfold le_decode. cbn [foldr]. rewrite byte_of_bZ by done. lia. Qed.

(** Storing at the inline part leaves the reference count. *)
Lemma is_inline_store m o v : length m = 32 -> 8 <= o -> o + length v <= 32 -> is_inline (store m o v) = is_inline m.
Proof.
  intros Hm Ho Hv. unfold is_inline. destruct (field_offsets (store m o v)) as (-> & _). destruct (field_offsets m) as (-> & _).
  by rewrite load_store_other by lia.
Qed.

Section refinement.
Context `{C : SliceCore} `{L : !SliceCoreLaws C} `{O : SliceObjects} `{OL : !SliceObjectsLaws C}.

Lemma represents_len h m s : represents h m s -> len m = Z.of_nat (GrpcSlice_len s) /\ is_inline m = GrpcSlice_is_inline s.
Proof. intros [_ H]. unfold len. destruct s as [bs|n bytes]; destruct H as (Hi & Hl & _); by rewrite Hi. Qed.

Lemma represents_slice h m s : slice_wf s -> represents h m s -> as_slice h m = Done (GrpcSlice_as_slice s).
Proof.
  intros Hwf [_ H]. unfold as_slice. destruct s as [bs|n bytes]; destruct H as (Hi & Hl & Hb); rewrite Hi; cbn [negb].
  - by rewrite Hl, Nat2Z.id, Hb.
  - rewrite Hl, Nat2Z.id, Hb. destruct Hwf as [Hlen Hn]. by rewrite bool_decide_eq_true_2 by lia.
Qed.

(** An inline object with another length. *)
Lemma represents_inline_length h m n bytes cap : represents h m (Inlined n bytes) -> cap <= INLINED_SIZE ->
  exists m', set grpc_slice P_inlined_length [byte_of (Z.of_nat cap mod 256)] m = Some m' /\
    represents h m' (Inlined (cap mod 256) bytes).
Proof.
  intros [Hm (Hi & Hl & Hb)] Hc. unfold INLINED_SIZE in Hc. change (size grpc_slice) with 32 in Hm.
  exists (store m 8 [byte_of (Z.of_nat cap mod 256)]). split; [done|].
  set (v := [byte_of _]). assert (8 + length v <= length m) as Hv by (cbn; lia).
  split; [by rewrite store_length|]. destruct (field_offsets (store m 8 v)) as (_ & _ & _ & -> & ->).
  rewrite is_inline_store by (cbn; lia). split; [done|]. split.
  - change 1 with (length v) at 1. rewrite load_store_same by done. subst v. rewrite Z.mod_small, Nat.mod_small by lia.
    apply inlined_length_one. lia.
  - rewrite load_store_other by (cbn; lia). by destruct (field_offsets m) as (_ & _ & _ & _ & <-).
Qed.

(** Writing into a slice that [realloc] returned is writing into the slice it represents. *)
Lemma write_represents h m s b data : slice_wf s -> represents h m s ->
  b = match s with
      | Refcounted bs => InHeap (le_decode (field P_bytes m)) (length bs)
      | Inlined n _ => InObject 9 n
      end ->
  match write_buffer h m b data, slice_write s data with
  | Some (h', m'), Some s' => represents h' m' s'
  | None, None => True
  | _, _ => False
  end.
Proof.
  intros Hwf [Hm H] ->. unfold write_buffer, slice_write. destruct s as [bs|n bytes]; cbn [buffer_len GrpcSlice_len];
    case_bool_decide as Hd; try done; (split; [by rewrite ?store_length by (destruct Hwf; unfold INLINED_SIZE in *; change (size grpc_slice) with 32 in Hm; lia)|]).
  - destruct H as (Hi & Hl & Hb). split; [done|]. rewrite length_app, length_drop.
    replace (length data + (length bs - length data)) with (length bs) by lia. split; [done|]. by apply deref_poke.
  - destruct H as (Hi & Hl & Hb), Hwf as [Hlen Hn]. unfold INLINED_SIZE in *. change (size grpc_slice) with 32 in Hm.
    destruct (field_offsets (store m 9 data)) as (_ & _ & _ & -> & ->). destruct (field_offsets m) as (_ & _ & _ & El & Eb).
    rewrite is_inline_store by lia. split; [done|]. split; [by rewrite load_store_other by lia; rewrite <-El|].
    rewrite load_store_prefix by lia. by rewrite <-Eb, Hb.
Qed.

(** [realloc] on the object is [realloc] of the slice; of a large one the bytes are what the
    core's memory holds. *)
Lemma realloc_represents h m s cap : slice_wf s -> represents h m s -> (Z.of_nat cap < U64)%Z ->
  exists h' m' b s', realloc h m cap = (h', m', b) /\ represents h' m' s' /\ slice_wf s' /\ GrpcSlice_len s' = cap /\
    buffer_len b = cap /\ (cap <= INLINED_SIZE -> s' = GrpcSlice_realloc s cap) /\
    b = match s' with
        | Refcounted bs => InHeap (le_decode (field P_bytes m')) (length bs)
        | Inlined n _ => InObject 9 n
        end.
Proof.
  intros Hwf Hr Hcap. destruct (realloc_spec s cap Hwf) as [Hwf' Hlen']. unfold realloc, GrpcSlice_realloc in *.
  destruct (represents_len h m s Hr) as [_ Hinl]. case_bool_decide as Hc.
  - assert (exists n bytes m0, (if negb (is_inline m) then empty_slice else m) = m0 /\ represents h m0 (Inlined n bytes) /\
      (if GrpcSlice_is_inline s then s else GrpcSlice_default) = Inlined n bytes) as (n & bytes & m0 & -> & Hr0 & Es).
    { rewrite Hinl. destruct s as [bs|n bytes]; cbn [GrpcSlice_is_inline negb].
      - destruct empty_slice_inline as (bytes & E & _). exists 0, bytes, empty_slice. split; [done|].
        unfold GrpcSlice_default. rewrite <-E. split; [apply empty_represents|done].
      - by exists n, bytes, m. }
    rewrite Es in *. destruct (represents_inline_length h m0 n bytes cap Hr0 Hc) as (m' & -> & Hr').
    exists h, m', (InObject 9 cap), (Inlined (cap mod 256) bytes). cbn [default]. split; [done|]. split; [done|].
    split; [done|]. split; [done|]. split; [done|]. split; [done|]. unfold INLINED_SIZE in Hc. by rewrite Nat.mod_small by lia.
  - destruct (malloc_represents h cap Hcap) as (bs & Hl & Hrep). destruct (malloc_large h cap) as [h' m'].
    cbn [fst snd] in Hrep. pose proof Hrep as [_ (_ & El & _)]. rewrite El, Nat2Z.id, Hl.
    eexists h', m', _, (Refcounted bs). split; [done|]. rewrite Hl. cbn. split; [done|]. done.
Qed.

(** C9: a slice is what the bytes of its object say: the methods of [GrpcSlice], reading the
    reference count and the members of the union, return the length and the bytes of the slice
    that the object represents; [realloc] makes an object of the asked length, reusing an
    inline one in place, and returns a buffer of that length, within the object's bytes or
    behind its pointer; and after the buffer was written the object represents the written
    slice, whose bytes are read back. *)
Theorem slice_object_refines (h : heap) (m : list byte) (s : GrpcSlice) (cap : nat) (data : list byte) :
  slice_wf s -> represents h m s -> (Z.of_nat cap < U64)%Z -> length data = cap ->
  len m = Z.of_nat (GrpcSlice_len s) /\ is_inline m = GrpcSlice_is_inline s /\ is_empty m = GrpcSlice_is_empty s /\
  as_slice h m = Done (GrpcSlice_as_slice s) /\
  exists h1 m1 b s1 h2 m2 s2, realloc h m cap = (h1, m1, b) /\ represents h1 m1 s1 /\ buffer_len b = cap /\
    (cap <= INLINED_SIZE -> s1 = GrpcSlice_realloc s cap) /\
    write_buffer h1 m1 b data = Some (h2, m2) /\ slice_write s1 data = Some s2 /\ represents h2 m2 s2 /\
    as_slice h2 m2 = Done data /\ len m2 = Z.of_nat cap.
Proof.
  intros Hwf Hr Hcap Hdata. destruct (represents_len h m s Hr) as [Hl Hi]. split; [done|]. split; [done|]. split.
  { unfold is_empty, GrpcSlice_is_empty. rewrite Hl. case_bool_decide; lia. }
  split; [by apply represents_slice|].
  destruct (realloc_represents h m s cap Hwf Hr Hcap) as (h1 & m1 & b & s1 & E1 & Hr1 & Hwf1 & Hl1 & Hb & Hre & Eb).
  destruct (slice_write_full s1 data Hwf1) as (s2 & E2 & Hs2 & Hwf2 & Hl2); [congruence|].
  pose proof (write_represents h1 m1 s1 b data Hwf1 Hr1 Eb) as Hw. rewrite E2 in Hw.
  destruct (write_buffer h1 m1 b data) as [[h2 m2]|] eqn:Ew; [|done].
  exists h1, m1, b, s1, h2, m2, s2. split; [done|]. split; [done|]. split; [done|]. split; [done|]. split; [done|]. split; [done|].
  split; [done|]. rewrite (represents_slice h2 m2 s2 Hwf2 Hw), Hs2. split; [done|].
  destruct (represents_len h2 m2 s2 Hw) as [-> _]. congruence.
Qed.
End refinement.

(** ** A concrete core *)

Lemma le_encode_length n z : length (le_encode n z) = n.
Proof. revert z. induction n as [|n IH]; intros z; cbn; [done|]. by rewrite IH. Qed.

Lemma le_round_trip n z : (0 <= z < 256 ^ Z.of_nat n)%Z -> le_decode (le_encode n z) = z.
Proof.
  revert z. induction n as [|n IH]; intros z Hz.
  - cbn in *. lia.
  - cbn [le_encode]. change (le_decode (?b :: ?bs)) with (bZ b + 256 * le_decode bs)%Z.
    rewrite byte_of_bZ by (apply Z.mod_pos_bound; lia). rewrite IH.
    + pose proof (Z.div_mod z 256). lia.
    + rewrite Nat2Z.inj_succ, Z.pow_succ_r in Hz by lia.
      split; [apply Z.div_pos; lia|]. apply Z.div_lt_upper_bound; lia.
Qed.

(** The object of a large slice at address [p]. *)
Definition large_object (p : Z) (n : nat) : list byte :=
  le_encode 8 1 ++ le_encode 8 (Z.of_nat n) ++ le_encode 8 p ++ replicate 8 x00.

#[export] Instance demo_objects : SliceObjects := {|
  empty_slice := replicate 32 x00;
  malloc_large h cap := (poke h 4096 (replicate cap x00), large_object 4096 cap);
|}.

Lemma deref_poke_new bs h p : deref (poke h p bs) p (length bs) = Some bs.
Proof.
  revert p. induction bs as [|b bs IH]; intros p; [done|]. cbn [poke deref length]. rewrite lookup_insert_eq.
  rewrite (deref_same _ (poke h (p + 1) bs)) by (intros q Hq; by rewrite lookup_insert_ne by lia). by rewrite IH.
Qed.

#[export] Instance demo_objects_laws : SliceObjectsLaws list_core.
Proof.
  split; [intros h; by vm_compute|]. intros h cap Hcap. exists (replicate cap x00). split; [apply length_replicate|].
  cbn [malloc_large demo_objects fst snd]. unfold large_object.
  assert (length (le_encode 8 (Z.of_nat cap)) = 8) as Hl by apply le_encode_length.
  pose proof (le_round_trip 8 (Z.of_nat cap)) as Ht. destruct (le_encode 8 (Z.of_nat cap)) as [|b0 [|b1 [|b2 [|b3 [|b4 [|b5 [|b6 [|b7 [|]]]]]]]]]; try done.
  split; [done|]. split; [done|]. rewrite length_replicate.
  split; [apply Ht; unfold U64 in Hcap; lia|].
  change (le_decode (field P_bytes _)) with 4096%Z.
  rewrite <-(length_replicate cap x00) at 2. apply deref_poke_new.
Qed.

Lemma slice_object_refines_witness :
  represents ∅ (replicate 32 x00) (Inlined 0 (replicate 23 x00)) /\
  exists h1 m1 b h2 m2, realloc ∅ (replicate 32 x00) 5 = (h1, m1, b) /\
    write_buffer h1 m1 b (as_bytes "hello") = Some (h2, m2) /\ as_slice h2 m2 = Done (as_bytes "hello").
Proof.
  assert (represents ∅ (replicate 32 x00) (Inlined 0 (replicate 23 x00))) as H by (by vm_compute). split; [exact H|].
  destruct (slice_object_refines ∅ (replicate 32 x00) (Inlined 0 (replicate 23 x00)) 5 (as_bytes "hello"))
    as (_ & _ & _ & _ & h1 & m1 & b & s1 & h2 & m2 & s2 & E1 & _ & _ & _ & E2 & _ & _ & E3 & _);
    [split; [done|unfold INLINED_SIZE; lia]|exact H|by vm_compute|done|].
  exists h1, m1, b, h2, m2. done.
Defined.

(** A slice that grows from the object into the core's memory, and back. *)
Example demo_slice_object :
  let '(h1, m1, b1) := realloc ∅ empty_slice 5 in
  let '(h2, m2) := default (h1, m1) (write_buffer h1 m1 b1 (as_bytes "hello")) in
  let '(h3, m3, b3) := realloc h2 m2 40 in
  let '(h4, m4, b4) := realloc h3 m3 2 in
  (take 14 m2, as_slice h2 m2, b3, len m3, is_inline m3, b4, is_inline m4) =
  (replicate 8 x00 ++ [x05] ++ as_bytes "hello", Done (as_bytes "hello"), InHeap 4096 40, 40%Z, false, InObject 9 2, true).
Proof. vm_compute. reflexivity. Qed.
