(* ===== verification/HealthProto.v ===== *)
(** The messages of the health protocol (health/src/proto/protobuf/health.rs): their fields
    and accessors, reading them from a stream, their sizes and writing them, over any
    protobuf runtime that follows the wire format (Wire).

    [clear] and the accessors that borrow a field return the message they leave.  A reading
    that fails drops the message, as [pb_codec::de] does. *)

From S2P Require Import Prelude Status Utf8 Task Health Wire.

Local Open Scope rust_scope.

Section messages.
Context `{R : ProtobufRuntime}.

(** ** The messages *)

(** The size found last is kept in the message; equality of messages ignores it. *)
Record HealthCheckRequest := mkRequest {
  service : string;
  rq_unknown_fields : UnknownFields;
  rq_cached_size : Z;
}.

Definition HealthCheckRequest_new : HealthCheckRequest := mkRequest "" UnknownFields_new 0.

Definition get_service (self : HealthCheckRequest) : string := service self.

(** What [mut_service] lets its caller do. *)
Definition mut_service (f : string -> string) (self : HealthCheckRequest) : HealthCheckRequest :=
  mkRequest (f (service self)) (rq_unknown_fields self) (rq_cached_size self).

Definition set_service (v : string) : HealthCheckRequest -> HealthCheckRequest := mut_service (fun _ => v).

Definition clear_service : HealthCheckRequest -> HealthCheckRequest := mut_service (fun _ => "").

Definition take_service (self : HealthCheckRequest) : string * HealthCheckRequest :=
  (service self, set_service "" self).

Definition HealthCheckRequest_clear (self : HealthCheckRequest) : HealthCheckRequest :=
  mkRequest "" UnknownFields_new (rq_cached_size self).

Record HealthCheckResponse := mkResponse {
  status : ServingStatus;
  rs_unknown_fields : UnknownFields;
  rs_cached_size : Z;
}.

Definition ServingStatus_default : ServingStatus := Unknown.

Definition HealthCheckResponse_new : HealthCheckResponse :=
  mkResponse ServingStatus_default UnknownFields_new 0.

Definition get_status (self : HealthCheckResponse) : ServingStatus := status self.

Definition set_status (v : ServingStatus) (self : HealthCheckResponse) : HealthCheckResponse :=
  mkResponse v (rs_unknown_fields self) (rs_cached_size self).

Definition clear_status : HealthCheckResponse -> HealthCheckResponse := set_status Unknown.

Definition HealthCheckResponse_clear (self : HealthCheckResponse) : HealthCheckResponse :=
  mkResponse Unknown UnknownFields_new (rs_cached_size self).

(** [ServingStatus::value] and [values]. *)
Definition ServingStatus_value (s : ServingStatus) : Z :=
  match s with Unknown => 0 | Serving => 1 | NotServing => 2 | ServiceUnknown => 3 end.

Definition ServingStatus_values : list ServingStatus := [Unknown; Serving; NotServing; ServiceUnknown].

(** ** Reading *)

(** The loop of [merge_from]: a tag and its field until the end of the stream. *)
Fixpoint merge_loop {T} (field : Z -> WireType -> T -> CodedInputStream -> Result string (T * CodedInputStream))
    (fuel : nat) (self : T) (st : CodedInputStream) : option (Result string (T * CodedInputStream)) :=
  match fuel with
  | 0 => None
  | S fuel =>
      match eof st with
      | Err e => Some (Err e)
      | Ok (true, st) => Some (Ok (self, st))
      | Ok (false, st) =>
          match read_tag_unpack st with
          | Err e => Some (Err e)
          | Ok ((field_number, wire_type), st) =>
              match field field_number wire_type self st with
              | Err e => Some (Err e)
              | Ok (self, st) => merge_loop field fuel self st
              end
          end
      end
  end.

Definition request_field (field_number : Z) (wire_type : WireType) (self : HealthCheckRequest)
    (st : CodedInputStream) : Result string (HealthCheckRequest * CodedInputStream) :=
  if Z.eqb field_number 1 then
    match read_singular_proto3_string_into wire_type st with
    | Ok (v, st) => Ok (set_service v self, st)
    | Err e => Err e
    end
  else
    match read_unknown_or_skip_group field_number wire_type st (rq_unknown_fields self) with
    | Ok (u, st) => Ok (mkRequest (service self) u (rq_cached_size self), st)
    | Err e => Err e
    end.

Definition response_field (field_number : Z) (wire_type : WireType) (self : HealthCheckResponse)
    (st : CodedInputStream) : Result string (HealthCheckResponse * CodedInputStream) :=
  if Z.eqb field_number 1 then
    match read_proto3_enum_with_unknown_fields_into ServingStatus ServingStatus_from_i32 wire_type st
            (status self) 1 (rs_unknown_fields self) with
    | Ok ((e, u), st) => Ok (mkResponse e u (rs_cached_size self), st)
    | Err e => Err e
    end
  else
    match read_unknown_or_skip_group field_number wire_type st (rs_unknown_fields self) with
    | Ok (u, st) => Ok (mkResponse (status self) u (rs_cached_size self), st)
    | Err e => Err e
    end.

(** Every round of the loop reads at least one byte. *)
Definition HealthCheckRequest_merge_from (self : HealthCheckRequest) (st : CodedInputStream) :=
  merge_loop request_field (S (length (remaining st))) self st.

Definition HealthCheckResponse_merge_from (self : HealthCheckResponse) (st : CodedInputStream) :=
  merge_loop response_field (S (length (remaining st))) self st.

(** ** Sizes and writing *)

(** [my_size += n] of a [u32]; [checks]: whether overflow panics. *)
Definition HealthCheckRequest_compute_size (checks : bool) (self : HealthCheckRequest) :
    outcome (Z * HealthCheckRequest) :=
  let+ my_size :=
    if bool_decide (service self = "") then Done 0%Z
    else checked_u checks U32 (0 + string_size 1 (service self)) in
  let+ my_size := checked_u checks U32 (my_size + unknown_fields_size (rq_unknown_fields self)) in
  Done (my_size, mkRequest (service self) (rq_unknown_fields self) my_size).

Definition HealthCheckRequest_write_to (self : HealthCheckRequest) (os : list byte) : list byte :=
  let os := if bool_decide (service self = "") then os else os ++ write_string 1 (service self) in
  os ++ write_unknown_fields (rq_unknown_fields self).

Definition HealthCheckResponse_compute_size (checks : bool) (self : HealthCheckResponse) :
    outcome (Z * HealthCheckResponse) :=
  let+ my_size :=
    if bool_decide (status self = Unknown) then Done 0%Z
    else checked_u checks U32 (0 + enum_size 1 (ServingStatus_value (status self))) in
  let+ my_size := checked_u checks U32 (my_size + unknown_fields_size (rs_unknown_fields self)) in
  Done (my_size, mkResponse (status self) (rs_unknown_fields self) my_size).

Definition HealthCheckResponse_write_to (self : HealthCheckResponse) (os : list byte) : list byte :=
  let os := if bool_decide (status self = Unknown) then os
            else os ++ write_enum 1 (ServingStatus_value (status self)) in
  os ++ write_unknown_fields (rs_unknown_fields self).

(** ** What reading means

    A message is changed by the fields of the stream one after another, [None] when one of
    them makes the reading fail. *)

Definition apply_fields {T} (spec : T -> Field -> option T) (m : T) (fs : list Field) : option T :=
  foldl (fun acc f => match acc with Some m => spec m f | None => None end) (Some m) fs.

Definition request_spec (m : HealthCheckRequest) (f : Field) : option HealthCheckRequest :=
  match f with
  | (n, v) =>
      if Z.eqb n 1 then
        match v with
        | VLengthDelimited bs =>
            if utf8_valid bs then Some (set_service (String.string_of_list_byte bs) m) else None
        | _ => None
        end
      else Some (mkRequest (service m) (add_value n v (rq_unknown_fields m)) (rq_cached_size m))
  end.

Definition response_spec (m : HealthCheckResponse) (f : Field) : option HealthCheckResponse :=
  match f with
  | (n, v) =>
      if Z.eqb n 1 then
        match v with
        | VVarint i =>
            match ServingStatus_from_i32 (as_i32 i) with
            | Some e => Some (set_status e m)
            | None => Some (mkResponse (status m)
                (add_value 1 (VVarint (i32_as_u64 (as_i32 i))) (rs_unknown_fields m)) (rs_cached_size m))
            end
        | _ => None
        end
      else Some (mkResponse (status m) (add_value n v (rs_unknown_fields m)) (rs_cached_size m))
  end.

Definition merge_result {T} (m : option T) (r : option (Result string (T * CodedInputStream))) : Prop :=
  match m with
  | Some m => exists st, r = Some (Ok (m, st)) /\ remaining st = []
  | None => exists e, r = Some (Err e)
  end.

(** What a loop over [field] makes of the fields [fs]: all are applied and the stream is at
    its end; or those before the first bad one [(n, v)] are, reading its value after its tag
    fails, and that error is returned. *)
Definition reads_as {T} (field : Z -> WireType -> T -> CodedInputStream -> Result string (T * CodedInputStream))
    (spec : T -> Field -> option T) (m : T) (fs : list Field)
    (r : option (Result string (T * CodedInputStream))) : Prop :=
  match apply_fields spec m fs with
  | Some m' => exists st, r = Some (Ok (m', st)) /\ remaining st = []
  | None => exists good n v rest m' st e, fs = good ++ (n, v) :: rest /\
      apply_fields spec m good = Some m' /\ spec m' (n, v) = None /\
      remaining st = value_bytes v ++ fields_bytes rest /\
      field n (value_type v) m' st = Err e /\ r = Some (Err e)
  end.

Context `{L : !RuntimeLaws R}.

(** The messages that reading makes. *)
Definition request_wf (m : HealthCheckRequest) : Prop :=
  utf8_valid (as_bytes (service m)) = true /\
  Forall (fun f => field_ok f /\ f.1 <> 1%Z) (entries (rq_unknown_fields m)).

Definition unknown_status (f : Field) : Prop :=
  f.1 = 1%Z -> exists i, (- 2 ^ 31 <= i < 2 ^ 31)%Z /\ ServingStatus_from_i32 i = None /\
    f.2 = VVarint (i32_as_u64 i).

Definition response_wf (m : HealthCheckResponse) : Prop :=
  Forall (fun f => field_ok f /\ unknown_status f) (entries (rs_unknown_fields m)).

(** ** The loop *)

Lemma field_bytes_length f : 1 <= length (field_bytes f).
Proof.
  unfold field_bytes. rewrite length_app. pose proof (varint_nonempty (tag f.1 (value_type f.2))).
  destruct (varint _); [done|]. simpl. lia.
Qed.

Lemma fields_bytes_cons f fs : fields_bytes (f :: fs) = field_bytes f ++ fields_bytes fs.
Proof. done. Qed.

Lemma fields_bytes_length fs : length fs <= length (fields_bytes fs).
Proof.
  induction fs as [|f fs IH]; [simpl; lia|]. rewrite fields_bytes_cons, length_app.
  pose proof (field_bytes_length f). simpl. lia.
Qed.

Lemma apply_fields_None {T} (spec : T -> Field -> option T) fs :
  foldl (fun acc f => match acc with Some m => spec m f | None => None end) None fs = None.
Proof. by induction fs. Qed.

Lemma apply_fields_cons {T} (spec : T -> Field -> option T) m f m' fs :
  spec m f = Some m' -> apply_fields spec m (f :: fs) = apply_fields spec m' fs.
Proof. intros E. unfold apply_fields. cbn [foldl]. by rewrite E. Qed.

Lemma reads_as_result {T} field (spec : T -> Field -> option T) m fs r :
  reads_as field spec m fs r -> merge_result (apply_fields spec m fs) r.
Proof.
  unfold reads_as, merge_result. destruct (apply_fields spec m fs); [done|].
  intros (_ & _ & _ & _ & _ & _ & e & _ & _ & _ & _ & _ & ->). by exists e.
Qed.

Section loop.
Context {T : Type} (field : Z -> WireType -> T -> CodedInputStream -> Result string (T * CodedInputStream)).

(** A loop whose fields are read as the specification says, on a stream of fields. *)
Lemma merge_loop_fields (spec : T -> Field -> option T) fs fuel m st :
  (forall m n v st rest, field_ok (n, v) -> remaining st = value_bytes v ++ rest ->
     match spec m (n, v) with
     | Some m' => exists st', field n (value_type v) m st = Ok (m', st') /\ remaining st' = rest
     | None => exists e, field n (value_type v) m st = Err e
     end) ->
  Forall field_ok fs -> remaining st = fields_bytes fs -> length fs < fuel ->
  reads_as field spec m fs (merge_loop field fuel m st).
Proof.
  intros Hf Hok. revert m st fuel. induction Hok as [|[n v] fs Hfv Hok IH]; intros m st fuel Hr Hfuel.
  - destruct fuel as [|fuel]; [simpl in Hfuel; lia|]. cbn [merge_loop].
    destruct (eof_law st) as (st' & -> & Hr'). rewrite bool_decide_eq_true_2 by done.
    exists st'. by rewrite Hr', Hr.
  - destruct fuel as [|fuel]; [simpl in Hfuel; lia|]. cbn [merge_loop].
    destruct (eof_law st) as (st' & -> & Hr').
    rewrite fields_bytes_cons in Hr. unfold field_bytes in Hr. cbn [fst snd] in Hr.
    rewrite <-app_assoc in Hr.
    rewrite bool_decide_eq_false_2.
    2: { intros E. rewrite E in Hr. symmetry in Hr. apply app_nil in Hr as [Hr _].
         by apply varint_nonempty in Hr. }
    destruct (tag_law st' n v (value_bytes v ++ fields_bytes fs)) as (st2 & -> & Hr2);
      [done|by rewrite Hr'|].
    specialize (Hf m n v st2 (fields_bytes fs) Hfv Hr2).
    destruct (spec m (n, v)) as [m'|] eqn:Es.
    + destruct Hf as (st3 & -> & Hr3). pose proof (IH m' st3 fuel Hr3 ltac:(simpl in Hfuel; lia)) as H.
      unfold reads_as in *. rewrite (apply_fields_cons spec m (n, v) m' fs Es).
      destruct (apply_fields spec m' fs); [exact H|].
      destruct H as (good & n' & v' & rest & m'' & st4 & e & -> & Hg & H). exists ((n, v) :: good), n', v', rest, m'', st4, e.
      split; [done|]. split; [by rewrite (apply_fields_cons spec m (n, v) m' good Es)|done].
    + destruct Hf as (e & He). rewrite He. unfold reads_as. unfold apply_fields at 1. cbn [foldl].
      rewrite Es, apply_fields_None. by exists [], n, v, fs, m, st2, e.
Qed.

(** A loop on any stream returns, and keeps what its fields keep. *)
Lemma merge_loop_total (I : T -> Prop) fuel m st :
  (forall m n w st m' st', number_ok n -> I m -> field n w m st = Ok (m', st') ->
     I m' /\ length (remaining st') <= length (remaining st)) ->
  I m -> length (remaining st) < fuel ->
  exists r, merge_loop field fuel m st = Some r /\ forall m' st', r = Ok (m', st') -> I m'.
Proof.
  intros Hf. revert m st. induction fuel as [|fuel IH]; intros m st Hm Hl; [lia|]. cbn [merge_loop].
  destruct (eof_law st) as (st1 & -> & Hr1). case_bool_decide.
  { eexists. split; [done|]. by intros m' st' [= <- <-]. }
  destruct (read_tag_unpack st1) as [[[n w] st2]|e] eqn:Et; [|by eexists].
  apply tag_sound in Et as [Hn Hlt].
  destruct (field n w m st2) as [[m' st3]|e] eqn:Ef; [|by eexists].
  apply Hf in Ef as [Hm' Hle]; [|done..]. apply IH; [done|]. rewrite Hr1 in Hlt. lia.
Qed.
End loop.

(** ** The fields *)

Lemma request_field_spec m n v st rest : field_ok (n, v) -> remaining st = value_bytes v ++ rest ->
  match request_spec m (n, v) with
  | Some m' => exists st', request_field n (value_type v) m st = Ok (m', st') /\ remaining st' = rest
  | None => exists e, request_field n (value_type v) m st = Err e
  end.
Proof.
  intros Hok Hr. unfold request_spec, request_field. destruct (Z.eqb n 1).
  - pose proof (string_law st v rest (proj2 Hok) Hr) as Hs.
    destruct v; try (destruct Hs as (e & ->); by exists e).
    destruct (utf8_valid bs); [destruct Hs as (st' & -> & ?)|destruct Hs as (e & ->)]; by eexists.
  - destruct (unknown_law n (rq_unknown_fields m) st v rest Hok Hr) as (st' & -> & ?). by eexists.
Qed.

Lemma response_field_spec m n v st rest : field_ok (n, v) -> remaining st = value_bytes v ++ rest ->
  match response_spec m (n, v) with
  | Some m' => exists st', response_field n (value_type v) m st = Ok (m', st') /\ remaining st' = rest
  | None => exists e, response_field n (value_type v) m st = Err e
  end.
Proof.
  intros Hok Hr. unfold response_spec, response_field. destruct (Z.eqb n 1).
  - pose proof (enum_law ServingStatus ServingStatus_from_i32 (status m) 1 (rs_unknown_fields m) st v rest
      (proj2 Hok) Hr) as Hs.
    destruct v; try (destruct Hs as (e & ->); by exists e). destruct Hs as (st' & -> & ?).
    destruct (ServingStatus_from_i32 (as_i32 v)); by eexists.
  - destruct (unknown_law n (rs_unknown_fields m) st v rest Hok Hr) as (st' & -> & ?). by eexists.
Qed.

Lemma i32_u64_range i : (0 <= i32_as_u64 i < U64)%Z.
Proof. by apply Z.mod_pos_bound. Qed.

Lemma as_i32_back i : (- 2 ^ 31 <= i < 2 ^ 31)%Z -> as_i32 (i32_as_u64 i) = i.
Proof.
  intros Hi. unfold as_i32, i32_as_u64, wrap_signed, U64. change (32 - 1)%Z with 31%Z.
  replace ((i `mod` 2 ^ 64 + 2 ^ 31) `mod` 2 ^ 32)%Z with ((i + 2 ^ 31) `mod` 2 ^ 32)%Z.
  - rewrite Z.mod_small by lia. lia.
  - rewrite (Z.div_mod i (2 ^ 64)) at 1 by lia.
    replace (2 ^ 64 * (i / 2 ^ 64) + i `mod` 2 ^ 64 + 2 ^ 31)%Z
      with (i `mod` 2 ^ 64 + 2 ^ 31 + (2 ^ 32 * (i / 2 ^ 64)) * 2 ^ 32)%Z by lia.
    by rewrite Z.mod_add by lia.
Qed.

Lemma unknown_add_Forall (P : Field -> Prop) n v u :
  P (n, v) -> Forall P (entries u) -> Forall P (entries (add_value n v u)).
Proof. intros ? ?. rewrite entries_add. by constructor. Qed.

Lemma request_field_wf m n w st m' st' : number_ok n -> request_wf m ->
  request_field n w m st = Ok (m', st') -> request_wf m' /\ length (remaining st') <= length (remaining st).
Proof.
  intros Hn [Hu Hw] E. unfold request_field in E. destruct (Z.eqb_spec n 1) as [->|Hne].
  - destruct (read_singular_proto3_string_into w st) as [[x st1]|] eqn:Er; [|done].
    injection E as <- <-. apply string_sound in Er as (Hx & _ & Hl). done.
  - destruct (read_unknown_or_skip_group n w st _) as [[u st1]|] eqn:Er; [|done].
    injection E as <- <-. apply unknown_sound in Er as (Hl & [->|(v & Hv & ->)]); [done|].
    split; [|done]. split; [done|]. by apply unknown_add_Forall.
Qed.

Lemma response_field_wf m n w st m' st' : number_ok n -> response_wf m ->
  response_field n w m st = Ok (m', st') -> response_wf m' /\ length (remaining st') <= length (remaining st).
Proof.
  intros Hn Hw E. unfold response_field in E. destruct (Z.eqb_spec n 1) as [->|Hne].
  - destruct (read_proto3_enum_with_unknown_fields_into _ _ w st _ _ _) as [[[x u] st1]|] eqn:Er; [|done].
    injection E as <- <-.
    apply enum_sound in Er as (Hl & [(i & _ & ->)|(i & Hi & Hnone & _ & ->)]); (split; [|done]); [done|].
    apply unknown_add_Forall; [|done]. split; [|by exists i].
    split; [done|]. simpl. apply i32_u64_range.
  - destruct (read_unknown_or_skip_group n w st _) as [[u st1]|] eqn:Er; [|done].
    injection E as <- <-. apply unknown_sound in Er as (Hl & [->|(v & Hv & ->)]); [done|].
    split; [|done]. apply unknown_add_Forall; [|done]. by split; [|intros ?].
Qed.

(** Reading the unknown fields a message has written. *)
Lemma request_apply_unknown fs s u c :
  Forall (fun f => field_ok f /\ f.1 <> 1%Z) fs ->
  apply_fields request_spec (mkRequest s u c) fs =
    Some (mkRequest s (foldl (fun u f => add_value f.1 f.2 u) u fs) c).
Proof.
  intros Hf. revert u. induction Hf as [|[n v] fs [_ Hne] _ IH]; intros u; [done|].
  unfold apply_fields. cbn [foldl request_spec fst snd] in *.
  destruct (Z.eqb_spec n 1); [done|]. apply IH.
Qed.

Lemma response_apply_unknown fs s u c :
  Forall (fun f => field_ok f /\ unknown_status f) fs ->
  apply_fields response_spec (mkResponse s u c) fs =
    Some (mkResponse s (foldl (fun u f => add_value f.1 f.2 u) u fs) c).
Proof.
  intros Hf. revert u. induction Hf as [|[n v] fs [_ Hne] _ IH]; intros u; [done|].
  unfold apply_fields. cbn [foldl response_spec fst snd] in *.
  destruct (Z.eqb_spec n 1) as [->|]; [|apply IH].
  destruct (Hne eq_refl) as (i & Hi & Hnone & Hv). cbn [snd] in Hv. subst v.
  rewrite as_i32_back by done. rewrite Hnone. apply IH.
Qed.

Lemma ok_entries (P : Field -> Prop) fs : Forall (fun f => field_ok f /\ P f) fs -> Forall field_ok fs.
Proof. intros Hf. eapply Forall_impl; [exact Hf|]. by intros f [? _]. Qed.

(** The fields a message is written as. *)
Definition request_fields (m : HealthCheckRequest) : list Field :=
  (if bool_decide (service m = "") then [] else [(1%Z, VLengthDelimited (as_bytes (service m)))]) ++
  entries (rq_unknown_fields m).

Definition response_fields (m : HealthCheckResponse) : list Field :=
  (if bool_decide (status m = Unknown) then []
   else [(1%Z, VVarint (i32_as_u64 (ServingStatus_value (status m))))]) ++
  entries (rs_unknown_fields m).

Lemma fields_bytes_app fs gs : fields_bytes (fs ++ gs) = fields_bytes fs ++ fields_bytes gs.
Proof. unfold fields_bytes. by rewrite fmap_app, concat_app. Qed.

Lemma fields_bytes_one f : fields_bytes [f] = field_bytes f.
Proof. unfold fields_bytes. simpl. apply app_nil_r. Qed.

Lemma request_written m os : HealthCheckRequest_write_to m os = os ++ fields_bytes (request_fields m).
Proof.
  unfold HealthCheckRequest_write_to, request_fields. rewrite fields_bytes_app, write_unknown_law.
  case_bool_decide; [done|]. rewrite fields_bytes_one, write_string_law. by rewrite app_assoc.
Qed.

Lemma response_written m os : HealthCheckResponse_write_to m os = os ++ fields_bytes (response_fields m).
Proof.
  unfold HealthCheckResponse_write_to, response_fields. rewrite fields_bytes_app, write_unknown_law.
  case_bool_decide; [done|]. rewrite fields_bytes_one, write_enum_law. by rewrite app_assoc.
Qed.

(** The size of what is written, when it is one. *)
Lemma checked_add checks x : (0 <= x < U32)%Z -> checked_u checks U32 x = Done x.
Proof.
  intros Hx. unfold checked_u. rewrite bool_decide_eq_true_2, Z.mod_small by done. by destruct checks.
Qed.

Lemma request_size checks m : (Z.of_nat (length (HealthCheckRequest_write_to m [])) < U32)%Z ->
  HealthCheckRequest_compute_size checks m =
    Done (Z.of_nat (length (HealthCheckRequest_write_to m [])),
          mkRequest (service m) (rq_unknown_fields m) (Z.of_nat (length (HealthCheckRequest_write_to m [])))).
Proof.
  rewrite request_written. simpl. unfold request_fields, HealthCheckRequest_compute_size.
  rewrite fields_bytes_app, length_app, Nat2Z.inj_add. intros Hl.
  rewrite unknown_size_law by lia. case_bool_decide.
  - cbn [obind]. rewrite checked_add by (simpl in *; lia). done.
  - rewrite fields_bytes_one in *. rewrite string_size_law by lia. rewrite checked_add by lia.
    cbn [obind]. rewrite checked_add by lia. done.
Qed.

Lemma response_size checks m : (Z.of_nat (length (HealthCheckResponse_write_to m [])) < U32)%Z ->
  HealthCheckResponse_compute_size checks m =
    Done (Z.of_nat (length (HealthCheckResponse_write_to m [])),
          mkResponse (status m) (rs_unknown_fields m) (Z.of_nat (length (HealthCheckResponse_write_to m [])))).
Proof.
  rewrite response_written. simpl. unfold response_fields, HealthCheckResponse_compute_size.
  rewrite fields_bytes_app, length_app, Nat2Z.inj_add. intros Hl.
  rewrite unknown_size_law by lia. case_bool_decide.
  - cbn [obind]. rewrite checked_add by (simpl in *; lia). done.
  - rewrite fields_bytes_one in *. rewrite enum_size_law. rewrite checked_add by lia.
    cbn [obind]. rewrite checked_add by lia. done.
Qed.

(** ** The theorems *)

Lemma merge_fields (fs : list Field) (rq : HealthCheckRequest) (rs : HealthCheckResponse)
    (st : CodedInputStream) :
  Forall field_ok fs -> remaining st = fields_bytes fs ->
  reads_as request_field request_spec rq fs (HealthCheckRequest_merge_from rq st) /\
  reads_as response_field response_spec rs fs (HealthCheckResponse_merge_from rs st).
Proof.
  intros Hok Hr. pose proof (fields_bytes_length fs) as Hl. rewrite <-Hr in Hl.
  split; (apply merge_loop_fields; [| done | done | by apply le_n_S]).
  - apply request_field_spec.
  - apply response_field_spec.
Qed.

(** C25: reading a message is what the fields of the stream mean, whatever their order and
    however often they occur: the last [service] or [status] counts, a field of another
    number or a status of an unknown number is kept as an unknown field; a field 1 of
    another type or a service that is not UTF-8 makes the reading fail, with the error of the
    first such field, read with the message that the fields before it made. *)
Theorem health_merge_spec (fs : list Field) (rq : HealthCheckRequest) (rs : HealthCheckResponse)
    (st : CodedInputStream) :
  Forall field_ok fs -> remaining st = fields_bytes fs ->
  reads_as request_field request_spec rq fs (HealthCheckRequest_merge_from rq st) /\
  reads_as response_field response_spec rs fs (HealthCheckResponse_merge_from rs st).
Proof. apply merge_fields. Qed.

(** A message is read back from the fields it is written as. *)
Lemma request_apply_written m : request_wf m ->
  apply_fields request_spec HealthCheckRequest_new (request_fields m) =
    Some (mkRequest (service m) (rq_unknown_fields m) 0).
Proof.
  intros [Hu Hw].
  transitivity (apply_fields request_spec (mkRequest (service m) UnknownFields_new 0)
    (entries (rq_unknown_fields m))).
  - unfold request_fields, apply_fields. rewrite foldl_app. f_equal.
    case_bool_decide as Hs; [by rewrite Hs|]. cbn [foldl request_spec Z.eqb Pos.eqb].
    rewrite Hu, of_list_as_bytes. done.
  - rewrite request_apply_unknown by done. by rewrite entries_rebuild.
Qed.

Lemma status_value_i32 s : ServingStatus_from_i32 (as_i32 (i32_as_u64 (ServingStatus_value s))) = Some s.
Proof. by destruct s. Qed.

Lemma response_apply_written m : response_wf m ->
  apply_fields response_spec HealthCheckResponse_new (response_fields m) =
    Some (mkResponse (status m) (rs_unknown_fields m) 0).
Proof.
  intros Hw.
  transitivity (apply_fields response_spec (mkResponse (status m) UnknownFields_new 0)
    (entries (rs_unknown_fields m))).
  - unfold response_fields, apply_fields. rewrite foldl_app. f_equal.
    case_bool_decide as Hs; [by rewrite Hs|]. cbn [foldl response_spec Z.eqb Pos.eqb].
    by rewrite status_value_i32.
  - rewrite response_apply_unknown by done. by rewrite entries_rebuild.
Qed.

Lemma request_fields_ok m : request_wf m ->
  (Z.of_nat (length (HealthCheckRequest_write_to m [])) < U32)%Z -> Forall field_ok (request_fields m).
Proof.
  intros [_ Hw] Hl. apply Forall_app. split; [|by apply (ok_entries _ _ Hw)]. revert Hl.
  rewrite request_written. unfold request_fields. case_bool_decide; [constructor|].
  rewrite fields_bytes_app, fields_bytes_one. unfold field_bytes. cbn [fst snd value_bytes].
  rewrite !length_app. intros Hl. constructor; [|constructor]. split; [done|]. simpl. lia.
Qed.

Lemma response_fields_ok m : response_wf m -> Forall field_ok (response_fields m).
Proof.
  intros Hw. apply Forall_app. split; [|by eapply ok_entries].
  case_bool_decide; [constructor|]. constructor; [|constructor]. split; [done|]. apply i32_u64_range.
Qed.

Lemma request_round_trip m st : request_wf m ->
  (Z.of_nat (length (HealthCheckRequest_write_to m [])) < U32)%Z ->
  remaining st = HealthCheckRequest_write_to m [] ->
  merge_result (Some (mkRequest (service m) (rq_unknown_fields m) 0))
    (HealthCheckRequest_merge_from HealthCheckRequest_new st).
Proof.
  intros Hw Hl Hr. rewrite <-(request_apply_written m Hw). eapply reads_as_result.
  apply (merge_fields (request_fields m) HealthCheckRequest_new HealthCheckResponse_new);
    [by apply request_fields_ok | by rewrite Hr, request_written].
Qed.

Lemma response_round_trip m st : response_wf m -> remaining st = HealthCheckResponse_write_to m [] ->
  merge_result (Some (mkResponse (status m) (rs_unknown_fields m) 0))
    (HealthCheckResponse_merge_from HealthCheckResponse_new st).
Proof.
  intros Hw Hr. rewrite <-(response_apply_written m Hw). eapply reads_as_result.
  apply (merge_fields (response_fields m) HealthCheckRequest_new HealthCheckResponse_new);
    [by apply response_fields_ok | by rewrite Hr, response_written].
Qed.

(** C18: the messages survive the wire: for a message as reading makes them, of less than
    2^32 bytes, the computed size is exactly that of what is written, whether or not
    overflow is checked, and reading what was written gives the message back, with
    everything this version has no name for. *)
Theorem health_messages_round_trip (checks : bool) (rq : HealthCheckRequest) (rs : HealthCheckResponse)
    (st st' : CodedInputStream) :
  request_wf rq -> response_wf rs ->
  let brq := HealthCheckRequest_write_to rq [] in
  let brs := HealthCheckResponse_write_to rs [] in
  (Z.of_nat (length brq) < U32)%Z -> (Z.of_nat (length brs) < U32)%Z ->
  remaining st = brq -> remaining st' = brs ->
  (HealthCheckRequest_compute_size checks rq =
     Done (Z.of_nat (length brq), mkRequest (service rq) (rq_unknown_fields rq) (Z.of_nat (length brq))) /\
   merge_result (Some (mkRequest (service rq) (rq_unknown_fields rq) 0))
     (HealthCheckRequest_merge_from HealthCheckRequest_new st)) /\
  (HealthCheckResponse_compute_size checks rs =
     Done (Z.of_nat (length brs), mkResponse (status rs) (rs_unknown_fields rs) (Z.of_nat (length brs))) /\
   merge_result (Some (mkResponse (status rs) (rs_unknown_fields rs) 0))
     (HealthCheckResponse_merge_from HealthCheckResponse_new st')).
Proof.
  intros. split; (split; [|]);
    auto using request_size, response_size, request_round_trip, response_round_trip.
Qed.

(** Reading any bytes ends, with an error or with a message that survives the wire. *)
Theorem health_merge_total (st : CodedInputStream) :
  (exists r, HealthCheckRequest_merge_from HealthCheckRequest_new st = Some r /\
     forall m st', r = Ok (m, st') -> request_wf m) /\
  (exists r, HealthCheckResponse_merge_from HealthCheckResponse_new st = Some r /\
     forall m st', r = Ok (m, st') -> response_wf m).
Proof.
  split.
  - apply merge_loop_total; [exact request_field_wf | | lia].
    split; [done|]. simpl. by rewrite entries_new.
  - apply merge_loop_total; [exact response_field_wf | | lia].
    unfold response_wf. simpl. by rewrite entries_new.
Qed.
End messages.

(** ** Witnesses *)

(** Varints at the boundaries of their lengths. *)
Example varint_boundaries :
  varint 0 = [x00] /\ varint 127 = [x7f] /\ varint 128 = [x80; x01] /\ varint 300 = [xac; x02] /\
  varint (U64 - 1) = replicate 9 xff ++ [x01] /\
  read_varint (replicate 10 xff) = None /\ read_varint (replicate 11 x80) = None /\
  read_varint (replicate 9 x80 ++ [x02]) = Some (0%Z, []).
Proof. repeat split; vm_compute; reflexivity. Qed.

Definition demo_fields : list Field :=
  [(1%Z, VLengthDelimited (as_bytes "x")); (3%Z, VFixed32 5); (1%Z, VLengthDelimited (as_bytes "ab"))].

Lemma health_merge_spec_witness :
  exists st, HealthCheckRequest_merge_from (R:=list_runtime) HealthCheckRequest_new (fields_bytes demo_fields) =
    Some (Ok (mkRequest (R:=list_runtime) "ab" [(3%Z, VFixed32 5)] 0, st)).
Proof.
  destruct (health_merge_spec (R:=list_runtime) demo_fields HealthCheckRequest_new HealthCheckResponse_new
    (fields_bytes demo_fields)) as [(st & E & _) _].
  - repeat (constructor; [split; vm_compute; split; congruence || done|]). constructor.
  - reflexivity.
  - by exists st.
Defined.

Definition demo_request : HealthCheckRequest := mkRequest (R:=list_runtime) "ab" [(3%Z, VFixed32 5)] 0.

(** A status of a later version of the protocol. *)
Definition demo_response : HealthCheckResponse := mkResponse (R:=list_runtime) Serving [(1%Z, VVarint 9)] 0.

Lemma health_messages_round_trip_witness :
  exists st', HealthCheckResponse_merge_from (R:=list_runtime) HealthCheckResponse_new [x08; x01; x08; x09] =
    Some (Ok (demo_response, st')).
Proof.
  destruct (health_messages_round_trip (R:=list_runtime) true demo_request demo_response
    (HealthCheckRequest_write_to demo_request []) [x08; x01; x08; x09]) as (_ & _ & st' & E & _).
  - split; [reflexivity|]. constructor; [|by constructor]. split; [|done]. split; vm_compute; split; congruence.
  - constructor; [|by constructor]. split; [split; vm_compute; split; congruence|].
    intros _. exists 9%Z. split; [lia|]. split; reflexivity.
  - vm_compute. reflexivity.
  - vm_compute. reflexivity.
  - reflexivity.
  - vm_compute. reflexivity.
  - by exists st'.
Defined.
