(* ===== verification/HealthRpc.v ===== *)
(** The health protocol over calls: the methods, the client and the service of
    health/src/proto/protobuf/health_grpc.rs, the handlers of health/src/service.rs, and
    what a health check over a call returns.

    The methods marshal their messages with the protobuf codec of the library, in a build
    without overflow checks.  A spawned future that only awaits the end of an answer is
    not part of what a handler does before it returns. *)

From S2P Require Import Prelude Status Cq Executor Buf Utf8 Metadata Task Call CallSpec ClientCall ClientSpec Client.
From S2P Require Import ServerCall Server ServerSpec Frame EndToEnd Health Wire HealthProto.

Local Open Scope rust_scope.

(** ** Methods *)

Section rpc.
Context `{SC : SliceCore} `{R : ProtobufRuntime}.
(** [CodedInputStream::from_buffered_reader]. *)
Context (from_buffered_reader : MessageReader SC -> CodedInputStream).
Context (client_answer server_answer : list CoreCall -> gmap nat (BatchType * nat * Start) ->
                                       nat -> Start -> grpc_call_error).
Context (create_call_ptr : list CoreCall -> option nat) (debug_error : Error -> string).

(** [m.merge_from(&mut s)?; Ok(m)] of [pb_codec::de]. *)
Definition merged {T} (r : option (Result string (T * CodedInputStream))) : Result string T :=
  match r with
  | Some (Ok (m, _)) => Ok m
  | Some (Err e) => Err e
  | None => Err "the loop did not end"
  end.

(** [compute_size() as usize]. *)
Definition size_of {T} (o : outcome (Z * T)) : nat :=
  match o with Done (z, _) => Z.to_nat z | Panicked _ => 0 end.

Definition request_marshaller : Marshaller HealthCheckRequest :=
  pb_marshaller (fun m => size_of (HealthCheckRequest_compute_size false m))
    (fun m => HealthCheckRequest_write_to m [])
    (fun r => merged (HealthCheckRequest_merge_from HealthCheckRequest_new (from_buffered_reader r))).

Definition response_marshaller : Marshaller HealthCheckResponse :=
  pb_marshaller (fun m => size_of (HealthCheckResponse_compute_size false m))
    (fun m => HealthCheckResponse_write_to m [])
    (fun r => merged (HealthCheckResponse_merge_from HealthCheckResponse_new (from_buffered_reader r))).

Definition METHOD_HEALTH_CHECK : Method HealthCheckRequest HealthCheckResponse :=
  mkMethod Unary "/grpc.health.v1.Health/Check" request_marshaller response_marshaller.

Definition METHOD_HEALTH_WATCH : Method HealthCheckRequest HealthCheckResponse :=
  mkMethod ServerStreaming "/grpc.health.v1.Health/Watch" request_marshaller response_marshaller.

(** ** The client *)

Record HealthClient := mkHealthClient { client : Client }.

Definition HealthClient_new : M (World SC) HealthClient :=
  let* c := Client_new create_call_ptr in ret (mkHealthClient c).

(** The blocking call polls at most [fuel] times, see [block_on]. *)
Definition check_opt (fuel : nat) (self : HealthClient) (req : HealthCheckRequest) (opt : CallOption) :
    M (World SC) (option (Result Error HealthCheckResponse)) :=
  unary_call client_answer create_call_ptr (req_ser METHOD_HEALTH_CHECK) (resp_de METHOD_HEALTH_CHECK)
    fuel (client self) (name METHOD_HEALTH_CHECK) req opt.

Definition HealthClient_check (fuel : nat) (self : HealthClient) (req : HealthCheckRequest) :=
  check_opt fuel self req CallOption_default.

Definition check_async_opt (self : HealthClient) (req : HealthCheckRequest) (opt : CallOption) :
    M (World SC) (Result Error ClientUnaryReceiver) :=
  unary_call_async client_answer create_call_ptr (req_ser METHOD_HEALTH_CHECK)
    (client self) (name METHOD_HEALTH_CHECK) req opt.

Definition check_async (self : HealthClient) (req : HealthCheckRequest) :=
  check_async_opt self req CallOption_default.

Definition watch_opt (self : HealthClient) (req : HealthCheckRequest) (opt : CallOption) :
    M (World SC) (Result Error (ShareCall * ResponseStreamImpl)) :=
  Client_server_streaming client_answer create_call_ptr (req_ser METHOD_HEALTH_WATCH)
    (client self) (name METHOD_HEALTH_WATCH) req opt.

Definition HealthClient_watch (self : HealthClient) (req : HealthCheckRequest) :=
  watch_opt self req CallOption_default.

Definition HealthClient_spawn (self : HealthClient) : SpawnTask * epc * nat := Client_spawn (client self).

(** ** The service *)

(** [unimplemented_call!], of a unary and of a streaming sink. *)
Definition unimplemented_unary (sink : UnarySink) : M (World SC) unit :=
  do* UnarySink_fail server_answer (resp_ser METHOD_HEALTH_CHECK) sink
        (RpcStatus_new CODE_UNIMPLEMENTED) in ret tt.

Definition unimplemented_stream (share : ShareCall) (sink : StreamSink) : M (World SC) unit :=
  do* StreamSink_fail server_answer share (RpcStatus_new CODE_UNIMPLEMENTED) sink in ret tt.

(** The trait [Health]; its methods answer that they are not implemented unless they are
    given. *)
Record HealthImpl := mkHealthImpl {
  hi_check : RpcContext -> HealthCheckRequest -> UnarySink -> M (World SC) unit;
  hi_watch : RpcContext -> HealthCheckRequest -> ShareCall -> StreamSink -> M (World SC) unit;
}.

Definition Health_default : HealthImpl :=
  mkHealthImpl (fun _ _ sink => unimplemented_unary sink) (fun _ _ share sink => unimplemented_stream share sink).

Definition create_health (s : HealthImpl) : Registry :=
  let builder := ServiceBuilder_new in
  let builder := add_unary_handler server_answer debug_error (req_de METHOD_HEALTH_CHECK) builder
                   (name METHOD_HEALTH_CHECK) (hi_check s) in
  let builder := add_server_streaming_handler server_answer debug_error (req_de METHOD_HEALTH_WATCH) builder
                   (name METHOD_HEALTH_WATCH) (hi_watch s) in
  ServiceBuilder_build builder.

(** The answers of [HealthService], whose state is [h] when the request is served. *)
Definition build_response (s : ServingStatus) : HealthCheckResponse :=
  mkResponse s (rs_unknown_fields HealthCheckResponse_new) (rs_cached_size HealthCheckResponse_new).

Definition HealthService_check (h : HealthState) (ctx : RpcContext) (req : HealthCheckRequest)
    (sink : UnarySink) : M (World SC) unit :=
  match in_status (inner h) !! service req with
  | Some status =>
      do* success server_answer (resp_ser METHOD_HEALTH_CHECK) sink (build_response status) in ret tt
  | None =>
      do* UnarySink_fail server_answer (resp_ser METHOD_HEALTH_CHECK) sink
            (RpcStatus_with_message CODE_NOT_FOUND "unknown service") in ret tt
  end.

(** ** Lemmas *)

Context `{SL : !SliceCoreLaws SC} `{L : !RuntimeLaws R}.
Context `{CC : !CallCore client_answer} `{CS : !CallCore server_answer}.
Context (Hreader : forall bytes r, message_reader bytes r -> remaining (from_buffered_reader r) = bytes).

Lemma merged_result {T} (m : T) r : merge_result (Some m) r -> merged r = Ok m.
Proof. by intros (st & -> & _). Qed.

Lemma pb_marshals {T} size (encode : T -> list byte) merge (t : T) :
  size t = length (encode t) -> (forall r, message_reader (encode t) r -> merge r = Ok t) ->
  marshals (SC:=SC) (pb_marshaller size encode merge) encode t.
Proof.
  intros Hs Hm. split.
  - intros buf Hwf. destruct (codec_ser_writes size encode true t buf (eq_sym Hs) Hwf) as (s & ? & _ & ?).
    by exists s.
  - intros r Hr. simpl. unfold pb_de. by rewrite (Hm r Hr).
Qed.

(** The messages that survive the wire: as they are read or made, and not too large. *)
Definition request_ok (m : HealthCheckRequest) : Prop :=
  request_wf m /\ rq_cached_size m = 0%Z /\ (Z.of_nat (length (HealthCheckRequest_write_to m [])) < U32)%Z.

Lemma request_marshals m : request_ok m ->
  marshals request_marshaller (fun m => HealthCheckRequest_write_to m []) m.
Proof.
  intros (Hw & Hc & Hl). apply pb_marshals.
  - rewrite request_size by done. simpl. by rewrite Nat2Z.id.
  - intros r Hr%Hreader. apply merged_result. destruct m as [x u c]. simpl in Hc. subst c.
    by apply (request_round_trip (mkRequest x u 0)).
Qed.

Lemma build_response_wf s : response_wf (build_response s).
Proof. unfold response_wf. simpl. by rewrite entries_new. Qed.

(** A response made by the service has at most two bytes. *)
Lemma build_response_size s : (Z.of_nat (length (HealthCheckResponse_write_to (build_response s) [])) < U32)%Z.
Proof.
  rewrite response_written. unfold response_fields. simpl. rewrite entries_new. by destruct s.
Qed.

Lemma response_marshals s :
  marshals response_marshaller (fun m => HealthCheckResponse_write_to m []) (build_response s).
Proof.
  apply pb_marshals.
  - rewrite response_size by apply build_response_size. simpl. by rewrite Nat2Z.id.
  - intros r Hr%Hreader. apply merged_result.
    apply (response_round_trip (build_response s)); [apply build_response_wf|done].
Qed.

(** What the service answers, as a function of the request. *)
Definition check_answer (h : HealthState) (req : HealthCheckRequest) : Result RpcStatus HealthCheckResponse :=
  match check (service req) h with Ok s => Ok (build_response s) | Err st => Err st end.

Lemma HealthService_check_answers h ctx req sink :
  HealthService_check h ctx req sink =
    answer server_answer (resp_mar METHOD_HEALTH_CHECK) (check_answer h) ctx req sink.
Proof.
  unfold HealthService_check, answer, check_answer, check.
  by destruct (in_status (inner h) !! service req).
Qed.

Lemma execute_unary_ext ctx payload (f g : RpcContext -> HealthCheckRequest -> UnarySink -> M (World SC) unit) w :
  (forall ctx req sink w, f ctx req sink w = g ctx req sink w) ->
  execute_unary server_answer debug_error (req_de METHOD_HEALTH_CHECK) ctx payload f w =
  execute_unary server_answer debug_error (req_de METHOD_HEALTH_CHECK) ctx payload g w.
Proof.
  intros Hfg. unfold execute_unary, bind. destruct (accept_call server_answer _ w) as [[[f1|] w1]|]; try done.
  by destruct (req_de METHOD_HEALTH_CHECK payload).
Qed.

(** The methods of the service are found by their names, with their kinds. *)
Lemma create_health_handlers (s : HealthImpl) :
  create_health s !! as_bytes (name METHOD_HEALTH_CHECK) =
    Some (mkHandler Unary (fun ctx payload =>
      let* payload := unwrap payload "called `Option::unwrap()` on a `None` value" in
      execute_unary server_answer debug_error (req_de METHOD_HEALTH_CHECK) ctx payload (hi_check s))) /\
  create_health s !! as_bytes (name METHOD_HEALTH_WATCH) =
    Some (mkHandler ServerStreaming (fun ctx payload =>
      let* payload := unwrap payload "called `Option::unwrap()` on a `None` value" in
      execute_server_streaming server_answer debug_error (req_de METHOD_HEALTH_WATCH) ctx payload (hi_watch s))).
Proof.
  unfold create_health, add_unary_handler, add_server_streaming_handler, add_handler, ServiceBuilder_build.
  split; [|by apply (lookup_insert_eq (M:=gmap (list byte)))].
  etransitivity; [by apply (lookup_insert_ne (M:=gmap (list byte)))|].
  by apply (lookup_insert_eq (M:=gmap (list byte))).
Qed.

(** C4: a health check over a call reports the state of the service: after any calls of the
    service's methods, the request of a client, encoded, carried and decoded, is served by
    the handler registered under the name of the method, which answers it unless the queue of
    the server is shut down, and what the client's receiver returns is the last status set for
    the service it asked for (all are not serving after the shutdown), or the status
    NOT_FOUND. *)
Theorem health_check_call (ops : list HealthOp) (h : HealthState) watch_impl
    (self : HealthClient) (req : HealthCheckRequest) (opt : CallOption) (ctx : RpcContext)
    (payload : MessageReader SC) (wc wc1 ws : World SC) recv bytes fl md cf :
  run_ops ops HealthService_default = Done (tt, h) -> request_ok req ->
  check_async_opt self req opt wc = Done (Ok recv, wc1) ->
  last (calls wc1) = Some (StartBatch (ur_call recv) (StartUnary bytes fl md cf)) ->
  message_reader bytes payload ->
  WInv ws -> (forall t ty s, inflight ws !! t <> Some (ty, RpcContext_call ctx, s)) ->
  (forall op, existsb (started (RpcContext_call ctx) op) (calls ws) = false) ->
  exists cb ws1,
    create_health (mkHealthImpl (HealthService_check h) watch_impl) !!
      as_bytes (name METHOD_HEALTH_CHECK) = Some (mkHandler Unary cb) /\
    cb ctx (Some payload) ws = Done (tt, ws1) /\
    (queue_shut ws1 \/ exists s, calls ws1 = calls ws ++
       [StartBatch (RpcContext_call ctx) StartServerside; StartBatch (RpcContext_call ctx) s]) /\
    forall s bctx rest cx,
      calls ws1 = calls ws ++ [StartBatch (RpcContext_call ctx) StartServerside;
                               StartBatch (RpcContext_call ctx) s] ->
      carried s bctx -> sched wc1 = [EvResolve (ur_resp_f recv) true bctx] :: rest ->
      exists wc2, ClientUnaryReceiver_poll (resp_de METHOD_HEALTH_CHECK) cx recv wc1 =
        Done (Ready (match (foldl spec_op (∅, false) ops).1 !! service req with
                     | Some status => Ok (mkResponse status UnknownFields_new 0)
                     | None => Err (RpcFailure (RpcStatus_with_message CODE_NOT_FOUND "unknown service"))
                     end), wc2).
Proof.
  intros Hops Hreq Hstart Hlast Hpay HW Hidle Hfresh.
  destruct (run_ops_spec _ _ _ HInv_default Hops) as [_ Hs].
  destruct (unary_call_returns client_answer server_answer create_call_ptr debug_error
    request_marshaller response_marshaller (fun m => HealthCheckRequest_write_to m [])
    (fun m => HealthCheckResponse_write_to m []) (check_answer h) (name METHOD_HEALTH_CHECK) req opt ctx
    payload wc wc1 ws recv bytes fl md cf) as (ws1 & E & Hq & H); try done.
  - by apply request_marshals.
  - intros resp. unfold check_answer. destruct (check (service req) h); [|done].
    intros [= <-]. apply response_marshals.
  - unfold check_answer, check. by destruct (in_status (inner h) !! service req).
  - eexists _, ws1. split; [apply create_health_handlers|]. split; [|split; [exact Hq|]].
    + unfold unwrap, bind, ret. cbn. rewrite <-E. apply execute_unary_ext. intros. cbn [hi_check].
      by rewrite HealthService_check_answers.
    + intros s bctx rest cx H1 H2 H3. destruct (H s bctx rest cx H1 H2 H3) as (wc2 & Hp).
      exists wc2. unfold resp_de, METHOD_HEALTH_CHECK. cbn [resp_mar]. rewrite Hp. repeat f_equal.
      cbn [inner HealthService_default in_status in_shutdown] in Hs. rewrite <-Hs. cbn [fst].
      unfold check_answer, check. by destruct (in_status (inner h) !! service req).
Qed.
End rpc.

(** ** Witnesses *)

Lemma pending_message (bytes : list byte) (r : MessageReader list_core) :
  message_reader bytes r -> pending r = bytes.
Proof.
  intros (buf & (Hwf & _ & Hb) & Er). destruct (Reader_new_spec buf Hwf) as (r' & E & _ & _ & Hp & _).
  assert (r' = r) as -> by congruence. by rewrite Hp.
Qed.

Definition demo_health_ops : list HealthOp := [OpSet "a" Serving; OpWatch "a"; OpSet "a" NotServing].

Definition demo_health : HealthState :=
  match run_ops demo_health_ops HealthService_default with Done (_, h) => h | Panicked _ => HealthService_default end.

Definition demo_check_request : HealthCheckRequest := mkRequest (R:=list_runtime) "a" [] 0.

(** The response of the core: the status [NotServing]. *)
Definition check_schedule : list (list (Event list_core)) :=
  [[]; []; []; [EvResolve 0 true (ctx_msg [x08; x02])]].

Definition check_start : outcome (Result Error ClientUnaryReceiver * World list_core) :=
  check_async_opt (R:=list_runtime) pending any_answer next_call (mkHealthClient (mkClient 0)) demo_check_request
    CallOption_default (world0 check_schedule).

Definition check_started : World list_core :=
  match check_start with Done (_, w) => w | Panicked _ => world0 [] end.

Lemma health_check_call_witness :
  exists wc2, ClientUnaryReceiver_poll (resp_de (METHOD_HEALTH_CHECK (R:=list_runtime) pending)) 1 (mkUnaryReceiver 7 0)
    check_started = Done (Ready (Ok (build_response NotServing)), wc2).
Proof.
  destruct (health_check_call (SC:=list_core) (R:=list_runtime) pending any_answer any_answer next_call (fun _ => ""%string)
    pending_message demo_health_ops demo_health (fun _ _ _ _ => ret tt) (mkHealthClient (mkClient 0))
    demo_check_request CallOption_default
    (RpcContext_new (mkRequestContext 9 (as_bytes "/grpc.health.v1.Health/Check") [] MetadataBuilder_new))
    (reader_of [x0a; x01; x61]) (world0 check_schedule) check_started (world0 [])
    (mkUnaryReceiver 7 0) [x0a; x01; x61] 0 None 0) as (cb & ws1 & Hcb & E & _ & H).
  - vm_compute. reflexivity.
  - split; [split; [reflexivity|constructor]|]. split; [reflexivity|]. vm_compute. reflexivity.
  - vm_compute. reflexivity.
  - vm_compute. reflexivity.
  - apply inline_message_reader; [done|]. unfold INLINED_SIZE. simpl. lia.
  - apply world0_WInv.
  - intros t ty s. simpl. by rewrite lookup_empty.
  - reflexivity.
  - apply (H (SendStatusFromServer 0 [] None true (Some [x08; x02]) 0) (ctx_msg [x08; x02]) []).
    + rewrite (proj1 (create_health_handlers (R:=list_runtime) pending any_answer (fun _ => ""%string) _)) in Hcb.
      injection Hcb as <-.
      apply (Done_elim _ _ (fun x => calls x.2 = calls (world0 []) ++
        [StartBatch 9 StartServerside;
         StartBatch 9 (SendStatusFromServer 0 [] None true (Some [x08; x02]) 0)]) E).
      vm_compute. reflexivity.
    + split; [reflexivity|]. split; [reflexivity|]. split; [by exists []|].
      exists ([inline_slice [x08; x02]] : list GrpcSlice). split; [reflexivity|].
      split; [|split]; [repeat constructor; vm_compute; lia..|reflexivity].
    + vm_compute. reflexivity.
Defined.
