(* ===== verification/ProtoUtil.v ===== *)
(** Statuses with details: the conversions of proto/src/util.rs between the status of the
    library and the message google.rpc.Status, which travels in the details of a status,
    and the oneof accessors of proto/src/lib.rs (module [Help]). *)

From stdpp Require Import pretty.
From S2P Require Import Prelude Status Cq Executor Buf Utf8 Metadata Task Call CallSpec ClientCall ClientSpec.
From S2P Require Import ServerCall Server ServerSpec Frame EndToEnd Wire.

Local Open Scope rust_scope.

(** ** Statuses *)

Section status.
(** The message type of the details, and the encoding of a status; [debug] is the text of a
    string with [{:?}]. *)
Context {Any : Type}.

(** google.rpc.Status. *)
Record Status := mkStatus { code : Z; message : string; details : list Any }.

Definition Status_default : Status := mkStatus 0 "" [].

Context (merge_from_bytes : Status -> list byte -> Result string Status).
Context (write_to_bytes : Status -> Result string (list byte)).
Context (debug : string -> string).

(** [Status::try_from] of a status of the library. *)
Definition Status_try_from (value : RpcStatus) : Result Error Status :=
  match merge_from_bytes Status_default (status_details value) with
  | Err e => Err (Codec e)
  | Ok s =>
      if Z.eqb (code s) (RpcStatusCode_into_i32 (status_code value)) then
        if bool_decide (message s = status_message value) then Ok s
        else Err (Codec ("message doesn't match " +:+ debug (message s) +:+ " != " +:+
                           debug (status_message value)))
      else Err (Codec ("code doesn't match " +:+ pretty (code s) +:+ " != " +:+
                         RpcStatusCode_debug (status_code value)))
  end.

(** [RpcStatus::try_from] of such a message. *)
Definition RpcStatus_try_from (value : Status) : Result Error RpcStatus :=
  match write_to_bytes value with
  | Err e => Err (Codec e)
  | Ok details => Ok (RpcStatus_with_details (RpcStatusCode_from_i32 (code value)) (message value) details)
  end.

(** What is documented of the codec: what is written is read back. *)
Definition status_codec : Prop :=
  forall s bs, write_to_bytes s = Ok bs -> merge_from_bytes Status_default bs = Ok s.

Lemma status_back (Hc : status_codec) (s : Status) st :
  RpcStatus_try_from s = Ok st -> Status_try_from st = Ok s.
Proof.
  unfold RpcStatus_try_from, Status_try_from. destruct (write_to_bytes s) as [bs|] eqn:E; [|done].
  intros [= <-]. simpl. rewrite (Hc s bs E), Z.eqb_refl. by rewrite bool_decide_eq_true_2.
Qed.

(** A status is taken for a message only when the two agree on the code and the text; one
    without details is only when it is the empty one. *)
Lemma status_try_from_agrees st s :
  Status_try_from st = Ok s ->
  code s = code_value (status_code st) /\ message s = status_message st.
Proof.
  unfold Status_try_from. destruct (merge_from_bytes _ _) as [m|]; [|done].
  destruct (Z.eqb_spec (code m) (RpcStatusCode_into_i32 (status_code st))); [|done].
  case_bool_decide; [|done]. by intros [= <-].
Qed.

Lemma plain_status_refused st :
  merge_from_bytes Status_default [] = Ok Status_default -> status_details st = [] ->
  (exists s, Status_try_from st = Ok s) <-> status_code st = CODE_OK /\ status_message st = "".
Proof.
  intros Hm Hd. unfold Status_try_from. rewrite Hd, Hm. destruct st as [[c] m d].
  cbn [code message Status_default status_code status_message RpcStatusCode_into_i32 code_value] in *. split.
  - intros [s H]. destruct (Z.eqb_spec 0 c) as [<-|]; [|done]. case_bool_decide as Hmsg; done.
  - intros [[= ->] ->]. simpl. eauto.
Qed.
End status.
Arguments Status : clear implicits.

(** A service that answers with such a status. *)
Definition rich_answer {Any Req Resp} (write_to_bytes : Status Any -> Result string (list byte))
    (h : Req -> Result (Status Any) Resp) (other : RpcStatus) (req : Req) : Result RpcStatus Resp :=
  match h req with
  | Ok resp => Ok resp
  | Err s => match RpcStatus_try_from write_to_bytes s with Ok st => Err st | Err _ => Err other end
  end.

Section over_a_call.
Context `{SC : SliceCore} `{SL : !SliceCoreLaws SC}.
Context client_answer `{CC : !CallCore client_answer} server_answer `{CS : !CallCore server_answer}.
Context (create_call_ptr : list CoreCall -> option nat) (debug_error : Error -> string).
Context {Req Resp : Type} (mq : Marshaller Req) (mr : Marshaller Resp).
Context (encode_req : Req -> list byte) (encode_resp : Resp -> list byte).
Context `{MQ : !MarshallerLaws mq encode_req} `{MR : !MarshallerLaws mr encode_resp}.
Context {Any : Type} (merge_from_bytes : Status Any -> list byte -> Result string (Status Any)).
Context (write_to_bytes : Status Any -> Result string (list byte)) (debug : string -> string).

(** C22: the details of an error reach the client: when a service refuses a request with a
    google.rpc.Status, the error the client's receiver returns converts back to exactly
    that message, details included. *)
Theorem rich_status_round_trip (Hcodec : status_codec merge_from_bytes write_to_bytes)
    (h : Req -> Result (Status Any) Resp) (other : RpcStatus) (s : Status Any) (method : string) (req : Req)
    (opt : CallOption) (ctx : RpcContext) (payload : MessageReader SC) (wc wc1 ws : World SC)
    recv bytes fl md cf :
  h req = Err s -> code s <> 0%Z -> utf8_valid (as_bytes (message s)) = true ->
  (exists bs, write_to_bytes s = Ok bs) ->
  unary_async client_answer create_call_ptr (m_ser mq) method req opt wc = Done (Ok recv, wc1) ->
  last (calls wc1) = Some (StartBatch (ur_call recv) (StartUnary bytes fl md cf)) ->
  message_reader bytes payload ->
  WInv ws -> (forall t ty s, inflight ws !! t <> Some (ty, RpcContext_call ctx, s)) ->
  (forall op, existsb (started (RpcContext_call ctx) op) (calls ws) = false) ->
  exists ws1, execute_unary server_answer debug_error (m_de mq) ctx payload
      (answer server_answer mr (rich_answer write_to_bytes h other)) ws = Done (tt, ws1) /\
    (queue_shut ws1 \/ exists s, calls ws1 = calls ws ++
       [StartBatch (RpcContext_call ctx) StartServerside; StartBatch (RpcContext_call ctx) s]) /\
    forall st bctx rest cx,
      calls ws1 = calls ws ++ [StartBatch (RpcContext_call ctx) StartServerside;
                               StartBatch (RpcContext_call ctx) st] ->
      carried st bctx -> sched wc1 = [EvResolve (ur_resp_f recv) true bctx] :: rest ->
      exists wc2 rpc_status, ClientUnaryReceiver_poll (m_de mr) cx recv wc1 =
        Done (Ready (Err (RpcFailure rpc_status)), wc2) /\
        Status_try_from merge_from_bytes debug rpc_status = Ok s.
Proof.
  intros Hh Hcode Hutf [bs Hbs] Hstart Hlast Hpay HW Hidle Hfresh.
  assert (rich_answer write_to_bytes h other req =
    Err (RpcStatus_with_details (RpcStatusCode_from_i32 (code s)) (message s) bs)) as Ha.
  { unfold rich_answer, RpcStatus_try_from. by rewrite Hh, Hbs. }
  destruct (unary_call_returns client_answer server_answer create_call_ptr debug_error mq mr encode_req
    encode_resp (rich_answer write_to_bytes h other) method req opt ctx payload wc wc1 ws recv bytes fl md cf)
    as (ws1 & E & Hq & H); eauto using laws_marshal.
  - rewrite Ha. split; [|done]. intros [= Hz]. done.
  - exists ws1. split; [done|]. split; [exact Hq|]. intros st bctx rest cx H1 H2 H3.
    destruct (H st bctx rest cx H1 H2 H3) as (wc2 & Hp). rewrite Ha in Hp.
    eexists wc2, _. split; [exact Hp|]. apply (status_back _ _ _ Hcodec).
    unfold RpcStatus_try_from. by rewrite Hbs.
Qed.
End over_a_call.

(** ** Witness

    A codec of statuses with a small code and text, whose details are bytes. *)

Definition demo_write (s : Status byte) : Result string (list byte) :=
  if bool_decide (0 <= code s < 256)%Z && bool_decide (length (as_bytes (message s)) < 256)
  then Ok (byte_of (code s) :: byte_of (Z.of_nat (length (as_bytes (message s)))) ::
           as_bytes (message s) ++ details s)
  else Err "too large".

Definition demo_merge (_ : Status byte) (bs : list byte) : Result string (Status byte) :=
  match bs with
  | c :: n :: rest =>
      Ok (mkStatus (bZ c) (String.string_of_list_byte (take (Z.to_nat (bZ n)) rest)) (drop (Z.to_nat (bZ n)) rest))
  | _ => Err "truncated"
  end.

Lemma demo_codec : status_codec demo_merge demo_write.
Proof.
  intros [c m d] bs. unfold demo_write. cbn [code message details].
  destruct (bool_decide (0 <= c < 256)%Z) eqn:Ec; [|done].
  destruct (bool_decide (length (as_bytes m) < 256)) eqn:El; [|done]. intros [= <-].
  apply bool_decide_eq_true in Ec, El. unfold demo_merge.
  rewrite !byte_of_bZ, Nat2Z.id, take_app_length, drop_app_length by lia. by rewrite of_list_as_bytes.
Qed.

Definition quota_status : Status byte := mkStatus 8 "quota" [x01; x02].

(** The details of [quota_status] as the metadata carries them. *)
Definition quota_bytes : list byte := x08 :: x05 :: as_bytes "quota" ++ [x01; x02].

Definition quota_trailing : Metadata := mkMetadata [(BINARY_ERROR_DETAILS_KEY, quota_bytes)] 1.

Definition quota_ctx : BatchContext list_core := mkBatchContext None 8 (as_bytes "quota") quota_trailing.

Definition rich_start : outcome (Result Error ClientUnaryReceiver * World list_core) :=
  unary_async any_answer next_call (m_ser raw_marshaller) "/s/m" [x01] CallOption_default
    (world0 [[]; []; []; [EvResolve 0 true quota_ctx]]).

Definition rich_started : World list_core :=
  match rich_start with Done (_, w) => w | Panicked _ => world0 [] end.

Lemma rich_status_round_trip_witness :
  exists wc2 rpc_status, ClientUnaryReceiver_poll (m_de raw_marshaller) 1 (mkUnaryReceiver 7 0) rich_started =
    Done (Ready (Err (RpcFailure rpc_status)), wc2) /\
    Status_try_from demo_merge id rpc_status = Ok quota_status.
Proof.
  destruct (rich_status_round_trip (SC:=list_core) any_answer any_answer next_call (fun _ => ""%string)
    raw_marshaller raw_marshaller id id demo_merge demo_write id demo_codec
    (fun _ : list byte => Err quota_status) RpcStatus_ok quota_status "/s/m" [x01] CallOption_default
    (RpcContext_new (mkRequestContext 9 (as_bytes "/s/m") [] MetadataBuilder_new))
    (reader_of [x01]) (world0 [[]; []; []; [EvResolve 0 true quota_ctx]]) rich_started (world0 [])
    (mkUnaryReceiver 7 0) [x01] 0 None 0) as (ws1 & E & _ & H).
  - reflexivity.
  - done.
  - reflexivity.
  - exists quota_bytes. reflexivity.
  - vm_compute. reflexivity.
  - vm_compute. reflexivity.
  - apply inline_message_reader; [done|]. unfold INLINED_SIZE. simpl. lia.
  - apply world0_WInv.
  - intros t ty s. simpl. by rewrite lookup_empty.
  - reflexivity.
  - apply (H (SendStatusFromServer 8 (as_bytes "quota") (Some quota_trailing) true None 0) quota_ctx []).
    + apply (Done_elim _ _ (fun x => calls x.2 = calls (world0 []) ++
        [StartBatch 9 StartServerside;
         StartBatch 9 (SendStatusFromServer 8 (as_bytes "quota") (Some quota_trailing) true None 0)]) E).
      vm_compute. reflexivity.
    + split; [reflexivity|]. split; [reflexivity|]. split; [|reflexivity]. by exists [].
    + vm_compute. reflexivity.
Defined.

(** ** Accessors of oneof fields *)

Module Help.
Section help.
(** The messages inside, with their default instances. *)
Context {Mark ClientConfig ServerConfig ClosedLoopParams PoissonParams SimpleProtoParams ByteBufferParams : Type}.
Context (default_mark : Mark) (default_client : ClientConfig) (default_server : ServerConfig).
Context (default_closed_loop : ClosedLoopParams) (default_poisson : PoissonParams).
Context (default_simple : SimpleProtoParams) (default_bytebuf : ByteBufferParams).

Inductive ClientArgtype := ClientMark (v : Mark) | ClientSetup (v : ClientConfig).
Inductive ServerArgtype := ServerMark (v : Mark) | ServerSetup (v : ServerConfig).
Inductive ChannelValue := StrValue (v : string) | IntValue (v : Z).
Inductive Load := ClosedLoop (v : ClosedLoopParams) | Poisson (v : PoissonParams).
Inductive PayloadOneof := SimpleParams (v : SimpleProtoParams) | BytebufParams (v : ByteBufferParams).

Definition ClientArgs_get_mark (argtype : option ClientArgtype) : Mark :=
  match argtype with Some (ClientMark v) => v | _ => default_mark end.
Definition ClientArgs_get_setup (argtype : option ClientArgtype) : ClientConfig :=
  match argtype with Some (ClientSetup v) => v | _ => default_client end.
Definition ServerArgs_get_mark (argtype : option ServerArgtype) : Mark :=
  match argtype with Some (ServerMark v) => v | _ => default_mark end.
Definition ServerArgs_get_setup (argtype : option ServerArgtype) : ServerConfig :=
  match argtype with Some (ServerSetup v) => v | _ => default_server end.
Definition get_str_value (value : option ChannelValue) : string :=
  match value with Some (StrValue v) => v | _ => "" end.
Definition get_int_value (value : option ChannelValue) : Z :=
  match value with Some (IntValue v) => v | _ => 0 end.
Definition has_str_value (value : option ChannelValue) : bool :=
  match value with Some (StrValue _) => true | _ => false end.
Definition has_int_value (value : option ChannelValue) : bool :=
  match value with Some (IntValue _) => true | _ => false end.
Definition get_closed_loop (load : option Load) : ClosedLoopParams :=
  match load with Some (ClosedLoop v) => v | _ => default_closed_loop end.
Definition get_poisson (load : option Load) : PoissonParams :=
  match load with Some (Poisson v) => v | _ => default_poisson end.
Definition has_poisson (load : option Load) : bool :=
  match load with Some (Poisson _) => true | _ => false end.
Definition get_simple_params (payload : option PayloadOneof) : SimpleProtoParams :=
  match payload with Some (SimpleParams v) => v | _ => default_simple end.
Definition get_bytebuf_params (payload : option PayloadOneof) : ByteBufferParams :=
  match payload with Some (BytebufParams v) => v | _ => default_bytebuf end.
Definition has_bytebuf_params (payload : option PayloadOneof) : bool :=
  match payload with Some (BytebufParams _) => true | _ => false end.

(** The two tests of a channel argument are exclusive, and a value is what the accessors say. *)
Lemma channel_value_accessors (value : option ChannelValue) :
  value = (if has_str_value value then Some (StrValue (get_str_value value))
           else if has_int_value value then Some (IntValue (get_int_value value)) else None).
Proof. by destruct value as [[]|]. Qed.
End help.
End Help.
