(* ===== verification/Process.v ===== *)
(** Programs that talk over a call: what an async block of a client or a handler does with
    the sinks and streams of a call, as a machine, and all the ways in which the two sides
    of a call run together.

    This is a model of the transport, not of code of the repository.  The call between the
    machines is what the theorems of EndToEnd and ClientSpec show of it: messages arrive once
    and in order, and a status that is no success may overtake messages that were not read.
    Where the library races with the end of a call (a send after the status, a read after a
    cancel), every outcome it may have is a step.  Of time it knows one thing, which the tests
    rely on: a server that sleeps does so for longer than the deadline of the call. *)

From S2P Require Import Prelude Status.

Local Open Scope rust_scope.

(** ** Machines *)

(** What a program does next, and where it goes on with the result: sending a message,
    reading the next one, waiting for the response of a unary call, closing the sink,
    ending the call with a status or with one response, cancelling the call, sleeping. *)
Inductive Act (Out In A St : Type) :=
| Send (m : Out) (k : Result Error unit -> St)
| TryNext (k : Result Error (option In) -> St)
| Await (k : Result Error In -> St)
| Close (k : Result Error unit -> St)
| FailWith (s : RpcStatus) (k : Result Error unit -> St)
| Success (m : Out) (k : Result Error unit -> St)
| Cancel (k : St)
| Sleep (k : St)
| Return (r : Result Error A)
| Panic (msg : string).
Arguments Send {Out In A St} _ _.
Arguments TryNext {Out In A St} _.
Arguments Await {Out In A St} _.
Arguments Close {Out In A St} _.
Arguments FailWith {Out In A St} _ _.
Arguments Success {Out In A St} _ _.
Arguments Cancel {Out In A St} _.
Arguments Sleep {Out In A St} _.
Arguments Return {Out In A St} _.
Arguments Panic {Out In A St} _.

(** An async block: its states and what it does in each.  Programs without loops are
    trees of actions. *)
Record Machine (Out In A : Type) := mkMachine {
  states : Type;
  start : states;
  act : states -> Act Out In A states;
}.
Arguments mkMachine {Out In A} _ _ _.
Arguments states {Out In A} _.
Arguments start {Out In A} _.
Arguments act {Out In A} _ _.

#[warnings="-register-all"]
Inductive Prog (Out In A : Type) := Do (a : Act Out In A (Prog Out In A)).
Arguments Do {Out In A} _.

Definition prog_machine {Out In A} (p : Prog Out In A) : Machine Out In A :=
  mkMachine (Prog Out In A) p (fun p => match p with Do a => a end).

(** [r?]: an error ends the program. *)
Definition try {Out In A T} (k : T -> Prog Out In A) (r : Result Error T) : Prog Out In A :=
  match r with Ok t => k t | Err e => Do (Return (Err e)) end.

(** [let _ = ..]. *)
Definition ignore {T St} (k : St) (_ : Result Error T) : St := k.

(** ** A call *)

Definition CANCELLED : RpcStatus := RpcStatus_with_message (RpcStatusCode_from_i32 1) "Cancelled".
Definition DEADLINE_EXCEEDED : RpcStatus :=
  RpcStatus_with_message (RpcStatusCode_from_i32 4) "Deadline Exceeded".

(** The requests and responses on their way, whether the client has closed its side, the
    status the server has sent, how the call ended otherwise, and whether it has a
    deadline that is yet to pass. *)
Record Net (Req Resp : Type) := mkNet {
  requests : list Req;
  closed : bool;
  responses : list Resp;
  status : option RpcStatus;
  ended : option RpcStatus;
  deadline : bool;
}.
Arguments mkNet {Req Resp} _ _ _ _ _ _.
Arguments requests {Req Resp} _.
Arguments closed {Req Resp} _.
Arguments responses {Req Resp} _.
Arguments status {Req Resp} _.
Arguments ended {Req Resp} _.
Arguments deadline {Req Resp} _.

Section net.
Context {Req Resp : Type}.
Implicit Types n : Net Req Resp.

Definition push_request (m : Req) n := mkNet (requests n ++ [m]) (closed n) (responses n) (status n) (ended n) (deadline n).
Definition push_response (m : Resp) n := mkNet (requests n) (closed n) (responses n ++ [m]) (status n) (ended n) (deadline n).
Definition set_requests (l : list Req) n := mkNet l (closed n) (responses n) (status n) (ended n) (deadline n).
Definition set_responses (l : list Resp) n := mkNet (requests n) (closed n) l (status n) (ended n) (deadline n).
Definition half_close n := mkNet (requests n) true (responses n) (status n) (ended n) (deadline n).
Definition send_status (s : RpcStatus) n := mkNet (requests n) (closed n) (responses n) (Some s) (ended n) (deadline n).
Definition end_call (s : RpcStatus) n := mkNet (requests n) (closed n) (responses n) (status n) (Some s) false.

(** What a client sees of an end when it has read all messages. *)
Definition seen_end {T} (s : RpcStatus) : Result Error (option T) :=
  if bool_decide (status_code s = CODE_OK) then Ok None else Err (RpcFailure s).

(** Writing to a call: it goes through, unless the call may be over. *)
Definition writes {St} (over : option RpcStatus) (err : RpcStatus -> Error) (n n' : Net Req Resp)
    (k : Result Error unit -> St) : list (Net Req Resp * St) :=
  match over with
  | None => [(n', k (Ok tt))]
  | Some s => [(n, k (Ok tt)); (n, k (Err (err s)))]
  end.

(** The steps of a client. *)
Definition client_next {A St} (a : Act Req Resp A St) (n : Net Req Resp) : list (Net Req Resp * St) :=
  let over := match ended n with Some s => Some s | None => status n end in
  match a with
  | Send m k => writes over (fun s => RpcFinished (Some s)) n (push_request m n) k
  | Close k => writes over (fun s => RpcFinished (Some s)) n (half_close n) k
  | TryNext k =>
      match ended n with Some s => [(n, k (Err (RpcFailure s)))] | None => [] end ++
      match responses n with
      | m :: rest =>
          (set_responses rest n, k (Ok (Some m))) ::
          match status n with
          | Some s => if bool_decide (status_code s = CODE_OK) then [] else [(n, k (Err (RpcFailure s)))]
          | None => []
          end
      | [] => match status n with Some s => [(n, k (seen_end s))] | None => [] end
      end
  | Await k =>
      match ended n with Some s => [(n, k (Err (RpcFailure s)))] | None => [] end ++
      match status n with
      | Some s =>
          if bool_decide (status_code s = CODE_OK) then
            match responses n with m :: rest => [(set_responses rest n, k (Ok m))] | [] => [] end
          else [(n, k (Err (RpcFailure s)))]
      | None => []
      end
  | Cancel k =>
      match over with
      | None => [(end_call CANCELLED n, k)]
      | Some _ => [(n, k); (end_call CANCELLED n, k)]
      end
  | Sleep k => [(n, k)]
  | FailWith _ _ | Success _ _ | Return _ | Panic _ => []
  end.

(** The steps of a server.  A server that returns without a status drops its sink, which
    cancels the call.  A sleep is longer than the deadline of the call. *)
Definition server_next {St} (a : Act Resp Req unit St) (stay : St) (n : Net Req Resp) :
    list (Net Req Resp * St) :=
  let stopped := fun _ : RpcStatus => RemoteStopped in
  match a with
  | Send m k => writes (ended n) stopped n (push_response m n) k
  | Close k => writes (ended n) stopped n (send_status RpcStatus_ok n) k
  | FailWith s k => writes (ended n) stopped n (send_status s n) k
  | Success m k => writes (ended n) stopped n (send_status RpcStatus_ok (push_response m n)) k
  | TryNext k =>
      match ended n with Some _ => [(n, k (Err RemoteStopped))] | None => [] end ++
      match requests n with
      | m :: rest => [(set_requests rest n, k (Ok (Some m)))]
      | [] => if closed n then [(n, k (Ok None))] else []
      end
  | Sleep k => if deadline n then [] else [(n, k)]
  | Cancel k => [(end_call CANCELLED n, k)]
  | Return _ | Panic _ =>
      match status n, ended n with None, None => [(end_call CANCELLED n, stay)] | _, _ => [] end
  | Await _ => []
  end.
End net.

(** ** Both sides together *)

Section together.
Context {Req Resp A : Type} (c : Machine Req Resp A) (s : Machine Resp Req unit).

Record Cfg := mkCfg { net : Net Req Resp; client : states c; server : states s }.

(** What the client has come to. *)
Definition outcome_of (x : Cfg) : option (outcome (Result Error A)) :=
  match act c (client x) with
  | Return r => Some (Done r)
  | Panic msg => Some (Panicked msg)
  | _ => None
  end.

Definition next (x : Cfg) : list Cfg :=
  match outcome_of x with
  | Some _ => []
  | None =>
      ((fun '(n, k) => mkCfg n k (server x)) <$> client_next (act c (client x)) (net x)) ++
      ((fun '(n, k) => mkCfg n (client x) k) <$> server_next (act s (server x)) (server x) (net x)) ++
      (if deadline (net x) then [mkCfg (end_call DEADLINE_EXCEEDED (net x)) (client x) (server x)] else [])
  end.

Definition step (x y : Cfg) : Prop := y ∈ next x.

(** A call with its first request, if the kind of the call has one. *)
Definition begin (request : option Req) (has_deadline : bool) : Cfg :=
  mkCfg (match request with
         | Some r => mkNet [r] true [] None None has_deadline
         | None => mkNet [] false [] None None has_deadline
         end) (start c) (start s).

(** Every run ends within [n] steps, with the client returning a result that satisfies
    [post]: no run goes on for longer, none is stuck before, none panics. *)
Definition always (n : nat) (post : Result Error A -> Prop) (x : Cfg) : Prop :=
  (forall m y, nsteps step m x y -> m <= n) /\
  (forall y, rtc step x y -> (exists z, step y z) \/ exists r, outcome_of y = Some (Done r) /\ post r).

(** The check of all runs. *)
Fixpoint explore (fuel : nat) (post : Result Error A -> bool) (x : Cfg) : bool :=
  match outcome_of x with
  | Some (Done r) => post r
  | Some (Panicked _) => false
  | None =>
      match fuel, next x with
      | S fuel, (_ :: _) as ys => forallb (explore fuel post) ys
      | _, _ => false
      end
  end.

Lemma next_returned x o : outcome_of x = Some o -> next x = [].
Proof. intros E. unfold next. by rewrite E. Qed.

Lemma explore_step fuel post x y : explore fuel post x = true -> step x y ->
  exists fuel', fuel = S fuel' /\ explore fuel' post y = true.
Proof.
  unfold step. destruct fuel as [|fuel]; simpl.
  - destruct (outcome_of x) as [[r|msg]|] eqn:E; try done. rewrite (next_returned x _ E). set_solver.
  - destruct (outcome_of x) as [[r|msg]|] eqn:E; [rewrite (next_returned x _ E); set_solver..|].
    destruct (next x) as [|z l]; [done|]. intros H Hy. exists fuel. split; [done|].
    change (forallb (explore fuel post) (z :: l) = true) in H. rewrite forallb_forall in H. apply H. by apply list_elem_of_In.
Qed.

(** Where only one step can be made. *)
Lemma always_one n post x y : next x = [y] -> always n post y -> always (S n) post x.
Proof.
  intros E [Hb Hr]. assert (forall z, step x z <-> z = y) as Hxy.
  { intros z. unfold step. rewrite E. apply list_elem_of_singleton. }
  split.
  - intros m z Hs. destruct Hs as [x|m x z w Hz Hs]; [lia|]. apply Hxy in Hz as ->. apply Hb in Hs. lia.
  - intros z Hs. apply rtc_inv in Hs as [<-|(w & Hw & Hs)]; [left; exists y; by apply Hxy|].
    apply Hxy in Hw as ->. by apply Hr.
Qed.

Lemma always_returned n (post : Result Error A -> Prop) x r :
  outcome_of x = Some (Done r) -> post r -> always n post x.
Proof.
  intros E Hp. assert (forall y, ~ step x y) as Hno.
  { intros y Hy. unfold step in Hy. rewrite (next_returned _ _ E) in Hy. by apply not_elem_of_nil in Hy. }
  split.
  - intros m y Hs. destruct Hs as [x|m x y z Hy _]; [lia|]. by destruct (Hno y).
  - intros y Hs. apply rtc_inv in Hs as [<-|(z & Hz & _)]; [right; by exists r|]. by destruct (Hno z).
Qed.

(** The check is sound. *)
Lemma explore_sound fuel (post : Result Error A -> bool) (Post : Result Error A -> Prop) x :
  (forall r, post r = true -> Post r) -> explore fuel post x = true -> always fuel Post x.
Proof.
  intros Hpost H. split.
  - intros m y Hs. revert fuel H. induction Hs as [x|m x y z Hxy _ IH]; intros fuel H; [lia|].
    destruct (explore_step _ _ _ _ H Hxy) as (fuel' & -> & H'). apply IH in H'. lia.
  - intros y Hs. revert fuel H. induction Hs as [x|x y z Hxy _ IH]; intros fuel H.
    + destruct (outcome_of x) as [[r|msg]|] eqn:E.
      * right. exists r. split; [done|]. destruct fuel; simpl in H; rewrite E in H; by apply Hpost.
      * destruct fuel; simpl in H; by rewrite E in H.
      * left. destruct fuel as [|fuel]; simpl in H; rewrite E in H; [done|].
        unfold step. destruct (next x) as [|z l]; [done|]. exists z. set_solver.
    + destruct (explore_step _ _ _ _ H Hxy) as (fuel' & -> & H'). by eapply IH.
Qed.
End together.
Arguments begin {Req Resp A} _ _ _ _.
Arguments always {Req Resp A} _ _ _ _ _.
Arguments explore {Req Resp A} _ _ _ _ _.

(** ** Programs of several calls *)

(** A client that makes calls one after another: each to a handler, with the request the
    kind of the call sends and perhaps a deadline. *)
Inductive Script :=
| Finish (r : Result Error unit)
| Crash (msg : string)
| CallTo (Req Resp A : Type) (handler : Machine Resp Req unit) (request : option Req) (has_deadline : bool)
    (body : Prog Req Resp A) (k : Result Error A -> Script).
Arguments CallTo {Req Resp A} _ _ _ _ _.

(** A script passes: each of its calls ends in every run, and it returns [Ok]. *)
Fixpoint Passes (n : nat) (s : Script) : Prop :=
  match s with
  | Finish r => r = Ok tt
  | Crash _ => False
  | CallTo handler request has_deadline body k =>
      always (prog_machine body) handler n (fun r => Passes n (k r))
        (begin (prog_machine body) handler request has_deadline)
  end.

Fixpoint passes (n : nat) (s : Script) : bool :=
  match s with
  | Finish r => match r with Ok _ => true | Err _ => false end
  | Crash _ => false
  | CallTo handler request has_deadline body k =>
      explore (prog_machine body) handler n (fun r => passes n (k r))
        (begin (prog_machine body) handler request has_deadline)
  end.

Lemma passes_sound n s : passes n s = true -> Passes n s.
Proof.
  induction s as [r|msg|Req Resp A handler request has_deadline body k IH]; simpl.
  - by destruct r as [[]|].
  - done.
  - apply explore_sound. intros r. apply IH.
Qed.

(** One script after another, with [?] between. *)
Fixpoint and_then (s t : Script) : Script :=
  match s with
  | Finish (Ok _) => t
  | Finish (Err e) => Finish (Err e)
  | Crash msg => Crash msg
  | CallTo handler request has_deadline body k =>
      CallTo handler request has_deadline body (fun r => and_then (k r) t)
  end.

Lemma always_mono {Req Resp A} (c : Machine Req Resp A) s n (P Q : Result Error A -> Prop) x :
  (forall r, P r -> Q r) -> always c s n P x -> always c s n Q x.
Proof.
  intros H [Hb Hr]. split; [done|]. intros y Hy. destruct (Hr y Hy) as [?|(r & ? & ?)]; eauto.
Qed.

Lemma Passes_and_then n s t : Passes n s -> Passes n t -> Passes n (and_then s t).
Proof.
  intros Hs Ht. induction s as [r|msg|Req Resp A handler request has_deadline body k IH]; simpl in *.
  - by subst r.
  - done.
  - eapply always_mono; [|exact Hs]. intros r Hr. by apply IH.
Qed.

Lemma Passes_all n (l : list Script) : Forall (Passes n) l -> Passes n (foldr and_then (Finish (Ok tt)) l).
Proof. induction 1; simpl; [done|]. by apply Passes_and_then. Qed.
