(* ===== verification/Interop.v ===== *)
(** The interoperability tests: the test service (interop/src/server.rs), the client that
    runs the test cases against it (interop/src/client.rs) and the choice of a case
    (interop/src/bin/client.rs), as programs over calls (Process).

    Every body the tests make is [vec![0; n]]; a body is kept as its length [n].  The
    messages have the fields the tests use, with the accessors of the generated code. *)

From S2P Require Import Prelude Status Process.

Local Open Scope rust_scope.

(** ** Messages *)

Record Payload := mkPayload { body : Z }.
Definition Payload_default : Payload := mkPayload 0.

Record EchoStatus := mkEchoStatus { echo_code : Z; echo_message : string }.

Record SimpleRequest := mkSimpleRequest {
  response_size : Z;
  sr_payload : Payload;
  sr_response_status : option EchoStatus;
}.
Definition SimpleRequest_default : SimpleRequest := mkSimpleRequest 0 Payload_default None.

Record SimpleResponse := mkSimpleResponse { sp_payload : Payload }.

Record StreamingInputCallRequest := mkInputRequest { ir_payload : Payload }.
Record StreamingInputCallResponse := mkInputResponse { aggregated_payload_size : Z }.

Record StreamingOutputCallRequest := mkOutputRequest {
  response_parameters : list Z;
  or_payload : Payload;
  or_response_status : option EchoStatus;
}.
Definition StreamingOutputCallRequest_default : StreamingOutputCallRequest :=
  mkOutputRequest [] Payload_default None.

Record StreamingOutputCallResponse := mkOutputResponse { op_payload : Payload }.

(** The message without fields. *)
Abbreviation Empty := unit.

(** [size as usize] of an [i32]. *)
Definition as_usize (size : Z) : Z := size `mod` U64.

(** proto/src/util.rs: a vector of more than [isize::MAX] bytes cannot be made. *)
Definition new_payload (size : Z) : outcome Payload :=
  if bool_decide (size <= ISIZE_MAX)%Z then Done (mkPayload size) else Panicked "capacity overflow".

Definition new_parameters (size : Z) : Z := size.

(** ** The service *)

(** A future whose error makes it panic. *)
Definition or_panic {Out In} (r : Result Error unit) : Prog Out In unit :=
  match r with Ok _ => Do (Return (Ok tt)) | Err _ => Do (Panic "failed to send response") end.

(** A handler of a call with one request: the library reads it first. *)
Definition on_request {Req Resp} (h : Req -> Prog Resp Req unit) : Machine Resp Req unit :=
  prog_machine (Do (TryNext (fun r =>
    match r with
    | Ok (Some req) => h req
    | Ok None => Do (Return (Err RemoteStopped))
    | Err e => Do (Return (Err e))
    end))).

Definition with_payload {Out In} (size : Z) (k : Payload -> Prog Out In unit) : Prog Out In unit :=
  match new_payload (as_usize size) with Done p => k p | Panicked msg => Do (Panic msg) end.

Definition empty_call (_ : Empty) : Prog Empty Empty unit := Do (Success tt or_panic).

Definition echo_status (s : EchoStatus) : RpcStatus :=
  RpcStatus_with_message (RpcStatusCode_from_i32 (echo_code s)) (echo_message s).

Definition unary_call (req : SimpleRequest) : Prog SimpleResponse SimpleRequest unit :=
  match sr_response_status req with
  | Some s => Do (FailWith (echo_status s) or_panic)
  | None =>
      with_payload (response_size req) (fun p => Do (Success (mkSimpleResponse p) or_panic))
  end.

Definition cacheable_unary_call (_ : SimpleRequest) : Prog SimpleResponse SimpleRequest unit :=
  Do (Panic "not implemented").

Definition send_then_panic {Out In} (k : Prog Out In unit) (r : Result Error unit) : Prog Out In unit :=
  match r with Ok _ => k | Err _ => Do (Panic "failed to send response") end.

Fixpoint output_loop (params : list Z) : Prog StreamingOutputCallResponse StreamingOutputCallRequest unit :=
  match params with
  | [] => Do (Close or_panic)
  | size :: params =>
      with_payload size (fun p => Do (Send (mkOutputResponse p) (send_then_panic (output_loop params))))
  end.

Definition streaming_output_call (req : StreamingOutputCallRequest) :=
  output_loop (response_parameters req).

(** The states of the async block of [streaming_input_call]; at the end errors are logged. *)
Inductive InputState := InputLoop (s : Z) | InputReply (resp : StreamingInputCallResponse) | InputEnd.

Definition input_act (st : InputState) :
    Act StreamingInputCallResponse StreamingInputCallRequest unit InputState :=
  match st with
  | InputLoop s =>
      TryNext (fun r =>
        match r with
        | Ok (Some req) => InputLoop ((s + body (ir_payload req)) `mod` U64)
        | Ok None => InputReply (mkInputResponse (wrap_signed 32 s))
        | Err _ => InputEnd
        end)
  | InputReply resp => Success resp (fun _ => InputEnd)
  | InputEnd => Return (Ok tt)
  end.

Definition streaming_input_call : Machine StreamingInputCallResponse StreamingInputCallRequest unit :=
  mkMachine InputState (InputLoop 0) input_act.

(** The states of the async block of [full_duplex_call]. *)
Inductive DuplexState :=
| DuplexNext
| DuplexFail (s : RpcStatus)
| DuplexSleep (resp : StreamingOutputCallResponse)
| DuplexSend (resp : StreamingOutputCallResponse)
| DuplexClose
| DuplexEnd
| DuplexPanic (msg : string).

Definition duplex_request (req : StreamingOutputCallRequest) : DuplexState :=
  match or_response_status req with
  | Some s => DuplexFail (echo_status s)
  | None =>
      let payload := match response_parameters req with
                     | size :: _ => new_payload (as_usize size)
                     | [] => Done Payload_default
                     end in
      match payload with
      | Panicked msg => DuplexPanic msg
      | Done p =>
          let resp := mkOutputResponse p in
          if bool_decide (body (or_payload req) = 27182%Z) && bool_decide (response_parameters req = [])
          then DuplexSleep resp else DuplexSend resp
      end
  end.

Definition duplex_act (st : DuplexState) :
    Act StreamingOutputCallResponse StreamingOutputCallRequest unit DuplexState :=
  match st with
  | DuplexNext =>
      TryNext (fun r =>
        match r with
        | Ok (Some req) => duplex_request req
        | Ok None => DuplexClose
        | Err _ => DuplexEnd
        end)
  | DuplexFail s => FailWith s (fun _ => DuplexEnd)
  | DuplexSleep resp => Sleep (DuplexSend resp)
  | DuplexSend resp => Send resp (fun r => match r with Ok _ => DuplexNext | Err _ => DuplexEnd end)
  | DuplexClose => Close (fun _ => DuplexEnd)
  | DuplexEnd => Return (Ok tt)
  | DuplexPanic msg => Panic msg
  end.

Definition full_duplex_call : Machine StreamingOutputCallResponse StreamingOutputCallRequest unit :=
  mkMachine DuplexState DuplexNext duplex_act.

Definition half_duplex_call : Machine StreamingOutputCallResponse StreamingOutputCallRequest unit :=
  prog_machine (Do (Panic "not implemented")).

(** A method that the service does not implement: [unimplemented_call!] of the generated
    trait, or the answer of the server for a method nobody registered. *)
Definition unimplemented_call : Machine Empty Empty unit :=
  on_request (fun _ => Do (FailWith (RpcStatus_new CODE_UNIMPLEMENTED) (fun _ => Do (Return (Ok tt))))).

(** ** The tests *)

Definition pass {Out In} : Prog Out In unit := Do (Return (Ok tt)).

Definition assert {Out In} (b : bool) (k : Prog Out In unit) : Prog Out In unit :=
  if b then k else Do (Panic "assertion failed").

(** The steps of a client: each ends the test with its error. *)
Definition send {Out In A} (m : Out) (k : Prog Out In A) : Prog Out In A := Do (Send m (try (fun _ => k))).
Definition close {Out In A} (k : Prog Out In A) : Prog Out In A := Do (Close (try (fun _ => k))).
Definition try_next {Out In A} (k : option In -> Prog Out In A) : Prog Out In A := Do (TryNext (try k)).
Definition await {Out In A} (k : In -> Prog Out In A) : Prog Out In A := Do (Await (try k)).

(** [.unwrap()] of an option, [.unwrap_err()] of a result that must be an [RpcFailure]. *)
Definition unwrap_some {T Out In A} (k : T -> Prog Out In A) (o : option T) : Prog Out In A :=
  match o with Some t => k t | None => Do (Panic "called `Option::unwrap()` on a `None` value") end.

Definition expect_failure {T Out In} (check : RpcStatus -> bool) (k : Prog Out In unit)
    (r : Result Error T) : Prog Out In unit :=
  match r with
  | Err (RpcFailure s) => assert (check s) k
  | Err _ => Do (Panic "expected rpc failure")
  | Ok _ => Do (Panic "error expected")
  end.

Definition has_code (code : Z) (s : RpcStatus) : bool :=
  bool_decide (status_code s = RpcStatusCode_from_i32 code).

(** A payload of a size the tests use. *)
Definition payload (size : Z) : Payload := mkPayload size.

Definition empty_unary : Script :=
  CallTo (on_request empty_call) (Some tt) false (await (fun resp => assert (bool_decide (resp = tt)) pass)) Finish.

Definition large_unary : Script :=
  let req := mkSimpleRequest 314159 (payload 271828) None in
  CallTo (on_request unary_call) (Some req) false
    (await (fun resp => assert (bool_decide (body (sp_payload resp) = 314159%Z)) pass)) Finish.

Fixpoint send_payloads (sizes : list Z) {A} (k : Prog StreamingInputCallRequest StreamingInputCallResponse A) :=
  match sizes with
  | [] => k
  | size :: sizes => send (mkInputRequest (payload size)) (send_payloads sizes k)
  end.

Definition client_streaming : Script :=
  CallTo streaming_input_call None false
    (send_payloads [27182; 8; 1828; 45904]%Z
      (close (await (fun resp => assert (bool_decide (aggregated_payload_size resp = 74922%Z)) pass)))) Finish.

(** The loop reads until the end of the stream; here as often as there are sizes, and once
    more, since another message would make [sizes[i]] panic. *)
Fixpoint expect_payloads (sizes : list Z) : Prog StreamingOutputCallRequest StreamingOutputCallResponse unit :=
  try_next (fun r =>
    match sizes, r with
    | [], None => pass
    | size :: sizes, Some r => assert (bool_decide (body (op_payload r) = as_usize size)) (expect_payloads sizes)
    | [], Some _ => Do (Panic "index out of bounds")
    | _ :: _, None => Do (Panic "assertion failed")
    end).

Definition server_streaming : Script :=
  let sizes := [31415; 9; 2653; 58979]%Z in
  let req := mkOutputRequest (new_parameters <$> sizes) Payload_default None in
  CallTo (on_request streaming_output_call) (Some req) false (expect_payloads sizes) Finish.

Fixpoint ping_pong_cases (cases : list (Z * Z)) :
    Prog StreamingOutputCallRequest StreamingOutputCallResponse unit :=
  match cases with
  | [] => close (try_next (fun r => assert (match r with None => true | Some _ => false end) pass))
  | (resp_size, payload_size) :: cases =>
      send (mkOutputRequest [new_parameters resp_size] (payload payload_size) None)
        (try_next (unwrap_some (fun resp =>
          assert (bool_decide (body (op_payload resp) = as_usize resp_size)) (ping_pong_cases cases))))
  end.

Definition ping_pong : Script :=
  CallTo full_duplex_call None false
    (ping_pong_cases [(31415, 27182); (9, 8); (2653, 1828); (58979, 45904)]%Z) Finish.

Definition empty_stream : Script :=
  CallTo full_duplex_call None false
    (close (try_next (fun r => assert (match r with None => true | Some _ => false end) pass))) Finish.

Definition cancel_after_begin : Script :=
  CallTo streaming_input_call None false
    (Do (Sleep (Do (Cancel (Do (Await (expect_failure (has_code 1) pass))))))) Finish.

Definition cancel_after_first_response : Script :=
  let req := mkOutputRequest [new_parameters 31415] (payload 27182) None in
  CallTo full_duplex_call None false
    (send req (try_next (unwrap_some (fun resp =>
      assert (bool_decide (body (op_payload resp) = 31415%Z))
        (Do (Cancel (Do (TryNext (expect_failure (has_code 1) pass)))))))))  Finish.

Definition timeout_on_sleeping_server : Script :=
  let req := mkOutputRequest [] (payload 27182) None in
  CallTo full_duplex_call None true
    (Do (Send req (ignore (Do (TryNext (expect_failure (has_code 4) pass)))))) Finish.

Definition status_code_and_message : Script :=
  let error_msg := "test status message" in
  let status := mkEchoStatus 2 error_msg in
  let check s := has_code 2 s && bool_decide (status_message s = error_msg) in
  CallTo (on_request unary_call) (Some (mkSimpleRequest 0 Payload_default (Some status))) false
    (Do (Await (expect_failure check pass)))
    (fun r => match r with
     | Err e => Finish (Err e)
     | Ok _ =>
         CallTo full_duplex_call None false
           (Do (Send (mkOutputRequest [] Payload_default (Some status))
              (ignore (Do (TryNext (expect_failure check pass)))))) Finish
     end).

Definition unimplemented_method : Script :=
  CallTo unimplemented_call (Some tt) false (Do (Await (expect_failure (has_code 12) pass))) Finish.

Definition unimplemented_service : Script :=
  CallTo unimplemented_call (Some tt) false (Do (Await (expect_failure (has_code 12) pass))) Finish.

Definition test_all : Script :=
  foldr and_then (Finish (Ok tt))
    [empty_unary; large_unary; client_streaming; server_streaming; ping_pong; empty_stream;
     cancel_after_begin; cancel_after_first_response; timeout_on_sleeping_server;
     status_code_and_message; unimplemented_method; unimplemented_service].

(** The cases by name. *)
Definition cases : list (string * Script) :=
  [("EMPTY_UNARY", empty_unary); ("LARGE_UNARY", large_unary); ("CLIENT_STREAMING", client_streaming);
   ("SERVER_STREAMING", server_streaming); ("PING_PONG", ping_pong); ("EMPTY_STREAM", empty_stream);
   ("CANCEL_AFTER_BEGIN", cancel_after_begin);
   ("CANCEL_AFTER_FIRST_RESPONSE", cancel_after_first_response);
   ("TIMEOUT_ON_SLEEPING_SERVER", timeout_on_sleeping_server);
   ("STATUS_CODE_AND_MESSAGE", status_code_and_message);
   ("UNIMPLEMENTED_METHOD", unimplemented_method); ("UNIMPLEMENTED_SERVICE", unimplemented_service)].

Fixpoint find_case (name : string) (l : list (string * Script)) : Script :=
  match l with
  | [] => Crash "unknown case"
  | (n, s) :: l => if bool_decide (name = n) then s else find_case name l
  end.

(** [run_test]; [to_uppercase] is that of strings. *)
Definition run_test (to_uppercase : string -> string) (case : option string) : Script :=
  match case with
  | None => test_all
  | Some s => find_case (to_uppercase s) cases
  end.

Lemma cases_pass : forallb (fun c => passes 32 c.2) cases = true.
Proof. vm_compute. reflexivity. Qed.

Lemma all_cases_pass : Forall (fun c => Passes 32 c.2) cases.
Proof.
  apply Forall_forall. intros c Hc. apply passes_sound. pose proof cases_pass as H.
  rewrite forallb_forall in H. apply H. by apply list_elem_of_In.
Qed.

Lemma find_case_passes n name l : Forall (fun c => Passes n c.2) l -> name ∈ l.*1 ->
  Passes n (find_case name l).
Proof.
  induction 1 as [|[m s] l Hs _ IH]; simpl; [by intros ?%not_elem_of_nil|].
  intros [->|Hin]%elem_of_cons; case_bool_decide; [done..|]. by apply IH.
Qed.

(** The interoperability tests pass: run against the test service, each case the client
    can be asked for, and the sequence of all of them, ends in every interleaving of the two
    sides within 32 steps per call, without a panic or a failed assertion, also where a call
    is cancelled, its deadline passes, or a send races with the end of the call. *)
Theorem interop_tests_pass (to_uppercase : string -> string) (case : option string) :
  match case with Some s => to_uppercase s ∈ cases.*1 | None => True end ->
  Passes 32 (run_test to_uppercase case).
Proof.
  destruct case as [s|]; [apply find_case_passes, all_cases_pass|intros _].
  change (run_test to_uppercase None) with (foldr and_then (Finish (Ok tt)) (cases.*2)).
  apply Passes_all, Forall_fmap, all_cases_pass.
Qed.

Lemma interop_tests_pass_witness :
  Passes 32 (run_test id (Some "PING_PONG")) /\ Passes 32 (run_test id None).
Proof.
  split.
  - apply (interop_tests_pass id (Some "PING_PONG")). apply (bool_decide_eq_true_1 (_ ∈ _)). reflexivity.
  - apply (interop_tests_pass id None). exact I.
Defined.

(** A case that is not known panics, and so does the service when it is asked for a
    response of negative size: the size becomes a length that no vector can have. *)
Example unknown_case_panics : run_test id (Some "NO_SUCH") = Crash "unknown case".
Proof. reflexivity. Qed.

Example negative_size_panics :
  unary_call (mkSimpleRequest (-1) Payload_default None) = Do (Panic "capacity overflow").
Proof. reflexivity. Qed.
