(* ===== verification/BenchUtil.v ===== *)
(** Measuring in the benchmarks: the histogram and the recorder of processor times of
    benchmark/src/util.rs, and the load generators of benchmark/src/client.rs.

    [f64] is a class of parameters: the arithmetic the code uses, with the few laws of
    order that its correctness needs. *)

From Stdlib Require Import QArith.
From S2P Require Import Prelude Status Utf8.

Local Open Scope nat_scope.
Local Open Scope rust_scope.

(** ** Floating-point numbers *)

Class Float64 := {
  f64 : Type;
  f_of_Z : Z -> f64;
  MAX : f64;
  MIN : f64;
  fadd : f64 -> f64 -> f64;
  fsub : f64 -> f64 -> f64;
  fmul : f64 -> f64 -> f64;
  fdiv : f64 -> f64 -> f64;
  ln : f64 -> f64;
  flt : f64 -> f64 -> bool;
  as_usize_f64 : f64 -> nat;
}.

(** A number is not NaN.  The order of numbers is total, and the logarithm, the product with
    a factor that is not negative and the cast do not turn it around. *)
Class Float64Laws (F : Float64) := {
  number : f64 -> Prop;
  number_one : number (f_of_Z 1);
  le_trans x y z : number x -> number y -> number z -> flt y x = false -> flt z y = false -> flt z x = false;
  lt_le x y : flt x y = true -> flt y x = false;
  number_bounds : number MAX /\ number MIN;
  bucket_mono x y k : number x -> number y -> number k -> flt k (f_of_Z 0) = false -> flt y x = false ->
    as_usize_f64 (fmul (ln x) k) <= as_usize_f64 (fmul (ln y) k);
}.

(** ** The histogram *)

Section histogram.
Context `{F : Float64}.

Record Histogram := mkHistogram {
  count : Z;
  sum : f64;
  sum_of_squares : f64;
  min : f64;
  max : f64;
  buckets : list Z;
  one_on_log_multiplier : f64;
  max_val : f64;
}.

(** [find_bucket]. *)
Definition bucket_of (one_on_log_multiplier max_val value : f64) : nat :=
  let value := if flt value (f_of_Z 1) then f_of_Z 1 else value in
  let value := if flt max_val value then max_val else value in
  as_usize_f64 (fmul (ln value) one_on_log_multiplier).

Definition find_bucket (self : Histogram) (value : f64) : nat :=
  bucket_of (one_on_log_multiplier self) (max_val self) value.

Definition Histogram_new (resolution max_val : f64) : Histogram :=
  let multiplier := fadd (f_of_Z 1) resolution in
  let one_on_log_multiplier := fdiv (f_of_Z 1) (ln multiplier) in
  let his := mkHistogram 0 (f_of_Z 0) (f_of_Z 0) MAX MIN [] one_on_log_multiplier max_val in
  let bucket_size := find_bucket his max_val in
  mkHistogram 0 (f_of_Z 0) (f_of_Z 0) MAX MIN (replicate (bucket_size + 1) 0%Z) one_on_log_multiplier max_val.

(** [self.buckets[i] += 1]. *)
Definition bump (checks : bool) (i : nat) (l : list Z) : outcome (list Z) :=
  match l !! i with
  | Some b => let+ b := checked_u checks U32 (b + 1) in Done (<[i := b]> l)
  | None => Panicked "index out of bounds"
  end.

Definition observe (checks : bool) (value : f64) (self : Histogram) : outcome Histogram :=
  let+ c := checked_u checks U32 (count self + 1) in
  let sum := fadd (sum self) value in
  let squares := fadd (sum_of_squares self) (fmul value value) in
  let mn := if flt value (min self) then value else min self in
  let mx := if flt (max self) value then value else max self in
  let+ bs := bump checks (find_bucket self value) (buckets self) in
  Done (mkHistogram c sum squares mn mx bs (one_on_log_multiplier self) (max_val self)).

Definition clear (self : Histogram) : Histogram :=
  mkHistogram 0 (f_of_Z 0) (f_of_Z 0) MAX MIN ((fun _ => 0%Z) <$> buckets self)
    (one_on_log_multiplier self) (max_val self).

(** The message HistogramData. *)
Record HistogramData := mkHistogramData {
  hd_count : Z; hd_sum : f64; hd_sum_of_squares : f64; hd_min_seen : f64; hd_max_seen : f64; hd_bucket : list Z;
}.

Definition report (reset : bool) (self : Histogram) : HistogramData * Histogram :=
  let data := mkHistogramData (count self) (sum self) (sum_of_squares self) (min self) (max self) (buckets self) in
  (data, if reset then clear self else self).

Fixpoint observe_all (checks : bool) (vs : list f64) (self : Histogram) : outcome Histogram :=
  match vs with
  | [] => Done self
  | v :: vs => let+ self := observe checks v self in observe_all checks vs self
  end.

(** ** What a histogram of values is *)

Definition pick (better : f64 -> f64 -> bool) (m v : f64) : f64 := if better v m then v else m.
Definition above (x y : f64) : bool := flt y x.

(** How many of the values fall into a bucket. *)
Definition in_bucket (k mv : f64) (vs : list f64) (i : nat) : Z :=
  Z.of_nat (length (filter (fun v => bucket_of k mv v = i) vs)).

Definition histogram_of (k mv : f64) (size : nat) (vs : list f64) : Histogram :=
  mkHistogram (Z.of_nat (length vs)) (foldl fadd (f_of_Z 0) vs)
    (foldl fadd (f_of_Z 0) ((fun v => fmul v v) <$> vs))
    (foldl (pick flt) MAX vs) (foldl (pick above) MIN vs) (in_bucket k mv vs <$> seq 0 size) k mv.

(** ** Lemmas *)

Context `{L : !Float64Laws F}.

Lemma bucket_in_range k mv v : number k -> flt k (f_of_Z 0) = false -> number mv -> number v ->
  bucket_of k mv v <= bucket_of k mv mv.
Proof.
  intros Hk Hk0 Hm Hv. pose proof number_one as H1. unfold bucket_of. apply bucket_mono; [| |done..|].
  - destruct (flt v (f_of_Z 1)); destruct (flt mv _); done.
  - destruct (flt mv (f_of_Z 1)) eqn:E; [|by destruct (flt mv mv)]. by rewrite E.
  - set (y := if flt mv (f_of_Z 1) then f_of_Z 1 else mv).
    assert ((if flt mv y then mv else y) = mv) as ->.
    { unfold y. destruct (flt mv (f_of_Z 1)) eqn:E; [by rewrite E|].
      destruct (flt mv mv) eqn:E'; [|done]. by rewrite (lt_le _ _ E') in E'. }
    destruct (flt mv (if flt v (f_of_Z 1) then f_of_Z 1 else v)) eqn:E; [|done].
    destruct (flt mv mv) eqn:E'; [|done]. by rewrite (lt_le _ _ E') in E'.
Qed.

Lemma in_bucket_snoc k mv vs v i :
  in_bucket k mv (vs ++ [v]) i =
    (in_bucket k mv vs i + if bool_decide (bucket_of k mv v = i) then 1 else 0)%Z.
Proof.
  unfold in_bucket. rewrite filter_app, length_app. case_bool_decide.
  - rewrite filter_cons_True, filter_nil by done. simpl. lia.
  - rewrite filter_cons_False, filter_nil by done. simpl. lia.
Qed.

Lemma in_bucket_le k mv vs i : (0 <= in_bucket k mv vs i <= Z.of_nat (length vs))%Z.
Proof. unfold in_bucket. pose proof (length_filter (fun v => bucket_of k mv v = i) vs). lia. Qed.

(** Each value is in one bucket, so the buckets add up to the number of values. *)
Lemma buckets_add_up k mv size vs :
  Forall (fun v => bucket_of k mv v < size) vs ->
  foldr Z.add 0%Z (in_bucket k mv vs <$> seq 0 size) = Z.of_nat (length vs).
Proof.
  intros Hr. induction vs as [|v vs IH] using rev_ind.
  - induction (seq 0 size) as [|x l IHl]; [done|exact IHl].
  - apply Forall_app in Hr as [Hr Hv]. rewrite Forall_singleton in Hv. rewrite length_app. simpl.
    replace (Z.of_nat (length vs + 1)) with (Z.of_nat (length vs) + 1)%Z by lia. rewrite <-IH by done.
    assert (forall l : list nat, NoDup l -> foldr Z.add 0%Z (in_bucket k mv (vs ++ [v]) <$> l) =
      (foldr Z.add 0%Z (in_bucket k mv vs <$> l) + if bool_decide (bucket_of k mv v ∈ l) then 1 else 0)%Z) as H.
    { induction l as [|i l IHl]; intros Hnd; [done|]. apply NoDup_cons in Hnd as [Hi Hnd].
      rewrite !fmap_cons. cbn [foldr]. rewrite IHl, in_bucket_snoc by done.
      destruct (decide (bucket_of k mv v = i)) as [<-|Hne].
      - rewrite (bool_decide_eq_true_2 _ eq_refl), (bool_decide_eq_false_2 _ Hi).
        rewrite bool_decide_eq_true_2 by set_solver. lia.
      - rewrite (bool_decide_eq_false_2 _ Hne), (bool_decide_ext (_ ∈ i :: l) (bucket_of k mv v ∈ l)); [lia|].
        rewrite elem_of_cons. tauto. }
    rewrite H by apply NoDup_seq. rewrite bool_decide_eq_true_2; [done|]. apply elem_of_seq. lia.
Qed.

Lemma checked_u32 checks x : (0 <= x < U32)%Z -> checked_u checks U32 x = Done x.
Proof.
  intros Hx. unfold checked_u. rewrite bool_decide_eq_true_2, Z.mod_small by done. by destruct checks.
Qed.

(** Observing one more value. *)
Lemma observe_one checks k mv size vs v :
  bucket_of k mv v < size -> (Z.of_nat (length vs) + 1 < U32)%Z ->
  observe checks v (histogram_of k mv size vs) = Done (histogram_of k mv size (vs ++ [v])).
Proof.
  intros Hb Hl. unfold observe. cbn [count sum sum_of_squares min max buckets histogram_of].
  rewrite checked_u32 by lia. cbn [obind]. unfold bump, find_bucket.
  cbn [one_on_log_multiplier max_val histogram_of]. rewrite list_lookup_fmap, lookup_seq_lt by done.
  cbn [fmap option_fmap option_map]. rewrite Nat.add_0_l.
  pose proof (in_bucket_le k mv vs (bucket_of k mv v)).
  rewrite checked_u32 by lia. cbn [obind]. unfold histogram_of.
  rewrite length_app, fmap_app, !foldl_app. cbn [foldl fmap list_fmap length].
  replace (Z.of_nat (length vs + 1)) with (Z.of_nat (length vs) + 1)%Z by lia.
  do 2 f_equal. apply list_eq. intros i. destruct (decide (i < size)) as [Hi|Hi].
  - rewrite list_lookup_fmap, lookup_seq_lt by done. cbn [fmap option_fmap option_map].
    rewrite Nat.add_0_l, in_bucket_snoc. destruct (decide (bucket_of k mv v = i)) as [<-|Hne].
    + rewrite list_lookup_insert_eq by (by rewrite length_fmap, length_seq).
      by rewrite bool_decide_eq_true_2.
    + rewrite list_lookup_insert_ne, list_lookup_fmap, lookup_seq_lt by done.
      rewrite bool_decide_eq_false_2, Z.add_0_r by done. done.
  - rewrite !lookup_ge_None_2; [done|rewrite ?length_insert, length_fmap, length_seq; lia..].
Qed.

Lemma observe_all_from checks k mv size vs ws :
  Forall (fun v => bucket_of k mv v < size) ws -> (Z.of_nat (length vs + length ws) < U32)%Z ->
  observe_all checks ws (histogram_of k mv size vs) = Done (histogram_of k mv size (vs ++ ws)).
Proof.
  intros Hw. revert vs. induction Hw as [|v ws Hv _ IH]; intros vs Hl; simpl in *; [by rewrite app_nil_r|].
  rewrite observe_one by (done || lia). cbn [obind]. rewrite IH by (rewrite length_app; simpl; lia).
  by rewrite <-app_assoc.
Qed.

(** A new histogram, and one that was reset, is that of no values. *)
Lemma Histogram_new_of resolution mv :
  let his := Histogram_new resolution mv in
  his = histogram_of (one_on_log_multiplier his) mv (bucket_of (one_on_log_multiplier his) mv mv + 1) [].
Proof.
  unfold Histogram_new, histogram_of. cbn. f_equal. apply list_eq. intros i.
  set (n := _ + 1). destruct (decide (i < n)) as [Hi|Hi].
  - rewrite lookup_replicate_2, list_lookup_fmap, lookup_seq_lt by done. done.
  - rewrite !lookup_ge_None_2; [done|rewrite ?length_fmap, ?length_seq, ?length_replicate; lia..].
Qed.

Lemma clear_of k mv size vs : clear (histogram_of k mv size vs) = histogram_of k mv size [].
Proof.
  unfold clear, histogram_of. cbn. f_equal. rewrite <-list_fmap_compose. by apply list_fmap_ext.
Qed.

(** The extremes bound every value, in both orders. *)
Lemma pick_bound (better : f64 -> f64 -> bool) vs :
  (forall x y, better x y = true -> better y x = false) ->
  (forall x y z, number x -> number y -> number z -> better x y = false -> better y z = false -> better x z = false) ->
  Forall number vs -> forall m, number m ->
  number (foldl (pick better) m vs) /\ better m (foldl (pick better) m vs) = false /\
  Forall (fun v => better v (foldl (pick better) m vs) = false) vs.
Proof.
  intros Has Htr. assert (forall x, better x x = false) as Hirr.
  { intros x. destruct (better x x) eqn:E; [|done]. by rewrite (Has _ _ E) in E. }
  induction 1 as [|v vs Hv Hvs IH]; intros m Hm; simpl; [by auto|].
  assert (number (pick better m v)) as Hn by (unfold pick; by destruct (better v m)).
  destruct (IH _ Hn) as (H1 & H2 & H3). split; [done|].
  assert (better m (pick better m v) = false /\ better v (pick better m v) = false) as [Ha Hb].
  { unfold pick. destruct (better v m) eqn:E; auto. }
  split; [|constructor; [|done]]; by apply (Htr _ (pick better m v)).
Qed.

Lemma extremes_bound vs : Forall number vs ->
  Forall (fun v => flt v (foldl (pick flt) MAX vs) = false /\ flt (foldl (pick above) MIN vs) v = false) vs.
Proof.
  intros Hvs. destruct number_bounds as [HM Hm]. apply Forall_and. split.
  - apply pick_bound; [exact lt_le | | done..]. intros x y z ?????. by apply (le_trans z y x).
  - apply (pick_bound above); [by intros x y; apply lt_le | | done..].
    intros x y z ?????. by apply (le_trans x y z).
Qed.

(** A histogram is one of its values: with a resolution whose factor is not negative,
    after any observations of fewer than 2^32 numbers (whatever their size, also beyond the
    largest value) no index is out of range and nothing overflows; the report has their
    number, their sums, bounds that no value is outside of, and in each bucket how many fell
    into it, which adds up to their number; and a reset starts over. *)
Theorem histogram_consistent (checks reset : bool) (resolution mv : f64) (vs : list f64) :
  let his := Histogram_new resolution mv in
  let k := one_on_log_multiplier his in
  number k -> flt k (f_of_Z 0) = false ->
  number mv -> Forall number vs -> (Z.of_nat (length vs) < U32)%Z ->
  let size := bucket_of k mv mv + 1 in
  exists his', observe_all checks vs his = Done his' /\
    (report reset his').1 = mkHistogramData (Z.of_nat (length vs)) (foldl fadd (f_of_Z 0) vs)
      (foldl fadd (f_of_Z 0) ((fun v => fmul v v) <$> vs)) (foldl (pick flt) MAX vs) (foldl (pick above) MIN vs)
      (in_bucket k mv vs <$> seq 0 size) /\
    foldr Z.add 0%Z (hd_bucket (report reset his').1) = Z.of_nat (length vs) /\
    Forall (fun v => flt v (hd_min_seen (report reset his').1) = false /\
                     flt (hd_max_seen (report reset his').1) v = false) vs /\
    (report reset his').2 = (if reset then his else his').
Proof.
  intros his k Hk Hk0 Hmv Hvs Hl size.
  assert (Forall (fun v => bucket_of k mv v < size) vs) as Hb.
  { eapply Forall_impl; [exact Hvs|]. intros v Hv. unfold size.
    pose proof (bucket_in_range k mv v Hk Hk0 Hmv Hv). simpl. lia. }
  pose proof (Histogram_new_of resolution mv) as Hnew. simpl in Hnew. fold his in Hnew. fold k size in Hnew.
  exists (histogram_of k mv size vs). split; [|split; [done|split; [|split]]].
  - rewrite Hnew. by apply (observe_all_from checks k mv size [] vs).
  - by apply buckets_add_up.
  - by apply extremes_bound.
  - destruct reset; [|done]. simpl. rewrite clear_of. by rewrite Hnew.
Qed.
End histogram.

(** ** Recording processor times *)

(** The message of one sample, and the recorder with what it read last; times are
    nanoseconds of a monotonic clock. *)
Section recorder.
Context `{F : Float64}.

Record Sample := mkSample {
  real_time : f64; user_time : f64; sys_time : f64; total_cpu : Z; idle_cpu : Z;
}.

Record CpuRecorder := mkRecorder {
  r_user_time : f64; r_sys_time : f64; r_total_cpu : Z; r_idle_cpu : Z; last_reset_time : Z;
}.

(** What the system reports at one time: the processor counters, the times of the process,
    and the clock. *)
Record Reading := mkReading {
  cpu_usage : Z * Z; resource_usage : f64 * f64; now : Z;
}.

(** [dur_to_secs] and [dur_to_nanos] of a duration in nanoseconds. *)
Definition dur_to_secs (dur : Z) : f64 :=
  fadd (f_of_Z (dur / 1000000000)) (fdiv (f_of_Z (dur `mod` 1000000000)) (f_of_Z 1000000000)).

Definition dur_to_nanos (dur : Z) : f64 :=
  fadd (fmul (f_of_Z (dur / 1000000000)) (f_of_Z 1000000000)) (f_of_Z (dur `mod` 1000000000)).

Definition CpuRecorder_new (r : Reading) : CpuRecorder :=
  mkRecorder (snd (resource_usage r)) (fst (resource_usage r)) (fst (cpu_usage r)) (snd (cpu_usage r)) (now r).

Definition cpu_time (checks reset : bool) (r : Reading) (self : CpuRecorder) :
    outcome (Sample * CpuRecorder) :=
  let+ total_cpu_diff := checked_u checks U64 (fst (cpu_usage r) - r_total_cpu self) in
  let+ idle_cpu_diff := checked_u checks U64 (snd (cpu_usage r) - r_idle_cpu self) in
  let sys_time_diff := fsub (fst (resource_usage r)) (r_sys_time self) in
  let user_time_diff := fsub (snd (resource_usage r)) (r_user_time self) in
  Done (mkSample (dur_to_secs (now r - last_reset_time self)) user_time_diff sys_time_diff
          total_cpu_diff idle_cpu_diff,
        if reset then CpuRecorder_new r else self).

(** A sequence of samples. *)
Fixpoint samples (checks : bool) (rs : list (bool * Reading)) (self : CpuRecorder) :
    outcome (list Sample * CpuRecorder) :=
  match rs with
  | [] => Done ([], self)
  | (reset, r) :: rs =>
      let+ (x, self) := cpu_time checks reset r self in
      let+ (xs, self) := samples checks rs self in
      Done (x :: xs, self)
  end.

(** Counters that do not decrease. *)
Fixpoint counters_grow (total idle : Z) (rs : list (bool * Reading)) : Prop :=
  match rs with
  | [] => True
  | (_, r) :: rs =>
      (total <= fst (cpu_usage r) < U64 /\ idle <= snd (cpu_usage r) < U64)%Z /\
      counters_grow (fst (cpu_usage r)) (snd (cpu_usage r)) rs
  end.

(** With a reset at each sample, the samples divide the use of the processor: their totals
    add up to what the counters counted from the first reading to the last. *)
Lemma samples_divide checks rs self :
  Forall (fun x => x.1 = true) rs ->
  (0 <= r_total_cpu self)%Z -> (0 <= r_idle_cpu self)%Z ->
  counters_grow (r_total_cpu self) (r_idle_cpu self) rs ->
  exists xs self', samples checks rs self = Done (xs, self') /\
    (foldr Z.add 0 (total_cpu <$> xs) = r_total_cpu self' - r_total_cpu self)%Z /\
    (foldr Z.add 0 (idle_cpu <$> xs) = r_idle_cpu self' - r_idle_cpu self)%Z.
Proof.
  intros Hr. revert self. induction Hr as [|[reset r] rs Hreset _ IH]; intros self H1 H2 Hg.
  - exists [], self. simpl. split; [done|]. lia.
  - destruct Hg as [[Ht Hi] Hg]. simpl in Hreset. subst reset. cbn [samples]. unfold cpu_time.
    assert (forall x, (0 <= x < U64)%Z -> checked_u checks U64 x = Done x) as Hc.
    { intros x Hx. unfold checked_u. rewrite bool_decide_eq_true_2, Z.mod_small by done. by destruct checks. }
    rewrite !Hc by lia. cbn [obind]. destruct (IH (CpuRecorder_new r)) as (xs & self' & -> & Ht' & Hi');
      [simpl; lia..|done|]. cbn [obind]. eexists _, self'. split; [done|].
    rewrite !fmap_cons. cbn [foldr total_cpu idle_cpu]. rewrite Ht', Hi'. simpl. lia.
Qed.
End recorder.

(** [str::split_whitespace] and [str::parse::<u64>] of a text in ASCII, as /proc/stat is. *)
Definition is_space (b : byte) : bool :=
  match b with x09 | x0a | x0b | x0c | x0d | x20 => true | _ => false end.

Fixpoint words (word : list byte) (bs : list byte) : list (list byte) :=
  match bs with
  | [] => if bool_decide (word = []) then [] else [word]
  | b :: bs =>
      if is_space b then (if bool_decide (word = []) then [] else [word]) ++ words [] bs
      else words (word ++ [b]) bs
  end.

Definition split_whitespace (bs : list byte) : list (list byte) := words [] bs.

Definition digit (b : byte) : option Z :=
  if in_range 48 57 b then Some (bZ b - 48)%Z else None.

Fixpoint parse_digits (acc : Z) (bs : list byte) : option Z :=
  match bs with
  | [] => Some acc
  | b :: bs =>
      match digit b with
      | Some d => if bool_decide (10 * acc + d < U64)%Z then parse_digits (10 * acc + d) bs else None
      | None => None
      end
  end.

Definition parse_u64 (bs : list byte) : option Z :=
  match bs with
  | [] => None
  | x2b :: [] => None
  | x2b :: bs => parse_digits 0 bs
  | bs => parse_digits 0 bs
  end.

Fixpoint usage_loop (checks : bool) (idx : nat) (usages : list (list byte)) (total idle : Z) : outcome (Z * Z) :=
  match usages with
  | [] => Done (total, idle)
  | usage :: usages =>
      match parse_u64 usage with
      | None => Panicked "called `Result::unwrap()` on an `Err` value"
      | Some n =>
          let+ total := checked_u checks U64 (total + n) in
          usage_loop checks (S idx) usages total (if bool_decide (idx = 3) then n else idle)
      end
  end.

(** [get_cpu_usage] of the contents of /proc/stat. *)
Definition get_cpu_usage (checks : bool) (usages : list byte) : outcome (Z * Z) :=
  if bool_decide (5 <= length usages)
  then usage_loop checks 0 (take 10 (split_whitespace (drop 5 usages))) 0 0
  else Panicked "byte index 5 is out of bounds".

(** The total is the sum of the numbers that are read, the idle time the fourth of them. *)
Lemma usage_loop_sums checks (ns : list Z) (usages : list (list byte)) idx total idle :
  parse_u64 <$> usages = Some <$> ns -> Forall (fun n => 0 <= n)%Z ns -> (0 <= total)%Z ->
  (total + foldr Z.add 0 ns < U64)%Z ->
  usage_loop checks idx usages total idle =
    Done ((total + foldr Z.add 0 ns)%Z, if bool_decide (idx <= 3) then default idle (ns !! (3 - idx)) else idle).
Proof.
  revert usages idx total idle. induction ns as [|n ns IH]; intros [|u us] idx total idle E Hn Ht Hl; try done.
  - simpl. rewrite Z.add_0_r. by case_bool_decide.
  - injection E as Eu E. rewrite Forall_cons in Hn. destruct Hn as [Hn Hns]. cbn [usage_loop foldr] in *.
    assert (0 <= foldr Z.add 0 ns)%Z as H0.
    { clear -Hns. induction Hns; simpl; lia. }
    rewrite Eu. unfold checked_u. rewrite bool_decide_eq_true_2, Z.mod_small by lia.
    replace (if checks then Done (total + n)%Z else Done (total + n)%Z) with (Done (total + n)%Z) by (by destruct checks).
    cbn [obind]. rewrite IH by (done || lia). do 2 f_equal; [lia|].
    destruct (decide (idx = 3)) as [->|Hne].
    + rewrite bool_decide_eq_false_2, !bool_decide_eq_true_2 by lia. done.
    + rewrite (bool_decide_eq_false_2 (idx = 3)) by done.
      destruct (decide (idx <= 3)).
      * rewrite !bool_decide_eq_true_2 by lia. by replace (3 - idx) with (S (3 - S idx)) by lia.
      * by rewrite !bool_decide_eq_false_2 by lia.
Qed.

Example cpu_usage_read :
  get_cpu_usage true (as_bytes "cpu  10 20 30 40 50 60 70 80 90 100") = Done (550, 40)%Z.
Proof. vm_compute. reflexivity. Qed.

(** [timeval_to_seconds], in exact arithmetic. *)
Definition timeval_to_seconds (tv_sec tv_usec : Z) : Q := inject_Z tv_sec + inject_Z tv_usec * (10 # 1000000).

(** A microsecond is counted ten times: the seconds of a time run back by nine each time the
    microseconds start over. *)
Theorem timeval_runs_back :
  (timeval_to_seconds 0 999999 == 999999 # 100000)%Q /\ (timeval_to_seconds 1 0 == 1)%Q /\
  (timeval_to_seconds 1 0 < timeval_to_seconds 0 999999)%Q.
Proof. repeat split; vm_compute; reflexivity. Qed.

(** ** Load *)

(** [Backoff]: a closed loop does not wait; a Poisson load waits until the time of its next
    request, where a sample of the exponential distribution is seconds and nanoseconds. *)
Definition ClosedLoop_backoff_time : option Z := None.

Definition Poisson_backoff_time (sample : Z * Z) (now last_time : Z) : option Z * Z :=
  let last_time := (last_time + (1000000000 * fst sample + snd sample))%Z in
  ((if bool_decide (now < last_time)%Z then Some (last_time - now)%Z else None), last_time).

Fixpoint poisson_run (samples : list (Z * Z)) (nows : list Z) (last_time : Z) : list (option Z) * Z :=
  match samples, nows with
  | x :: samples, now :: nows =>
      let (w, last_time) := Poisson_backoff_time x now last_time in
      let (ws, last_time) := poisson_run samples nows last_time in
      (w :: ws, last_time)
  | _, _ => ([], last_time)
  end.

(** The load does not drift: however late its requests are, the time of each is the start
    plus the samples so far, and a wait that is asked for ends at that time. *)
Lemma poisson_schedule samples nows start : length samples = length nows ->
  (poisson_run samples nows start).2 = (start + foldr Z.add 0 ((fun x => 1000000000 * fst x + snd x) <$> samples))%Z /\
  Forall2 (fun w now => forall d, w = Some d -> (0 < d)%Z) (poisson_run samples nows start).1 nows.
Proof.
  revert nows start. induction samples as [|x samples IH]; intros [|now nows] start Hl; try done.
  - simpl. split; [lia|constructor].
  - injection Hl as Hl. cbn [poisson_run Poisson_backoff_time].
    destruct (IH nows (start + (1000000000 * x.1 + x.2))%Z Hl) as [H1 H2].
    rewrite fmap_cons. cbn [foldr]. destruct (poisson_run samples nows _) as [ws t].
    cbn [fst snd] in *. split; [rewrite H1; lia|].
    constructor; [|done]. intros d. case_bool_decide; [|done]. intros [= <-]. lia.
Qed.

(** ** An instance *)

#[export] Instance int_float : Float64 := {
  f64 := Z; f_of_Z := id; MAX := 1000000000; MIN := -1000000000;
  fadd := Z.add; fsub := Z.sub; fmul := Z.mul; fdiv := Z.div; ln := id; flt := Z.ltb; as_usize_f64 := Z.to_nat;
}.

#[export] Instance int_float_laws : Float64Laws int_float.
Proof.
  refine {| number := fun _ => True |}; simpl; try done; unfold id.
  - intros x y z _ _ _. rewrite !Z.ltb_ge. lia.
  - intros x y. rewrite Z.ltb_lt, Z.ltb_ge. lia.
  - intros x y k _ _ _. rewrite !Z.ltb_ge. intros Hk Hxy. pose proof (Z.mul_le_mono_nonneg_r x y k Hk Hxy). lia.
Defined.

Lemma histogram_consistent_witness :
  exists his, observe_all (F:=int_float) true [5; 1; 200; 5]%Z (Histogram_new (F:=int_float) 0%Z 10%Z) = Done his /\
    hd_count (report false his).1 = 4%Z /\ foldr Z.add 0%Z (hd_bucket (report false his).1) = 4%Z.
Proof.
  destruct (histogram_consistent (F:=int_float) true false 0%Z 10%Z [5; 1; 200; 5]%Z)
    as (his & E & Hr & Hs & _).
  - exact I.
  - reflexivity.
  - exact I.
  - by repeat constructor.
  - simpl. unfold U32. lia.
  - exists his. split; [exact E|]. split; [by rewrite Hr|exact Hs].
Defined.
