(* ===== verification/Benchmark.v ===== *)
(** The benchmarks: the services (benchmark/src/bench.rs), the clients that put load on them
    (benchmark/src/client.rs), the server (benchmark/src/server.rs) and the worker that a
    driver controls (benchmark/src/worker.rs).

    Handlers and executors are machines over a call (Process).  What [keep_running] is
    each time it is loaded is a list that the machine carries; the theorems hold for every
    list.  The wait of a load generator is a step that may take any time.  Latencies are counted, their
    values go to the histogram of BenchUtil. *)

From S2P Require Import Prelude Status Cq Executor Buf Utf8 Metadata Task Call CallSpec ClientCall ClientSpec.
From S2P Require Import ServerCall Server ServerSpec Frame EndToEnd Env Channel ProtoUtil Process Interop BenchUtil.

Local Open Scope rust_scope.

(** ** The codec of the generic service *)

Section bin.
Context `{SC : SliceCore} `{SL : !SliceCoreLaws SC}.

(** [copy_from_slice] panics when the lengths differ. *)
Definition bin_ser (t : list byte) (buf : GrpcSlice) : outcome GrpcSlice :=
  let b := GrpcSlice_realloc buf (length t) in
  if bool_decide (length t = GrpcSlice_len b) then
    match slice_write b t with
    | Some b => Done b
    | None => Panicked "source slice length does not match destination slice length"
    end
  else Panicked "source slice length does not match destination slice length".

(** The fuel is enough for a reader of a message, see [buf_read_to_end]. *)
Definition bin_de (reader : MessageReader SC) : Result Error (list byte) :=
  match read_to_end (S (length (Buf.held reader) + r_remain reader)) [] reader with
  | Some (buf, _, _) => Ok buf
  | None => Err (Codec "read_to_end did not end")
  end.

Definition bin_marshaller : Marshaller (list byte) := mkMarshaller bin_ser bin_de.

Definition METHOD_BENCHMARK_SERVICE_GENERIC_CALL : Method (list byte) (list byte) :=
  mkMethod Duplex "/grpc.testing.BenchmarkService/StreamingCall" bin_marshaller bin_marshaller.

(** Bytes are written as they are and read back, so what EndToEnd shows of streams holds of
    the generic service. *)
#[export] Instance bin_laws : MarshallerLaws bin_marshaller id.
Proof.
  split.
  - intros t buf Hwf. cbn [bin_marshaller m_ser]. unfold bin_ser.
    destruct (realloc_spec buf (length t) Hwf) as [Hw Hl]. rewrite Hl, bool_decide_eq_true_2 by done.
    destruct (slice_write_full (GrpcSlice_realloc buf (length t)) t) as (s & -> & Hb & Hws & _); [done..|].
    by exists s.
  - intros t r (buf & (Hwf & Hne & Hb) & Er). cbn [bin_marshaller m_de]. unfold bin_de, read_to_end.
    destruct (Reader_new_spec buf Hwf) as (r' & E & HI & Ho & Hp & Hl & Hc).
    assert (r' = r) as -> by congruence.
    destruct (read_to_end_loop_spec (S (length (Buf.held r) + r_remain r)) [] r) as (r1 & -> & _);
      [done | by apply Hc | by left | lia|]. simpl. by rewrite Hp, Hb.
Qed.
End bin.

(** ** Services *)

(** [gen_resp]: the payload the request asks for. *)
Definition gen_resp (req : SimpleRequest) : outcome SimpleResponse :=
  let+ p := new_payload (as_usize (response_size req)) in Done (mkSimpleResponse p).

(** [Benchmark::unary_call]; errors are logged while the benchmark runs. *)
Definition bench_unary_call (req : SimpleRequest) : Prog SimpleResponse SimpleRequest unit :=
  match gen_resp req with
  | Done resp => Do (Success resp (fun r => Do (Return r)))
  | Panicked msg => Do (Panic msg)
  end.

(** [streaming_call] of both services: each request is answered, and the end with the end. *)
Inductive EchoState (Resp : Type) :=
| EchoNext
| EchoSend (m : Resp)
| EchoClose
| EchoEnd (r : Result Error unit)
| EchoPanic (msg : string).
Arguments EchoNext {Resp}.
Arguments EchoSend {Resp} _.
Arguments EchoClose {Resp}.
Arguments EchoEnd {Resp} _.
Arguments EchoPanic {Resp} _.

Definition echo_act {Req Resp} (answer : Req -> outcome Resp) (st : EchoState Resp) :
    Act Resp Req unit (EchoState Resp) :=
  match st with
  | EchoNext =>
      TryNext (fun r =>
        match r with
        | Ok (Some req) => match answer req with Done m => EchoSend m | Panicked msg => EchoPanic msg end
        | Ok None => EchoClose
        | Err e => EchoEnd (Err e)
        end)
  | EchoSend m => Send m (fun r => match r with Ok _ => EchoNext | Err e => EchoEnd (Err e) end)
  | EchoClose => Close EchoEnd
  | EchoEnd r => Return r
  | EchoPanic msg => Panic msg
  end.

Definition bench_streaming_call : Machine SimpleResponse SimpleRequest unit :=
  mkMachine _ EchoNext (echo_act gen_resp).

Definition generic_streaming_call : Machine (list byte) (list byte) unit :=
  mkMachine _ EchoNext (echo_act Done).

(** [streaming_from_client]: the last request is answered; the result of the answer is not
    awaited. *)
Inductive FromClientState := FromNext (req : SimpleRequest) | FromSuccess (resp : SimpleResponse)
| FromEnd (r : Result Error unit) | FromPanic (msg : string).

Definition from_client_act (st : FromClientState) : Act SimpleResponse SimpleRequest unit FromClientState :=
  match st with
  | FromNext req =>
      TryNext (fun r =>
        match r with
        | Ok (Some req) => FromNext req
        | Ok None => match gen_resp req with Done resp => FromSuccess resp | Panicked msg => FromPanic msg end
        | Err e => FromEnd (Err e)
        end)
  | FromSuccess resp => Success resp (fun _ => FromEnd (Ok tt))
  | FromEnd r => Return r
  | FromPanic msg => Panic msg
  end.

Definition bench_streaming_from_client : Machine SimpleResponse SimpleRequest unit :=
  mkMachine _ (FromNext SimpleRequest_default) from_client_act.

(** ** Executors *)

(** [execute_stream] and [execute_stream_ping_pong]: what [keep_running] will be at the end of
    each round, and how many latencies were observed. *)
Inductive PingState :=
| PingSend (rounds : list bool) (observed : nat)
| PingNext (rounds : list bool) (observed : nat)
| PingCheck (rounds : list bool) (observed : nat)
| PingClose (observed : nat)
| PingLast (observed : nat)
| PingEnd (r : Result Error nat).

Definition ping_act {Req Resp} (req : Req) (st : PingState) : Act Req Resp nat PingState :=
  match st with
  | PingSend rounds n => Send req (fun r => match r with Ok _ => PingNext rounds n | Err e => PingEnd (Err e) end)
  | PingNext rounds n =>
      TryNext (fun r => match r with Ok _ => PingCheck rounds (S n) | Err e => PingEnd (Err e) end)
  | PingCheck [] n => Sleep (PingClose n)
  | PingCheck (keep_running :: rounds) n => Sleep (if (keep_running : bool) then PingSend rounds n else PingClose n)
  | PingClose n => Close (fun r => match r with Ok _ => PingLast n | Err e => PingEnd (Err e) end)
  | PingLast n => TryNext (fun r => match r with Ok _ => PingEnd (Ok n) | Err e => PingEnd (Err e) end)
  | PingEnd r => Return r
  end.

Definition execute_stream {Req Resp} (req : Req) (rounds : list bool) : Machine Req Resp nat :=
  mkMachine _ (PingSend rounds 0) (ping_act req).

(** How many rounds are made: the flag is loaded at the end of each. *)
Fixpoint rounds_made (rounds : list bool) : nat :=
  match rounds with
  | true :: rounds => S (rounds_made rounds)
  | _ => 1
  end.

(** A round against a service that answers, from its start. *)
Section ping_pong.
Context {Req Resp : Type} (req : Req) (resp : Resp) (answer : Req -> outcome Resp).
Context (Hanswer : answer req = Done resp).

Abbreviation executor := (fun rounds => execute_stream (Resp:=Resp) req rounds).
Abbreviation service := (mkMachine (EchoState Resp) EchoNext (echo_act answer)).
Abbreviation quiet := (mkNet (Req:=Req) (Resp:=Resp) [] false [] None None false).

Lemma ping_round rounds0 rounds n k post :
  (forall k' c, c = match rounds with
                   | true :: rounds => PingSend rounds (S n)
                   | _ => PingClose (S n)
                   end -> k' = k ->
    always (executor rounds0) service k' post (mkCfg (executor rounds0) service quiet c EchoNext)) ->
  always (executor rounds0) service (5 + k) post
    (mkCfg (executor rounds0) service quiet (PingSend rounds n) EchoNext).
Proof.
  intros H. eapply always_one; [reflexivity|]. eapply always_one; [cbn; rewrite Hanswer; reflexivity|].
  eapply always_one; [reflexivity|]. eapply always_one; [reflexivity|].
  destruct rounds as [|[|] rounds]; (eapply always_one; [reflexivity|]); by apply H.
Qed.

Lemma ping_end rounds0 n k (post : Result Error nat -> Prop) :
  post (Ok n) ->
  always (executor rounds0) service (4 + k) post
    (mkCfg (executor rounds0) service quiet (PingClose n) EchoNext).
Proof.
  intros H. do 4 (eapply always_one; [reflexivity|]). by eapply always_returned.
Qed.

Lemma ping_pong_runs rounds0 rounds n :
  always (executor rounds0) service (5 * rounds_made rounds + 4) (fun r => r = Ok (n + rounds_made rounds))
    (mkCfg (executor rounds0) service quiet (PingSend rounds n) EchoNext).
Proof.
  revert n. induction rounds as [|keep rounds IH]; intros n.
  - apply (ping_round rounds0 [] n 4). intros k' c -> ->. apply (ping_end rounds0 (S n) 0). by rewrite Nat.add_1_r.
  - destruct keep.
    + replace (5 * rounds_made (true :: rounds) + 4) with (5 + (5 * rounds_made rounds + 4)) by (simpl; lia).
      apply ping_round. intros k' c -> ->. eapply always_mono; [|apply IH]. intros r ->. simpl. f_equal. lia.
    + apply (ping_round rounds0 (false :: rounds) n 4). intros k' c -> ->.
      apply (ping_end rounds0 (S n) 0). simpl. by rewrite Nat.add_1_r.
Qed.
End ping_pong.

(** A ping-pong executor makes its rounds: against the benchmark service and against
    the generic one it always ends, in a number of steps fixed by the rounds; it observes one
    latency per round, makes no round after [keep_running] was found unset, and closes the
    call. *)
Theorem ping_pong_executor (req : SimpleRequest) (bytes : list byte) (rounds : list bool) :
  (0 <= response_size req)%Z -> (response_size req <= I32_MAX)%Z ->
  let n := rounds_made rounds in
  (let c := execute_stream req rounds in
   always c bench_streaming_call (5 * n + 4) (fun r => r = Ok n) (begin c bench_streaming_call None false)) /\
  (let c := execute_stream bytes rounds in
   always c generic_streaming_call (5 * n + 4) (fun r => r = Ok n) (begin c generic_streaming_call None false)).
Proof.
  intros H0 H1 n. split; [|exact (ping_pong_runs bytes bytes Done eq_refl rounds rounds 0)].
  apply (ping_pong_runs req (mkSimpleResponse (mkPayload (response_size req))) gen_resp).
  unfold gen_resp, new_payload, as_usize, I32_MAX, ISIZE_MAX, U64 in *. rewrite Z.mod_small by lia.
  by rewrite bool_decide_eq_true_2 by lia.
Qed.

Lemma ping_pong_executor_witness :
  let c := execute_stream (mkSimpleRequest 8 Payload_default None) [true; true; false; true] in
  always c bench_streaming_call 19 (fun r => r = Ok 3) (begin c bench_streaming_call None false).
Proof.
  apply (ping_pong_executor (mkSimpleRequest 8 Payload_default None) [] [true; true; false; true]).
  - simpl. lia.
  - unfold I32_MAX. simpl. lia.
Defined.

(** The unary executors and the one that streams: a request while [keep_running] is set,
    which the blocking one loads before each request and the others after. *)
Fixpoint execute_unary (loads : list bool) (results : list (Result Error SimpleResponse)) : outcome nat :=
  match loads, results with
  | true :: loads, Ok _ :: results => let+ n := execute_unary loads results in Done (S n)
  | true :: _, Err _ :: _ => Panicked "called `Result::unwrap()` on an `Err` value"
  | _, _ => Done 0
  end.

Fixpoint execute_unary_async (loads : list bool) (results : list (Result Error SimpleResponse)) : Result Error nat :=
  match results with
  | [] => Ok 0
  | Err e :: _ => Err e
  | Ok _ :: results =>
      match loads with
      | true :: loads => match execute_unary_async loads results with Ok n => Ok (S n) | Err e => Err e end
      | _ => Ok 1
      end
  end.

Fixpoint execute_stream_from_client (req : SimpleRequest) (loads : list bool) (observed : nat) :
    Prog SimpleRequest SimpleResponse nat :=
  match loads with
  | true :: loads => send req (execute_stream_from_client req loads (S observed))
  | _ => close (await (fun _ => Do (Return (Ok observed))))
  end.

(** ** Choosing an executor *)

Inductive ClientType := SYNC_CLIENT | ASYNC_CLIENT | OTHER_CLIENT.
Inductive RpcType := UNARY | STREAMING | STREAMING_FROM_CLIENT | STREAMING_FROM_SERVER | STREAMING_BOTH_WAYS.

Inductive ExecutorKind := ExecUnary | ExecUnaryAsync | ExecGenericStream | ExecPingPong | ExecFromClient.

Definition execute (client_type : ClientType) (rpc_type : RpcType) (has_bytebuf_params : bool) :
    outcome ExecutorKind :=
  match client_type with
  | SYNC_CLIENT =>
      if has_bytebuf_params then Panicked "only async_client is supported for generic service." else Done ExecUnary
  | ASYNC_CLIENT =>
      match rpc_type with
      | UNARY =>
          if has_bytebuf_params then Panicked "only ping pong streaming is supported for generic service."
          else Done ExecUnaryAsync
      | STREAMING => if has_bytebuf_params then Done ExecGenericStream else Done ExecPingPong
      | STREAMING_FROM_CLIENT =>
          if has_bytebuf_params then Panicked "only ping pong streaming is supported for generic service."
          else Done ExecFromClient
      | _ => Panicked "not implemented"
      end
  | OTHER_CLIENT => Panicked "not implemented"
  end.

(** [gen_req]: a payload of the size asked for, and the size of the response. *)
Definition gen_req (req_size resp_size : Z) : outcome SimpleRequest :=
  let+ p := new_payload (as_usize req_size) in Done (mkSimpleRequest resp_size p None).

(** The arguments of a configuration, set one after another. *)
Fixpoint apply_channel_args (args : list (string * option Help.ChannelValue)) (builder : ChannelBuilder) :
    outcome ChannelBuilder :=
  match args with
  | [] => Done builder
  | (name, value) :: args =>
      let+ key := CString_new (as_bytes name) in
      let+ builder :=
        if Help.has_str_value value then
          let+ v := CString_new (as_bytes (Help.get_str_value value)) in Done (raw_cfg_string builder key v)
        else if Help.has_int_value value then Done (raw_cfg_int builder key (Help.get_int_value value))
        else Done builder in
      apply_channel_args args builder
  end.

(** The environment of a client or server of a number of threads, 0 for the default. *)
Definition bench_env (cores threads : nat) : outcome EnvBuilder :=
  let builder := EnvBuilder_new cores in
  if bool_decide (threads <> 0) then cq_count builder threads else Done builder.

(** The targets of the channels: [zip] with [cycle], which is empty when there are none. *)
Definition channel_targets (channels : nat) (targets : list string) : list string :=
  match targets with
  | [] => []
  | _ => (fun i => default "" (targets !! (i mod length targets))) <$> seq 0 channels
  end.

(** [Client]: the executors that run, each with a receiver that ends when it does. *)
Record BenchClient := mkBenchClient { keep_running : bool; running_reqs : option (list nat) }.

(** [Client::new]: an executor per outstanding request of each channel. *)
Definition BenchClient_new (channels outstanding : nat) (targets : list string) client_type rpc_type
    (has_bytebuf_params : bool) : outcome BenchClient :=
  let total := length (channel_targets channels targets) * outstanding in
  if bool_decide (total = 0) then Done (mkBenchClient true (Some []))
  else
    let+ _ := execute client_type rpc_type has_bytebuf_params in
    Done (mkBenchClient true (Some (seq 0 total))).

(** [shutdown]: what the returned future waits for. *)
Definition BenchClient_shutdown (self : BenchClient) : outcome (list nat * BenchClient) :=
  match running_reqs self with
  | Some tasks => Done (tasks, mkBenchClient false None)
  | None => Panicked "called `Option::unwrap()` on a `None` value"
  end.

(** The future is ready when every executor has ended. *)
Definition join_all (tasks : list nat) (ended : gset nat) : bool := forallb (fun t => bool_decide (t ∈ ended)) tasks.

Lemma channel_targets_balanced channels targets i :
  targets <> [] -> i < channels -> channel_targets channels targets !! i = targets !! (i mod length targets).
Proof.
  intros Hne Hi. unfold channel_targets. destruct targets as [|t ts]; [done|].
  rewrite list_lookup_fmap, lookup_seq_lt by done. cbn [fmap option_fmap option_map].
  assert (i mod length (t :: ts) < length (t :: ts)) as Hm by (apply Nat.mod_upper_bound; simpl; lia).
  apply lookup_lt_is_Some in Hm as [x Hx]. rewrite Nat.add_0_l, Hx. done.
Qed.

(** A client that was started runs an executor for each outstanding request of each channel,
    its shutdown clears [keep_running] and waits for exactly these, and a second shutdown
    panics. *)
Lemma bench_client_life channels outstanding targets ct rt generic c :
  BenchClient_new channels outstanding targets ct rt generic = Done c -> targets <> [] ->
  exists tasks c', BenchClient_shutdown c = Done (tasks, c') /\ length tasks = channels * outstanding /\
    keep_running c = true /\ keep_running c' = false /\
    (forall ended, join_all tasks ended = true <-> forall t, t < channels * outstanding -> t ∈ ended) /\
    exists msg, BenchClient_shutdown c' = Panicked msg.
Proof.
  intros E Hne.
  assert (length (channel_targets channels targets) = channels) as Hl.
  { unfold channel_targets. destruct targets; [done|]. by rewrite length_fmap, length_seq. }
  unfold BenchClient_new in E. rewrite Hl in E.
  assert (c = mkBenchClient true (Some (seq 0 (channels * outstanding)))) as ->.
  { case_bool_decide as Hz; [injection E as <-; by rewrite Hz|].
    destruct (execute ct rt generic); [|done]. by injection E as <-. }
  exists (seq 0 (channels * outstanding)), (mkBenchClient false None).
  split; [done|]. split; [apply length_seq|]. split; [done|]. split; [done|].
  split; [|by eexists]. intros ended. unfold join_all. rewrite forallb_forall. split.
  - intros H t Ht. apply (bool_decide_eq_true_1 (t ∈ ended)), H, in_seq. split; [apply Nat.le_0_l|done].
  - intros H t [_ Ht]%in_seq. by apply bool_decide_eq_true_2, H.
Qed.

(** ** Statistics and the server *)

Section stats.
Context `{F : Float64}.

Record ClientStats := mkClientStats {
  cs_elapsed : f64; cs_user : f64; cs_system : f64; latencies : HistogramData;
}.

(** [Client::get_stats]. *)
Definition client_get_stats (checks reset : bool) (r : Reading) (recorder : CpuRecorder) (his : Histogram) :
    outcome (ClientStats * CpuRecorder * Histogram) :=
  let+ (sample, recorder) := cpu_time checks reset r recorder in
  let (data, his) := report reset his in
  Done (mkClientStats (real_time sample) (user_time sample) (sys_time sample) data, recorder, his).

Record ServerStats := mkServerStats {
  st_elapsed : f64; st_user : f64; st_system : f64; total_cpu_time : Z; idle_cpu_time : Z;
}.

(** [Server::get_stats]. *)
Definition server_get_stats (checks reset : bool) (r : Reading) (recorder : CpuRecorder) :
    outcome (ServerStats * CpuRecorder) :=
  let+ (sample, recorder) := cpu_time checks reset r recorder in
  Done (mkServerStats (real_time sample) (user_time sample) (sys_time sample) (total_cpu sample) (idle_cpu sample),
        recorder).

(** The rate of each executor of a Poisson load. *)
Definition poisson_lambda (offered_load : f64) (channels outstanding : Z) : f64 :=
  fdiv (fdiv offered_load (f_of_Z channels)) (f_of_Z outstanding).

(** [observe_latency]. *)
Definition observe_latency (checks : bool) (latency : Z) (his : Histogram) : outcome Histogram :=
  observe checks (dur_to_nanos latency) his.
End stats.

(** The service of a server by its type, and [create_generic_service]. *)
Inductive ServerType := SYNC_SERVER | ASYNC_SERVER | ASYNC_GENERIC_SERVER | OTHER_SERVER.

Definition server_service {S : Type} (benchmark generic : S) (t : ServerType) : outcome S :=
  match t with
  | ASYNC_SERVER => Done benchmark
  | ASYNC_GENERIC_SERVER => Done generic
  | _ => Panicked "not implemented"
  end.

Definition create_generic_service `{SC : SliceCore} start_answer
    (streaming_call : RpcContext -> ShareCall -> StreamingBase -> StreamSink -> M (World SC) unit) : Registry :=
  ServiceBuilder_build
    (add_duplex_streaming_handler start_answer ServiceBuilder_new
       (name METHOD_BENCHMARK_SERVICE_GENERIC_CALL) streaming_call).

(** [get_status]: the port of the first address, which a server that was built has. *)
Definition get_status (bind_addrs : list (string * Z)) (cores : Z) : outcome (Z * Z) :=
  match bind_addrs with
  | (_, port) :: _ => Done (port, wrap_signed 32 cores)
  | [] => Panicked "called `Option::unwrap()` on a `None` value"
  end.

(** ** The worker *)

(** The part a worker plays of a server or client: made from a setup, it reports its status
    and its statistics, and is shut down at the end. *)
Record Role (Arg Status : Type) := mkRole {
  role : Type;
  setup : Arg -> Result Error role;
  first_status : role -> Status;
  mark : Arg -> role -> Status * role;
  stop : role -> Result Error unit;
}.
Arguments role {Arg Status} _.
Arguments setup {Arg Status} _ _.
Arguments first_status {Arg Status} _ _.
Arguments mark {Arg Status} _ _ _.
Arguments stop {Arg Status} _ _.
Arguments mkRole {Arg Status} _ _ _ _ _.

(** [run_server] and [run_client], which differ in their role. *)
Inductive WorkerState (Role Status : Type) :=
| WorkerFirst
| WorkerSend (status : Status) (x : Role)
| WorkerLoop (x : Role)
| WorkerClose
| WorkerEnd (r : Result Error unit).
Arguments WorkerFirst {Role Status}.
Arguments WorkerSend {Role Status} _ _.
Arguments WorkerLoop {Role Status} _.
Arguments WorkerClose {Role Status}.
Arguments WorkerEnd {Role Status} _.

Definition worker_act {Arg Status} (r : Role Arg Status) (st : WorkerState (role r) Status) :
    Act Status Arg unit (WorkerState (role r) Status) :=
  match st with
  | WorkerFirst =>
      TryNext (fun x =>
        match x with
        | Ok None => WorkerClose
        | Ok (Some arg) =>
            match setup r arg with Ok x => WorkerSend (first_status r x) x | Err e => WorkerEnd (Err e) end
        | Err e => WorkerEnd (Err e)
        end)
  | WorkerSend status x => Send status (fun o => match o with Ok _ => WorkerLoop x | Err e => WorkerEnd (Err e) end)
  | WorkerLoop x =>
      TryNext (fun o =>
        match o with
        | Ok (Some arg) => let (status, x) := mark r arg x in WorkerSend status x
        | Ok None => match stop r x with Ok _ => WorkerClose | Err e => WorkerEnd (Err e) end
        | Err e => WorkerEnd (Err e)
        end)
  | WorkerClose => Close WorkerEnd
  | WorkerEnd r => Return r
  end.

Definition run_worker {Arg Status} (r : Role Arg Status) : Machine Status Arg unit :=
  mkMachine _ WorkerFirst (worker_act r).

(** The role of a server: statistics are taken with the mark's reset, and come with the
    status. *)
Definition server_role {Args Cfg Server Stats Status : Type} (get_setup : Args -> Cfg) (get_reset : Args -> bool)
    (Server_new : Cfg -> Result Error Server) (get_status : Server -> Status)
    (get_stats : bool -> Server -> Stats * Server) (set_stats : Stats -> Status -> Status)
    (shutdown : Server -> Result Error unit) : Role Args Status :=
  mkRole Server (fun a => Server_new (get_setup a)) get_status
    (fun a s => let (stats, s) := get_stats (get_reset a) s in (set_stats stats (get_status s), s)) shutdown.

(** The role of a client, whose status has only statistics, and whose shutdown cannot fail. *)
Definition client_role {Args Cfg Client Stats Status : Type} (get_setup : Args -> Cfg) (get_reset : Args -> bool)
    (Client_new : Cfg -> Client) (default : Status) (get_stats : bool -> Client -> Stats * Client)
    (set_stats : Stats -> Status -> Status) : Role Args Status :=
  mkRole Client (fun a => Ok (Client_new (get_setup a))) (fun _ => default)
    (fun a c => let (stats, c) := get_stats (get_reset a) c in (set_stats stats default, c)) (fun _ => Ok tt).

(** A driver: it sends the setup and the marks, reads a status after each, closes, and reads
    the end. *)
Fixpoint drive {Arg Status} (args : list Arg) (got : list Status) : Prog Arg Status (list Status) :=
  match args with
  | [] => close (try_next (fun r => match r with
                                    | None => Do (Return (Ok got))
                                    | Some _ => Do (Panic "more than was asked for")
                                    end))
  | arg :: args => send arg (try_next (unwrap_some (fun s => drive args (got ++ [s]))))
  end.

(** The statuses a role reports for marks. *)
Fixpoint reports {Arg Status} (r : Role Arg Status) (marks : list Arg) (x : role r) : list Status * role r :=
  match marks with
  | [] => ([], x)
  | m :: marks => let (s, x) := mark r m x in let (ss, x) := reports r marks x in (s :: ss, x)
  end.

Section driven.
Context {Arg Status : Type} (r : Role Arg Status).
Abbreviation idle_net := (mkNet (Req:=Arg) (Resp:=Status) [] false [] None None false).

Lemma worker_marks (p : Prog Arg Status (list Status)) marks x got :
  stop r (reports r marks x).2 = Ok tt ->
  always (prog_machine p) (run_worker r) (4 * length marks + 4)
    (fun o => o = Ok (got ++ (reports r marks x).1))
    (mkCfg (prog_machine p) (run_worker r) idle_net (drive marks got) (WorkerLoop x)).
Proof.
  revert x got. induction marks as [|m marks IH]; intros x got Hstop.
  - simpl in Hstop. eapply always_one; [reflexivity|]. eapply always_one; [cbn; rewrite Hstop; reflexivity|].
    do 2 (eapply always_one; [reflexivity|]). eapply always_returned; [reflexivity|]. by rewrite app_nil_r.
  - cbn [reports] in *. destruct (mark r m x) as [s x'] eqn:Em.
    specialize (IH x' (got ++ [s])). destruct (reports r marks x') as [ss x'']. cbn [fst snd] in *.
    replace (4 * length (m :: marks) + 4) with (4 + (4 * length marks + 4)) by (simpl; lia).
    eapply always_one; [reflexivity|]. eapply always_one; [cbn; rewrite Em; reflexivity|].
    do 2 (eapply always_one; [reflexivity|]).
    eapply always_mono; [|by apply IH]. intros o ->. by rewrite <-app_assoc.
Qed.

(** A worker does what its driver asks: a driver that sends a setup and any marks gets
    the status after the setup and one status per mark, each with the statistics of its
    mark, in order, and then the end of the call; the server or client is shut down before.
    This holds in every run, and every run ends. *)
Theorem worker_answers_driver (arg : Arg) (marks : list Arg) (x : role r) :
  setup r arg = Ok x -> stop r (reports r marks x).2 = Ok tt ->
  let c := prog_machine (drive (Status:=Status) (arg :: marks) []) in
  always c (run_worker r) (4 * length marks + 8)
    (fun o => o = Ok (first_status r x :: (reports r marks x).1)) (begin c (run_worker r) None false).
Proof.
  intros Hsetup Hstop c. replace (4 * length marks + 8) with (4 + (4 * length marks + 4)) by lia.
  eapply always_one; [reflexivity|]. eapply always_one; [cbn; rewrite Hsetup; reflexivity|].
  do 2 (eapply always_one; [reflexivity|]).
  eapply always_mono; [|exact (worker_marks _ marks x [first_status r x] Hstop)]. by intros o ->.
Qed.

(** A driver that closes at once gets the end of the call; nothing is set up. *)
Lemma worker_nothing_asked :
  let c := prog_machine (drive (Arg:=Arg) (Status:=Status) [] []) in
  always c (run_worker r) 4 (fun o => o = Ok []) (begin c (run_worker r) None false).
Proof. do 4 (eapply always_one; [reflexivity|]). by eapply always_returned. Qed.
End driven.

(** A role that counts: its state is the number of marks since a reset. *)
Definition counting_role : Role (option bool) nat :=
  server_role (fun _ => tt) (fun a => default false a) (fun _ => Ok 0) (fun n => n)
    (fun reset n => (n, if reset then 0 else S n)) (fun stats _ => stats) (fun _ => Ok tt).

Lemma worker_answers_driver_witness :
  let c := prog_machine (drive (Status:=nat) [None; Some false; Some false; Some true; Some false] []) in
  always c (run_worker counting_role) 24 (fun o => o = Ok [0; 0; 1; 2; 0])
    (begin c (run_worker counting_role) None false).
Proof.
  apply (worker_answers_driver counting_role None [Some false; Some false; Some true; Some false] 0); reflexivity.
Defined.

(** [core_count] and [quit_worker]: the worker's notifier is taken once. *)
Definition core_count (cpu_num_cores : Z) : Z := wrap_signed 32 cpu_num_cores.

Definition quit_worker (shutdown_notifier : option nat) : list nat * option nat :=
  match shutdown_notifier with
  | Some notifier => ([notifier], None)
  | None => ([], None)
  end.

Fixpoint quits (n : nat) (shutdown_notifier : option nat) : list nat :=
  match n with
  | 0 => []
  | S n => let (sent, rest) := quit_worker shutdown_notifier in sent ++ quits n rest
  end.

(** However often a worker is asked to quit, it is notified once. *)
Lemma quit_once n notifier : quits (S n) (Some notifier) = [notifier].
Proof. simpl. f_equal. induction n as [|n IH]; [done|]. exact IH. Qed.

(** The streaming executor against its service, three requests in every interleaving. *)
Example stream_from_client_runs :
  let c := prog_machine (execute_stream_from_client (mkSimpleRequest 8 Payload_default None) [true; true; true] 0) in
  explore c bench_streaming_from_client 20 (fun r => match r with Ok 3 => true | _ => false end)
    (begin c bench_streaming_from_client None false) = true.
Proof. vm_compute. reflexivity. Qed.
