(* ===== verification/Text.v ===== *)
(** Functions of [str] on bytes, as the tools of the repository use them: searching,
    replacing, splitting and lines.  Texts are the bytes of Rust strings. *)

From S2P Require Import Prelude.

Abbreviation text := (list byte).

(** [str::strip_prefix] and [starts_with]. *)
Fixpoint strip_prefix (p s : text) : option text :=
  match p, s with
  | [], _ => Some s
  | a :: p, b :: s => if bool_decide (a = b) then strip_prefix p s else None
  | _ :: _, [] => None
  end.

Definition starts_with (p s : text) : bool :=
  match strip_prefix p s with Some _ => true | None => false end.

(** [str::contains] of a string. *)
Fixpoint contains (p s : text) : bool :=
  starts_with p s || match s with [] => false | _ :: s => contains p s end.

(** [str::replace] of a pattern that is not empty: the occurrences from the left that do
    not overlap. *)
Fixpoint replace_loop (fuel : nat) (p r s : text) : text :=
  match fuel with
  | 0 => s
  | S fuel =>
      match strip_prefix p s with
      | Some rest => r ++ replace_loop fuel p r rest
      | None => match s with [] => [] | b :: s => b :: replace_loop fuel p r s end
      end
  end.

Definition replace (p r s : text) : text := replace_loop (S (length s)) p r s.

(** [str::trim_start_matches] of a pattern that is not empty. *)
Fixpoint trim_loop (fuel : nat) (p s : text) : text :=
  match fuel with
  | 0 => s
  | S fuel => match strip_prefix p s with Some rest => trim_loop fuel p rest | None => s end
  end.

Definition trim_start_matches (p s : text) : text := trim_loop (length s) p s.

(** [str::lines]: without the line ends, and without a last empty line. *)
Definition newline_byte : byte := x0a.

Definition strip_cr (l : text) : text :=
  match last l with Some x0d => take (length l - 1) l | _ => l end.

Fixpoint lines_loop (line s : text) : list text :=
  match s with
  | [] => if bool_decide (line = []) then [] else [line]
  | b :: s => if bool_decide (b = newline_byte) then strip_cr line :: lines_loop [] s else lines_loop (line ++ [b]) s
  end.

Definition lines (s : text) : list text := lines_loop [] s.

(** [splitn(2, c)]: the part before the first [c] and the rest, if there is one. *)
Fixpoint split_once (c : byte) (before s : text) : text * option text :=
  match s with
  | [] => (before, None)
  | b :: s => if bool_decide (b = c) then (before, Some s) else split_once c (before ++ [b]) s
  end.

(** ** Lemmas *)

Lemma strip_prefix_Some p s rest : strip_prefix p s = Some rest <-> s = p ++ rest.
Proof.
  revert s. induction p as [|a p IH]; intros s; simpl.
  - split; [by intros [= ->]|by intros ->].
  - destruct s as [|b s]; [done|]. case_bool_decide as E.
    + subst b. rewrite IH. split; [by intros ->|by intros [= ->]].
    + split; [done|]. by intros [= ? _].
Qed.

(** Where a pattern occurs. *)
Lemma contains_spec p s : contains p s = true <-> exists a b, s = a ++ p ++ b.
Proof.
  induction s as [|c s IH]; simpl.
  - rewrite orb_false_r. unfold starts_with. destruct (strip_prefix p []) as [rest|] eqn:E.
    + apply strip_prefix_Some in E. split; [|done]. intros _. by exists [], rest.
    + split; [done|]. intros (a & b & H). symmetry in H. apply app_nil in H as [_ H].
      apply app_nil in H as [-> _]. by rewrite (proj2 (strip_prefix_Some [] [] [])) in E.
  - unfold starts_with. destruct (strip_prefix p (c :: s)) as [rest|] eqn:E; simpl.
    + apply strip_prefix_Some in E. split; [|done]. intros _. by exists [], rest.
    + rewrite IH. split.
      * intros (a & b & ->). by exists (c :: a), b.
      * intros ([|d a] & b & H); simpl in H.
        -- exfalso. symmetry in H. rewrite (proj2 (strip_prefix_Some p (c :: s) b)) in E; done.
        -- injection H as -> ->. by exists a, b.
Qed.

(** A text without the pattern is not changed. *)
Lemma replace_loop_absent fuel p r s : contains p s = false -> replace_loop fuel p r s = s.
Proof.
  revert s. induction fuel as [|fuel IH]; intros s H; [done|]. simpl.
  destruct (strip_prefix p s) as [rest|] eqn:E.
  - exfalso. apply strip_prefix_Some in E. rewrite (proj2 (contains_spec p s)) in H; [done|]. by exists [], rest.
  - destruct s as [|b s]; [done|]. f_equal. apply IH. simpl in H. by apply orb_false_iff in H as [_ H].
Qed.

Lemma replace_absent p r s : contains p s = false -> replace p r s = s.
Proof. apply replace_loop_absent. Qed.

(** The first occurrence is replaced, and the rest after it. *)
Lemma replace_loop_first fuel p r a b :
  p <> [] -> (forall a1 a2 x, a = a1 ++ a2 -> a2 <> [] -> a2 ++ p ++ b <> p ++ x) ->
  length (a ++ p ++ b) < fuel ->
  exists fuel', length b < fuel' /\ replace_loop fuel p r (a ++ p ++ b) = a ++ r ++ replace_loop fuel' p r b.
Proof.
  intros Hp. revert a. induction fuel as [|fuel IH]; intros a Hf Hl; [lia|].
  destruct a as [|c a]; simpl.
  - rewrite (proj2 (strip_prefix_Some p (p ++ b) b) eq_refl). exists fuel. split; [|done].
    simpl in Hl. rewrite length_app in Hl. destruct p; [done|]. simpl in Hl. lia.
  - destruct (strip_prefix p (c :: a ++ p ++ b)) as [rest|] eqn:E.
    + apply strip_prefix_Some in E. by destruct (Hf [] (c :: a) rest eq_refl).
    + destruct (IH a) as (fuel' & H1 & H2).
      * intros a1 a2 x ->. by apply (Hf (c :: a1) a2).
      * simpl in Hl. lia.
      * exists fuel'. split; [done|]. by rewrite H2.
Qed.

(** Joining and splitting lines. *)
Definition join_lines (ls : list text) : text := concat ((fun l => l ++ [newline_byte]) <$> ls).

Definition line_ok (l : text) : Prop := (newline_byte ∉ l) /\ last l <> Some x0d.

Lemma lines_loop_line (l acc s : text) : (newline_byte ∉ l) ->
  lines_loop acc (l ++ (newline_byte :: s)) = strip_cr (acc ++ l) :: lines_loop [] s.
Proof.
  revert acc. induction l as [|b l IH]; intros acc Hl; cbn [app lines_loop].
  - rewrite bool_decide_eq_true_2 by done. by rewrite app_nil_r.
  - rewrite bool_decide_eq_false_2 by set_solver. rewrite IH by set_solver. by rewrite <-app_assoc.
Qed.

Lemma strip_cr_ok l : last l <> Some x0d -> strip_cr l = l.
Proof. unfold strip_cr. destruct (last l) as [b|]; [|done]. by destruct b. Qed.

Lemma lines_join ls : Forall line_ok ls -> lines (join_lines ls) = ls.
Proof.
  induction 1 as [|l ls [Hn Hr] _ IH]; [done|]. unfold join_lines, lines. rewrite fmap_cons. cbn [concat].
  rewrite <-app_assoc. cbn [app]. rewrite lines_loop_line, app_nil_l, strip_cr_ok by done. f_equal. exact IH.
Qed.

Lemma lines_loop_no_newline (acc s : text) : newline_byte ∉ acc ->
  Forall (fun l => (newline_byte ∉ l)) (lines_loop acc s).
Proof.
  revert acc. induction s as [|b s IH]; intros acc Ha; simpl.
  - case_bool_decide; by repeat constructor.
  - case_bool_decide as Hb.
    + constructor; [|apply IH, not_elem_of_nil]. unfold strip_cr.
      destruct (last acc) as [c|]; [|done]. destruct c; try done.
      intros Hin. apply Ha. eapply elem_of_take in Hin as (i & Hi & _). by eapply list_elem_of_lookup_2.
    + apply IH. rewrite not_elem_of_app, list_elem_of_singleton. split; [done|]. by intros ?.
Qed.
