(* ===== verification/HealthDescriptor.v ===== *)
(** The description of the health protocol that the generated code carries
    (health/src/proto/protobuf/health.rs): the bytes of a FileDescriptorProto, which
    descriptors and the [Debug] text of the messages are made from.

    A renaming of identifiers in the generated file (xtask/src/main.rs, see Xtask) reached
    into these bytes and made a name shorter than its length says. *)

From S2P Require Import Prelude Status Utf8 Wire.

Local Open Scope rust_scope.
Local Open Scope list_scope.

Definition file_descriptor_proto_data : list byte :=
  [x0a; x1b] ++ as_bytes "grpc/health/v1/health.proto" ++ [x12; x0e] ++ as_bytes "grpc.health.v1" ++
  [x22; x2e; x0a; x12] ++ as_bytes "HealthCheckRequest" ++ [x12; x18; x0a; x07] ++ as_bytes "service" ++
  [x18; x01; x20; x01; x28; x09; x52; x07] ++ as_bytes "service" ++ [x22; xb1; x01; x0a; x13] ++
  as_bytes "HealthCheckResponse" ++ [x12; x49; x0a; x06] ++ as_bytes "status" ++
  [x18; x01; x20; x01; x28; x0e] ++ as_bytes "21.grpc.health.v1.HealthCheckResponse.ServingStatusR" ++
  [x06] ++ as_bytes "status" ++ [x22; x4f; x0a; x0d] ++ as_bytes "ServingStatus" ++
  [x12; x0b; x0a; x07] ++ as_bytes "Unknown" ++ [x10; x00; x12; x0b; x0a; x07] ++ as_bytes "Serving" ++
  [x10; x01; x12; x0f; x0a; x0b] ++ as_bytes "NOT_Serving" ++ [x10; x02; x12; x13; x0a; x0f] ++
  as_bytes "ServiceUnknown" ++ [x10; x03; x32; xae; x01; x0a; x06] ++ as_bytes "Health" ++
  [x12; x50; x0a; x05] ++ as_bytes "Check" ++ [x12; x22] ++
  as_bytes ".grpc.health.v1.HealthCheckRequest" ++ [x1a] ++
  as_bytes "#.grpc.health.v1.HealthCheckResponse" ++ [x12; x52; x0a; x05] ++ as_bytes "Watch" ++
  [x12; x22] ++ as_bytes ".grpc.health.v1.HealthCheckRequest" ++ [x1a] ++
  as_bytes "#.grpc.health.v1.HealthCheckResponse0" ++ [x01; x42; x61; x0a; x11] ++
  as_bytes "io.grpc.health.v1B" ++ [x0b] ++ as_bytes "HealthProtoP" ++ [x01] ++
  as_bytes "Z,google.golang.org/grpc/health/grpc_health_v1" ++ [xaa; x02; x0e] ++
  as_bytes "Grpc.Health.V1b" ++ [x06] ++ as_bytes "proto3".

(** [parse_descriptor_proto], and [file_descriptor_proto], which runs it on its first use;
    the parser is that of the protobuf crate. *)
Definition parse_descriptor_proto {D} (parse_from_bytes : list byte -> Result string D) : outcome D :=
  match parse_from_bytes file_descriptor_proto_data with
  | Ok d => Done d
  | Err e => Panicked ("called `Result::unwrap()` on an `Err` value: " +:+ e)
  end.

Definition file_descriptor_proto {D} (parse_from_bytes : list byte -> Result string D) (lazy : option D) :
    outcome (D * option D) :=
  match lazy with
  | Some d => Done (d, lazy)
  | None => let+ d := parse_descriptor_proto parse_from_bytes in Done (d, Some d)
  end.

(** A cell that is filled on its first use ([protobuf::lazy::Lazy]). *)
Definition lazy_get {X S} (cell : option X) (init : S -> outcome (X * S)) (s : S) : outcome (X * option X * S) :=
  match cell with
  | Some x => Done (x, cell, s)
  | None => let+ (x, s) := init s in Done (x, Some x, s)
  end.

(** Descriptors: the name of a message or enumeration, the fields with accessors, and the
    file it is from. *)
Record Descriptor (D : Type) := mkDescriptor { d_name : string; d_fields : list string; d_file : D }.
Arguments mkDescriptor {D} _ _ _.

Definition request_descriptor_static {D} (parse_from_bytes : list byte -> Result string D)
    (cell : option (Descriptor D)) (file : option D) :=
  lazy_get cell (fun file => let+ (d, file) := file_descriptor_proto parse_from_bytes file in
                             Done (mkDescriptor "HealthCheckRequest" ["service"] d, file)) file.

Definition response_descriptor_static {D} (parse_from_bytes : list byte -> Result string D)
    (cell : option (Descriptor D)) (file : option D) :=
  lazy_get cell (fun file => let+ (d, file) := file_descriptor_proto parse_from_bytes file in
                             Done (mkDescriptor "HealthCheckResponse" ["status"] d, file)) file.

Definition enum_descriptor_static {D} (parse_from_bytes : list byte -> Result string D)
    (cell : option (Descriptor D)) (file : option D) :=
  lazy_get cell (fun file => let+ (d, file) := file_descriptor_proto parse_from_bytes file in
                             Done (mkDescriptor "ServingStatus" [] d, file)) file.

(** Bytes that no parser of the wire format accepts: after some fields a tag follows whose
    wire type does not exist. *)
Definition unreadable (bs : list byte) : Prop :=
  exists fs z rest, Forall field_ok fs /\ bs = fields_bytes fs ++ varint z ++ rest /\
    (0 <= z < U32)%Z /\ wire_type_of_code (z `mod` 8) = None.

(** The fields before the tag: the second message has taken a byte of the service. *)
Definition readable_fields : list Field :=
  [(1%Z, VLengthDelimited (as_bytes "grpc/health/v1/health.proto"));
   (2%Z, VLengthDelimited (as_bytes "grpc.health.v1"));
   (4%Z, VLengthDelimited ([x0a; x12] ++ as_bytes "HealthCheckRequest" ++ [x12; x18; x0a; x07] ++ as_bytes "service" ++
     [x18; x01; x20; x01; x28; x09; x52; x07] ++ as_bytes "service"));
   (4%Z, VLengthDelimited ([x0a; x13] ++ as_bytes "HealthCheckResponse" ++ [x12; x49; x0a; x06] ++ as_bytes "status" ++
     [x18; x01; x20; x01; x28; x0e] ++ as_bytes "21.grpc.health.v1.HealthCheckResponse.ServingStatusR" ++
     [x06] ++ as_bytes "status" ++ [x22; x4f; x0a; x0d] ++ as_bytes "ServingStatus" ++ [x12; x0b; x0a; x07] ++
     as_bytes "Unknown" ++ [x10; x00; x12; x0b; x0a; x07] ++ as_bytes "Serving" ++
     [x10; x01; x12; x0f; x0a; x0b] ++ as_bytes "NOT_Serving" ++ [x10; x02; x12; x13; x0a; x0f] ++
     as_bytes "ServiceUnknown" ++ [x10; x03; x32]))].

Lemma field_ok_dec_Forall fs :
  forallb (fun f => bool_decide (1 <= f.1 < 2 ^ 29)%Z &&
    match f.2 with VLengthDelimited bs => bool_decide (Z.of_nat (length bs) < U32)%Z | _ => false end) fs = true ->
  Forall field_ok fs.
Proof.
  rewrite forallb_forall, Forall_forall. intros H f Hf%list_elem_of_In. specialize (H f Hf).
  apply andb_true_iff in H as [Hn Hv]. apply bool_decide_eq_true in Hn. split; [exact Hn|].
  destruct f as [n [v|v|v|bs]]; try done. by apply bool_decide_eq_true in Hv.
Qed.

Lemma descriptor_unreadable : unreadable file_descriptor_proto_data.
Proof.
  exists readable_fields, 174%Z, (drop 275 file_descriptor_proto_data).
  split; [apply field_ok_dec_Forall; vm_compute; reflexivity|].
  split; [vm_compute; reflexivity|]. split; [unfold U32; lia|reflexivity].
Qed.

(** The description in the generated code cannot be parsed, so whatever needs a descriptor
    panics on its first use: that of either message or of the enumeration; printing a
    request or a response with [{:?}] needs one. *)
Theorem health_descriptor_panics {D} (parse_from_bytes : list byte -> Result string D) :
  (forall bs, unreadable bs -> exists e, parse_from_bytes bs = Err e) ->
  exists msg, file_descriptor_proto parse_from_bytes None = Panicked msg /\
    request_descriptor_static parse_from_bytes None None = Panicked msg /\
    response_descriptor_static parse_from_bytes None None = Panicked msg /\
    enum_descriptor_static parse_from_bytes None None = Panicked msg.
Proof.
  intros Hparse. destruct (Hparse _ descriptor_unreadable) as [e He].
  unfold request_descriptor_static, response_descriptor_static, enum_descriptor_static, lazy_get,
    file_descriptor_proto, parse_descriptor_proto. rewrite He. by eexists.
Qed.

(** What protoc wrote, with the names as they are in health.proto, is readable. *)
Definition original_fields : list Field :=
  [(1%Z, VLengthDelimited (as_bytes "grpc/health/v1/health.proto"));
   (2%Z, VLengthDelimited (as_bytes "grpc.health.v1"));
   (4%Z, VLengthDelimited ([x0a; x12] ++ as_bytes "HealthCheckRequest" ++ [x12; x18; x0a; x07] ++ as_bytes "service" ++
     [x18; x01; x20; x01; x28; x09; x52; x07] ++ as_bytes "service"));
   (4%Z, VLengthDelimited ([x0a; x13] ++ as_bytes "HealthCheckResponse" ++ [x12; x49; x0a; x06] ++ as_bytes "status" ++
     [x18; x01; x20; x01; x28; x0e] ++ as_bytes "21.grpc.health.v1.HealthCheckResponse.ServingStatusR" ++
     [x06] ++ as_bytes "status" ++ [x22; x4f; x0a; x0d] ++ as_bytes "ServingStatus" ++ [x12; x0b; x0a; x07] ++
     as_bytes "UNKNOWN" ++ [x10; x00; x12; x0b; x0a; x07] ++ as_bytes "SERVING" ++
     [x10; x01; x12; x0f; x0a; x0b] ++ as_bytes "NOT_SERVING" ++ [x10; x02; x12; x13; x0a; x0f] ++
     as_bytes "SERVICE_UNKNOWN" ++ [x10; x03]));
   (6%Z, VLengthDelimited ([x0a; x06] ++ as_bytes "Health" ++ [x12; x50; x0a; x05] ++ as_bytes "Check" ++ [x12; x22] ++
     as_bytes ".grpc.health.v1.HealthCheckRequest" ++ [x1a] ++
     as_bytes "#.grpc.health.v1.HealthCheckResponse" ++ [x12; x52; x0a; x05] ++ as_bytes "Watch" ++
     [x12; x22] ++ as_bytes ".grpc.health.v1.HealthCheckRequest" ++ [x1a] ++
     as_bytes "#.grpc.health.v1.HealthCheckResponse0" ++ [x01]));
   (8%Z, VLengthDelimited ([x0a; x11] ++ as_bytes "io.grpc.health.v1B" ++ [x0b] ++ as_bytes "HealthProtoP" ++ [x01] ++
     as_bytes "Z,google.golang.org/grpc/health/grpc_health_v1" ++ [xaa; x02; x0e] ++ as_bytes "Grpc.Health.V1"));
   (12%Z, VLengthDelimited (as_bytes "proto3"))].

Definition original_data : list byte :=
  [x0a; x1b] ++ as_bytes "grpc/health/v1/health.proto" ++ [x12; x0e] ++ as_bytes "grpc.health.v1" ++
  [x22; x2e; x0a; x12] ++ as_bytes "HealthCheckRequest" ++ [x12; x18; x0a; x07] ++ as_bytes "service" ++
  [x18; x01; x20; x01; x28; x09; x52; x07] ++ as_bytes "service" ++ [x22; xb1; x01; x0a; x13] ++
  as_bytes "HealthCheckResponse" ++ [x12; x49; x0a; x06] ++ as_bytes "status" ++
  [x18; x01; x20; x01; x28; x0e] ++ as_bytes "21.grpc.health.v1.HealthCheckResponse.ServingStatusR" ++
  [x06] ++ as_bytes "status" ++ [x22; x4f; x0a; x0d] ++ as_bytes "ServingStatus" ++
  [x12; x0b; x0a; x07] ++ as_bytes "UNKNOWN" ++ [x10; x00; x12; x0b; x0a; x07] ++ as_bytes "SERVING" ++
  [x10; x01; x12; x0f; x0a; x0b] ++ as_bytes "NOT_SERVING" ++ [x10; x02; x12; x13; x0a; x0f] ++
  as_bytes "SERVICE_UNKNOWN" ++ [x10; x03; x32; xae; x01; x0a; x06] ++ as_bytes "Health" ++
  [x12; x50; x0a; x05] ++ as_bytes "Check" ++ [x12; x22] ++
  as_bytes ".grpc.health.v1.HealthCheckRequest" ++ [x1a] ++
  as_bytes "#.grpc.health.v1.HealthCheckResponse" ++ [x12; x52; x0a; x05] ++ as_bytes "Watch" ++
  [x12; x22] ++ as_bytes ".grpc.health.v1.HealthCheckRequest" ++ [x1a] ++
  as_bytes "#.grpc.health.v1.HealthCheckResponse0" ++ [x01; x42; x61; x0a; x11] ++
  as_bytes "io.grpc.health.v1B" ++ [x0b] ++ as_bytes "HealthProtoP" ++ [x01] ++
  as_bytes "Z,google.golang.org/grpc/health/grpc_health_v1" ++ [xaa; x02; x0e] ++
  as_bytes "Grpc.Health.V1b" ++ [x06] ++ as_bytes "proto3".

Example original_readable : original_data = fields_bytes original_fields.
Proof. vm_compute. reflexivity. Qed.
