(* ===== verification/Xtask.v ===== *)
(** The tasks of the repository (xtask/src/main.rs): which commands they run and in which
    order, and what they do to the texts of generated files. *)

From S2P Require Import Prelude Status Text HealthDescriptor.

Local Open Scope rust_scope.
Local Open Scope list_scope.

(** ** Texts *)

Definition remove_match (data : text) (pattern : text -> bool) : text :=
  join_lines (filter (fun l => pattern l = false) (lines data)).

(** The lines of bindings that [bindgen] removes. *)
Definition bindgen_line (l : text) : bool :=
  starts_with (as_bytes "pub type ") l && contains (as_bytes "= ::std::os::raw::") l.

(** The value of [target_arch] in the output of rustc: the first line that has one, without
    its quotes; [arch[1..arch.len() - 1]] panics on a single byte. *)
Fixpoint find_arch (ls : list text) : outcome text :=
  match ls with
  | [] => Panicked "arch not found"
  | l :: ls =>
      match strip_prefix (as_bytes "target_arch=") l with
      | Some arch =>
          match arch with
          | [] => find_arch ls
          | [_] => Panicked "slice index starts at 1 but ends at 0"
          | _ => Done (take (length arch - 2) (drop 1 arch))
          end
      | None => find_arch ls
      end
  end.

Definition find_default_arch (stdout : text) : outcome text := find_arch (lines stdout).

Definition NAMING_PATCH : list (string * list (string * string)) :=
  [("health/src/proto/protobuf/health.rs",
    [("HealthCheckResponse_ServingStatus", "ServingStatus");
     ("NOT_SERVING", "NotServing");
     ("SERVICE_UNKNOWN", "ServiceUnknown");
     ("UNKNOWN", "Unknown");
     ("SERVING", "Serving");
     ("rustfmt_skip", "rustfmt::skip")])].

Definition apply_fixes (name_fixes : list (string * string)) (content : text) : text :=
  foldl (fun content '(src, target) => replace (as_bytes src) (as_bytes target) content) content name_fixes.

(** What [generate_protobuf] does to a file it patches. *)
Definition patch_content (name_fixes : list (string * string)) (content : text) : text :=
  remove_match (apply_fixes name_fixes content) (contains (as_bytes "::protobuf::VERSION")).

(** ** Commands *)

(** What a task does to the world outside, in order. *)
Inductive Action :=
| Exec (dir : option string) (env : list (string * string)) (program : string) (args : list string)
| RemoveDirAll (path : string)
| CreateDirAll (path : string)
| RemoveContents (path : string)
| ProtocRust (out_dir : string) (includes inputs : list string)
| PatchFile (path : string) (name_fixes : list (string * string))
| FilterBindings (path : string)
| SetVar (key value : string)
| PrintHelp
| Exit (code : Z).

Definition cmd (c : string) (args : list string) : Action := Exec None [] c args.
Definition cmd_in (c dir : string) (args : list string) : Action := Exec (Some dir) [] c args.

Section tasks.
(** [CARGO], [ARCH], the output of rustc, the entries of a directory with their extensions,
    which directories exist, and protoc. *)
Context (CARGO ARCH : option string) (rustc_cfg : text) (read_dir : string -> list (string * option string)).
Context (exists_path : string -> bool) (protoc_in_path : bool) (prost_protoc : string).

(** [cargo()]: the task ends when it is not run by cargo. *)
Definition cargo (f : string -> Action) (rest : list Action) : list Action :=
  match CARGO with Some s => f s :: rest | None => [Exit 1] end.

Definition bindgen : outcome (list Action) :=
  let+ arch := match ARCH with
               | Some arch => Done arch
               | None => let+ a := find_default_arch rustc_cfg in Done (String.string_of_list_byte a)
               end in
  let tuple := arch +:+ "-unknown-linux-gnu" in
  Done (cargo (fun c => Exec None [("UPDATE_BIND", "1")] c ["build"; "-p"; "grpcio-sys"; "--target"; tuple])
          (FilterBindings <$> (read_dir "grpc-sys/bindings").*1)).

Definition submodule : list Action :=
  [cmd "git" ["submodule"; "update"; "--init"; "grpc-sys/grpc"]] ++
  ((fun dir => cmd_in "git" "grpc-sys/grpc/third_party" ["submodule"; "update"; "--init"; dir]) <$>
     ["cares/cares"; "abseil-cpp"; "re2"]) ++
  [RemoveContents "grpc-sys/grpc/third_party/boringssl-with-bazel/";
   cmd_in "git" "grpc-sys/grpc/third_party/zlib" ["clean"; "-df"];
   cmd_in "git" "grpc-sys/grpc/third_party/zlib" ["reset"; "--hard"]].

Definition clang_lint : list Action :=
  [cmd "clang-tidy" ["grpc-sys/grpc_wrap.cc"; "--"; "-Igrpc-sys/grpc/include"; "-x"; "c++"; "-std=c++11"];
   cmd "clang-format" ["-i"; "grpc-sys/grpc_wrap.cc"]].

(** A directory made anew. *)
Definition fresh_dir (out_dir : string) : list Action :=
  (if exists_path out_dir then [RemoveDirAll out_dir] else []) ++ [CreateDirAll out_dir].

Definition generate_protobuf (protoc include : string) (inputs : list string) (out_dir : string)
    (rest : list Action) : list Action :=
  fresh_dir out_dir ++ [ProtocRust out_dir [include] inputs] ++
  cargo (fun c => cmd c ["build"; "-p"; "grpcio-compiler"])
    ([cmd protoc (["-I" +:+ include; "--grpc_out=" +:+ out_dir;
                   "--plugin=protoc-gen-grpc=./target/debug/grpc_rust_plugin"] ++ inputs)] ++
     ((fun '(path, fixes) => PatchFile path fixes) <$> NAMING_PATCH) ++ rest).

Fixpoint join (sep : string) (l : list string) : string :=
  match l with
  | [] => ""
  | [x] => x
  | x :: l => x +:+ sep +:+ join sep l
  end.

Definition generate_prost (protoc include : string) (inputs : list string) (out_dir : string)
    (rest : list Action) : list Action :=
  [SetVar "PROTOC" protoc] ++ fresh_dir out_dir ++
  cargo (fun c => cmd_in c "compiler"
           ["build"; "--no-default-features"; "--features"; "prost-codec"; "--bin"; "grpc_rust_prost"])
    (cmd "target/debug/grpc_rust_prost"
       ["--protos=" +:+ join "," inputs; "--includes=" +:+ include; "--out-dir=" +:+ out_dir] :: rest).

Definition PROTOS : list (string * list string * string) :=
  [("grpc-sys/grpc/src/proto", ["grpc/health/v1"], "health/src/proto")].

(** The protocol files below the include directory. *)
Definition proto_inputs (include : string) (protos : list string) : list string :=
  concat ((fun p => (filter (fun e : string * option string => e.2 = Some "proto")
                       (read_dir (include +:+ "/" +:+ p))).*1) <$> protos).

Definition codegen : list Action :=
  let protoc := if protoc_in_path then "protoc" else prost_protoc in
  foldr (fun '(include, protos, out_dir) rest =>
    let inputs := proto_inputs include protos in
    generate_protobuf protoc include inputs (out_dir +:+ "/protobuf")
      (generate_prost protoc include inputs (out_dir +:+ "/prost") rest))
    (cargo (fun c => cmd c ["fmt"; "--all"]) []) PROTOS.

(** [main], given the arguments after the name of the program. *)
Definition main (args : list string) : outcome (list Action) :=
  match args with
  | [subcommand] =>
      if bool_decide (subcommand = "bindgen") then bindgen
      else if bool_decide (subcommand = "submodule") then Done submodule
      else if bool_decide (subcommand = "clang-lint") then Done clang_lint
      else if bool_decide (subcommand = "codegen") then Done codegen
      else Done [PrintHelp]
  | _ => Done [PrintHelp; Exit 1]
  end.
End tasks.

(** ** What the filters keep *)

(** Filtering a text drops exactly the lines that match: the lines of the result are
    the other lines of the text, in order, and filtering again changes nothing. *)
Theorem remove_match_keeps (data : text) (pattern : text -> bool) :
  Forall line_ok (lines data) ->
  lines (remove_match data pattern) = filter (fun l => pattern l = false) (lines data) /\
  remove_match (remove_match data pattern) pattern = remove_match data pattern.
Proof.
  intros Hok. assert (lines (remove_match data pattern) = filter (fun l => pattern l = false) (lines data)) as H.
  { unfold remove_match. apply lines_join. rewrite Forall_forall in *.
    intros l [_ Hl]%list_elem_of_filter. by apply Hok. }
  split; [done|]. unfold remove_match at 1. rewrite H. unfold remove_match. f_equal.
  rewrite list_filter_filter. apply list_filter_iff. tauto.
Qed.

(** The names of the statuses after the fixes, and why their order matters: with the last
    names first, the longer ones are not found any more. *)
Definition health_fixes : list (string * string) := default [] (snd <$> head NAMING_PATCH).

Example fixes_in_order :
  (fun s => String.string_of_list_byte (apply_fixes health_fixes (as_bytes s))) <$>
    ["ServingStatus::UNKNOWN"; "ServingStatus::SERVING"; "ServingStatus::NOT_SERVING";
     "ServingStatus::SERVICE_UNKNOWN"; "HealthCheckResponse_ServingStatus"] =
  ["ServingStatus::Unknown"; "ServingStatus::Serving"; "ServingStatus::NotServing";
   "ServingStatus::ServiceUnknown"; "ServingStatus"].
Proof. vm_compute. reflexivity. Qed.

Example fixes_reversed :
  (fun s => String.string_of_list_byte (apply_fixes (reverse health_fixes) (as_bytes s))) <$>
    ["ServingStatus::NOT_SERVING"; "ServingStatus::SERVICE_UNKNOWN"] =
  ["ServingStatus::NOT_Serving"; "ServingStatus::SERVICE_Unknown"].
Proof. vm_compute. reflexivity. Qed.

(** The fixes reach into the encoded description of the protocol, whose strings have their
    lengths before them: of the last name of the enumeration, which is 15 bytes long, 14
    are left, and the byte after it is lost to the description. *)
Theorem fixes_break_descriptor :
  apply_fixes health_fixes ([x0a; x0f] ++ as_bytes "SERVICE_UNKNOWN" ++ [x10; x03]) =
    [x0a; x0f] ++ as_bytes "ServiceUnknown" ++ [x10; x03] /\
  length (as_bytes "ServiceUnknown") = 14 /\
  contains ([x0a; x0f] ++ as_bytes "SERVICE_UNKNOWN" ++ [x10; x03]) original_data = true /\
  contains ([x0a; x0f] ++ as_bytes "ServiceUnknown" ++ [x10; x03]) file_descriptor_proto_data = true.
Proof. repeat split; vm_compute; reflexivity. Qed.

(** Without [CARGO] a task stops before it runs any command that needs it. *)
Lemma codegen_without_cargo read_dir exists_path protoc_in_path prost_protoc :
  last (codegen None read_dir exists_path protoc_in_path prost_protoc) = Some (Exit 1).
Proof. unfold codegen, generate_protobuf. simpl. unfold fresh_dir. by destruct (exists_path _). Qed.

Example arch_found :
  find_default_arch (as_bytes "debug_assertions" ++ [x0a] ++ as_bytes "target_arch=" ++ [x22] ++
    as_bytes "x86_64" ++ [x22; x0a]) = Done (as_bytes "x86_64").
Proof. vm_compute. reflexivity. Qed.

Lemma remove_match_keeps_witness :
  lines (remove_match (as_bytes "a" ++ [x0a] ++ as_bytes "pub type b = ::std::os::raw::c;" ++ [x0a] ++
    as_bytes "d" ++ [x0a]) bindgen_line) = [as_bytes "a"; as_bytes "d"].
Proof.
  apply (remove_match_keeps (as_bytes "a" ++ [x0a] ++ as_bytes "pub type b = ::std::os::raw::c;" ++ [x0a] ++
    as_bytes "d" ++ [x0a]) bindgen_line).
  vm_compute. repeat (constructor; [split; [|congruence]|]); try constructor;
    apply (bool_decide_eq_true_1 (_ ∉ _)); reflexivity.
Defined.
