(* ===== verification/Build.v ===== *)
(** The build script of the bindings (grpc-sys/build.rs): what it tells cargo, how it
    configures cmake and the C++ compiler, and which bindings it chooses.

    The environment, the lines printed for cargo and the settings of the builders are the
    state; files, directories and the tools (cmake, pkg-config, bindgen, boringssl-src) are
    parameters. *)

From S2P Require Import Prelude Status Text.

Local Open Scope rust_scope.
Local Open Scope list_scope.

Definition COMMON_DEPS : list string :=
  ["absl_bad_optional_access"; "absl_bad_variant_access"; "absl_base"; "absl_city"; "absl_civil_time";
   "absl_cord"; "absl_debugging_internal"; "absl_demangle_internal"; "absl_exponential_biased";
   "absl_graphcycles_internal"; "absl_hash"; "absl_hashtablez_sampler"; "absl_int128"; "absl_log_severity";
   "absl_malloc_internal"; "absl_raw_hash_set"; "absl_raw_logging_internal"; "absl_spinlock_wait";
   "absl_stacktrace"; "absl_status"; "absl_statusor"; "absl_str_format_internal"; "absl_strings";
   "absl_strings_internal"; "absl_symbolize"; "absl_synchronization"; "absl_throw_delegate"; "absl_time";
   "absl_time_zone"; "absl_wyhash"; "address_sorting"; "cares"; "gpr"; "upb"; "z"].
Definition GRPC_DEPS : list string := ["grpc"; "re2"].
Definition GRPC_UNSECURE_DEPS : list string := ["grpc_unsecure"].

(** ** State *)

(** The value of a variable, which may not be Unicode. *)
Inductive Var := Unicode (s : string) | NotUnicode (lossy : string).

(** Settings of cmake and of the C++ compiler. *)
Inductive Setting :=
| CmakeDefine (k v : string) | CmakeCflag (s : string) | CmakeCxxflag (s : string) | CmakeTarget (s : string)
| RegisterDep (s : string) | BuildTarget (s : string)
| CcDefine (k : string) (v : option string) | CcInclude (s : string) | CcFlag (s : string) | CcFile (s : string)
| CcWarningsIntoErrors | CcCompile (s : string)
| Bindgen (path : string) (args : list string) (headers : list string) (layout_tests : bool)
| RemoveDir (path : string).

Record BuildState := mkBuild {
  env : gmap string Var;
  printed : list string;
  settings : list Setting;
}.

Definition println (s : string) : M BuildState unit :=
  modify (fun b => mkBuild (env b) (printed b ++ [s]) (settings b)).

Definition set (s : Setting) : M BuildState unit :=
  modify (fun b => mkBuild (env b) (printed b) (settings b ++ [s])).

Definition set_var (k v : string) : M BuildState unit :=
  modify (fun b => mkBuild (<[k := Unicode v]> (env b)) (printed b) (settings b)).

(** [env::var(k).ok()], [env::var(k).unwrap()]. *)
Definition var_ok (k : string) : M BuildState (option string) :=
  gets (fun b => match env b !! k with Some (Unicode s) => Some s | _ => None end).

Definition var_unwrap (k : string) : M BuildState string :=
  let* v := var_ok k in unwrap v "called `Result::unwrap()` on an `Err` value".

(** [get_env] tells cargo that the build depends on the variable. *)
Definition get_env (name : string) : M BuildState (option string) :=
  do* println ("cargo:rerun-if-env-changed=" +:+ name) in
  let* v := gets (fun b => env b !! name) in
  match v with
  | Some (Unicode s) => ret (Some s)
  | None => ret None
  | Some (NotUnicode s) => panic ("unrecognize env var of " +:+ name +:+ ": " +:+ s)
  end.

Definition env_is (name value : string) : M BuildState bool :=
  let* v := get_env name in ret (bool_decide (v = Some value)).

Fixpoint for_each {A} (l : list A) (f : A -> M BuildState unit) : M BuildState unit :=
  match l with
  | [] => ret tt
  | x :: l => do* f x in for_each l f
  end.

(** ** Texts *)

(** A prefix is taken off as often as it occurs at the start. *)
Definition trim_start (s prefix : text) : option text :=
  if starts_with prefix s then Some (trim_start_matches prefix s) else None.

(** Whether a line of the cache names another compiler. *)
Definition stale_line (cxx_compiler l : text) : bool :=
  match trim_start l (as_bytes "CMAKE_CXX_COMPILER:") with
  | None => false
  | Some s =>
      match (split_once x3d [] s).2 with
      | None => false
      | Some p => negb (bool_decide (p = cxx_compiler))
      end
  end.

Definition ssl_line (l : text) : option text :=
  match trim_start l (as_bytes "OPENSSL_CRYPTO_LIBRARY:FILEPATH=") with
  | Some s => Some s
  | None => trim_start l (as_bytes "OPENSSL_SSL_LIBRARY:FILEPATH=")
  end.

Section script.
(** The features. *)
Context (secure openssl openssl_vendored no_omit_frame_pointer use_bindgen msvc_host : bool).
(** Directories: whether one is empty ([None] when it cannot be read), the lines of a file,
    the library files below a directory with their parents, the headers with an API. *)
Context (is_directory_empty : string -> option bool) (file_lines : string -> option (list text)).
Context (walk : string -> list (string * string)) (api_headers : list string) (parent : text -> option string).
(** The default compiler, where cmake builds, boringssl's root and libraries, the result of
    pkg-config. *)
Context (default_compiler cmake_dst boringssl_root boringssl_lib : string).
Context (probe_library : string -> Result string (list string)).

Definition modules : list string :=
  ["grpc"; "grpc/third_party/cares/cares"; "grpc/third_party/address_sorting";
   "grpc/third_party/abseil-cpp"; "grpc/third_party/re2"].

Definition prepare_grpc : M BuildState unit :=
  for_each modules (fun module =>
    if default true (is_directory_empty module)
    then panic ("Can't find module " +:+ module +:+
           ". You need to run `git submodule update --init --recursive` first to build the project.")
    else ret tt).

Definition clean_up_stale_cache (cxx_compiler : string) : M BuildState unit :=
  let* out_dir := var_unwrap "OUT_DIR" in
  let build_dir := out_dir +:+ "/build" in
  match file_lines (build_dir +:+ "/CMakeCache.txt") with
  | None => ret tt
  | Some ls => if existsb (stale_line (as_bytes cxx_compiler)) ls then set (RemoveDir build_dir) else ret tt
  end.

(** The loop over the cache: how many libraries were found. *)
Fixpoint ssl_loop (ls : list text) (cnt : nat) : M BuildState nat :=
  match ls with
  | [] => ret cnt
  | l :: ls =>
      match ssl_line l with
      | Some s =>
          let* dir := unwrap (parent s) "called `Option::unwrap()` on a `None` value" in
          do* println ("cargo:rustc-link-search=native=" +:+ dir) in
          ssl_loop ls (S cnt)
      | None => ssl_loop ls cnt
      end
  end.

Definition figure_ssl_path (build_dir : string) : M BuildState unit :=
  let* ls := unwrap (file_lines (build_dir +:+ "/CMakeCache.txt")) "called `Result::unwrap()` on an `Err` value" in
  let* cnt := ssl_loop ls 0 in
  if bool_decide (cnt = 2) then
    do* println "cargo:rustc-link-lib=ssl" in println "cargo:rustc-link-lib=crypto"
  else panic "CMake cache invalid".

Definition build_boringssl : M BuildState unit :=
  do* set (CmakeDefine "OPENSSL_ROOT_DIR" boringssl_root) in
  println ("cargo:rustc-link-search=native=" +:+ boringssl_lib).

Definition setup_libz : M BuildState unit :=
  do* set (CmakeDefine "gRPC_ZLIB_PROVIDER" "package") in
  do* set (RegisterDep "Z") in
  let* zlib_root := var_unwrap "DEP_Z_ROOT" in
  let* old := var_ok "CMAKE_PREFIX_PATH" in
  let prefix_path := match old with
                     | Some p => p +:+ ";" +:+ zlib_root +:+ "/build"
                     | None => zlib_root +:+ "/build"
                     end in
  do* println ("cargo:rustc-link-search=native=" +:+ zlib_root +:+ "/build") in
  do* println ("cargo:rustc-link-search=native=" +:+ zlib_root +:+ "/lib") in
  set_var "CMAKE_PREFIX_PATH" prefix_path.

(** The compiler cmake is told, or would find. *)
Definition choose_compiler : M BuildState string :=
  let* cxx := get_env "CXX" in
  match cxx with
  | Some val => do* set (CmakeDefine "CMAKE_CXX_COMPILER" val) in ret val
  | None =>
      let* e := var_unwrap "CARGO_CFG_TARGET_ENV" in
      if bool_decide (e = "musl") then do* set (CmakeDefine "CMAKE_CXX_COMPILER" "g++") in ret "g++"
      else ret default_compiler
  end.

(** Cross-compilation for iOS: the system root and the architecture of a target. *)
Definition ios_settings (target : string) : list Setting :=
  let two sysroot arch := [CmakeDefine "CMAKE_OSX_SYSROOT" sysroot; CmakeDefine "CMAKE_OSX_ARCHITECTURES" arch] in
  if bool_decide (target = "aarch64-apple-ios") then two "iphoneos" "arm64"
  else if bool_decide (target = "armv7-apple-ios") then two "iphoneos" "armv7"
  else if bool_decide (target = "armv7s-apple-ios") then two "iphoneos" "armv7s"
  else if bool_decide (target = "i386-apple-ios") then two "iphonesimulator" "i386"
  else if bool_decide (target = "x86_64-apple-ios") then two "iphonesimulator" "x86_64"
  else [].

Definition configure (target library : string) : M BuildState unit :=
  let* macos := env_is "CARGO_CFG_TARGET_OS" "macos" in
  do* (if macos then set (CmakeCxxflag "-stdlib=libc++") else ret tt) in
  let* macos := env_is "CARGO_CFG_TARGET_OS" "macos" in
  let* apple := if macos then ret true else env_is "CARGO_CFG_TARGET_OS" "ios" in
  do* (if apple then println "cargo:rustc-link-lib=framework=CoreFoundation" else ret tt) in
  let* cxx_compiler := choose_compiler in
  do* clean_up_stale_cache cxx_compiler in
  do* for_each (ios_settings target) set in
  let* over := var_ok "CMAKE_TARGET_OVERRIDE" in
  do* match over with Some val => set (CmakeTarget val) | None => ret tt end in
  do* for_each [CmakeDefine "gRPC_INSTALL" "false"; CmakeDefine "gRPC_BUILD_CSHARP_EXT" "false";
                CmakeDefine "gRPC_BUILD_CODEGEN" "false"; CmakeDefine "gRPC_BENCHMARK_PROVIDER" "none"] set in
  do* (if secure then set (CmakeDefine "gRPC_SSL_PROVIDER" "package") else ret tt) in
  do* (if secure then
         if openssl then (if openssl_vendored then set (RegisterDep "openssl") else ret tt) else build_boringssl
       else ret tt) in
  do* (if no_omit_frame_pointer then
         do* set (CmakeCflag "-fno-omit-frame-pointer") in set (CmakeCxxflag "-fno-omit-frame-pointer")
       else ret tt) in
  do* setup_libz in
  set (BuildTarget library).

Definition ends_with (suffix s : text) : bool := bool_decide (drop (length s - length suffix) s = suffix).

Definition build_grpc (library : string) : M BuildState unit :=
  do* prepare_grpc in
  let* target := var_unwrap "TARGET" in
  do* configure target library in
  let lib_suffix := if contains (as_bytes "msvc") (as_bytes target) then ".lib" else ".a" in
  let build_dir := cmake_dst +:+ "/build" in
  do* for_each (walk build_dir) (fun '(dir, file_name) =>
        if ends_with (as_bytes lib_suffix) (as_bytes file_name)
        then println ("cargo:rustc-link-search=native=" +:+ dir) else ret tt) in
  let libs := if contains (as_bytes "unsecure") (as_bytes library) then GRPC_UNSECURE_DEPS else GRPC_DEPS in
  do* for_each (COMMON_DEPS ++ libs) (fun l => println ("cargo:rustc-link-lib=static=" +:+ l)) in
  do* (if secure then
         if openssl && negb openssl_vendored then figure_ssl_path build_dir
         else do* println "cargo:rustc-link-lib=static=ssl" in println "cargo:rustc-link-lib=static=crypto"
       else ret tt) in
  set (CcInclude "grpc/include").

(** The arguments of bindgen; the headers are sorted. *)
Definition bindgen_grpc (file_path : string) : M BuildState unit :=
  let* windows := env_is "CARGO_CFG_TARGET_OS" "windows" in
  do* println "cargo:rerun-if-env-changed=TEST_BIND" in
  let* gen_tests := var_ok "TEST_BIND" in
  set (Bindgen file_path
         ((if secure then ["-DGRPC_SYS_SECURE"] else []) ++ (if (windows : bool) then ["-D _WIN32_WINNT=0x600"] else []) ++
          ["-xc++"; "-I./grpc/include"; "-std=c++11"])
         (api_headers ++ ["grpc_wrap.cc"]) (bool_decide (gen_tests = Some "1"))).

(** The bindings of a target: those kept in the repository, or generated ones. *)
Definition config_binding_path : M BuildState unit :=
  let* target := var_unwrap "TARGET" in
  let* file_path :=
    if bool_decide (target = "x86_64-unknown-linux-gnu") || bool_decide (target = "aarch64-unknown-linux-gnu") then
      do* println ("cargo:rerun-if-changed=bindings/" +:+ target +:+ "-bindings.rs") in
      let* dir := var_unwrap "CARGO_MANIFEST_DIR" in
      let file_path := dir +:+ "/bindings/" +:+ target +:+ "-bindings.rs" in
      let* update := var_ok "UPDATE_BIND" in
      do* (if use_bindgen && bool_decide (is_Some update) then bindgen_grpc file_path else ret tt) in
      ret file_path
    else
      let* dir := var_unwrap "OUT_DIR" in
      let file_path := dir +:+ "/grpc-bindings.rs" in
      do* (if use_bindgen then bindgen_grpc file_path else ret tt) in
      ret file_path in
  println ("cargo:rustc-env=BINDING_PATH=" +:+ file_path).

Definition build_main : M BuildState unit :=
  do* println "cargo:rerun-if-changed=grpc_wrap.cc" in
  do* println "cargo:rerun-if-changed=grpc" in
  do* println "cargo:rerun-if-env-changed=UPDATE_BIND" in
  do* (if secure then set (CcDefine "GRPC_SYS_SECURE" None) else ret tt) in
  let library := if secure then "grpc" else "grpc_unsecure" in
  let* windows := env_is "CARGO_CFG_TARGET_OS" "windows" in
  do* (if (windows : bool) then set (CcDefine "_WIN32_WINNT" (Some "0x600")) else ret tt) in
  let* pkg := env_is "GRPCIO_SYS_USE_PKG_CONFIG" "1" in
  do* (if (pkg : bool) then
         match probe_library library with
         | Ok include_paths => for_each include_paths (fun p => set (CcInclude p))
         | Err e => panic ("can't find library " +:+ library +:+ " via pkg-config: " +:+ e)
         end
       else build_grpc library) in
  do* (if msvc_host then ret tt else set (CcFlag "-std=c++11")) in
  do* set (CcFile "grpc_wrap.cc") in
  do* set CcWarningsIntoErrors in
  do* set (CcCompile "libgrpc_wrap.a") in
  config_binding_path.
End script.

(** ** What the script depends on *)

(** The variables the script reads. *)
Definition VARS : list string :=
  ["UPDATE_BIND"; "TEST_BIND"; "CARGO_CFG_TARGET_OS"; "GRPCIO_SYS_USE_PKG_CONFIG"; "CXX";
   "CARGO_CFG_TARGET_ENV"; "TARGET"; "OUT_DIR"; "CARGO_MANIFEST_DIR"; "DEP_Z_ROOT";
   "CMAKE_TARGET_OVERRIDE"; "CMAKE_PREFIX_PATH"].

(** States that differ in other variables only. *)
Definition alike (b1 b2 : BuildState) : Prop :=
  printed b1 = printed b2 /\ settings b1 = settings b2 /\ forall k, k ∈ VARS -> env b1 !! k = env b2 !! k.

(** Outcomes that do. *)
Definition same_outcome {A} (o1 o2 : outcome (A * BuildState)) : Prop :=
  match o1, o2 with
  | Done (x, b1), Done (y, b2) => x = y /\ alike b1 b2
  | Panicked e1, Panicked e2 => e1 = e2
  | _, _ => False
  end.

Definition respects {A} (m : M BuildState A) : Prop := forall b1 b2, alike b1 b2 -> same_outcome (m b1) (m b2).

Create HintDb build.

Lemma respects_ret {A} (x : A) : respects (ret x).
Proof. by intros b1 b2 H. Qed.

Lemma respects_panic {A} msg : respects (A:=A) (panic msg).
Proof. by intros b1 b2 H. Qed.

Lemma respects_bind {A B} (m : M BuildState A) (f : A -> M BuildState B) :
  respects m -> (forall x, respects (f x)) -> respects (bind m f).
Proof.
  intros Hm Hf b1 b2 H. specialize (Hm b1 b2 H). unfold bind, same_outcome in *.
  destruct (m b1) as [[x b1']|e1], (m b2) as [[y b2']|e2]; try done.
  destruct Hm as [-> H']. by apply Hf.
Qed.

Lemma respects_println s : respects (println s).
Proof. intros b1 b2 (Hp & Hs & He). split; [done|]. split; simpl; [by rewrite Hp|done]. Qed.

Lemma respects_set s : respects (set s).
Proof. intros b1 b2 (Hp & Hs & He). split; [done|]. split; simpl; [done|]. by rewrite Hs. Qed.

Lemma respects_set_var k v : respects (set_var k v).
Proof.
  intros b1 b2 (Hp & Hs & He). split; [done|]. split; [done|]. split; [done|]. intros k' Hk'. simpl.
  destruct (decide (k = k')) as [->|Hne]; [by rewrite !lookup_insert_eq|].
  rewrite !lookup_insert_ne by done. by apply He.
Qed.

Lemma respects_gets_env k {A} (f : option Var -> A) : k ∈ VARS -> respects (gets (fun b => f (env b !! k))).
Proof. intros Hk b1 b2 H. split; [|done]. destruct H as (_ & _ & He). by rewrite (He k Hk). Qed.

Lemma respects_var_ok k : k ∈ VARS -> respects (var_ok k).
Proof.
  apply (respects_gets_env k (fun v => match v with Some (Unicode s) => Some s | _ => None end)).
Qed.

Lemma respects_unwrap {A} (o : option A) msg : respects (unwrap o msg).
Proof. destruct o; by intros b1 b2 H. Qed.

Lemma respects_get_env k : k ∈ VARS -> respects (get_env k).
Proof.
  intros Hk. unfold get_env. apply respects_bind; [apply respects_println|]. intros _.
  apply respects_bind; [by apply (respects_gets_env k id)|].
  intros [[s|s]|]; auto using respects_ret, respects_panic.
Qed.

Lemma respects_env_is k v : k ∈ VARS -> respects (env_is k v).
Proof. intros Hk. apply respects_bind; [by apply respects_get_env|]. intros x. apply respects_ret. Qed.

Lemma respects_var_unwrap k : k ∈ VARS -> respects (var_unwrap k).
Proof. intros Hk. apply respects_bind; [by apply respects_var_ok|]. intros x. apply respects_unwrap. Qed.

Lemma respects_for_each {A} (l : list A) f : (forall x, respects (f x)) -> respects (for_each l f).
Proof.
  intros Hf. induction l as [|x l IH]; [apply respects_ret|]. apply respects_bind; [apply Hf|]. by intros _.
Qed.

#[export] Hint Resolve respects_ret respects_panic respects_println respects_set respects_set_var
  respects_unwrap : build.

(** Variables are read one after another, with cases between. *)
Ltac respects_step :=
  match goal with
  | |- respects (bind _ _) => apply respects_bind; [|intros ?]
  | |- respects (for_each _ _) => apply respects_for_each; intros ?
  | |- respects (var_ok _) => apply respects_var_ok
  | |- respects (var_unwrap _) => apply respects_var_unwrap
  | |- respects (get_env _) => apply respects_get_env
  | |- respects (env_is _ _) => apply respects_env_is
  | |- _ ∈ VARS => apply (bool_decide_eq_true_1 (_ ∈ VARS)); reflexivity
  | |- respects (match ?x with _ => _ end) => destruct x
  | |- respects _ => solve [auto with build]
  end.
Ltac respects := repeat respects_step.

Section depends.
Context (secure openssl openssl_vendored no_omit_frame_pointer use_bindgen msvc_host : bool).
Context (is_directory_empty : string -> option bool) (file_lines : string -> option (list text)).
Context (walk : string -> list (string * string)) (api_headers : list string) (parent : text -> option string).
Context (default_compiler cmake_dst boringssl_root boringssl_lib : string).
Context (probe_library : string -> Result string (list string)).

Lemma respects_clean_up s : respects (clean_up_stale_cache file_lines s).
Proof. unfold clean_up_stale_cache. respects. Qed.

Lemma respects_ssl_loop ls n : respects (ssl_loop parent ls n).
Proof. revert n. induction ls as [|l ls IH]; intros n; cbn [ssl_loop]; respects; apply IH. Qed.

Lemma respects_figure_ssl d : respects (figure_ssl_path file_lines parent d).
Proof. unfold figure_ssl_path. respects. apply respects_ssl_loop. Qed.

Lemma respects_choose : respects (choose_compiler default_compiler).
Proof. unfold choose_compiler. respects. Qed.

Lemma respects_configure t l : respects (configure secure openssl openssl_vendored no_omit_frame_pointer
  file_lines default_compiler boringssl_root boringssl_lib t l).
Proof.
  unfold configure, build_boringssl, setup_libz. respects; [apply respects_choose|apply respects_clean_up].
Qed.

Lemma respects_build_grpc l : respects (build_grpc secure openssl openssl_vendored no_omit_frame_pointer
  is_directory_empty file_lines walk parent default_compiler cmake_dst boringssl_root boringssl_lib l).
Proof.
  unfold build_grpc, prepare_grpc. respects; [apply respects_configure|apply respects_figure_ssl].
Qed.

Lemma respects_bindgen p : respects (bindgen_grpc secure api_headers p).
Proof. unfold bindgen_grpc. respects. Qed.

Lemma respects_binding_path : respects (config_binding_path secure use_bindgen api_headers).
Proof. unfold config_binding_path. respects; apply respects_bindgen. Qed.

(** The build is a function of what it reads: two runs of the build script whose
    environments agree on the variables [VARS] (and that see the same files and tools) tell
    cargo the same, configure cmake and the compiler the same, choose the same bindings, and
    fail with the same message or not at all. *)
Theorem build_depends_on_vars (b1 b2 : BuildState) : alike b1 b2 ->
  same_outcome
    (build_main secure openssl openssl_vendored no_omit_frame_pointer use_bindgen msvc_host is_directory_empty
       file_lines walk api_headers parent default_compiler cmake_dst boringssl_root boringssl_lib probe_library b1)
    (build_main secure openssl openssl_vendored no_omit_frame_pointer use_bindgen msvc_host is_directory_empty
       file_lines walk api_headers parent default_compiler cmake_dst boringssl_root boringssl_lib probe_library b2).
Proof.
  revert b1 b2. change (respects (build_main secure openssl openssl_vendored no_omit_frame_pointer use_bindgen
    msvc_host is_directory_empty file_lines walk api_headers parent default_compiler cmake_dst boringssl_root
    boringssl_lib probe_library)).
  unfold build_main. respects; [apply respects_build_grpc|apply respects_binding_path].
Qed.

(** The libraries of the cache: one line for each of the two is needed. *)
Lemma ssl_loop_spec ls n b : (forall l s, l ∈ ls -> ssl_line l = Some s -> is_Some (parent s)) ->
  exists b', ssl_loop parent ls n b = Done (n + length (omap ssl_line ls), b') /\
    printed b' = printed b ++ ((fun d => "cargo:rustc-link-search=native=" +:+ d) <$> omap parent (omap ssl_line ls)).
Proof.
  revert n b. induction ls as [|l ls IH]; intros n b Hp.
  - exists b. rewrite Nat.add_0_r. split; [done|]. by rewrite app_nil_r.
  - cbn [ssl_loop omap list_omap]. destruct (ssl_line l) as [s|] eqn:E.
    + destruct (Hp l s) as [d Hd]; [left|done|].
      destruct (IH (S n) (mkBuild (env b) (printed b ++ ["cargo:rustc-link-search=native=" +:+ d]) (settings b)))
        as (b' & E' & Hb'); [intros; eapply Hp; [by right|done]|].
      exists b'. unfold bind. rewrite Hd. simpl. rewrite E'. split; [do 2 f_equal; lia|].
      rewrite Hb'. simpl. rewrite Hd. simpl. by rewrite <-app_assoc.
    + apply IH. intros; eapply Hp; [by right|done].
Qed.

Lemma figure_ssl_path_spec dir ls b :
  file_lines (dir +:+ "/CMakeCache.txt") = Some ls ->
  (forall l s, l ∈ ls -> ssl_line l = Some s -> is_Some (parent s)) ->
  if bool_decide (length (omap ssl_line ls) = 2) then
    exists b', figure_ssl_path file_lines parent dir b = Done (tt, b') /\
      printed b' = printed b ++ ((fun d => "cargo:rustc-link-search=native=" +:+ d) <$> omap parent (omap ssl_line ls)) ++
        ["cargo:rustc-link-lib=ssl"; "cargo:rustc-link-lib=crypto"]
  else exists msg, figure_ssl_path file_lines parent dir b = Panicked msg.
Proof.
  intros Hf Hp. destruct (ssl_loop_spec ls 0 b Hp) as (b' & E & Hb'). unfold figure_ssl_path, bind.
  rewrite Hf. simpl. rewrite E. simpl. case_bool_decide.
  - eexists. split; [done|]. simpl. rewrite Hb'. by rewrite <-!app_assoc.
  - by eexists.
Qed.
End depends.

(** A line of the cache with a compiler makes the cache stale exactly when the compiler is
    another one. *)
Lemma split_once_spec c (a b acc : text) : (c ∉ a) -> split_once c acc (a ++ (c :: b)) = (acc ++ a, Some b).
Proof.
  revert acc. induction a as [|x a IH]; intros acc Ha; cbn [app split_once].
  - rewrite bool_decide_eq_true_2 by done. by rewrite app_nil_r.
  - rewrite bool_decide_eq_false_2 by set_solver. rewrite IH by set_solver. by rewrite <-app_assoc.
Qed.

Lemma trim_start_once (p s : text) : p <> [] -> starts_with p s = false -> trim_start (p ++ s) p = Some s.
Proof.
  intros Hp Hs. unfold trim_start, trim_start_matches. unfold starts_with at 1.
  assert (strip_prefix p (p ++ s) = Some s) as E by (by apply strip_prefix_Some). rewrite E. f_equal.
  destruct (p ++ s) as [|b l] eqn:El; [by destruct p|]. cbn [length trim_loop]. rewrite E.
  destruct (length l) as [|fuel]; [done|]. cbn [trim_loop]. unfold starts_with in Hs.
  by destruct (strip_prefix p s).
Qed.

Lemma stale_line_spec (kind path cxx : text) :
  (x3d ∉ kind) -> starts_with (as_bytes "CMAKE_CXX_COMPILER:") (kind ++ (x3d :: path)) = false ->
  stale_line cxx (as_bytes "CMAKE_CXX_COMPILER:" ++ kind ++ (x3d :: path)) = negb (bool_decide (path = cxx)).
Proof.
  intros Hk Hs. unfold stale_line. rewrite trim_start_once by done. by rewrite split_once_spec.
Qed.

(** ** Witnesses *)

(** A build for Linux with the default features in an environment. *)
Definition demo_env (more : list (string * Var)) : gmap string Var :=
  list_to_map ([("TARGET", Unicode "x86_64-unknown-linux-gnu"); ("OUT_DIR", Unicode "/out");
    ("CARGO_MANIFEST_DIR", Unicode "/src"); ("CARGO_CFG_TARGET_OS", Unicode "linux");
    ("CARGO_CFG_TARGET_ENV", Unicode "gnu"); ("DEP_Z_ROOT", Unicode "/z")] ++ more).

Definition demo_build (more : list (string * Var)) : outcome (unit * BuildState) :=
  build_main true false false false true false (fun _ => Some false) (fun _ => None)
    (fun _ => [("/out/build", "libgrpc.a")]) [] (fun _ => None) "c++" "/out" "/ssl" "/ssl/lib"
    (fun _ => Err "no pkg-config") (mkBuild (demo_env more) [] []).

Lemma build_depends_on_vars_witness :
  same_outcome (demo_build []) (demo_build [("HOME", Unicode "/home/me")]).
Proof.
  apply (build_depends_on_vars true false false false true false (fun _ => Some false) (fun _ => None)
    (fun _ => [("/out/build", "libgrpc.a")]) [] (fun _ => None) "c++" "/out" "/ssl" "/ssl/lib"
    (fun _ => Err "no pkg-config")).
  split; [reflexivity|]. split; [reflexivity|]. intros k Hk.
  repeat (apply elem_of_cons in Hk as [->|Hk]; [vm_compute; reflexivity|]). by apply not_elem_of_nil in Hk.
Defined.

(** What a run told cargo to watch. *)
Definition watched (o : outcome (unit * BuildState)) : list string :=
  match o with
  | Done (_, b) => filter (fun l => starts_with (as_bytes "cargo:rerun-if-env-changed=") (as_bytes l) = true) (printed b)
  | Panicked _ => []
  end.

Definition configured (o : outcome (unit * BuildState)) : list Setting :=
  match o with Done (_, b) => settings b | Panicked _ => [] end.

(** The script tells cargo which variables to watch, so cargo watches no others; but the
    target override and the prefix path of cmake, which change the build, are not among
    them: setting one does not cause a new build. *)
Theorem build_misses_variables :
  watched (demo_build []) = watched (demo_build [("CMAKE_TARGET_OVERRIDE", Unicode "android")]) /\
  ("cargo:rerun-if-env-changed=CMAKE_TARGET_OVERRIDE" ∉ watched (demo_build [])) /\
  configured (demo_build []) <> configured (demo_build [("CMAKE_TARGET_OVERRIDE", Unicode "android")]) /\
  watched (demo_build []) <> [].
Proof.
  split; [vm_compute; reflexivity|]. split; [apply (bool_decide_eq_true_1 (_ ∉ _)); vm_compute; reflexivity|].
  split; intros H; vm_compute in H; congruence.
Qed.
