(* ===== verification/Names.v ===== *)
(** Names of the generated code (compiler/src/util.rs): splitting an identifier into words
    and joining them in snake or camel case. Identifiers are those protoc accepts: ASCII
    letters, digits and underscores. *)

From S2P Require Import Prelude.

Local Open Scope rust_scope.

(** [(b'A'..=b'Z').contains(&c)]. *)
Definition is_upper (c : byte) : bool := N.leb 65 (Byte.to_N c) && N.leb (Byte.to_N c) 90.

Definition is_lower (c : byte) : bool := N.leb 97 (Byte.to_N c) && N.leb (Byte.to_N c) 122.

Definition is_us (c : byte) : bool := bool_decide (c = x5f).

(** [to_lowercase] and [to_uppercase] of ASCII characters. *)
Definition lower (c : byte) : byte :=
  if is_upper c then default c (Byte.of_N (Byte.to_N c + 32)) else c.

Definition upper (c : byte) : byte :=
  if is_lower c then default c (Byte.of_N (Byte.to_N c - 32)) else c.

Definition to_lowercase (w : list byte) : list byte := lower <$> w.

(** ** The splitter *)

Record NameSpliter := mkNameSpliter { name : list byte; pos : nat }.

Definition NameSpliter_new (s : list byte) : NameSpliter := {| name := s; pos := 0 |}.

(** [while self.pos < self.name.len() && self.name[self.pos] == b'_' { self.pos += 1 }];
    [l] is what is left of the name. *)
Fixpoint skip_underscores (p : nat) (l : list byte) : nat :=
  match l with
  | c :: l => if is_us c then skip_underscores (S p) l else p
  | [] => p
  end.

(** The [for] loop: where the word that starts at [self.pos] ends; at the end of the
    input [i] is the length of the name. *)
Fixpoint scan (i : nat) (l : list byte) (upper_len : nat) (meet_lower : bool) : nat :=
  match l with
  | [] => i
  | c :: l =>
      if is_upper c then
        if meet_lower then i else scan (S i) l (S upper_len) meet_lower
      else if is_us c then i
      else if bool_decide (1 < upper_len) then i - 1
      else scan (S i) l upper_len true
  end.

(** [Iterator::next]. *)
Definition NameSpliter_next (self : NameSpliter) : option (list byte) * NameSpliter :=
  if bool_decide (pos self = length (name self)) then (None, self)
  else
    let start := skip_underscores (pos self) (drop (pos self) (name self)) in
    let stop := scan start (drop start (name self)) 0 false in
    (Some (take (stop - start) (drop start (name self))), mkNameSpliter (name self) stop).

(** All words; a name yields at most as many words as it has characters. *)
Fixpoint words_loop (fuel : nat) (self : NameSpliter) : list (list byte) :=
  match fuel with
  | 0 => []
  | S fuel =>
      match NameSpliter_next self with
      | (None, _) => []
      | (Some w, self) => w :: words_loop fuel self
      end
  end.

Definition words (s : list byte) : list (list byte) := words_loop (S (length s)) (NameSpliter_new s).

(** [to_snake_case]: the last underscore is popped again. *)
Definition to_snake_case (s : list byte) : list byte :=
  removelast (mjoin ((fun w => to_lowercase w ++ [x5f]) <$> words s)).

Fixpoint camel_loop (ws : list (list byte)) (acc : list byte) : outcome (list byte) :=
  match ws with
  | [] => Done acc
  | [] :: _ => Panicked "called `Option::unwrap()` on a `None` value"
  | (c :: w) :: ws => camel_loop ws (acc ++ upper c :: to_lowercase w)
  end.

Definition to_camel_case (s : list byte) : outcome (list byte) := camel_loop (words s) [].

(** ** The splitter on what is left of the name *)

Fixpoint skip (l : list byte) : list byte :=
  match l with
  | c :: l' => if is_us c then skip l' else l
  | [] => []
  end.

(** The length of the first word of [l], which follows [n] characters of the same word. *)
Fixpoint word_len (l : list byte) (n upper_len : nat) (meet_lower : bool) : nat :=
  match l with
  | [] => n
  | c :: l =>
      if is_upper c then
        if meet_lower then n else word_len l (S n) (S upper_len) meet_lower
      else if is_us c then n
      else if bool_decide (1 < upper_len) then n - 1
      else word_len l (S n) upper_len true
  end.

Definition split1 (l : list byte) : list byte * list byte :=
  let l' := skip l in
  let k := word_len l' 0 0 false in
  (take k l', drop k l').

Fixpoint words_of (fuel : nat) (l : list byte) : list (list byte) :=
  match fuel, l with
  | S fuel, _ :: _ => fst (split1 l) :: words_of fuel (snd (split1 l))
  | _, _ => []
  end.

Lemma scan_word_len start n l u b : u <= n -> scan (start + n) l u b = start + word_len l n u b.
Proof.
  revert n u b. induction l as [|c l IH]; intros n u b Hu; simpl; [done|].
  destruct (is_upper c).
  - destruct b; [done|]. rewrite plus_n_Sm. apply IH. lia.
  - destruct (is_us c); [done|]. case_bool_decide; [lia|]. rewrite plus_n_Sm. apply IH. lia.
Qed.

Lemma skip_underscores_skip (s : list byte) p : p <= length s ->
  drop (skip_underscores p (drop p s)) s = skip (drop p s) /\
  p <= skip_underscores p (drop p s) <= length s.
Proof.
  remember (drop p s) as l eqn:Hl. revert p Hl. induction l as [|c l IH]; intros p Hl Hp; simpl.
  - rewrite <-Hl. split; [done|lia].
  - destruct (is_us c); [|rewrite <-Hl; split; [done|lia]].
    assert (p < length s) by (assert (length (drop p s) = S (length l)) as H by (by rewrite <-Hl);
      rewrite length_drop in H; lia).
    assert (drop (S p) s = l) as Hl'.
    { replace (S p) with (p + 1) by lia. rewrite <-drop_drop, <-Hl. done. }
    destruct (IH (S p) (eq_sym Hl') ltac:(lia)) as [E1 E2]. split; [done|lia].
Qed.

Lemma word_len_le l n u b : word_len l n u b <= n + length l.
Proof.
  revert n u b. induction l as [|c l IH]; intros n u b; simpl; [lia|].
  destruct (is_upper c); [destruct b; [lia|specialize (IH (S n) (S u) false); lia]|].
  destruct (is_us c); [lia|]. case_bool_decide; [lia|]. specialize (IH (S n) u true). lia.
Qed.

Lemma words_loop_eq fuel self : pos self <= length (name self) ->
  words_loop fuel self = words_of fuel (drop (pos self) (name self)).
Proof.
  destruct self as [s p]. simpl. revert p. induction fuel as [|fuel IH]; intros p Hp; simpl; [done|].
  unfold NameSpliter_next. simpl. case_bool_decide as E.
  - by rewrite drop_ge by lia.
  - destruct (skip_underscores_skip s p Hp) as [Es Hs].
    set (start := skip_underscores p (drop p s)) in *.
    destruct (drop p s) as [|c l] eqn:Ed.
    { assert (length (drop p s) = 0) as H by (by rewrite Ed). rewrite length_drop in H. lia. }
    rewrite <-Ed in *. pose proof (scan_word_len start 0 (drop start s) 0 false ltac:(lia)) as Hsc.
    rewrite Nat.add_0_r in Hsc. rewrite Hsc. unfold split1. rewrite <-Es. simpl.
    replace (start + word_len (drop start s) 0 0 false - start) with (word_len (drop start s) 0 0 false)
      by lia.
    f_equal. rewrite IH.
    + by rewrite drop_drop.
    + pose proof (word_len_le (drop start s) 0 0 false) as H. rewrite length_drop in H. lia.
Qed.

Lemma words_eq s : words s = words_of (S (length s)) s.
Proof. unfold words. by rewrite words_loop_eq by (simpl; lia). Qed.

(** ** Words *)

(** A word: at most one capital and then other characters, or capitals only. *)
Definition is_word (w : list byte) : Prop :=
  exists us ls, w = us ++ ls /\ Forall (fun c => is_upper c = true) us /\
    Forall (fun c => is_upper c = false /\ is_us c = false) ls /\ (length us <= 1 \/ ls = []).

Lemma upper_not_us c : is_upper c = true -> is_us c = false.
Proof. destruct c; done. Qed.

Lemma word_len_caps l pre :
  Forall (fun c => is_upper c = true) pre ->
  is_word (take (word_len l (length pre) (length pre) false) (pre ++ l)).
Proof.
  assert (forall l us ls, length us <= 1 -> Forall (fun c => is_upper c = true) us ->
    Forall (fun c => is_upper c = false /\ is_us c = false) ls ->
    is_word (take (word_len l (length (us ++ ls)) (length us) true) ((us ++ ls) ++ l))) as Hlow.
  { clear. induction l as [|c l IH]; intros us ls Hn Hus Hls; simpl.
    - exists us, ls. rewrite app_nil_r, firstn_all. auto.
    - destruct (is_upper c) eqn:Eu; [exists us, ls; rewrite take_app_length; auto|].
      destruct (is_us c) eqn:Es; [exists us, ls; rewrite take_app_length; auto|].
      rewrite bool_decide_eq_false_2 by lia.
      specialize (IH us (ls ++ [c]) Hn Hus). rewrite app_assoc, length_app in IH. simpl in IH.
      rewrite Nat.add_1_r, <-app_assoc in IH. apply IH. apply Forall_app. auto. }
  revert pre. induction l as [|c l IH]; intros pre Hp; simpl.
  - exists pre, []. rewrite app_nil_r, firstn_all. repeat split; auto.
  - assert (is_word (take (length pre) (pre ++ c :: l))) as Hpre.
    { rewrite take_app_length. exists pre, []. rewrite app_nil_r. repeat split; auto. }
    destruct (is_upper c) eqn:Eu.
    { specialize (IH (pre ++ [c])). rewrite length_app in IH. simpl in IH.
      rewrite Nat.add_1_r, <-app_assoc in IH. apply IH. apply Forall_app. auto. }
    destruct (is_us c) eqn:Es; [done|]. case_bool_decide as Hn.
    + rewrite take_app_le by lia. exists (take (length pre - 1) pre), []. rewrite app_nil_r.
      repeat split; auto. by apply Forall_take.
    + specialize (Hlow l pre [c] ltac:(lia) Hp). rewrite length_app in Hlow. simpl in Hlow.
      rewrite Nat.add_1_r, <-app_assoc in Hlow. apply Hlow. auto.
Qed.

Lemma word_len_mono l n u b : n - 1 <= word_len l n u b /\ (u <= 1 \/ b = true -> n <= word_len l n u b \/ 1 < u).
Proof.
  revert n u b. induction l as [|c l IH]; intros n u b; simpl; [lia|].
  destruct (is_upper c).
  - destruct b; [lia|]. destruct (IH (S n) (S u) false) as [H1 H2]. lia.
  - destruct (is_us c); [lia|]. case_bool_decide; [lia|].
    destruct (IH (S n) u true) as [H1 H2]. lia.
Qed.

(** The first word is empty only when nothing but underscores is left. *)
Lemma first_word_pos c l : is_us c = false -> 1 <= word_len (c :: l) 0 0 false.
Proof.
  intros Hc. simpl. rewrite Hc. destruct (is_upper c) eqn:Eu.
  - destruct l as [|c' l]; simpl; [lia|]. destruct (is_upper c').
    + destruct (word_len_mono l 2 2 false) as [H _]. lia.
    + destruct (is_us c'); [lia|]. try (rewrite bool_decide_eq_false_2 by lia).
      destruct (word_len_mono l 2 1 true) as [H _]. lia.
  - try (rewrite bool_decide_eq_false_2 by lia). destruct (word_len_mono l 1 0 true) as [_ H]. lia.
Qed.

Definition not_us (c : byte) : Prop := is_us c = false.

#[export] Instance not_us_dec c : Decision (not_us c) := decide (is_us c = false).

Lemma is_word_no_us w : is_word w -> filter not_us w = w.
Proof.
  intros (us & ls & -> & Hu & Hl & _).
  rewrite filter_app. f_equal.
  - induction Hu as [|c us Hc _ IH]; [done|]. rewrite filter_cons_True by (by apply upper_not_us).
    by rewrite IH.
  - induction Hl as [|c ls [_ Hc] _ IH]; [done|]. rewrite filter_cons_True by done. by rewrite IH.
Qed.

Lemma skip_spec l : filter not_us (skip l) = filter not_us l /\ length (skip l) <= length l /\
  (forall c l', skip l = c :: l' -> is_us c = false) /\
  (last (skip l) = last l \/ skip l = [] /\ (l = [] \/ last l = Some x5f)).
Proof.
  induction l as [|c l (IH1 & IH2 & IH3 & IH4)]; simpl.
  - repeat split; try done; auto.
  - destruct (is_us c) eqn:E.
    + rewrite filter_cons_False by (unfold not_us; congruence).
      repeat split; auto. destruct l as [|c' l].
      * right. split; [done|]. right. unfold is_us in E. apply bool_decide_eq_true in E as ->. done.
      * destruct IH4 as [IH4|[IH4 [?|IH5]]]; [by left|done|]. right. auto.
    + repeat split; auto. by intros c' l' [= <- <-].
Qed.

(** One step of the splitter. *)
Lemma split1_spec l : l <> [] ->
  skip l = fst (split1 l) ++ snd (split1 l) /\ is_word (fst (split1 l)) /\
  length (snd (split1 l)) < length l /\ (fst (split1 l) = [] <-> skip l = []).
Proof.
  intros Hne. unfold split1. simpl. destruct (skip_spec l) as (_ & Hlen & Hh & _).
  split; [by rewrite take_drop|]. split; [apply (word_len_caps (skip l) []); constructor|].
  destruct (skip l) as [|c l'] eqn:E.
  - rewrite drop_nil. split; [destruct l; simpl; [done|lia]|]. by rewrite take_nil.
  - pose proof (first_word_pos c l' (Hh _ _ eq_refl)) as Hp. split.
    + rewrite length_drop. cbn [length] in *. lia.
    + split; [|done]. intros Ht. apply (f_equal length) in Ht.
      rewrite length_take in Ht. cbn [length] in *. lia.
Qed.

Lemma words_of_spec fuel l : length l < fuel ->
  mjoin (words_of fuel l) = filter not_us l /\ Forall is_word (words_of fuel l) /\
  ([] ∈ words_of fuel l <-> last l = Some x5f).
Proof.
  revert l. induction fuel as [|fuel IH]; intros l Hf; [lia|].
  destruct l as [|c0 l0]; [repeat split; try done; by intros ?%elem_of_nil|].
  cbn [words_of]. set (l := c0 :: l0) in *.
  destruct (split1_spec l ltac:(done)) as (Es & Hw & Hlen & He).
  destruct (skip_spec l) as (Hf1 & _ & _ & Hl).
  destruct (IH (snd (split1 l)) ltac:(lia)) as (IH1 & IH2 & IH3).
  split; [|split; [by constructor|]].
  - transitivity (fst (split1 l) ++ mjoin (words_of fuel (snd (split1 l)))); [done|].
    rewrite IH1, <-Hf1, Es, filter_app. by rewrite (is_word_no_us _ Hw).
  - rewrite elem_of_cons, IH3. split.
    + intros [H|H].
      * symmetry in H. apply He in H. rewrite H in Hl. destruct Hl as [Hl|[_ [?|?]]]; [|done|done].
        by destruct (last_is_Some l) as [_ [x Hx]]; [|rewrite Hx in Hl].
      * destruct Hl as [<-|[Hl _]]; [by rewrite Es, last_app, H|].
        rewrite Hl in Es. symmetry in Es. apply app_nil in Es as [_ Es]. by rewrite Es in H.
    + intros H. destruct Hl as [Hl|[Hl _]]; [|left; symmetry; by apply He].
      right. rewrite H, Es, last_app in Hl.
      destruct (last (snd (split1 l))) as [x|] eqn:Ex; [done|].
      (* the word would end with an underscore *)
      exfalso. pose proof (is_word_no_us _ Hw) as Hn. rewrite <-Hn in Hl.
      assert (x5f ∈ filter not_us (fst (split1 l))) as Hin.
      { rewrite last_lookup in Hl. by eapply list_elem_of_lookup_2. }
      apply list_elem_of_filter in Hin as [Hin _]. done.
Qed.

(** ** Joining words *)

Lemma lower_facts c : is_upper (lower c) = false /\ is_us (lower c) = is_us c /\
  lower (lower c) = lower c /\ upper (lower c) = upper c.
Proof. destruct c; vm_compute; done. Qed.

(** A word in lower case. *)
Definition low_word (w : list byte) : Prop :=
  w <> [] /\ Forall (fun c => is_upper c = false /\ is_us c = false) w.

Lemma word_len_low w r n u : u <= 1 -> Forall (fun c => is_upper c = false /\ is_us c = false) w ->
  (r = [] \/ exists r', r = x5f :: r') -> word_len (w ++ r) n u true = n + length w.
Proof.
  intros Hu Hw Hr. revert n. induction Hw as [|c w [Hc1 Hc2] _ IH]; intros n; simpl.
  - destruct Hr as [->|[r' ->]]; simpl; lia.
  - rewrite Hc1, Hc2, bool_decide_eq_false_2 by lia. rewrite IH. lia.
Qed.

Lemma split1_low w r : low_word w -> (r = [] \/ exists r', r = x5f :: r') -> split1 (w ++ r) = (w, r).
Proof.
  intros [Hne Hw] Hr. destruct w as [|c w]; [done|]. apply Forall_cons in Hw as [[Hc1 Hc2] Hw].
  unfold split1. cbn [app skip]. rewrite Hc2. cbn [word_len]. rewrite Hc1, Hc2.
  rewrite bool_decide_eq_false_2 by lia. rewrite word_len_low by (done || lia).
  change (c :: w ++ r) with ((c :: w) ++ r). change (1 + length w) with (length (c :: w)).
  by rewrite take_app_length, drop_app_length.
Qed.

Lemma split1_us l : split1 (x5f :: l) = split1 l.
Proof. done. Qed.

Lemma words_of_join fuel w ws :
  Forall low_word (w :: ws) -> length (w :: ws) <= fuel ->
  words_of fuel (w ++ mjoin ((fun w => x5f :: w) <$> ws)) = w :: ws /\
  words_of fuel (x5f :: w ++ mjoin ((fun w => x5f :: w) <$> ws)) = w :: ws.
Proof.
  revert w ws. induction fuel as [|fuel IH]; intros w ws Hall Hf; simpl in Hf; [lia|].
  apply Forall_cons in Hall as [Hw Hws].
  assert (split1 (w ++ mjoin ((fun w => x5f :: w) <$> ws)) =
    (w, mjoin ((fun w => x5f :: w) <$> ws))) as Es.
  { apply split1_low; [done|]. destruct ws as [|w' ws]; [by left|right]. simpl. eauto. }
  assert (words_of fuel (mjoin ((fun w => x5f :: w) <$> ws)) = ws) as Hrest.
  { destruct ws as [|w' ws]; [by destruct fuel|]. cbn [fmap list_fmap mjoin list_join app].
    apply IH; [done|]. simpl in *. lia. }
  split.
  - destruct w as [|c w]; [by destruct Hw|]. cbn [words_of app].
    change (c :: w ++ ?x) with ((c :: w) ++ x). rewrite Es. simpl. by rewrite Hrest.
  - cbn [words_of]. rewrite split1_us, Es. simpl. by rewrite Hrest.
Qed.

(** The words of a list joined by underscores, as [to_snake_case] joins them. *)
Lemma snake_join ws : removelast (mjoin ((fun w => w ++ [x5f]) <$> ws)) =
  match ws with [] => [] | w :: ws => w ++ mjoin ((fun w => x5f :: w) <$> ws) end.
Proof.
  destruct ws as [|w ws]; [done|]. revert w. induction ws as [|w' ws IH]; intros w.
  - simpl. rewrite !app_nil_r. apply removelast_last.
  - transitivity (removelast ((w ++ [x5f]) ++ mjoin ((fun w => w ++ [x5f]) <$> (w' :: ws)))); [done|].
    rewrite removelast_app; [rewrite IH|].
    + rewrite <-app_assoc. done.
    + simpl. by destruct w'.
Qed.

Lemma to_snake_case_eq s : to_snake_case s =
  match words s with
  | [] => []
  | w :: ws => to_lowercase w ++ mjoin ((fun w => x5f :: w) <$> (to_lowercase <$> ws))
  end.
Proof.
  unfold to_snake_case.
  replace ((fun w => to_lowercase w ++ [x5f]) <$> words s)
    with ((fun w => w ++ [x5f]) <$> (to_lowercase <$> words s))
    by (by rewrite <-list_fmap_compose).
  rewrite snake_join. by destruct (words s).
Qed.

(** The words of a name without a trailing underscore, in lower case. *)
Lemma lower_words s : last s <> Some x5f -> Forall low_word (to_lowercase <$> words s).
Proof.
  intros Hs. rewrite words_eq. destruct (words_of_spec (S (length s)) s ltac:(lia)) as (_ & Hw & He).
  apply Forall_fmap. apply Forall_forall. intros w Hin. split; simpl.
  - intros E%fmap_nil_inv. subst w. by apply Hs, He.
  - unfold to_lowercase. apply Forall_fmap. rewrite Forall_forall in Hw. specialize (Hw w Hin).
    apply is_word_no_us in Hw. rewrite <-Hw. apply Forall_forall. intros c Hc. simpl.
    apply list_elem_of_filter in Hc as [Hc _]. destruct (lower_facts c) as (H1 & H2 & _).
    by rewrite H1, H2.
Qed.

Lemma words_of_length fuel l : length (words_of fuel l) <= length l.
Proof.
  revert l. induction fuel as [|fuel IH]; intros [|c l]; simpl; try lia.
  destruct (split1_spec (c :: l) ltac:(done)) as (_ & _ & Hlen & _).
  specialize (IH (snd (split1 (c :: l)))). simpl in *. lia.
Qed.

(** Splitting a name in snake case gives the words back. *)
Lemma words_snake s : last s <> Some x5f -> words (to_snake_case s) = to_lowercase <$> words s.
Proof.
  intros Hs. pose proof (lower_words s Hs) as Hl. rewrite words_eq, to_snake_case_eq.
  destruct (words s) as [|w ws]; [done|]. rewrite fmap_cons in Hl |- *.
  apply words_of_join; [done|]. clear Hs. apply Forall_cons in Hl as [[Hw _] Hl].
  rewrite length_app. assert (length (to_lowercase <$> ws) <=
    length (mjoin ((fun w => x5f :: w) <$> (to_lowercase <$> ws)))) as Hj.
  { clear. induction ws as [|w ws IH]; [done|]. rewrite !fmap_cons. cbn [length].
    change (mjoin (?a :: ?b)) with (a ++ mjoin b). rewrite length_app. cbn [length]. lia. }
  destruct (to_lowercase w) as [|c w'] eqn:E; [done|]. simpl in *. lia.
Qed.

Lemma camel_loop_lower ws acc : camel_loop (to_lowercase <$> ws) acc = camel_loop ws acc.
Proof.
  revert acc. induction ws as [|[|c w] ws IH]; intros acc; simpl; [done|done|].
  rewrite IH. destruct (lower_facts c) as (_ & _ & _ & ->). do 2 f_equal. f_equal.
  unfold to_lowercase. rewrite <-list_fmap_compose. apply list_fmap_ext. intros i x _. simpl. apply lower_facts.
Qed.

(** A name that does not end with an underscore has a camel case. *)
Lemma camel_total s : last s <> Some x5f -> exists t, to_camel_case s = Done t.
Proof.
  intros Hs. unfold to_camel_case. assert (Forall (fun w => w <> []) (words s)) as Hne.
  { apply Forall_forall. intros w Hin ->. rewrite words_eq in Hin.
    by apply (words_of_spec (S (length s)) s ltac:(lia)) in Hin. }
  generalize (@nil byte) as acc. induction Hne as [|w ws Hwn _ IH]; intros acc; simpl; [eauto|].
  destruct w; [done|]. apply IH.
Qed.

(** ** Properties *)

(** Splitting a name loses no character but the underscores and keeps the order; every
    piece is a word (at most one capital followed by other characters, or capitals only);
    and a piece is empty exactly when the name ends with an underscore. *)
Theorem name_words (s : list byte) :
  mjoin (words s) = filter not_us s /\ Forall is_word (words s) /\
  ([] ∈ words s <-> last s = Some x5f).
Proof. rewrite words_eq. apply words_of_spec. lia. Qed.


(** A service whose name ends with an underscore makes the generator panic. *)
Theorem camel_case_panics (s : list byte) :
  last s = Some x5f -> exists m, to_camel_case s = Panicked m.
Proof.
  intros Hs. assert ([] ∈ words s) as Hin by (rewrite words_eq; by apply words_of_spec; [lia|]).
  unfold to_camel_case. revert Hin. generalize (words s). intros l Hin.
  generalize (@nil byte) as acc. revert Hin.
  induction l as [|[|c w] ws IH]; intros Hin acc; simpl; [by apply elem_of_nil in Hin|eauto|].
  apply IH. by apply elem_of_cons in Hin as [?|?].
Qed.

(** ** Witnesses *)

