(* ===== verification/Codegen.v ===== *)
(** The code generator for protobuf services (compiler/src/codegen.rs): a writer of indented
    lines, and the client, the server trait and the method constants of a service. *)

From S2P Require Import Prelude Names.

Local Open Scope rust_scope.

(** ** Code as lines *)

(** What a [CodeWriter] writes, given its indentation: the lines, in order. *)
Definition Code : Type := string -> list string.

Definition write_line (line : string) : Code := fun indent =>
  if bool_decide (line = "") then [""] else [indent +:+ line].

(** One piece of code after another. *)
Definition seqc (c1 c2 : Code) : Code := fun indent => c1 indent ++ c2 indent.

Definition nothing : Code := fun _ => [].

Fixpoint all (cs : list Code) : Code :=
  match cs with
  | [] => nothing
  | c :: cs => seqc c (all cs)
  end.

Definition comment (c : string) : Code :=
  if bool_decide (c = "") then write_line "//" else write_line ("// " +:+ c).

Definition write_generated_common : Code :=
  all (write_line "// @generated" :: write_line "" ::
       comment "https://github.com/Manishearth/rust-clippy/issues/702" ::
       (write_line <$>
         ["#![allow(unknown_lints)]"; "#![allow(clippy::all)]"; "";
          "#![allow(box_pointers)]"; "#![allow(dead_code)]"; "#![allow(missing_docs)]";
          "#![allow(non_camel_case_types)]"; "#![allow(non_snake_case)]";
          "#![allow(non_upper_case_globals)]"; "#![allow(trivial_casts)]";
          "#![allow(unsafe_code)]"; "#![allow(unused_imports)]"; "#![allow(unused_results)]"])).

Definition write_generated : Code :=
  seqc (write_line "// This file is generated. Do not edit") write_generated_common.

Definition indented (cb : Code) : Code := fun indent => cb (indent +:+ "    ").

Definition commented (cb : Code) : Code := fun indent => cb ("// " +:+ indent).

Definition block (first_line last_line : string) (cb : Code) : Code :=
  all [write_line first_line; indented cb; write_line last_line].

Definition expr_block (prefix : string) (cb : Code) : Code := block (prefix +:+ " {") "}" cb.

Definition impl_self_block (n : string) (cb : Code) : Code := expr_block ("impl " +:+ n) cb.

Definition pub_struct (n : string) (cb : Code) : Code := expr_block ("pub struct " +:+ n) cb.

Definition pub_trait (n : string) (cb : Code) : Code := expr_block ("pub trait " +:+ n) cb.

Definition field_entry (n value : string) : Code := write_line (n +:+ ": " +:+ value +:+ ",").

Definition field_decl (n field_type : string) : Code := write_line (n +:+ ": " +:+ field_type +:+ ",").

Definition fn_block (public : bool) (sig : string) (cb : Code) : Code :=
  if public then expr_block ("pub fn " +:+ sig) cb else expr_block ("fn " +:+ sig) cb.

Definition pub_fn (sig : string) (cb : Code) : Code := fn_block true sig cb.

(** ** Descriptors *)

Record MethodDescriptorProto := mkMethodProto {
  m_name : string;
  input_type : string;
  output_type : string;
  get_client_streaming : bool;
  get_server_streaming : bool;
}.

Record ServiceDescriptorProto := mkServiceProto {
  s_name : string;
  get_method : list MethodDescriptorProto;
}.

Record FileDescriptorProto := mkFileProto {
  f_name : string;
  get_package : string;
  get_service : list ServiceDescriptorProto;
}.

Inductive MethodType := MUnary | MClientStreaming | MServerStreaming | MDuplex.

(** [Display for MethodType]. *)
Definition MethodType_fmt (t : MethodType) : string :=
  match t with
  | MUnary => "MethodType::Unary"
  | MClientStreaming => "MethodType::ClientStreaming"
  | MServerStreaming => "MethodType::ServerStreaming"
  | MDuplex => "MethodType::Duplex"
  end.

Definition fq_grpc (item : string) : string := "::grpcio::" +:+ item.

(** The functions on names, on strings. *)
Definition snake (s : string) : string := String.string_of_list_byte (to_snake_case (as_bytes s)).

Definition camel (s : string) : outcome string :=
  let+ t := to_camel_case (as_bytes s) in Done (String.string_of_list_byte t).

Definition to_uppercase (s : string) : string :=
  String.string_of_list_byte (upper <$> as_bytes s).

Record MethodGen := mkMethodGen {
  proto : MethodDescriptorProto;
  service_name : string;
  service_path : string;
}.

Section generator.
(** [root_scope.find_message(..).rust_fq_name()] and [proto_path_to_rust_mod] of the
    protobuf crate. *)
Context (rust_fq_name : string -> string) (proto_path_to_rust_mod : string -> string).

Definition input (self : MethodGen) : string := "super::" +:+ rust_fq_name (input_type (proto self)).

Definition output (self : MethodGen) : string := "super::" +:+ rust_fq_name (output_type (proto self)).

Definition method_type (self : MethodGen) : MethodType * string :=
  match get_client_streaming (proto self), get_server_streaming (proto self) with
  | false, false => (MUnary, fq_grpc "MethodType::Unary")
  | true, false => (MClientStreaming, fq_grpc "MethodType::ClientStreaming")
  | false, true => (MServerStreaming, fq_grpc "MethodType::ServerStreaming")
  | true, true => (MDuplex, fq_grpc "MethodType::Duplex")
  end.

Definition MethodGen_service_name (self : MethodGen) : string := snake (service_name self).

Definition MethodGen_name (self : MethodGen) : string := snake (m_name (proto self)).

(** A double quote. *)
Definition quote : string := String (Ascii.ascii_of_nat 34) "".

Definition fq_name (self : MethodGen) : string :=
  quote +:+ service_path self +:+ "/" +:+ m_name (proto self) +:+ quote.

Definition const_method_name (self : MethodGen) : string :=
  "METHOD_" +:+ to_uppercase (MethodGen_service_name self) +:+ "_" +:+
  to_uppercase (MethodGen_name self).

Definition write_definition (self : MethodGen) : Code :=
  let head := "const " +:+ const_method_name self +:+ ": " +:+ fq_grpc "Method" +:+ "<" +:+
              input self +:+ ", " +:+ output self +:+ "> = " +:+ fq_grpc "Method" +:+ " {" in
  let pb_mar := fq_grpc "Marshaller" +:+ " { ser: " +:+ fq_grpc "pb_ser" +:+ ", de: " +:+
                fq_grpc "pb_de" +:+ " }" in
  block head "};"
    (all [field_entry "ty" (snd (method_type self)); field_entry "name" (fq_name self);
          field_entry "req_mar" pb_mar; field_entry "resp_mar" pb_mar]).

Definition unary (self : MethodGen) (method_name : string) : string :=
  method_name +:+ "(&self, req: &" +:+ input self +:+ ") -> " +:+ fq_grpc "Result" +:+ "<" +:+
  output self +:+ ">".

Definition unary_opt (self : MethodGen) (method_name : string) : string :=
  method_name +:+ "_opt(&self, req: &" +:+ input self +:+ ", opt: " +:+ fq_grpc "CallOption" +:+
  ") -> " +:+ fq_grpc "Result" +:+ "<" +:+ output self +:+ ">".

Definition Codegen_unary_async (self : MethodGen) (method_name : string) : string :=
  method_name +:+ "_async(&self, req: &" +:+ input self +:+ ") -> " +:+ fq_grpc "Result" +:+ "<" +:+
  fq_grpc "ClientUnaryReceiver" +:+ "<" +:+ output self +:+ ">>".

Definition unary_async_opt (self : MethodGen) (method_name : string) : string :=
  method_name +:+ "_async_opt(&self, req: &" +:+ input self +:+ ", opt: " +:+ fq_grpc "CallOption" +:+
  ") -> " +:+ fq_grpc "Result" +:+ "<" +:+ fq_grpc "ClientUnaryReceiver" +:+ "<" +:+
  output self +:+ ">>".

Definition Codegen_client_streaming (self : MethodGen) (method_name : string) : string :=
  method_name +:+ "(&self) -> " +:+ fq_grpc "Result" +:+ "<(" +:+ fq_grpc "ClientCStreamSender" +:+
  "<" +:+ input self +:+ ">, " +:+ fq_grpc "ClientCStreamReceiver" +:+ "<" +:+ output self +:+ ">)>".

Definition client_streaming_opt (self : MethodGen) (method_name : string) : string :=
  method_name +:+ "_opt(&self, opt: " +:+ fq_grpc "CallOption" +:+ ") -> " +:+ fq_grpc "Result" +:+
  "<(" +:+ fq_grpc "ClientCStreamSender" +:+ "<" +:+ input self +:+ ">, " +:+
  fq_grpc "ClientCStreamReceiver" +:+ "<" +:+ output self +:+ ">)>".

Definition Codegen_server_streaming (self : MethodGen) (method_name : string) : string :=
  method_name +:+ "(&self, req: &" +:+ input self +:+ ") -> " +:+ fq_grpc "Result" +:+ "<" +:+
  fq_grpc "ClientSStreamReceiver" +:+ "<" +:+ output self +:+ ">>".

Definition server_streaming_opt (self : MethodGen) (method_name : string) : string :=
  method_name +:+ "_opt(&self, req: &" +:+ input self +:+ ", opt: " +:+ fq_grpc "CallOption" +:+
  ") -> " +:+ fq_grpc "Result" +:+ "<" +:+ fq_grpc "ClientSStreamReceiver" +:+ "<" +:+
  output self +:+ ">>".

Definition Codegen_duplex_streaming (self : MethodGen) (method_name : string) : string :=
  method_name +:+ "(&self) -> " +:+ fq_grpc "Result" +:+ "<(" +:+ fq_grpc "ClientDuplexSender" +:+
  "<" +:+ input self +:+ ">, " +:+ fq_grpc "ClientDuplexReceiver" +:+ "<" +:+ output self +:+ ">)>".

Definition duplex_streaming_opt (self : MethodGen) (method_name : string) : string :=
  method_name +:+ "_opt(&self, opt: " +:+ fq_grpc "CallOption" +:+ ") -> " +:+ fq_grpc "Result" +:+
  "<(" +:+ fq_grpc "ClientDuplexSender" +:+ "<" +:+ input self +:+ ">, " +:+
  fq_grpc "ClientDuplexReceiver" +:+ "<" +:+ output self +:+ ">)>".

(** [MethodGen::write_client]. *)
Definition write_client_method (self : MethodGen) : Code :=
  let method_name := MethodGen_name self in
  let call f args := write_line ("self.client." +:+ f +:+ "(&" +:+ const_method_name self +:+ ", " +:+
                                 args +:+ ")") in
  let default_opt := fq_grpc "CallOption::default()" in
  match fst (method_type self) with
  | MUnary =>
      all [pub_fn (unary_opt self method_name) (call "unary_call" "req, opt"); write_line "";
           pub_fn (unary self method_name)
             (write_line ("self." +:+ method_name +:+ "_opt(req, " +:+ default_opt +:+ ")")); write_line "";
           pub_fn (unary_async_opt self method_name) (call "unary_call_async" "req, opt"); write_line "";
           pub_fn (Codegen_unary_async self method_name)
             (write_line ("self." +:+ method_name +:+ "_async_opt(req, " +:+ default_opt +:+ ")"))]
  | MClientStreaming =>
      all [pub_fn (client_streaming_opt self method_name) (call "client_streaming" "opt"); write_line "";
           pub_fn (Codegen_client_streaming self method_name)
             (write_line ("self." +:+ method_name +:+ "_opt(" +:+ default_opt +:+ ")"))]
  | MServerStreaming =>
      all [pub_fn (server_streaming_opt self method_name) (call "server_streaming" "req, opt");
           write_line "";
           pub_fn (Codegen_server_streaming self method_name)
             (write_line ("self." +:+ method_name +:+ "_opt(req, " +:+ default_opt +:+ ")"))]
  | MDuplex =>
      all [pub_fn (duplex_streaming_opt self method_name) (call "duplex_streaming" "opt"); write_line "";
           pub_fn (Codegen_duplex_streaming self method_name)
             (write_line ("self." +:+ method_name +:+ "_opt(" +:+ default_opt +:+ ")"))]
  end.

(** [MethodGen::write_service]. *)
Definition write_service_method (self : MethodGen) : Code :=
  let req_stream_type := fq_grpc "RequestStream" +:+ "<" +:+ input self +:+ ">" in
  let '(req, req_type, resp_type) :=
    match fst (method_type self) with
    | MUnary => ("req", input self, "UnarySink")
    | MClientStreaming => ("stream", req_stream_type, "ClientStreamingSink")
    | MServerStreaming => ("req", input self, "ServerStreamingSink")
    | MDuplex => ("stream", req_stream_type, "DuplexSink")
    end in
  let sig := MethodGen_name self +:+ "(&mut self, ctx: " +:+ fq_grpc "RpcContext" +:+ ", _" +:+ req +:+
             ": " +:+ req_type +:+ ", sink: " +:+ fq_grpc resp_type +:+ "<" +:+ output self +:+ ">)" in
  fn_block false sig (write_line "grpcio::unimplemented_call!(ctx, sink)").

Definition add_handler_name (t : MethodType) : string :=
  match t with
  | MUnary => "add_unary_handler"
  | MClientStreaming => "add_client_streaming_handler"
  | MServerStreaming => "add_server_streaming_handler"
  | MDuplex => "add_duplex_streaming_handler"
  end.

Definition write_bind (self : MethodGen) : Code :=
  let add := add_handler_name (fst (method_type self)) in
  block ("builder = builder." +:+ add +:+ "(&" +:+ const_method_name self +:+
         ", move |ctx, req, resp| {") "});"
    (write_line ("instance." +:+ MethodGen_name self +:+ "(ctx, req, resp)")).

(** ** Services *)

Record ServiceGen := mkServiceGen {
  sg_service_name : string;
  methods : list MethodGen;
}.

(** [ServiceGen::new]; the camel case name is computed here once. *)
Definition ServiceGen_new (p : ServiceDescriptorProto) (file : FileDescriptorProto) : outcome ServiceGen :=
  let service_path := if bool_decide (get_package file = "") then "/" +:+ s_name p
                      else "/" +:+ get_package file +:+ "." +:+ s_name p in
  let+ n := camel (s_name p) in
  Done (mkServiceGen n ((fun m => mkMethodGen m n service_path) <$> get_method p)).

Definition client_name (self : ServiceGen) : string := sg_service_name self +:+ "Client".

Definition write_client (self : ServiceGen) : Code :=
  all [write_line "#[derive(Clone)]";
       pub_struct (client_name self) (field_decl "client" "::grpcio::Client");
       write_line "";
       impl_self_block (client_name self)
         (all [pub_fn "new(channel: ::grpcio::Channel) -> Self"
                 (expr_block (client_name self) (field_entry "client" "::grpcio::Client::new(channel)"));
               all ((fun m => seqc (write_line "") (write_client_method m)) <$> methods self);
               pub_fn "spawn<F>(&self, f: F) where F: ::futures::Future<Output = ()> + Send + 'static"
                 (write_line "self.client.spawn(f)")])].

(** What [write_server] writes when [last_method] is the last of the methods. *)
Definition server_code (self : ServiceGen) (last_method : MethodGen) : Code :=
  let s := "create_" +:+ snake (sg_service_name self) +:+ "<S: " +:+ sg_service_name self +:+
           " + Send + Clone + 'static>(s: S) -> " +:+ fq_grpc "Service" in
  all
    [pub_trait (sg_service_name self) (all (write_service_method <$> methods self));
     write_line "";
     pub_fn s (all
       [write_line "let mut builder = ::grpcio::ServiceBuilder::new();";
        all ((fun m => seqc (write_line "let mut instance = s.clone();") (write_bind m)) <$>
             take (length (methods self) - 1) (methods self));
        write_line "let mut instance = s;";
        write_bind last_method;
        write_line "builder.build()"])].

(** [ServiceGen::write_server]; the slice before the last method panics when there is none. *)
Definition write_server (self : ServiceGen) : outcome Code :=
  match last (methods self) with
  | None => Panicked "attempt to subtract with overflow"
  | Some last_method => Done (server_code self last_method)
  end.

Definition write_method_definitions (self : ServiceGen) : Code :=
  all (imap (fun i m => seqc (if bool_decide (i <> 0) then write_line "" else nothing)
                          (write_definition m)) (methods self)).

Definition ServiceGen_write (self : ServiceGen) : outcome Code :=
  let+ server := write_server self in
  Done (all [write_method_definitions self; write_line ""; write_client self; write_line ""; server]).

(** [compiler_plugin::GenResult]. *)
Record GenResult := mkGenResult { gr_name : string; content : list string }.

Fixpoint gen_services (services : list ServiceDescriptorProto) (file : FileDescriptorProto) :
    outcome Code :=
  match services with
  | [] => Done nothing
  | service :: services =>
      let+ sg := ServiceGen_new service file in
      let+ code := ServiceGen_write sg in
      let+ rest := gen_services services file in
      Done (all [write_line ""; code; rest])
  end.

Definition gen_file (file : FileDescriptorProto) : outcome (option GenResult) :=
  if bool_decide (get_service file = []) then Done None
  else
    let base := proto_path_to_rust_mod (f_name file) in
    let+ code := gen_services (get_service file) file in
    Done (Some (mkGenResult (base +:+ "_grpc.rs") (seqc write_generated code ""))).

(** [files_map]: of files with the same name the last one counts. *)
Definition files_map (file_descriptors : list FileDescriptorProto) : gmap string FileDescriptorProto :=
  foldl (fun m f => <[f_name f := f]> m) ∅ file_descriptors.

Fixpoint gen_loop (files : gmap string FileDescriptorProto) (files_to_generate : list string)
    (results : list GenResult) : outcome (list GenResult) :=
  match files_to_generate with
  | [] => Done results
  | file_name :: files_to_generate =>
      match files !! file_name with
      | None => Panicked "no entry found for key"
      | Some file =>
          if bool_decide (get_service file = []) then gen_loop files files_to_generate results
          else
            let+ r := gen_file file in
            gen_loop files files_to_generate (results ++ match r with Some r => [r] | None => [] end)
      end
  end.

(** [gen]. *)
Definition gen (file_descriptors : list FileDescriptorProto) (files_to_generate : list string) :
    outcome (list GenResult) :=
  gen_loop (files_map file_descriptors) files_to_generate [].

(** [protoc_gen_grpc_rust_main]: the generator is handed to the plugin library, which reads
    a request and writes the files. *)
Definition protoc_gen_grpc_rust_main {R : Type}
    (plugin_main : (list FileDescriptorProto -> list string -> outcome (list GenResult)) -> R) : R :=
  plugin_main gen.

(** ** Lemmas *)

(** The lines [x] appear in one piece among the lines [y]. *)
Definition within (x y : list string) : Prop := exists pre post, y = pre ++ x ++ post.

#[local] Instance within_trans : Transitive within.
Proof.
  intros x y z (p & q & ->) (p' & q' & ->). exists (p' ++ p), (q ++ q'). by rewrite <-!app_assoc.
Qed.

(** A piece of code among others, after another, and as the body of a block. *)
Lemma within_all (c : Code) cs indent : c ∈ cs -> within (c indent) (all cs indent).
Proof.
  induction cs as [|c' cs IH]; intros Hin; [by apply elem_of_nil in Hin|].
  apply elem_of_cons in Hin as [->|Hin].
  - exists [], (all cs indent). done.
  - destruct (IH Hin) as (pre & post & E). exists (c' indent ++ pre), post.
    simpl. unfold seqc. rewrite E. by rewrite <-!app_assoc.
Qed.

Lemma within_seqc (c1 c2 : Code) indent : within (c2 indent) (seqc c1 c2 indent).
Proof. exists (c1 indent), []. unfold seqc. by rewrite app_nil_r. Qed.

Lemma within_block first_line last_line (cb : Code) indent :
  within (cb (indent +:+ "    ")) (block first_line last_line cb indent).
Proof.
  exists (write_line first_line indent), (write_line last_line indent). unfold block. simpl.
  unfold seqc, indented. simpl. by rewrite app_nil_r.
Qed.

Lemma all_app cs1 cs2 indent : all (cs1 ++ cs2) indent = all cs1 indent ++ all cs2 indent.
Proof.
  induction cs1 as [|c cs1 IH]; [done|]. simpl. unfold seqc. rewrite IH. by rewrite app_assoc.
Qed.

Lemma all_mjoin {A} (f : A -> Code) (l : list A) indent :
  all (f <$> l) indent = mjoin ((fun x => f x indent) <$> l).
Proof. induction l as [|x l IH]; [done|]. rewrite !fmap_cons. cbn [all]. unfold seqc. by rewrite IH. Qed.

(** The lines that bind a method in the [create_*] function. *)
Definition bind_lines (total i : nat) (m : MethodGen) : list string :=
  ("    let mut instance = s" +:+ (if bool_decide (S i = total) then ";" else ".clone();"))
  :: write_bind m "    ".

(** All methods but the last get a clone of the service, the last one the service itself. *)
Lemma bind_all_lines ms m :
  all [all ((fun m => seqc (write_line "let mut instance = s.clone();") (write_bind m)) <$> ms);
       write_line "let mut instance = s;"; write_bind m] "    " =
  mjoin (imap (bind_lines (length (ms ++ [m]))) (ms ++ [m])).
Proof.
  rewrite imap_app. rewrite length_app. cbn [length imap]. rewrite Nat.add_1_r.
  cbn [all]. unfold seqc, nothing. cbn beta. rewrite all_mjoin, app_nil_r, join_app. f_equal.
  - f_equal. apply list_eq. intros i. rewrite list_lookup_fmap, list_lookup_imap.
    destruct (ms !! i) as [x|] eqn:E; [|done]. simpl. unfold bind_lines, seqc.
    apply lookup_lt_Some in E. rewrite bool_decide_eq_false_2 by lia. done.
  - unfold bind_lines. rewrite Nat.add_0_r, bool_decide_eq_true_2 by done.
    change (mjoin [?x]) with (x ++ []). by rewrite app_nil_r.
Qed.
(** The code of a service contains the definition, the client functions and the trait
    function of each method. *)
Lemma within_definitions self m : m ∈ methods self ->
  within (write_definition m "") (write_method_definitions self "").
Proof.
  intros Hm. apply list_elem_of_lookup in Hm as [i Hi].
  etransitivity; [apply (within_seqc (if bool_decide (i <> 0) then write_line "" else nothing))|].
  apply within_all, list_elem_of_lookup. exists i. by rewrite list_lookup_imap, Hi.
Qed.

Lemma within_client self m : m ∈ methods self ->
  within (write_client_method m "    ") (write_client self "").
Proof.
  intros Hm. unfold write_client.
  etransitivity; [|apply within_all; do 3 apply list_elem_of_further; apply list_elem_of_here].
  etransitivity; [|apply within_block].
  etransitivity; [|apply within_all; apply list_elem_of_further, list_elem_of_here].
  etransitivity; [apply (within_seqc (write_line ""))|].
  apply within_all, list_elem_of_fmap. by exists m.
Qed.

Lemma within_server self m code : m ∈ methods self -> write_server self = Done code ->
  within (write_service_method m "    ") (code "").
Proof.
  unfold write_server. intros Hm. destruct (last (methods self)) as [l|]; [|done]. intros [= <-].
  unfold server_code.
  etransitivity; [|apply within_all; apply list_elem_of_here].
  etransitivity; [|apply within_block]. apply within_all, list_elem_of_fmap. by exists m.
Qed.

(** The body of the function that registers the handlers. *)
Lemma within_create self code : write_server self = Done code ->
  within ("    let mut builder = ::grpcio::ServiceBuilder::new();"
          :: mjoin (imap (bind_lines (length (methods self))) (methods self)) ++
          ["    builder.build()"]) (code "").
Proof.
  unfold write_server. destruct (last (methods self)) as [l|] eqn:El; [|done]. intros [= <-].
  unfold server_code.
  etransitivity; [|apply within_all; do 2 apply list_elem_of_further; apply list_elem_of_here].
  etransitivity; [|apply within_block].
  apply last_Some in El as [ms Hms]. rewrite Hms. rewrite <-bind_all_lines.
  rewrite length_app. cbn [length]. rewrite Nat.add_sub, take_app_length.
  exists [], []. rewrite app_nil_r. simpl. unfold seqc, nothing. rewrite !app_nil_r, <-!app_assoc. done.
Qed.

Lemma camel_eq s : last (as_bytes s) <> Some x5f -> exists n, camel s = Done n.
Proof.
  intros Hs. unfold camel. destruct (camel_total (as_bytes s) Hs) as [t ->]. by eexists.
Qed.

(** ** Properties *)

(** The code of a service has one constant per method with the path
    [/package.Service/Method] and the kind of the descriptor, functions of the client and
    of the trait for each, and a [create_*] function that registers every method once, in
    order, under its constant and with the handler of its kind. *)
Theorem codegen_service_complete (p : ServiceDescriptorProto) (file : FileDescriptorProto) :
  get_method p <> [] -> last (as_bytes (s_name p)) <> Some x5f ->
  exists sg code, ServiceGen_new p file = Done sg /\ ServiceGen_write sg = Done code /\
    proto <$> methods sg = get_method p /\
    (forall m, m ∈ methods sg ->
       (get_package file = "" -> service_path m = "/" +:+ s_name p) /\
       (get_package file <> "" -> service_path m = "/" +:+ get_package file +:+ "." +:+ s_name p) /\
       within (write_definition m "") (code "") /\
       within (write_client_method m "    ") (code "") /\
       within (write_service_method m "    ") (code "")) /\
    within ("    let mut builder = ::grpcio::ServiceBuilder::new();"
            :: mjoin (imap (bind_lines (length (methods sg))) (methods sg)) ++
            ["    builder.build()"]) (code "").
Proof.
  intros Hne Hs. unfold ServiceGen_new. destruct (camel_eq _ Hs) as [n ->]. cbn [obind].
  set (sg := mkServiceGen n _).
  assert (exists c, write_server sg = Done c) as [c Hc].
  { unfold write_server. destruct (last (methods sg)) as [l|] eqn:E; [by eexists|].
    apply last_None in E. unfold sg in E. simpl in E. by apply fmap_nil_inv in E. }
  eexists sg, _. split; [done|]. unfold ServiceGen_write. rewrite Hc. cbn [obind]. split; [reflexivity|].
  split; [unfold sg; simpl; rewrite <-list_fmap_compose;
    transitivity (id <$> get_method p); [by apply list_fmap_ext|apply list_fmap_id]|]. split.
  - intros m Hm. assert (service_path m = if bool_decide (get_package file = "") then "/" +:+ s_name p
      else "/" +:+ get_package file +:+ "." +:+ s_name p) as ->.
    { unfold sg in Hm. by apply list_elem_of_fmap in Hm as (x & -> & _). }
    split; [intros H; by rewrite bool_decide_eq_true_2|].
    split; [intros H; by rewrite bool_decide_eq_false_2|]. split; [|split].
    + etransitivity; [by apply within_definitions|]. apply within_all, list_elem_of_here.
    + etransitivity; [by apply within_client|]. apply within_all.
      do 2 apply list_elem_of_further. apply list_elem_of_here.
    + etransitivity; [by eapply within_server|]. apply within_all.
      do 4 apply list_elem_of_further. apply list_elem_of_here.
  - etransitivity; [by apply (within_create sg c)|]. apply within_all.
    do 4 apply list_elem_of_further. apply list_elem_of_here.
Qed.

(** A service without methods makes the generator panic. *)
Theorem codegen_empty_service (p : ServiceDescriptorProto) (file : FileDescriptorProto) :
  get_method p = [] -> get_service file = [p] -> exists m, gen_file file = Panicked m.
Proof.
  intros Hm Hf. unfold gen_file. rewrite Hf. simpl. unfold ServiceGen_new.
  destruct (camel (s_name p)) as [n|m]; simpl; [|by eexists]. rewrite Hm. simpl. by eexists.
Qed.
End generator.

(** ** Witnesses *)

Definition demo_service : ServiceDescriptorProto :=
  mkServiceProto "Greeter" [mkMethodProto "SayHello" "A" "B" false false;
                            mkMethodProto "Chat" "A" "B" true true].

Lemma codegen_service_complete_witness :
  exists sg code, ServiceGen_new demo_service (mkFileProto "f.proto" "pkg" [demo_service]) = Done sg /\
    ServiceGen_write id sg = Done code.
Proof.
  destruct (codegen_service_complete id demo_service (mkFileProto "f.proto" "pkg" [demo_service]))
    as (sg & code & E1 & E2 & _).
  - discriminate.
  - vm_compute. discriminate.
  - exists sg, code. split; [exact E1 | exact E2].
Defined.
