(* ===== verification/ProstCodegen.v ===== *)
(** The code generator for prost services (compiler/src/prost_codegen.rs): a generator of the
    text of a service, and the programs around it.

    The functions of the source append to a [String]; here they are programs over the
    buffer, so that a slice out of range is a panic. *)

From stdpp Require Import sorting.
From S2P Require Import Prelude Names Codegen.

Local Open Scope rust_scope.
Local Open Scope string_scope.

(** A line feed. *)
Definition newline : string := String (Ascii.ascii_of_nat 10) "".

(** ** The buffer *)

Abbreviation Gen := (M string unit).

Definition push_str (s : string) : Gen := modify (fun buf => buf +:+ s).

(** Push pieces one after another. *)
Fixpoint push_all (l : list string) : Gen :=
  match l with
  | [] => ret tt
  | s :: l => do* push_str s in push_all l
  end.

(** A [for] loop. *)
Fixpoint for_each {A : Type} (l : list A) (body : A -> Gen) : Gen :=
  match l with
  | [] => ret tt
  | x :: l => do* body x in for_each l body
  end.

(** ** prost_build's description of a service *)

Record Method := mkMethod {
  pm_name : string;
  pm_proto_name : string;
  pm_input_type : string;
  pm_output_type : string;
  pm_client_streaming : bool;
  pm_server_streaming : bool;
}.

Record Service := mkService {
  ps_name : string;
  ps_proto_name : string;
  ps_package : string;
  ps_methods : list Method;
}.

(** ** Method constants *)

Definition MethodType_from_method (method : Method) : MethodType :=
  match pm_client_streaming method, pm_server_streaming method with
  | false, false => MUnary
  | true, false => MClientStreaming
  | false, true => MServerStreaming
  | true, true => MDuplex
  end.

Definition prost_const_method_name (service_name : string) (method : Method) : string :=
  "METHOD_" +:+ to_uppercase (snake service_name) +:+ "_" +:+ to_uppercase (pm_name method).

Definition generate_field_init (name value : string) : Gen := push_all [name; ": "; value; ", "].

Definition method_path (service_path : string) (method : Method) : string :=
  quote +:+ service_path +:+ "/" +:+ pm_proto_name method +:+ quote.

Definition generate_method_body (service_path : string) (method : Method) : Gen :=
  let ty := fq_grpc (MethodType_fmt (MethodType_from_method method)) in
  let pr_mar := fq_grpc "Marshaller" +:+ " { ser: " +:+ fq_grpc "pr_ser" +:+ ", de: " +:+
                fq_grpc "pr_de" +:+ " }" in
  do* push_str (fq_grpc "Method") in
  do* push_str "{" in
  do* generate_field_init "ty" ty in
  do* generate_field_init "name" (method_path service_path method) in
  do* generate_field_init "req_mar" pr_mar in
  do* generate_field_init "resp_mar" pr_mar in
  push_str ("};" +:+ newline).

Definition generate_method (service_name service_path : string) (method : Method) : Gen :=
  let name := prost_const_method_name service_name method in
  let ty := fq_grpc "Method" +:+ "<" +:+ pm_input_type method +:+ ", " +:+ pm_output_type method +:+ ">" in
  do* push_all ["const "; name; ": "; ty; " = "] in
  generate_method_body service_path method.

Definition prost_service_path (service : Service) : string :=
  if bool_decide (ps_package service = "") then "/" +:+ ps_proto_name service
  else "/" +:+ ps_package service +:+ "." +:+ ps_proto_name service.

Definition generate_methods (service : Service) : Gen :=
  let service_path := prost_service_path service in
  for_each (ps_methods service) (generate_method (ps_name service) service_path).

(** ** The client *)

Definition generate_ctor (client_name : string) : Gen :=
  push_all ["pub fn new(channel: ::grpcio::Channel) -> Self { "; client_name;
            " { client: ::grpcio::Client::new(channel) }"; "}" +:+ newline].

Record ClientMethod := mkClientMethod {
  cm_method_name : string;
  cm_opt : bool;
  cm_request : option string;
  cm_async : bool;
  cm_result_types : list string;
  cm_inner_method_name : string;
  cm_data_name : string;
}.

Definition push_if (b : bool) (s : string) : Gen := if b then push_str s else ret tt.

(** The method delegates to the [_opt] version of the method. *)
Definition generate_opt_body (self : ClientMethod) : Gen :=
  do* push_str "self." in
  do* push_str (cm_method_name self) in
  do* push_if (cm_async self) "_async" in
  do* push_str "_opt(" in
  do* push_if (bool_decide (is_Some (cm_request self))) "req, " in
  do* push_str (fq_grpc "CallOption::default()") in
  push_str ")".

(** The method delegates to the inner client. *)
Definition generate_inner_body (self : ClientMethod) : Gen :=
  do* push_str "self.client." in
  do* push_str (cm_inner_method_name self) in
  do* push_if (cm_async self) "_async" in
  do* push_str "(&" in
  do* push_str (cm_data_name self) in
  do* push_if (bool_decide (is_Some (cm_request self))) ", req" in
  push_str ", opt)".

Definition ClientMethod_generate (self : ClientMethod) : Gen :=
  do* push_str "pub fn " in
  do* push_str (cm_method_name self) in
  do* push_if (cm_async self) "_async" in
  do* push_if (cm_opt self) "_opt" in
  do* push_str "(&self" in
  do* match cm_request self with
      | Some req => push_all [", req: &"; req]
      | None => ret tt
      end in
  do* if cm_opt self then push_all [", opt: "; fq_grpc "CallOption"] else ret tt in
  do* push_str ") -> " in
  do* push_str (fq_grpc "Result") in
  do* push_str "<" in
  do* push_if (negb (bool_decide (length (cm_result_types self) = 1))) "(" in
  do* for_each (cm_result_types self) (fun rt => push_all [rt; ","]) in
  do* push_if (negb (bool_decide (length (cm_result_types self) = 1))) ")" in
  do* push_str "> { " in
  do* if cm_opt self then generate_inner_body self else generate_opt_body self in
  push_str (" }" +:+ newline).

(** The client functions of a method, in order. *)
Definition client_methods (service_name : string) (method : Method) : list ClientMethod :=
  let name := "METHOD_" +:+ to_uppercase (snake service_name) +:+ "_" +:+ to_uppercase (pm_name method) in
  let typ t arg := fq_grpc t +:+ "<" +:+ arg +:+ ">" in
  let req := Some (pm_input_type method) in
  match MethodType_from_method method with
  | MUnary =>
      [mkClientMethod (pm_name method) true req false [pm_output_type method] "unary_call" name;
       mkClientMethod (pm_name method) false req false [pm_output_type method] "unary_call" name;
       mkClientMethod (pm_name method) true req true [typ "ClientUnaryReceiver" (pm_output_type method)]
         "unary_call" name;
       mkClientMethod (pm_name method) false req true [typ "ClientUnaryReceiver" (pm_output_type method)]
         "unary_call" name]
  | MClientStreaming =>
      let results := [typ "ClientCStreamSender" (pm_input_type method);
                      typ "ClientCStreamReceiver" (pm_output_type method)] in
      [mkClientMethod (pm_name method) true None false results "client_streaming" name;
       mkClientMethod (pm_name method) false None false results "client_streaming" name]
  | MServerStreaming =>
      let results := [typ "ClientSStreamReceiver" (pm_output_type method)] in
      [mkClientMethod (pm_name method) true req false results "server_streaming" name;
       mkClientMethod (pm_name method) false req false results "server_streaming" name]
  | MDuplex =>
      let results := [typ "ClientDuplexSender" (pm_input_type method);
                      typ "ClientDuplexReceiver" (pm_output_type method)] in
      [mkClientMethod (pm_name method) true None false results "duplex_streaming" name;
       mkClientMethod (pm_name method) false None false results "duplex_streaming" name]
  end.

Definition generate_client_method (service_name : string) (method : Method) : Gen :=
  for_each (client_methods service_name method) ClientMethod_generate.

Definition generate_client_methods (service : Service) : Gen :=
  for_each (ps_methods service) (generate_client_method (ps_name service)).

Definition generate_spawn : Gen :=
  push_str ("pub fn spawn<F>(&self, f: F) " +:+
            "where F: ::futures::Future<Output = ()> + Send + 'static {" +:+
            "self.client.spawn(f)" +:+ "}" +:+ newline).

Definition generate_client (service : Service) : Gen :=
  let client_name := ps_name service +:+ "Client" in
  do* push_str ("#[derive(Clone)]" +:+ newline) in
  do* push_all ["pub struct "; client_name; " { client: ::grpcio::Client }" +:+ newline] in
  do* push_all ["impl "; client_name; " {" +:+ newline] in
  do* generate_ctor client_name in
  do* generate_client_methods service in
  do* generate_spawn in
  push_str ("}" +:+ newline).

(** ** The server *)

Definition generate_server_method (method : Method) (request_arg response_type : string) : Gen :=
  push_all ["fn "; pm_name method; "(&mut self, ctx: "; fq_grpc "RpcContext"; ", _"; request_arg;
            ", sink: "; fq_grpc response_type; "<"; pm_output_type method; ">";
            ") { grpcio::unimplemented_call!(ctx, sink) }" +:+ newline].

Definition generate_server_methods (service : Service) : Gen :=
  for_each (ps_methods service) (fun method =>
    let method_type := MethodType_from_method method in
    let request_arg :=
      match method_type with
      | MUnary | MServerStreaming => "req: " +:+ pm_input_type method
      | MClientStreaming | MDuplex =>
          "stream: " +:+ fq_grpc "RequestStream" +:+ "<" +:+ pm_input_type method +:+ ">"
      end in
    let response_type :=
      match method_type with
      | MUnary => "UnarySink"
      | MClientStreaming => "ClientStreamingSink"
      | MServerStreaming => "ServerStreamingSink"
      | MDuplex => "DuplexSink"
      end in
    generate_server_method method request_arg response_type).

Definition generate_method_bind (service_name : string) (method : Method) : Gen :=
  let add_name :=
    match MethodType_from_method method with
    | MUnary => "add_unary_handler"
    | MClientStreaming => "add_client_streaming_handler"
    | MServerStreaming => "add_server_streaming_handler"
    | MDuplex => "add_duplex_streaming_handler"
    end in
  push_all ["builder = builder."; add_name; "(&"; prost_const_method_name service_name method;
            ", move |ctx, req, resp| instance."; pm_name method; "(ctx, req, resp));" +:+ newline].

(** The slice of all methods but the last, and the last one: both subtract one from the
    number of methods. *)
Definition but_last (methods : list Method) : M string (list Method * Method) :=
  match last methods with
  | None => panic "attempt to subtract with overflow"
  | Some m => ret (take (length methods - 1) methods, m)
  end.

Definition generate_server (service : Service) : Gen :=
  do* push_all ["pub trait "; ps_name service; " {" +:+ newline] in
  do* generate_server_methods service in
  do* push_str ("}" +:+ newline) in
  do* push_all ["pub fn create_"; snake (ps_name service); "<S: "; ps_name service;
                " + Send + Clone + 'static>(s: S) -> "; fq_grpc "Service"; " {" +:+ newline] in
  do* push_str ("let mut builder = ::grpcio::ServiceBuilder::new();" +:+ newline) in
  let* (init, last_method) := but_last (ps_methods service) in
  do* for_each init (fun method =>
        do* push_str ("let mut instance = s.clone();" +:+ newline) in
        generate_method_bind (ps_name service) method) in
  do* push_str ("let mut instance = s;" +:+ newline) in
  do* generate_method_bind (ps_name service) last_method in
  do* push_str ("builder.build()" +:+ newline) in
  push_str ("}" +:+ newline).

(** [Generator::generate]. *)
Definition Generator_generate (service : Service) : Gen :=
  do* generate_methods service in
  do* generate_client service in
  generate_server service.

(** ** The programs *)

(** [str::strip_prefix] and [str::split] on a character. *)
Fixpoint strip_prefix (p s : string) : option string :=
  match p, s with
  | "", s => Some s
  | String a p, String b s => if bool_decide (a = b) then strip_prefix p s else None
  | String _ _, "" => None
  end.

Fixpoint split (c : Ascii.ascii) (s : string) : list string :=
  match s with
  | "" => [""]
  | String a s =>
      if bool_decide (a = c) then "" :: split c s
      else match split c s with
           | w :: ws => String a w :: ws
           | [] => [String a ""]
           end
  end.

Definition comma : Ascii.ascii := Ascii.ascii_of_nat 44.

Record Args := mkArgs { a_protos : list string; a_includes : list string; a_out_dir : string }.

Definition parse_arg (self : Args) (arg : string) : Args :=
  match strip_prefix "--protos=" arg with
  | Some value => mkArgs (a_protos self ++ split comma value) (a_includes self) (a_out_dir self)
  | None =>
      match strip_prefix "--includes=" arg with
      | Some value => mkArgs (a_protos self) (a_includes self ++ split comma value) (a_out_dir self)
      | None =>
          match strip_prefix "--out-dir=" arg with
          | Some value => mkArgs (a_protos self) (a_includes self) value
          | None => self
          end
      end
  end.

(** The order of strings: that of their bytes. *)
Fixpoint bytes_le (s t : list byte) : bool :=
  match s, t with
  | [], _ => true
  | _ :: _, [] => false
  | a :: s, b :: t =>
      if bool_decide (a = b) then bytes_le s t else N.leb (Byte.to_N a) (Byte.to_N b)
  end.

Definition string_le (s t : string) : Prop := bytes_le (as_bytes s) (as_bytes t) = true.

#[export] Instance string_le_dec : RelDecision string_le.
Proof. intros s t. unfold string_le. apply _. Defined.

(** [Vec::dedup]: drop consecutive repetitions. *)
Fixpoint dedup (l : list string) : list string :=
  match l with
  | [] => []
  | x :: l' => match l' with
               | y :: _ => if bool_decide (x = y) then dedup l' else x :: dedup l'
               | [] => [x]
               end
  end.

Section programs.
(** The path of the descriptor set and of the includes of protoc; what running protoc gives
    (success and what it wrote to stderr), the packages of the files of the set it wrote, and
    [Config::compile_protos] with the generator of this file. *)
Context (descriptor_set protoc_include : string).
Context (run_protoc : list string -> Result string (bool * string)).
Context (decode_set : Result string (list (option string))).
Context (prost_compile : list string -> list string -> string -> Result string unit).

Definition protoc_args (protos includes : list string) : list string :=
  ["--include_imports"; "--include_source_info"; "-o"; descriptor_set] ++
  mjoin ((fun i => ["-I"; i]) <$> includes) ++ ["-I"; protoc_include] ++ protos.

Definition compile_protos (protos includes : list string) (out_dir : string) : Result string (list string) :=
  match run_protoc (protoc_args protos includes) with
  | Err e => Err e
  | Ok (false, stderr) => Err ("protoc failed: " +:+ stderr)
  | Ok (true, _) =>
      match decode_set with
      | Err e => Err e
      | Ok files =>
          let packages := omap id files in
          let packages := dedup (merge_sort string_le packages) in
          match prost_compile protos includes out_dir with
          | Err e => Err e
          | Ok _ => Ok packages
          end
      end
  end.

(** [protoc_gen_grpc_rust_main] of the arguments of the program. *)
Definition protoc_gen_grpc_rust_main (args : list string) : outcome unit :=
  let a := foldl parse_arg (mkArgs [] [] "") (drop 1 args) in
  if bool_decide (a_protos a = []) then Panicked "should at least specify protos to generate"
  else match compile_protos (a_protos a) (a_includes a) (a_out_dir a) with
       | Ok _ => Done tt
       | Err _ => Panicked "called `Result::unwrap()` on an `Err` value"
       end.

(** ** Packages *)

Lemma bytes_le_refl s : bytes_le s s = true.
Proof. induction s as [|a s IH]; simpl; [done|]. by rewrite bool_decide_eq_true_2. Qed.

Lemma to_N_inj a b : Byte.to_N a = Byte.to_N b -> a = b.
Proof. intros E. apply (f_equal Byte.of_N) in E. rewrite !Byte.of_to_N in E. congruence. Qed.

Lemma bytes_le_total s t : bytes_le s t = true \/ bytes_le t s = true.
Proof.
  revert t. induction s as [|a s IH]; intros [|b t]; simpl; auto.
  destruct (decide (a = b)) as [->|Hne]; [rewrite !bool_decide_eq_true_2 by done; apply IH|].
  rewrite !bool_decide_eq_false_2 by done. destruct (N.le_ge_cases (Byte.to_N a) (Byte.to_N b));
    [left|right]; by apply N.leb_le.
Qed.

Lemma bytes_le_antisym s t : bytes_le s t = true -> bytes_le t s = true -> s = t.
Proof.
  revert t. induction s as [|a s IH]; intros [|b t]; simpl; auto; try done.
  destruct (decide (a = b)) as [->|Hne]; [rewrite !bool_decide_eq_true_2 by done; intros; f_equal; auto|].
  rewrite !bool_decide_eq_false_2 by done. intros H1%N.leb_le H2%N.leb_le.
  destruct Hne. apply to_N_inj. lia.
Qed.

Lemma bytes_le_trans s t u : bytes_le s t = true -> bytes_le t u = true -> bytes_le s u = true.
Proof.
  revert t u. induction s as [|a s IH]; intros [|b t] [|c u]; simpl; auto; try done.
  destruct (decide (a = b)) as [->|Hab]; destruct (decide (b = c)) as [->|Hbc];
    rewrite ?(bool_decide_eq_true_2 _ eq_refl), ?(bool_decide_eq_false_2 (_ = _)) by done;
    try done; [apply IH|].
  intros H1%N.leb_le H2%N.leb_le. destruct (decide (a = c)) as [->|Hac].
  - destruct Hab. apply to_N_inj. lia.
  - rewrite bool_decide_eq_false_2 by done. apply N.leb_le. lia.
Qed.

#[local] Instance string_le_trans : Transitive string_le.
Proof. intros s t u. apply bytes_le_trans. Qed.

#[local] Instance string_le_total : Total string_le.
Proof. intros s t. apply bytes_le_total. Qed.

Lemma as_bytes_inj s t : as_bytes s = as_bytes t -> s = t.
Proof.
  intros E. apply (f_equal String.string_of_list_byte) in E.
  by rewrite !String.string_of_list_byte_of_string in E.
Qed.

(** Removing the repetitions of a sorted list leaves each element once. *)
Lemma dedup_sorted l : StronglySorted string_le l ->
  NoDup (dedup l) /\ (forall x, x ∈ dedup l <-> x ∈ l) /\ StronglySorted string_le (dedup l).
Proof.
  induction l as [|x l IH]; intros Hs; [split; [constructor|split; [done|constructor]]|].
  apply StronglySorted_inv in Hs as [Hs Hx]. destruct (IH Hs) as (Hn & Hin & Hss).
  destruct l as [|y l].
  - simpl. split; [apply NoDup_singleton|]. split; [done|]. by repeat constructor.
  - change (dedup (x :: y :: l)) with
      (if bool_decide (x = y) then dedup (y :: l) else x :: dedup (y :: l)).
    case_bool_decide as Exy.
    + subst y. split; [done|]. split; [|done]. intros z. rewrite Hin, !elem_of_cons. tauto.
    + split; [|split].
      * constructor; [|done]. rewrite Hin. intros [->|Hxl]%elem_of_cons; [done|].
        apply Exy, as_bytes_inj, bytes_le_antisym.
        -- by apply Forall_cons in Hx as [? _].
        -- apply StronglySorted_inv in Hs as [_ Hy]. by eapply Forall_forall in Hy.
      * intros z. rewrite !elem_of_cons, Hin, elem_of_cons. done.
      * constructor; [done|]. apply Forall_forall. intros z Hz. rewrite Hin in Hz.
        by eapply Forall_forall in Hx.
Qed.

(** The packages returned: those of the files, each once and in the order of strings; what
    protoc wrote when it fails. *)
Theorem compile_protos_packages (protos includes : list string) (out_dir : string) :
  match compile_protos protos includes out_dir with
  | Ok packages => exists files, decode_set = Ok files /\ NoDup packages /\
      (forall p, p ∈ packages <-> Some p ∈ files) /\ StronglySorted string_le packages
  | Err e => (exists stderr, run_protoc (protoc_args protos includes) = Ok (false, stderr) /\
                e = "protoc failed: " +:+ stderr) \/
             run_protoc (protoc_args protos includes) = Err e \/ decode_set = Err e \/
             prost_compile protos includes out_dir = Err e
  end.
Proof.
  unfold compile_protos. destruct (run_protoc _) as [[[] stderr]|e]; [|by left; eexists|by auto].
  destruct decode_set as [files|e]; [|by auto].
  destruct (prost_compile _ _ _) as [u|e]; [|by auto]. exists files. split; [done|].
  destruct (dedup_sorted (merge_sort string_le (omap id files))) as (Hn & Hin & Hs).
  { apply Sorted_StronglySorted, Sorted_merge_sort; apply _. }
  split; [done|]. split; [|done]. intros p. rewrite Hin, merge_sort_Permutation, list_elem_of_omap.
  split; [by intros (o & Ho & <-)|]. intros Hp. by exists (Some p).
Qed.
End programs.

(** ** What a generator appends *)

(** The text a generator writes into an empty buffer, and that it writes it into any. *)
Definition text (g : Gen) : string := match g "" with Done (_, s) => s | Panicked _ => "" end.

Definition appends (g : Gen) : Prop := forall buf, g buf = Done (tt, buf +:+ text g).

Definition sconcat (l : list string) : string := foldr String.append "" l.

Lemma sapp_assoc (a b c : string) : a +:+ b +:+ c = (a +:+ b) +:+ c.
Proof.
  induction a as [|x a IH]; [done|].
  change (String x (a +:+ b +:+ c) = String x ((a +:+ b) +:+ c)). by rewrite IH.
Qed.

Lemma sapp_nil (a : string) : a +:+ "" = a.
Proof. induction a as [|x a IH]; [done|]. change (String x (a +:+ "") = String x a). by rewrite IH. Qed.

Lemma push_appends s : appends (push_str s).
Proof. by intros buf. Qed.

Lemma ret_appends : appends (ret tt).
Proof. intros buf. unfold text. simpl. by rewrite sapp_nil. Qed.

Lemma bind_text_eq g1 g2 buf :
  appends g1 -> appends g2 -> bind g1 (fun _ => g2) buf = Done (tt, buf +:+ text g1 +:+ text g2).
Proof. intros H1 H2. unfold bind. by rewrite H1, H2, sapp_assoc. Qed.

Lemma text_bind g1 g2 :
  appends g1 -> appends g2 -> text (bind g1 (fun _ => g2)) = text g1 +:+ text g2.
Proof. intros H1 H2. unfold text at 1. by rewrite bind_text_eq. Qed.

Lemma bind_appends g1 g2 : appends g1 -> appends g2 -> appends (bind g1 (fun _ => g2)).
Proof. intros H1 H2 buf. by rewrite bind_text_eq, text_bind. Qed.

Create HintDb appends.
#[local] Hint Resolve push_appends ret_appends bind_appends : appends.

Lemma all_appends l : appends (push_all l).
Proof. induction l; simpl; auto with appends. Qed.

Lemma text_all l : text (push_all l) = sconcat l.
Proof.
  induction l as [|s l IH]; [done|]. simpl. rewrite text_bind by auto using all_appends with appends.
  by rewrite IH.
Qed.

Lemma for_appends {A} (l : list A) (body : A -> Gen) :
  (forall x, appends (body x)) -> appends (for_each l body).
Proof. intros Hb. induction l; simpl; auto with appends. Qed.

Lemma text_for {A} (l : list A) (body : A -> Gen) :
  (forall x, appends (body x)) -> text (for_each l body) = sconcat ((fun x => text (body x)) <$> l).
Proof.
  intros Hb. induction l as [|x l IH]; [done|]. simpl. rewrite text_bind by auto using for_appends.
  by rewrite IH.
Qed.

#[local] Hint Resolve all_appends for_appends : appends.

(** Proves that code appends, case by case. *)
Ltac appending :=
  repeat first
    [ solve [auto with appends] | apply bind_appends
    | apply for_appends; intros ?
    | match goal with |- appends (match ?x with _ => _ end) => destruct x end ].

Lemma method_appends name path m : appends (generate_method name path m).
Proof. unfold generate_method, generate_method_body, generate_field_init. appending. Qed.

Lemma client_method_appends cm : appends (ClientMethod_generate cm).
Proof.
  unfold ClientMethod_generate, push_if, generate_inner_body, generate_opt_body, push_if. appending.
Qed.

#[local] Hint Resolve client_method_appends : appends.

Lemma client_appends s : appends (generate_client s).
Proof.
  unfold generate_client, generate_ctor, generate_client_methods, generate_client_method, generate_spawn.
  appending.
Qed.

Lemma server_methods_appends s : appends (generate_server_methods s).
Proof. apply for_appends. intros m. unfold generate_server_method. appending. Qed.

(** ** Properties *)

(** The lines that bind the [i]-th of [total] methods. *)
Definition bind_text (name : string) (total i : nat) (m : Method) : string :=
  "let mut instance = s" +:+ (if bool_decide (S i = total) then ";" else ".clone();") +:+ newline +:+
  text (generate_method_bind name m).

Lemma sconcat_app l1 l2 : sconcat (l1 ++ l2)%list = sconcat l1 +:+ sconcat l2.
Proof. induction l1 as [|x l1 IH]; [done|]. simpl. by rewrite IH, sapp_assoc. Qed.

Lemma bind_all_text name ms m :
  text (for_each ms (fun method =>
    do* push_str ("let mut instance = s.clone();" +:+ newline) in generate_method_bind name method)) +:+
  ("let mut instance = s;" +:+ newline) +:+ text (generate_method_bind name m) =
  sconcat (imap (bind_text name (length (ms ++ [m])%list)) (ms ++ [m])%list).
Proof.
  rewrite text_for by (intros; appending). rewrite imap_app, sconcat_app. f_equal.
  - f_equal. apply list_eq. intros i. rewrite list_lookup_fmap, list_lookup_imap.
    destruct (ms !! i) as [x|] eqn:E; [|done]. simpl. f_equal. rewrite text_bind by appending.
    unfold bind_text. apply lookup_lt_Some in E. rewrite length_app. simpl.
    rewrite bool_decide_eq_false_2 by lia. done.
  - simpl. unfold bind_text. rewrite length_app. simpl. rewrite bool_decide_eq_true_2 by lia.
    by rewrite sapp_nil.
Qed.

Lemma methods_appends s : appends (generate_methods s).
Proof. apply for_appends. intros m. apply method_appends. Qed.

#[local] Hint Resolve server_methods_appends : appends.

Lemma server_text s ms m :
  ps_methods s = (ms ++ [m])%list ->
  let name := ps_name s in
  appends (generate_server s) /\
  text (generate_server s) =
     "pub trait " +:+ name +:+ " {" +:+ newline +:+ text (generate_server_methods s) +:+ "}" +:+ newline +:+
     "pub fn create_" +:+ snake name +:+ "<S: " +:+ name +:+ " + Send + Clone + 'static>(s: S) -> " +:+
     fq_grpc "Service" +:+ " {" +:+ newline +:+
     "let mut builder = ::grpcio::ServiceBuilder::new();" +:+ newline +:+
     sconcat (imap (bind_text name (length (ms ++ [m])%list)) (ms ++ [m])%list) +:+
     "builder.build()" +:+ newline +:+ "}" +:+ newline.
Proof.
  intros Hms name.
  assert (but_last (ps_methods s) = ret (ms, m)) as Hl.
  { unfold but_last. rewrite Hms, last_snoc, length_app. simpl. by rewrite Nat.add_sub, take_app_length. }
  unfold generate_server. rewrite Hl. set (body := fun method : Method =>
    do* push_str ("let mut instance = s.clone();" +:+ newline) in
    generate_method_bind (ps_name s) method).
  change (bind (ret (ms, m)) ?k) with (k (ms, m)). cbv beta iota.
  assert (forall x, appends (body x)) as Hb by (intros x; unfold body; appending).
  split; [appending|].
  rewrite !text_bind by appending. rewrite !text_all. unfold body. rewrite <-(bind_all_text name ms m).
  unfold name. cbn [sconcat foldr]. rewrite !sapp_nil, <-!sapp_assoc. done.
Qed.

(** The text of a service: it is appended to the buffer as a whole, the constants of the
    methods in order, then the client, then the trait with a function for each method, then
    the [create_*] function, which binds every method once, in order, each with a clone of
    the service and the last with the service itself; a service without methods is a panic. *)
Theorem prost_service_text (s : Service) (buf : string) :
  let name := ps_name s in
  let total := length (ps_methods s) in
  (ps_methods s <> [] ->
   Generator_generate s buf = Done (tt, buf +:+
     sconcat ((fun m => text (generate_method name (prost_service_path s) m)) <$> ps_methods s) +:+
     text (generate_client s) +:+
     "pub trait " +:+ name +:+ " {" +:+ newline +:+ text (generate_server_methods s) +:+ "}" +:+ newline +:+
     "pub fn create_" +:+ snake name +:+ "<S: " +:+ name +:+ " + Send + Clone + 'static>(s: S) -> " +:+
     fq_grpc "Service" +:+ " {" +:+ newline +:+
     "let mut builder = ::grpcio::ServiceBuilder::new();" +:+ newline +:+
     sconcat (imap (bind_text name total) (ps_methods s)) +:+
     "builder.build()" +:+ newline +:+ "}" +:+ newline)) /\
  (ps_methods s = [] -> exists msg, Generator_generate s buf = Panicked msg).
Proof.
  intros name total. split.
  - intros [ms [m Hms]]%exists_last. unfold Generator_generate.
    rewrite (bind_text_eq _ _ _ (methods_appends s)).
    2: { apply bind_appends; [apply client_appends|]. apply (server_text s ms m Hms). }
    rewrite text_bind by (apply client_appends || by apply (server_text s ms m Hms)).
    destruct (server_text s ms m Hms) as [_ ->]. unfold generate_methods.
    rewrite text_for by (intros; apply method_appends).
    unfold name, total. by rewrite Hms.
  - intros Hms. unfold Generator_generate. unfold bind at 1. rewrite methods_appends.
    unfold bind at 1. rewrite client_appends. unfold generate_server.
    repeat (unfold bind at 1; rewrite ?all_appends, ?server_methods_appends, ?push_appends).
    rewrite Hms. by eexists.
Qed.

(** How prost_build describes the service [p] of a file that the other generator knows as
    [sg]: the methods with their names in snake case, the type names resolved. *)
Definition describes (s : Service) (p : ServiceDescriptorProto) (file : FileDescriptorProto)
    (sg : ServiceGen) : Prop :=
  ServiceGen_new p file = Done sg /\ ps_name s = sg_service_name sg /\ ps_proto_name s = s_name p /\
  ps_package s = get_package file /\
  Forall2 (fun m d => pm_proto_name m = m_name d /\ pm_name m = snake (m_name d) /\
                      pm_client_streaming m = get_client_streaming d /\
                      pm_server_streaming m = get_server_streaming d) (ps_methods s) (get_method p).

Lemma inner_body_text cm : text (generate_inner_body cm) =
  "self.client." +:+ cm_inner_method_name cm +:+ (if cm_async cm then "_async" else "") +:+ "(&" +:+
  cm_data_name cm +:+ (if cm_request cm is Some _ then ", req" else "") +:+ ", opt)".
Proof.
  unfold generate_inner_body, push_if. destruct (cm_async cm), (cm_request cm); cbn [bool_decide];
    rewrite !text_bind by appending; done.
Qed.

(** What the two generators write about a method, [m] for one and [g] for the other: the
    constant, its registration, and the calls of the client. *)
Definition same_method (rust_fq_name : string -> string) (s : Service) (m : Method) (g : MethodGen) : Prop :=
  exists const ty path add fn types rest types' rest',
    text (generate_method (ps_name s) (prost_service_path s) m) =
      "const " +:+ const +:+ ": " +:+ types +:+ " = ::grpcio::Method{ty: " +:+ ty +:+ ", name: " +:+ path +:+ rest /\
    write_definition rust_fq_name g "" =
      (["const " +:+ const +:+ ": " +:+ types'; "    ty: " +:+ ty +:+ ","; "    name: " +:+ path +:+ ","] ++ rest')%list /\
    text (generate_method_bind (ps_name s) m) =
      "builder = builder." +:+ add +:+ "(&" +:+ const +:+ ", move |ctx, req, resp| instance." +:+ fn +:+
      "(ctx, req, resp));" +:+ newline /\
    write_bind g "" =
      ["builder = builder." +:+ add +:+ "(&" +:+ const +:+ ", move |ctx, req, resp| {";
       "    instance." +:+ fn +:+ "(ctx, req, resp)"; "});"]%list /\
    forall cm, cm ∈ client_methods (ps_name s) m -> cm_opt cm = true ->
      "    " +:+ text (generate_inner_body cm) ∈ write_client_method rust_fq_name g "".

Lemma definition_lines rust_fq_name g : exists types rest, write_definition rust_fq_name g "" =
  (["const " +:+ const_method_name g +:+ ": " +:+ types; "    ty: " +:+ snd (method_type g) +:+ ",";
    "    name: " +:+ fq_name g +:+ ","] ++ rest)%list.
Proof. unfold write_definition, block, all, seqc, field_entry, write_line, indented. cbn -[String.append]. by eexists _, _. Qed.

Lemma method_text name path m : exists types rest, text (generate_method name path m) =
  "const " +:+ prost_const_method_name name m +:+ ": " +:+ types +:+ " = ::grpcio::Method{ty: " +:+
  fq_grpc (MethodType_fmt (MethodType_from_method m)) +:+ ", name: " +:+ method_path path m +:+ rest.
Proof.
  exists (fq_grpc "Method" +:+ "<" +:+ pm_input_type m +:+ ", " +:+ pm_output_type m +:+ ">"),
    (let pr_mar := fq_grpc "Marshaller" +:+ " { ser: " +:+ fq_grpc "pr_ser" +:+ ", de: " +:+ fq_grpc "pr_de" +:+ " }" in
     ", " +:+ text (generate_field_init "req_mar" pr_mar) +:+ text (generate_field_init "resp_mar" pr_mar) +:+ "};" +:+ newline).
  unfold generate_method, generate_method_body. rewrite !text_bind by (unfold generate_field_init; appending).
  unfold generate_field_init. rewrite !text_all. cbn [sconcat foldr]. rewrite !sapp_nil, <-!sapp_assoc. reflexivity.
Qed.


(** Splitting at a character loses nothing. *)
Theorem split_join (c : Ascii.ascii) (s : string) :
  String.concat (String c "") (split c s) = s /\ split c s <> [].
Proof.
  induction s as [|a s [IH Hne]]; [done|]. simpl. case_bool_decide as E.
  - subst a. split; [|done]. destruct (split c s) as [|w ws]; [done|]. simpl in *. by rewrite IH.
  - destruct (split c s) as [|w ws]; [done|]. split; [|done]. rewrite <-IH. by destruct ws.
Qed.

(** ** Concrete runs *)

Definition demo_prost : Service :=
  mkService "Greeter" "Greeter" "pkg"
    [mkMethod "say_hello" "SayHello" "A" "B" false false; mkMethod "chat" "Chat" "A" "B" true true].

Lemma prost_service_text_witness :
  exists t, Generator_generate demo_prost "" = Done (tt, t).
Proof.
  eexists. apply (prost_service_text demo_prost ""). discriminate.
Defined.


Example demo_main_args :
  foldl parse_arg (mkArgs [] [] "") ["--protos=a.proto,b.proto"; "--out-dir=x"; "--other"; "--includes=i"] =
  mkArgs ["a.proto"; "b.proto"] ["i"] "x".
Proof. reflexivity. Qed.
