(* ===== verification/Generated.v ===== *)
(** Generated services on a server: the text that compiler/src/codegen.rs writes for a service is
    read again, its [create_*] function is run with the [ServiceBuilder] of src/src/server.rs, and
    requests are dispatched to what it registered.

    The reader knows the few forms of Rust that the generator emits: constants with the name of
    a method, and statements that call a function of the builder.  It is no code of the
    repository; it gives the text that the generator writes the meaning it has for rustc. *)

From S2P Require Import Prelude Status Cq Buf Utf8 Metadata Task Call CallSpec ServerCall Server.
From S2P Require Import ServerSpec Names Codegen ProstCodegen.

Local Open Scope rust_scope.

(** ** Reading lines *)

(** The text before and after the first [c]. *)
Fixpoint until (c : Ascii.ascii) (s : string) : option (string * string) :=
  match s with
  | "" => None
  | String a s =>
      if bool_decide (a = c) then Some ("", s)
      else (fun r => (String a r.1, r.2)) <$> until c s
  end.

Definition c_colon : Ascii.ascii := Ascii.ascii_of_nat 58.
Definition c_paren : Ascii.ascii := Ascii.ascii_of_nat 40.
Definition c_comma : Ascii.ascii := Ascii.ascii_of_nat 44.
Definition c_quote : Ascii.ascii := Ascii.ascii_of_nat 34.

(** [const NAME: ...], and [name: "PATH",] in the body of a constant. *)
Definition parse_const (line : string) : option string :=
  r ← strip_prefix "const " line; fst <$> until c_colon r.

Definition parse_name (line : string) : option string :=
  r ← strip_prefix ("    name: " +:+ quote) line; fst <$> until c_quote r.

(** [builder = builder.ADD(&CONST, ...], and [instance.FN(...)] in the closure. *)
Definition parse_bind (line : string) : option (string * string) :=
  r ← strip_prefix "    builder = builder." line;
  a ← until c_paren r;
  r ← strip_prefix "&" a.2;
  c ← until c_comma r;
  Some (a.1, c.1).

Definition parse_call (line : string) : option string :=
  r ← strip_prefix "        instance." line; fst <$> until c_paren r.

(** The constants of a module and the names of the methods in them. *)
Fixpoint first_name (lines : list string) : option string :=
  match lines with
  | [] => None
  | l :: lines => match parse_name l with Some n => Some n | None => first_name lines end
  end.

Fixpoint constants (lines : list string) : list (string * string) :=
  match lines with
  | [] => []
  | l :: lines =>
      match parse_const l, first_name lines with
      | Some c, Some n => (c, n) :: constants lines
      | _, _ => constants lines
      end
  end.

Fixpoint assoc (k : string) (l : list (string * string)) : option string :=
  match l with
  | [] => None
  | (k', v) :: l => if bool_decide (k = k') then Some v else assoc k l
  end.

(** The runtime's kind of a method. *)
Definition runtime_kind (t : Codegen.MethodType) : Status.MethodType :=
  match t with
  | MUnary => Unary
  | MClientStreaming => ClientStreaming
  | MServerStreaming => ServerStreaming
  | MDuplex => Duplex
  end.

(** The string the constant of a method has as its name: [fq_name] without the quotes. *)
Definition path (g : MethodGen) : string := service_path g +:+ "/" +:+ m_name (proto g).

(** ** Running the [create_*] function *)

Section generated.
Context `{SC : SliceCore}.
Context (start_answer : list CoreCall -> gmap nat (BatchType * nat * Start) ->
                        nat -> Start -> grpc_call_error).
Context (debug_error : Error -> string).
Let W := World SC.

(** A function of the service, with the type of its requests, which the types of the constant
    say, and how they are parsed. *)
Inductive Function :=
| FUnary (Req : Type) (de : MessageReader SC -> Result Error Req) (f : RpcContext -> Req -> UnarySink -> M W unit)
| FClientStreaming (f : RpcContext -> ShareCall -> StreamingBase -> UnarySink -> M W unit)
| FServerStreaming (Req : Type) (de : MessageReader SC -> Result Error Req)
    (f : RpcContext -> Req -> ShareCall -> StreamSink -> M W unit)
| FDuplex (f : RpcContext -> ShareCall -> StreamingBase -> StreamSink -> M W unit).

Definition function_kind (f : Function) : Codegen.MethodType :=
  match f with
  | FUnary _ _ _ => MUnary
  | FClientStreaming _ => MClientStreaming
  | FServerStreaming _ _ _ => MServerStreaming
  | FDuplex _ => MDuplex
  end.

(** [builder.ADD(&CONST, f)]: a function that the builder does not have, or that takes another
    kind of handler, does not compile. *)
Definition call_builder (add : string) (builder : Registry) (method_name : string) (f : Function) : option Registry :=
  match f with
  | FUnary Req de f =>
      if bool_decide (add = "add_unary_handler")
      then Some (add_unary_handler start_answer debug_error de builder method_name f) else None
  | FClientStreaming f =>
      if bool_decide (add = "add_client_streaming_handler")
      then Some (add_client_streaming_handler start_answer builder method_name f) else None
  | FServerStreaming Req de f =>
      if bool_decide (add = "add_server_streaming_handler")
      then Some (add_server_streaming_handler start_answer debug_error de builder method_name f) else None
  | FDuplex f =>
      if bool_decide (add = "add_duplex_streaming_handler")
      then Some (add_duplex_streaming_handler start_answer builder method_name f) else None
  end.

(** The statements of the module that call the builder, in order; each closure takes two
    lines. *)
Fixpoint run_lines (consts : list (string * string)) (impl : string -> option Function)
    (lines : list string) (builder : Registry) : option Registry :=
  match lines with
  | [] => Some builder
  | l :: lines =>
      match parse_bind l with
      | None => run_lines consts impl lines builder
      | Some (add, c) =>
          match lines with
          | [] => None
          | b :: lines =>
              fn ← parse_call b;
              f ← impl fn;
              n ← assoc c consts;
              builder ← call_builder add builder n f;
              run_lines consts impl lines builder
          end
      end
  end.

(** The service that the generated module creates, [impl] being the functions of the type that
    implements its trait, by name. *)
Definition run_module (impl : string -> option Function) (lines : list string) : option Registry :=
  ServiceBuilder_build <$> run_lines (constants lines) impl lines ServiceBuilder_new.

(** The handler that the builder makes of a function. *)
Definition boxed (f : Function) : BoxHandler SC :=
  match f with
  | FUnary Req de f =>
      mkHandler Unary (fun ctx payload =>
        let* payload := unwrap payload "called `Option::unwrap()` on a `None` value" in
        execute_unary start_answer debug_error de ctx payload f)
  | FClientStreaming f => mkHandler ClientStreaming (fun ctx _ => execute_client_streaming start_answer ctx f)
  | FServerStreaming Req de f =>
      mkHandler ServerStreaming (fun ctx payload =>
        let* payload := unwrap payload "called `Option::unwrap()` on a `None` value" in
        execute_server_streaming start_answer debug_error de ctx payload f)
  | FDuplex f => mkHandler Duplex (fun ctx _ => execute_duplex_streaming start_answer ctx f)
  end.

Lemma call_builder_spec builder n f :
  call_builder (add_handler_name (function_kind f)) builder n f = Some (add_handler builder n (boxed f)).
Proof. by destruct f. Qed.
End generated.

(** ** Identifiers *)

(** Letters, digits and underscores, of which protoc lets names consist. *)
Definition ident_byte (c : byte) : bool :=
  is_upper c || is_lower c || is_us c || (N.leb 48 (Byte.to_N c) && N.leb (Byte.to_N c) 57).

Definition identifier (s : string) : Prop := Forall (fun c => ident_byte c = true) (as_bytes s).

(** [c] is not in [s]. *)
Definition lacks (c : Ascii.ascii) (s : string) : Prop := Ascii.byte_of_ascii c ∉ as_bytes s.

Lemma as_bytes_cons a s : as_bytes (String a s) = Ascii.byte_of_ascii a :: as_bytes s.
Proof. done. Qed.

Lemma until_first c a b : lacks c a -> until c (a +:+ String c b) = Some (a, b).
Proof.
  unfold lacks. induction a as [|x a IH]; intros Hn.
  - change ("" +:+ String c b) with (String c b). cbn. by rewrite bool_decide_eq_true_2.
  - change (String x a +:+ String c b) with (String x (a +:+ String c b)). cbn. rewrite as_bytes_cons in Hn.
    apply not_elem_of_cons in Hn as [Hx Hn]. rewrite bool_decide_eq_false_2 by congruence. by rewrite IH.
Qed.

Lemma as_bytes_app a b : as_bytes (a +:+ b) = as_bytes a ++ as_bytes b.
Proof. induction a as [|x a IH]; [done|]. change (String x a +:+ b) with (String x (a +:+ b)). by rewrite !as_bytes_cons, IH. Qed.

Lemma lacks_app c a b : lacks c a -> lacks c b -> lacks c (a +:+ b).
Proof. unfold lacks. rewrite as_bytes_app. set_solver. Qed.

Lemma identifier_app a b : identifier a -> identifier b -> identifier (a +:+ b).
Proof. unfold identifier. rewrite as_bytes_app. by intros; apply Forall_app. Qed.

Lemma identifier_lacks c s : identifier s -> ident_byte (Ascii.byte_of_ascii c) = false -> lacks c s.
Proof. intros Hs Hc Hin. unfold identifier in Hs. rewrite Forall_forall in Hs. specialize (Hs _ Hin). congruence. Qed.

Lemma ident_upper c : ident_byte c = true -> ident_byte (upper c) = true.
Proof. by destruct c. Qed.

Lemma ident_lower c : ident_byte c = true -> ident_byte (lower c) = true.
Proof. by destruct c. Qed.

Lemma words_loop_bytes fuel self w c : w ∈ words_loop fuel self -> c ∈ w -> c ∈ name self.
Proof.
  revert self. induction fuel as [|fuel IH]; intros self; cbn; [set_solver|].
  destruct (NameSpliter_next self) as [[v|] self'] eqn:E; [|set_solver].
  unfold NameSpliter_next in E. case_bool_decide; [done|]. injection E as <- <-.
  intros [->|Hw]%elem_of_cons Hc; [|by apply (IH _ Hw Hc)].
  apply elem_of_take in Hc as (i & Hi & _). rewrite lookup_drop in Hi. by eapply list_elem_of_lookup_2.
Qed.

Lemma words_bytes s w c : w ∈ words s -> c ∈ w -> c ∈ s.
Proof. apply (words_loop_bytes _ (NameSpliter_new s)). Qed.

Lemma elem_of_removelast {A} (l : list A) x : x ∈ removelast l -> x ∈ l.
Proof.
  induction l as [|a l IH]; [done|]. destruct l as [|b l]; [cbn; set_solver|].
  change (removelast (a :: b :: l)) with (a :: removelast (b :: l)). set_solver.
Qed.

Lemma string_of_bytes l : as_bytes (String.string_of_list_byte l) = l.
Proof. apply String.list_byte_of_string_of_list_byte. Qed.

Lemma identifier_snake s : identifier s -> identifier (snake s).
Proof.
  unfold identifier, snake. rewrite string_of_bytes, !Forall_forall. intros Hs c Hc.
  apply elem_of_removelast, list_elem_of_join in Hc as (l & Hc & (w & -> & Hw)%list_elem_of_fmap).
  apply elem_of_app in Hc as [(c' & -> & Hc)%list_elem_of_fmap|Hc].
  - by apply ident_lower, Hs, (words_bytes _ w).
  - by apply list_elem_of_singleton in Hc as ->.
Qed.

Lemma camel_loop_bytes ws acc t c : camel_loop ws acc = Done t -> c ∈ t ->
  c ∈ acc \/ exists w c', w ∈ ws /\ c' ∈ w /\ (c = upper c' \/ c = lower c').
Proof.
  revert acc. induction ws as [|[|a w] ws IH]; intros acc; cbn; [intros [= <-]; auto|done|].
  intros E Hc. destruct (IH _ E Hc) as [Hin|(w' & c' & ? & ? & ?)]; [|right; exists w', c'; by repeat split; [right| |]].
  apply elem_of_app in Hin as [?|Hin]; [by left|right]. apply elem_of_cons in Hin as [->|(c' & -> & ?)%list_elem_of_fmap].
  - exists (a :: w), a. repeat split; [by left..|by left].
  - exists (a :: w), c'. repeat split; [by left|by right|by right].
Qed.

Lemma identifier_camel s t : identifier s -> camel s = Done t -> identifier t.
Proof.
  unfold identifier, camel. destruct (to_camel_case (as_bytes s)) as [l|] eqn:E; [|done]. intros Hs [= <-].
  rewrite string_of_bytes. rewrite Forall_forall in *. intros c Hc.
  destruct (camel_loop_bytes _ _ _ _ E Hc) as [?|(w & c' & Hw & Hc' & He)]; [set_solver|].
  assert (ident_byte c' = true) by (by apply Hs, (words_bytes _ w)).
  destruct He as [-> | ->]; [by apply ident_upper|by apply ident_lower].
Qed.

Lemma identifier_upper s : identifier s -> identifier (to_uppercase s).
Proof.
  unfold identifier, to_uppercase. rewrite string_of_bytes, !Forall_forall.
  intros Hs c (c' & -> & Hc)%list_elem_of_fmap. by apply ident_upper, Hs.
Qed.

Lemma identifier_const g : identifier (service_name g) -> identifier (m_name (proto g)) -> identifier (const_method_name g).
Proof.
  intros Hs Hm. unfold const_method_name, MethodGen_service_name, MethodGen_name.
  repeat apply identifier_app; auto using identifier_upper, identifier_snake; by repeat constructor.
Qed.

(** ** Lines that say nothing *)

(** A line that is neither a constant nor a call of the builder. *)
Definition quiet (line : string) : Prop := parse_bind line = None /\ parse_const line = None.

Definition quiet_code (c : Code) (indent : string) : Prop := Forall quiet (c indent).

Lemma quiet_line line indent : quiet (indent +:+ line) -> quiet_code (write_line line) indent.
Proof. intros H. unfold quiet_code, write_line. case_bool_decide; repeat constructor; by try apply H. Qed.

Lemma quiet_seqc c1 c2 indent : quiet_code c1 indent -> quiet_code c2 indent -> quiet_code (seqc c1 c2) indent.
Proof. intros H1 H2. by apply Forall_app. Qed.

Lemma quiet_all cs indent : Forall (fun c => quiet_code c indent) cs -> quiet_code (all cs) indent.
Proof. induction 1; [by constructor|by apply quiet_seqc]. Qed.

Lemma quiet_block first_line last_line cb indent :
  quiet (indent +:+ first_line) -> quiet_code cb (indent +:+ "    ") -> quiet (indent +:+ last_line) ->
  quiet_code (block first_line last_line cb) indent.
Proof.
  intros H1 H2 H3. apply quiet_all. repeat apply Forall_cons_2; [by apply quiet_line|exact H2|by apply quiet_line|by constructor].
Qed.

Lemma quiet_map {A} (f : A -> Code) l indent : (forall x, quiet_code (f x) indent) -> quiet_code (all (f <$> l)) indent.
Proof. intros H. apply quiet_all, Forall_fmap, Forall_true. intros x. apply H. Qed.

(** Code whose lines are quiet by their first characters. *)
Ltac quietly :=
  repeat match goal with
  | |- Forall _ [] => apply Forall_nil_2
  | |- Forall _ (_ :: _) => apply Forall_cons_2
  | |- quiet_code (block _ _ _) _ => apply quiet_block
  | |- quiet_code (write_line _) _ => apply quiet_line
  | |- quiet_code (seqc _ _) _ => apply quiet_seqc
  | |- quiet_code (all (_ <$> _)) _ => apply quiet_map; intros ?
  | |- quiet_code (all _) _ => apply quiet_all
  | |- quiet _ => split; reflexivity
  end.

Lemma quiet_client_method rust_fq_name g : quiet_code (write_client_method rust_fq_name g) "    ".
Proof. unfold write_client_method. destruct (fst (method_type g)); unfold pub_fn, fn_block, expr_block; quietly. Qed.

Lemma quiet_client rust_fq_name sg : quiet_code (write_client rust_fq_name sg) "".
Proof.
  unfold write_client, pub_struct, impl_self_block, pub_fn, fn_block, expr_block, field_decl, field_entry.
  quietly; apply quiet_client_method.
Qed.

Lemma quiet_service_method rust_fq_name g : quiet_code (write_service_method rust_fq_name g) "    ".
Proof. unfold write_service_method. destruct (fst (method_type g)); unfold fn_block, expr_block; quietly. Qed.

Lemma quiet_trait rust_fq_name sg :
  quiet_code (pub_trait (sg_service_name sg) (all (write_service_method rust_fq_name <$> methods sg))) "".
Proof. unfold pub_trait, expr_block. quietly. apply quiet_service_method. Qed.

(** ** Reading the module *)

Lemma constants_quiet l1 l2 : Forall quiet l1 -> constants (l1 ++ l2) = constants l2.
Proof. induction 1 as [|l l1 [_ Hl] _ IH]; [done|]. cbn [app constants]. by rewrite Hl. Qed.

Lemma run_lines_quiet `{SC : SliceCore} a d consts impl l1 l2 (r : Registry) :
  Forall quiet l1 -> run_lines a d consts impl (l1 ++ l2) r = run_lines a d consts impl l2 r.
Proof. induction 1 as [|l l1 [Hl _] _ IH]; [done|]. cbn [app run_lines]. by rewrite Hl. Qed.

(** What the generator asks of the names of a method. *)
Definition readable (g : MethodGen) : Prop :=
  identifier (service_name g) /\ identifier (m_name (proto g)) /\ lacks c_quote (path g).

Lemma parse_const_line g types : readable g ->
  parse_const ("const " +:+ const_method_name g +:+ ": " +:+ types) = Some (const_method_name g).
Proof.
  intros (Hs & Hm & _). unfold parse_const. change (strip_prefix "const " ("const " +:+ ?x)) with (Some x). cbn [mbind option_bind].
  change (": " +:+ types) with (String c_colon (" " +:+ types)).
  rewrite until_first; [done|]. apply identifier_lacks; [by apply identifier_const|done].
Qed.

Lemma parse_name_line g : readable g -> parse_name ("    name: " +:+ fq_name g +:+ ",") = Some (path g).
Proof.
  intros (_ & _ & Hp). unfold parse_name, fq_name.
  change (strip_prefix ("    name: " +:+ quote) _) with (Some ((service_path g +:+ "/" +:+ m_name (proto g) +:+ quote) +:+ ",")).
  cbn [mbind option_bind]. replace ((service_path g +:+ "/" +:+ m_name (proto g) +:+ quote) +:+ ",") with (path g +:+ String c_quote ",").
  - by rewrite until_first.
  - unfold path. by rewrite <-!sapp_assoc.
Qed.

Lemma definition_read rust_fq_name g : readable g ->
  exists l rest, write_definition rust_fq_name g "" = l :: rest /\ parse_const l = Some (const_method_name g) /\
    parse_bind l = None /\ first_name rest = Some (path g) /\ Forall quiet rest.
Proof.
  intros Hg. destruct (definition_lines rust_fq_name g) as (types & rest & E).
  eexists _, _. split; [exact E|]. split; [by apply parse_const_line|]. split; [reflexivity|]. split.
  - cbn [first_name app]. change (parse_name ("    ty: " +:+ _)) with (@None string). by rewrite parse_name_line.
  - assert (rest = drop 3 (write_definition rust_fq_name g "")) as -> by (by rewrite E).
    repeat constructor.
Qed.

Definition const_entry (g : MethodGen) : string * string := (const_method_name g, path g).

Lemma definition_constants rust_fq_name g l : readable g ->
  constants (write_definition rust_fq_name g "" ++ l) = const_entry g :: constants l.
Proof.
  intros Hg. destruct (definition_read rust_fq_name g Hg) as (c & rest & -> & Hc & _ & Hn & Hq).
  cbn [app constants]. rewrite Hc. assert (first_name (rest ++ l) = Some (path g)) as ->.
  { revert Hn. clear. induction rest as [|x rest IH]; cbn [first_name app]; [done|]. by destruct (parse_name x). }
  by rewrite constants_quiet.
Qed.

Lemma definition_silent rust_fq_name g l consts `{SC : SliceCore} a d impl (r : Registry) : readable g ->
  run_lines a d consts impl (write_definition rust_fq_name g "" ++ l) r = run_lines a d consts impl l r.
Proof.
  intros Hg. destruct (definition_read rust_fq_name g Hg) as (c & rest & -> & _ & Hb & _ & Hq).
  cbn [app run_lines]. rewrite Hb. by apply run_lines_quiet.
Qed.

(** The definitions of all methods, with or without empty lines between them. *)
Definition spaced (rust_fq_name : string -> string) (f : nat -> MethodGen -> Code) : Prop :=
  forall i g, exists b : bool, f i g = seqc (if b then write_line "" else nothing) (write_definition rust_fq_name g).

Lemma definitions_read rust_fq_name f ms l : spaced rust_fq_name f -> Forall readable ms ->
  constants (all (imap f ms) "" ++ l) = (const_entry <$> ms) ++ constants l /\
  forall (SC : SliceCore) a d consts impl (r : Registry (SC:=SC)),
    run_lines a d consts impl (all (imap f ms) "" ++ l) r = run_lines a d consts impl l r.
Proof.
  intros Hf Hms. revert f Hf. induction Hms as [|g ms Hg _ IH]; intros f Hf; [done|].
  rewrite imap_cons. cbn [all]. unfold seqc. destruct (Hf 0 g) as [b ->]. unfold seqc.
  destruct (IH (f ∘ S)) as [IH1 IH2]; [by intros i; apply (Hf (S i))|].
  assert (Forall quiet ((if b then write_line "" else nothing) "")) as Hb by (destruct b; repeat constructor).
  rewrite <-!app_assoc. split.
  - rewrite constants_quiet, definition_constants by done. by rewrite IH1.
  - intros SC a d consts impl r. rewrite run_lines_quiet, definition_silent by done. apply IH2.
Qed.

Lemma assoc_in (l l' : list (string * string)) k v : NoDup l.*1 -> (k, v) ∈ l -> assoc k (l ++ l') = Some v.
Proof.
  induction l as [|[k' v'] l IH]; [by intros _ ?%elem_of_nil|]. cbn. intros [Hn Hd]%NoDup_cons [[= -> ->]|Hin]%elem_of_cons.
  - by rewrite bool_decide_eq_true_2.
  - rewrite bool_decide_eq_false_2; [by apply IH|]. intros ->. apply Hn, list_elem_of_fmap. by exists (k', v).
Qed.

Section statements.
Context `{SC : SliceCore} (start_answer : list CoreCall -> gmap nat (BatchType * nat * Start) ->
                             nat -> Start -> grpc_call_error) (debug_error : Error -> string).
Context (consts : list (string * string)) (impl : string -> option (Function (SC:=SC))).
Abbreviation run := (run_lines start_answer debug_error consts impl).
Abbreviation box := (boxed start_answer debug_error).

(** The statement of a method registers its function. *)
Lemma bind_runs total i g f l (r : Registry) : readable g -> impl (MethodGen_name g) = Some f ->
  function_kind f = fst (method_type g) -> assoc (const_method_name g) consts = Some (path g) ->
  run (bind_lines total i g ++ l) r = run l (add_handler r (path g) (box f)).
Proof.
  intros (Hs & Hm & _) Hf Hk Hc. unfold bind_lines. cbn [app run_lines].
  assert (parse_bind ("    let mut instance = s" +:+ (if bool_decide (S i = total) then ";" else ".clone();")) = None) as -> by done.
  unfold write_bind, block, all, seqc, nothing. rewrite <-Hk.
  set (add := add_handler_name (function_kind f)).
  change (?a ++ [] ++ l) with (a ++ l).
  change (write_line ("builder = builder." +:+ ?x) "    ") with [("    builder = builder." +:+ x)].
  cbn [app run_lines].
  assert (parse_bind ("    builder = builder." +:+ add +:+ "(&" +:+ const_method_name g +:+ ", move |ctx, req, resp| {") =
    Some (add, const_method_name g)) as ->.
  { unfold parse_bind. change (strip_prefix ?p (?p +:+ ?x)) with (Some x). cbn [mbind option_bind].
    change ("(&" +:+ ?x) with (String c_paren ("&" +:+ x)). 
    rewrite until_first by (apply identifier_lacks; [subst add; by destruct f; repeat constructor|done]).
    cbn [mbind option_bind snd]. change (strip_prefix "&" ("&" +:+ ?x)) with (Some x). cbn [mbind option_bind].
    change (", move" +:+ ?x) with (String c_comma (" move" +:+ x)). rewrite until_first; [done|].
    apply identifier_lacks; [by apply identifier_const|done]. }
  assert (parse_call ("        instance." +:+ MethodGen_name g +:+ "(ctx, req, resp)") = Some (MethodGen_name g)) as Hcall.
  { unfold parse_call. change (strip_prefix ?p (?p +:+ ?x)) with (Some x). cbn [mbind option_bind].
    change "(ctx, req, resp)" with (String c_paren "ctx, req, resp)"). rewrite until_first; [done|].
    apply identifier_lacks; [by apply identifier_snake|done]. }
  change (indented (write_line ("instance." +:+ ?x)) "    ") with [("        instance." +:+ x)].
  cbn [app]. rewrite Hcall. cbn [mbind option_bind]. rewrite Hf. cbn [mbind option_bind]. rewrite Hc. cbn [mbind option_bind].
  subst add. rewrite (call_builder_spec start_answer debug_error r (path g) f). cbn [mbind option_bind].
  by apply (run_lines_quiet _ _ _ _ ["    });"]); repeat constructor.
Qed.

(** What the implementation has for a method. *)
Definition implements (g : MethodGen) : Prop :=
  exists f, impl (MethodGen_name g) = Some f /\ function_kind f = fst (method_type g).

Definition register_method (r : Registry) (g : MethodGen) : Registry :=
  match impl (MethodGen_name g) with Some f => add_handler r (path g) (box f) | None => r end.

Lemma binds_run (F : nat -> MethodGen -> list string) ms l r :
  (forall i g, exists total j, F i g = bind_lines total j g) ->
  Forall (fun g => readable g /\ implements g /\ assoc (const_method_name g) consts = Some (path g)) ms ->
  run (mjoin (imap F ms) ++ l) r = run l (foldl register_method r ms).
Proof.
  intros HF Hms. revert F HF r. induction Hms as [|g ms (Hg & (f & Hf & Hk) & Hc) _ IH]; intros F HF r; [done|].
  rewrite imap_cons. change (mjoin (?x :: ?y)) with (x ++ mjoin y). rewrite <-app_assoc.
  destruct (HF 0 g) as (total & j & ->). rewrite (bind_runs total j g f) by done.
  rewrite IH by (intros i; apply (HF (S i))). cbn [foldl]. unfold register_method at 3. by rewrite Hf.
Qed.

Lemma registered_lookup r ms p h : foldl register_method r ms !! p = Some h ->
  r !! p = Some h \/ exists g f, g ∈ ms /\ impl (MethodGen_name g) = Some f /\ p = as_bytes (path g) /\ h = box f.
Proof.
  revert r. induction ms as [|g ms IH]; intros r; cbn [foldl]; [auto|]. intros H. apply IH in H as [H|(g' & f & ? & ? & ?)].
  - unfold register_method in H. destruct (impl (MethodGen_name g)) as [f|] eqn:Hf; [|by left].
    apply (lookup_insert_Some (M:=gmap (list byte)) r) in H as [[<- <-]|[_ H]]; [|by left].
    right. exists g, f. split; [by left|done].
  - right. exists g', f. split; [by right|done].
Qed.

Lemma registered_keeps r ms p : is_Some (r !! p) -> is_Some (foldl register_method r ms !! p).
Proof.
  revert r. induction ms as [|g ms IH]; intros r H; [done|]. apply IH. unfold register_method.
  destruct (impl (MethodGen_name g)); [|done]. apply (lookup_insert_is_Some' (M:=gmap (list byte)) r). by right.
Qed.

Lemma registered_in r ms g : g ∈ ms -> implements g -> is_Some (foldl register_method r ms !! as_bytes (path g)).
Proof.
  revert r. induction ms as [|g' ms IH]; intros r Hin Hg; [by apply elem_of_nil in Hin|].
  apply elem_of_cons in Hin as [->|Hin]; [|by apply IH]. cbn [foldl]. apply registered_keeps.
  destruct Hg as (f & Hf & _). unfold register_method. rewrite Hf. by exists (box f); apply (lookup_insert_eq (M:=gmap (list byte)) r).
Qed.
End statements.

(** The lines of the server part: the trait and the [create_*] function. *)
Lemma server_lines rust_fq_name sg ms last_method : methods sg = ms ++ [last_method] ->
  exists sig, server_code rust_fq_name sg last_method "" =
    pub_trait (sg_service_name sg) (all (write_service_method rust_fq_name <$> methods sg)) "" ++
    [""; "pub fn create_" +:+ sig; "    let mut builder = ::grpcio::ServiceBuilder::new();"] ++
    mjoin (imap (bind_lines (length (methods sg))) (methods sg)) ++ ["    builder.build()"; "}"].
Proof.
  intros Hms. unfold server_code. set (T := pub_trait _ _). clearbody T. rewrite Hms, <-bind_all_lines.
  rewrite length_app. cbn [length]. rewrite Nat.add_sub, take_app_length. eexists.
  unfold pub_fn, fn_block, expr_block, block. cbn [all]. unfold seqc, nothing, indented. rewrite !app_nil_r, <-!app_assoc. reflexivity.
Qed.

(** What protoc guarantees for the names of a service: identifiers, and no quote in the package. *)
Definition names_ok (p : ServiceDescriptorProto) (file : FileDescriptorProto) : Prop :=
  identifier (s_name p) /\ Forall (fun m => identifier (m_name m)) (get_method p) /\ lacks c_quote (get_package file).

Lemma service_readable p file sg : names_ok p file -> ServiceGen_new p file = Done sg ->
  Forall readable (methods sg) /\ exists sp, Forall (fun g => service_path g = sp) (methods sg).
Proof.
  intros (Hs & Hm & Hp). unfold ServiceGen_new. destruct (camel (s_name p)) as [n|] eqn:E; [|done]. intros [= <-].
  assert (lacks c_quote "/" /\ lacks c_quote ".") as [Hl Hd] by (split; apply (bool_decide_eq_true_1 (_ ∉ _)); reflexivity).
  cbn [methods]. split.
  - apply Forall_fmap. eapply Forall_impl; [exact Hm|]. intros m Hi. cbn. split; [by eapply identifier_camel|]. split; [done|].
    unfold path. cbn [service_path proto]. assert (forall s, identifier s -> lacks c_quote s) as Hid by (intros; by apply identifier_lacks).
    case_bool_decide; repeat apply lacks_app; auto.
  - eexists (if bool_decide (get_package file = "") then _ else _). apply Forall_fmap, Forall_true. reflexivity.
Qed.

Section dispatch.
Context `{SC : SliceCore} (start_answer : list CoreCall -> gmap nat (BatchType * nat * Start) ->
                             nat -> Start -> grpc_call_error) (debug_error : Error -> string).
Context (impl : string -> option (Function (SC:=SC))).

(** The text of a service, read and run, registers every method. *)
Lemma module_runs rust_fq_name p file sg code :
  names_ok p file -> ServiceGen_new p file = Done sg -> ServiceGen_write rust_fq_name sg = Done code ->
  NoDup (const_method_name <$> methods sg) -> Forall (implements impl) (methods sg) ->
  run_module start_answer debug_error impl (code "") =
    Some (foldl (register_method start_answer debug_error impl) ServiceBuilder_new (methods sg)).
Proof.
  intros Hn Hsg Hcode Hd Hi. destruct (service_readable p file sg Hn Hsg) as [Hr _].
  unfold ServiceGen_write, write_server in Hcode. destruct (last (methods sg)) as [m|] eqn:El; [|done]. injection Hcode as <-.
  apply last_Some in El as [ms Hms]. destruct (server_lines rust_fq_name sg ms m Hms) as [sig Hserver].
  cbn [all]. unfold seqc, nothing. rewrite Hserver, app_nil_r. clear Hserver ms m Hms.
  unfold run_module, write_method_definitions.
  match goal with |- context [constants (_ ++ ?l)] => destruct (definitions_read rust_fq_name
    (fun i m => seqc (if bool_decide (i <> 0) then write_line "" else nothing) (write_definition rust_fq_name m))
    (methods sg) l) as [Hc Hrun] end; [intros i g; by eexists|done|].
  rewrite Hrun, Hc. clear Hrun Hc. set (consts := _ ++ constants _).
  do 5 (rewrite run_lines_quiet; [|by first [apply quiet_client|apply quiet_trait|repeat constructor]]).
  rewrite (binds_run start_answer debug_error consts impl (bind_lines (length (methods sg)))); [reflexivity|intros i g; by eexists _, _|].
  apply Forall_forall. intros g Hg. rewrite Forall_forall in Hr, Hi. split; [by apply Hr|]. split; [by apply Hi|].
  apply assoc_in; [|by apply list_elem_of_fmap; exists g]. by rewrite <-list_fmap_compose.
Qed.

(** The same path is the same function. *)
Lemma path_function g g' : service_path g = service_path g' -> path g = path g' -> MethodGen_name g = MethodGen_name g'.
Proof.
  assert (forall a b c : string, a +:+ b = a +:+ c -> b = c) as Hinj.
  { intros a b c. induction a as [|x a IH]; [done|]. change (String x (a +:+ b) = String x (a +:+ c) -> b = c). intros [= E]. by apply IH. }
  unfold path, MethodGen_name. intros -> E%Hinj%(Hinj "/"). by rewrite E.
Qed.

(** C32: a generated service answers the requests of its methods: the text that the generator
    writes for a service whose names are identifiers, no two methods having the same constant,
    is a module that, read and run with a type that implements its trait, registers its
    methods, so that for the path of a method, which is the name a generated client calls, the
    request is accepted as its kind asks (the message is read first, or the handler is run at
    once) and the handler runs the function of that method; a path of no method is
    unimplemented. *)
Theorem generated_service_dispatches (rust_fq_name : string -> string) (p : ServiceDescriptorProto)
    (file : FileDescriptorProto) sg code (ctx : RequestContext) (checkers : list ServerChecker) (s : SWorld SC) :
  names_ok p file -> ServiceGen_new p file = Done sg -> ServiceGen_write rust_fq_name sg = Done code ->
  NoDup (const_method_name <$> methods sg) -> Forall (implements impl) (methods sg) ->
  exists service, run_module start_answer debug_error impl (code "") = Some service /\
    let rc := mkRequestCallContext service checkers in
    (forall g f, g ∈ methods sg -> impl (MethodGen_name g) = Some f -> rq_method ctx = as_bytes (path g) ->
       get_handler rc (rq_method ctx) = Some (boxed start_answer debug_error f) /\
       handle_stream_req start_answer ctx rc s =
         match fst (method_type g) with
         | MUnary | MServerStreaming => Done (Err ctx, s)
         | MClientStreaming | MDuplex =>
             (do* lift (execute start_answer ctx None (boxed start_answer debug_error f) checkers) in ret (Ok tt)) s
         end) /\
    ((forall g, g ∈ methods sg -> rq_method ctx <> as_bytes (path g)) ->
     handle_stream_req start_answer ctx rc s =
       (do* lift (execute_unimplemented start_answer ctx) in ret (Ok tt)) s).
Proof.
  intros Hn Hsg Hcode Hd Hi. eexists. split; [by eapply module_runs|].
  destruct (service_readable p file sg Hn Hsg) as [_ [sp Hsp]]. rewrite Forall_forall in Hsp, Hi.
  set (reg := foldl _ _ _). intros rc. split.
  - intros g f Hg Hf Hp. destruct (registered_in start_answer debug_error impl ServiceBuilder_new (methods sg) g Hg (Hi g Hg)) as [h Hh].
    assert (h = boxed start_answer debug_error f) as ->.
    { destruct (registered_lookup _ _ _ _ _ _ _ Hh) as [H|(g' & f' & Hg' & Hf' & E & ->)]; [done|].
      apply as_bytes_inj in E. rewrite (path_function g g') in Hf by (done || by rewrite !Hsp). congruence. }
    assert (get_handler rc (rq_method ctx) = Some (boxed start_answer debug_error f)) as Hget by (by rewrite Hp).
    split; [done|]. unfold handle_stream_req. rewrite Hget. destruct (Hi g Hg) as (f' & Hf' & Hk).
    assert (f' = f) as -> by congruence. rewrite <-Hk. by destruct f.
  - intros Hno. unfold handle_stream_req. destruct (get_handler rc (rq_method ctx)) as [h|] eqn:E; [|done]. exfalso.
    destruct (registered_lookup start_answer debug_error impl _ _ _ _ E) as [H|(g & f & Hg & _ & Hp & _)]; [done|].
    by apply (Hno g).
Qed.
End dispatch.

(** ** Witnesses *)

(** The two functions of the demo service. *)
Definition demo_impl (name : string) : option (Function (SC:=list_core)) :=
  if bool_decide (name = "say_hello") then Some (FUnary unit (fun _ => Ok tt) (fun _ _ _ => ret tt))
  else if bool_decide (name = "chat") then Some (FDuplex (fun _ _ _ _ => ret tt))
  else None.

Definition demo_file : FileDescriptorProto := mkFileProto "f.proto" "pkg" [demo_service].

Definition demo_sg : ServiceGen :=
  match ServiceGen_new demo_service demo_file with Done sg => sg | Panicked _ => mkServiceGen "" [] end.

Definition hello_ctx : RequestContext :=
  mkRequestContext 7 (as_bytes "/pkg.Greeter/SayHello") [] MetadataBuilder_new.

Definition demo_lines : list string :=
  match ServiceGen_write id demo_sg with Done code => code "" | Panicked _ => [] end.

Example demo_constants :
  constants demo_lines = [("METHOD_GREETER_SAY_HELLO", "/pkg.Greeter/SayHello"); ("METHOD_GREETER_CHAT", "/pkg.Greeter/Chat")].
Proof. vm_compute. reflexivity. Qed.

Lemma generated_service_dispatches_witness :
  exists service, run_module any_answer (fun _ => "") demo_impl demo_lines = Some service /\
    handle_stream_req any_answer hello_ctx (mkRequestCallContext service []) demo_sworld = Done (Err hello_ctx, demo_sworld).
Proof.
  pose (g := mkMethodGen (mkMethodProto "SayHello" "A" "B" false false) "Greeter" "/pkg.Greeter").
  pose (hello := FUnary (SC:=list_core) unit (fun _ => Ok tt) (fun _ _ _ => ret tt)).
  destruct (ServiceGen_write id demo_sg) as [code|] eqn:Ec; [|discriminate Ec].
  assert (names_ok demo_service demo_file) as Hn
    by (split; [by repeat constructor|split; [by repeat constructor|apply (bool_decide_eq_true_1 (_ ∉ _)); reflexivity]]).
  assert (NoDup (const_method_name <$> methods demo_sg)) as Hd
    by (apply (bool_decide_eq_true_1 (NoDup _)); vm_compute; reflexivity).
  assert (Forall (implements demo_impl) (methods demo_sg)) as Hi
    by (apply Forall_cons_2; [by exists hello|apply Forall_cons_2; [by eexists|apply Forall_nil_2]]).
  destruct (generated_service_dispatches any_answer (fun _ => "") demo_impl id demo_service demo_file demo_sg code hello_ctx []
    demo_sworld Hn eq_refl Ec Hd Hi) as (service & Hrun & Hdispatch & _).
  exists service. split; [unfold demo_lines; rewrite Ec; exact Hrun|].
  exact (proj2 (Hdispatch g hello ltac:(left) eq_refl eq_refl)).
Defined.
