(* ===== verification/HealthGenerated.v ===== *)
(** The service code of the health protocol that is kept in the repository
    (health/src/proto/protobuf/health_grpc.rs and the services of
    health/src/proto/prost/grpc.health.v1.rs) is what the two generators write for the
    description of the protocol: the files were not edited and did not go stale. *)

From S2P Require Import Prelude Status Names Codegen ProstCodegen.

Local Open Scope rust_scope.
Local Open Scope string_scope.

(** The service [Health] of health.proto, for each generator. *)
Definition health_proto : FileDescriptorProto :=
  mkFileProto "grpc/health/v1/health.proto" "grpc.health.v1"
    [mkServiceProto "Health"
       [mkMethodProto "Check" ".grpc.health.v1.HealthCheckRequest" ".grpc.health.v1.HealthCheckResponse"
          false false;
        mkMethodProto "Watch" ".grpc.health.v1.HealthCheckRequest" ".grpc.health.v1.HealthCheckResponse"
          false true]].

Definition health_prost : Service :=
  mkService "Health" "Health" "grpc.health.v1"
    [mkMethod "check" "Check" "HealthCheckRequest" "HealthCheckResponse" false false;
     mkMethod "watch" "Watch" "HealthCheckRequest" "HealthCheckResponse" false true].

(** How the protobuf crate names the messages and the module of this file. *)
Definition health_fq_name (t : string) : string :=
  if bool_decide (t = ".grpc.health.v1.HealthCheckRequest") then "health::HealthCheckRequest"
  else "health::HealthCheckResponse".

Definition health_mod (path : string) : string := "health".

(** The files. *)
Definition health_grpc_rs : list string :=
  ["// This file is generated. Do not edit";
   "// @generated";
   "";
   "// https://github.com/Manishearth/rust-clippy/issues/702";
   "#![allow(unknown_lints)]";
   "#![allow(clippy::all)]";
   "";
   "#![allow(box_pointers)]";
   "#![allow(dead_code)]";
   "#![allow(missing_docs)]";
   "#![allow(non_camel_case_types)]";
   "#![allow(non_snake_case)]";
   "#![allow(non_upper_case_globals)]";
   "#![allow(trivial_casts)]";
   "#![allow(unsafe_code)]";
   "#![allow(unused_imports)]";
   "#![allow(unused_results)]";
   "";
   "const METHOD_HEALTH_CHECK: ::grpcio::Method<super::health::HealthCheckRequest, super::health::HealthCheckResponse> = ::grpcio::Method {";
   "    ty: ::grpcio::MethodType::Unary,";
   "    name: " +:+ quote +:+ "/grpc.health.v1.Health/Check" +:+ quote +:+ ",";
   "    req_mar: ::grpcio::Marshaller { ser: ::grpcio::pb_ser, de: ::grpcio::pb_de },";
   "    resp_mar: ::grpcio::Marshaller { ser: ::grpcio::pb_ser, de: ::grpcio::pb_de },";
   "};";
   "";
   "const METHOD_HEALTH_WATCH: ::grpcio::Method<super::health::HealthCheckRequest, super::health::HealthCheckResponse> = ::grpcio::Method {";
   "    ty: ::grpcio::MethodType::ServerStreaming,";
   "    name: " +:+ quote +:+ "/grpc.health.v1.Health/Watch" +:+ quote +:+ ",";
   "    req_mar: ::grpcio::Marshaller { ser: ::grpcio::pb_ser, de: ::grpcio::pb_de },";
   "    resp_mar: ::grpcio::Marshaller { ser: ::grpcio::pb_ser, de: ::grpcio::pb_de },";
   "};";
   "";
   "#[derive(Clone)]";
   "pub struct HealthClient {";
   "    client: ::grpcio::Client,";
   "}";
   "";
   "impl HealthClient {";
   "    pub fn new(channel: ::grpcio::Channel) -> Self {";
   "        HealthClient {";
   "            client: ::grpcio::Client::new(channel),";
   "        }";
   "    }";
   "";
   "    pub fn check_opt(&self, req: &super::health::HealthCheckRequest, opt: ::grpcio::CallOption) -> ::grpcio::Result<super::health::HealthCheckResponse> {";
   "        self.client.unary_call(&METHOD_HEALTH_CHECK, req, opt)";
   "    }";
   "";
   "    pub fn check(&self, req: &super::health::HealthCheckRequest) -> ::grpcio::Result<super::health::HealthCheckResponse> {";
   "        self.check_opt(req, ::grpcio::CallOption::default())";
   "    }";
   "";
   "    pub fn check_async_opt(&self, req: &super::health::HealthCheckRequest, opt: ::grpcio::CallOption) -> ::grpcio::Result<::grpcio::ClientUnaryReceiver<super::health::HealthCheckResponse>> {";
   "        self.client.unary_call_async(&METHOD_HEALTH_CHECK, req, opt)";
   "    }";
   "";
   "    pub fn check_async(&self, req: &super::health::HealthCheckRequest) -> ::grpcio::Result<::grpcio::ClientUnaryReceiver<super::health::HealthCheckResponse>> {";
   "        self.check_async_opt(req, ::grpcio::CallOption::default())";
   "    }";
   "";
   "    pub fn watch_opt(&self, req: &super::health::HealthCheckRequest, opt: ::grpcio::CallOption) -> ::grpcio::Result<::grpcio::ClientSStreamReceiver<super::health::HealthCheckResponse>> {";
   "        self.client.server_streaming(&METHOD_HEALTH_WATCH, req, opt)";
   "    }";
   "";
   "    pub fn watch(&self, req: &super::health::HealthCheckRequest) -> ::grpcio::Result<::grpcio::ClientSStreamReceiver<super::health::HealthCheckResponse>> {";
   "        self.watch_opt(req, ::grpcio::CallOption::default())";
   "    }";
   "    pub fn spawn<F>(&self, f: F) where F: ::futures::Future<Output = ()> + Send + 'static {";
   "        self.client.spawn(f)";
   "    }";
   "}";
   "";
   "pub trait Health {";
   "    fn check(&mut self, ctx: ::grpcio::RpcContext, _req: super::health::HealthCheckRequest, sink: ::grpcio::UnarySink<super::health::HealthCheckResponse>) {";
   "        grpcio::unimplemented_call!(ctx, sink)";
   "    }";
   "    fn watch(&mut self, ctx: ::grpcio::RpcContext, _req: super::health::HealthCheckRequest, sink: ::grpcio::ServerStreamingSink<super::health::HealthCheckResponse>) {";
   "        grpcio::unimplemented_call!(ctx, sink)";
   "    }";
   "}";
   "";
   "pub fn create_health<S: Health + Send + Clone + 'static>(s: S) -> ::grpcio::Service {";
   "    let mut builder = ::grpcio::ServiceBuilder::new();";
   "    let mut instance = s.clone();";
   "    builder = builder.add_unary_handler(&METHOD_HEALTH_CHECK, move |ctx, req, resp| {";
   "        instance.check(ctx, req, resp)";
   "    });";
   "    let mut instance = s;";
   "    builder = builder.add_server_streaming_handler(&METHOD_HEALTH_WATCH, move |ctx, req, resp| {";
   "        instance.watch(ctx, req, resp)";
   "    });";
   "    builder.build()";
   "}"].

Definition grpc_health_v1_rs : list string :=
  ["const METHOD_HEALTH_CHECK: ::grpcio::Method<HealthCheckRequest, HealthCheckResponse> = ::grpcio::Method{ty: ::grpcio::MethodType::Unary, name: " +:+ quote +:+ "/grpc.health.v1.Health/Check" +:+ quote +:+ ", req_mar: ::grpcio::Marshaller { ser: ::grpcio::pr_ser, de: ::grpcio::pr_de }, resp_mar: ::grpcio::Marshaller { ser: ::grpcio::pr_ser, de: ::grpcio::pr_de }, };";
   "const METHOD_HEALTH_WATCH: ::grpcio::Method<HealthCheckRequest, HealthCheckResponse> = ::grpcio::Method{ty: ::grpcio::MethodType::ServerStreaming, name: " +:+ quote +:+ "/grpc.health.v1.Health/Watch" +:+ quote +:+ ", req_mar: ::grpcio::Marshaller { ser: ::grpcio::pr_ser, de: ::grpcio::pr_de }, resp_mar: ::grpcio::Marshaller { ser: ::grpcio::pr_ser, de: ::grpcio::pr_de }, };";
   "#[derive(Clone)]";
   "pub struct HealthClient { client: ::grpcio::Client }";
   "impl HealthClient {";
   "pub fn new(channel: ::grpcio::Channel) -> Self { HealthClient { client: ::grpcio::Client::new(channel) }}";
   "pub fn check_opt(&self, req: &HealthCheckRequest, opt: ::grpcio::CallOption) -> ::grpcio::Result<HealthCheckResponse,> { self.client.unary_call(&METHOD_HEALTH_CHECK, req, opt) }";
   "pub fn check(&self, req: &HealthCheckRequest) -> ::grpcio::Result<HealthCheckResponse,> { self.check_opt(req, ::grpcio::CallOption::default()) }";
   "pub fn check_async_opt(&self, req: &HealthCheckRequest, opt: ::grpcio::CallOption) -> ::grpcio::Result<::grpcio::ClientUnaryReceiver<HealthCheckResponse>,> { self.client.unary_call_async(&METHOD_HEALTH_CHECK, req, opt) }";
   "pub fn check_async(&self, req: &HealthCheckRequest) -> ::grpcio::Result<::grpcio::ClientUnaryReceiver<HealthCheckResponse>,> { self.check_async_opt(req, ::grpcio::CallOption::default()) }";
   "pub fn watch_opt(&self, req: &HealthCheckRequest, opt: ::grpcio::CallOption) -> ::grpcio::Result<::grpcio::ClientSStreamReceiver<HealthCheckResponse>,> { self.client.server_streaming(&METHOD_HEALTH_WATCH, req, opt) }";
   "pub fn watch(&self, req: &HealthCheckRequest) -> ::grpcio::Result<::grpcio::ClientSStreamReceiver<HealthCheckResponse>,> { self.watch_opt(req, ::grpcio::CallOption::default()) }";
   "pub fn spawn<F>(&self, f: F) where F: ::futures::Future<Output = ()> + Send + 'static {self.client.spawn(f)}";
   "}";
   "pub trait Health {";
   "fn check(&mut self, ctx: ::grpcio::RpcContext, _req: HealthCheckRequest, sink: ::grpcio::UnarySink<HealthCheckResponse>) { grpcio::unimplemented_call!(ctx, sink) }";
   "fn watch(&mut self, ctx: ::grpcio::RpcContext, _req: HealthCheckRequest, sink: ::grpcio::ServerStreamingSink<HealthCheckResponse>) { grpcio::unimplemented_call!(ctx, sink) }";
   "}";
   "pub fn create_health<S: Health + Send + Clone + 'static>(s: S) -> ::grpcio::Service {";
   "let mut builder = ::grpcio::ServiceBuilder::new();";
   "let mut instance = s.clone();";
   "builder = builder.add_unary_handler(&METHOD_HEALTH_CHECK, move |ctx, req, resp| instance.check(ctx, req, resp));";
   "let mut instance = s;";
   "builder = builder.add_server_streaming_handler(&METHOD_HEALTH_WATCH, move |ctx, req, resp| instance.watch(ctx, req, resp));";
   "builder.build()";
   "}"].

(** Run on the description of the health protocol, the protobuf generator writes the
    file health_grpc.rs as it is in the repository, line by line, and the prost generator
    writes the services of grpc.health.v1.rs. *)
Theorem health_code_is_generated :
  gen health_fq_name health_mod [health_proto] ["grpc/health/v1/health.proto"] =
    Done [mkGenResult "health_grpc.rs" health_grpc_rs] /\
  Generator_generate health_prost "" =
    Done (tt, foldr (fun line rest => line +:+ newline +:+ rest) "" grpc_health_v1_rs).
Proof. split; vm_compute; reflexivity. Qed.
